(** * The D3D12 pipeline cache of Xenia (src/xenia/gpu/d3d12/pipeline_cache.cc)

    A shallow embedding of [PipelineCache]: the shader map, the pipeline state
    table with its single-slot fast path, the creation thread pool and the
    two persistent storage streams, followed by the properties the
    specification states about them. *)

From Stdlib Require Import ZArith List Lia Bool String.
From Stdlib.Strings Require Import Byte.
From stdpp Require Import base option list gmap.
Import ListNotations.
Open Scope Z_scope.

(** ** Bytes and little-endian object representations *)

Definition byte_to_Z (b : byte) : Z := Z.of_N (Byte.to_N b).

Definition byte_of_Z (z : Z) : byte :=
  match Byte.of_N (Z.to_N (z mod 256)) with
  | Some b => b
  | None => x00
  end.

#[global] Instance byte_eq_decision : EqDecision byte := Byte.byte_eq_dec.

(** The value of a little-endian field, as [fread] into an integer leaves it
    on the (little-endian) host. *)
Fixpoint le_value (bs : list byte) : Z :=
  match bs with
  | [] => 0
  | b :: bs' => byte_to_Z b + 256 * le_value bs'
  end.

Fixpoint le_bytes (n : nat) (v : Z) : list byte :=
  match n with
  | O => []
  | S n' => byte_of_Z v :: le_bytes n' (v / 256)
  end.

(** [xe::byte_swap] on a 32-bit value. *)
Definition byte_swap32 (v : Z) : Z := le_value (rev (le_bytes 4 v)).

(** The bytes of a [uint32_t] array in host memory. *)
Definition dwords_bytes (dwords : list Z) : list byte :=
  flat_map (le_bytes 4) dwords.

Fixpoint bytes_dwords (n : nat) (bs : list byte) : list Z :=
  match n with
  | O => []
  | S n' => le_value (firstn 4 bs) :: bytes_dwords n' (skipn 4 bs)
  end.

(** ** XXH64 (third_party/xxhash)

    The hash is a collaborator of the cache: the development is parametric in
    it (see [Externals]).  The algorithm itself is given here so that the
    examples below run on the hash the program really links against. *)
Module XXHash.
Definition PRIME64_1 : Z := 11400714785074694791.
Definition PRIME64_2 : Z := 14029467366897019727.
Definition PRIME64_3 : Z := 1609587929392839161.
Definition PRIME64_4 : Z := 9650029242287828579.
Definition PRIME64_5 : Z := 2870177450012600261.

Definition u64 (z : Z) : Z := z mod 2 ^ 64.

Definition rotl64 (x r : Z) : Z :=
    u64 (Z.lor (Z.shiftl x r) (Z.shiftr x (64 - r))).

Definition round (acc input : Z) : Z :=
    u64 (rotl64 (u64 (acc + input * PRIME64_2)) 31 * PRIME64_1).

Definition mergeRound (acc val : Z) : Z :=
    u64 (Z.lxor acc (round 0 val) * PRIME64_1 + PRIME64_4).

Definition avalanche (h : Z) : Z :=
    let h := Z.lxor h (Z.shiftr h 33) in
    let h := u64 (h * PRIME64_2) in
    let h := Z.lxor h (Z.shiftr h 29) in
    let h := u64 (h * PRIME64_3) in
    Z.lxor h (Z.shiftr h 32).

Definition read (n : nat) (p : list byte) : Z := le_value (firstn n p).

Fixpoint stripes (n : nat) (p : list byte) (v : Z * Z * Z * Z)
    : list byte * (Z * Z * Z * Z) :=
    match n with
    | O => (p, v)
    | S n' =>
        let '(v1, v2, v3, v4) := v in
        stripes n' (skipn 32 p)
          (round v1 (read 8 p), round v2 (read 8 (skipn 8 p)),
           round v3 (read 8 (skipn 16 p)), round v4 (read 8 (skipn 24 p)))
    end.

Fixpoint tail8 (n : nat) (p : list byte) (h : Z) : list byte * Z :=
    match n with
    | O => (p, h)
    | S n' =>
        let h := Z.lxor h (round 0 (read 8 p)) in
        tail8 n' (skipn 8 p) (u64 (rotl64 h 27 * PRIME64_1 + PRIME64_4))
    end.

Fixpoint tail1 (p : list byte) (h : Z) : Z :=
    match p with
    | [] => h
    | b :: p' =>
        let h := Z.lxor h (u64 (byte_to_Z b * PRIME64_5)) in
        tail1 p' (u64 (rotl64 h 11 * PRIME64_1))
    end.

Definition XXH64 (input : list byte) (seed : Z) : Z :=
    let len := length input in
    let '(p, h) :=
      if 32 <=? Z.of_nat len then
        let '(p, (v1, v2, v3, v4)) :=
          stripes (Nat.div len 32) input
            (u64 (seed + PRIME64_1 + PRIME64_2), u64 (seed + PRIME64_2),
             u64 seed, u64 (seed - PRIME64_1)) in
        let h :=
          u64 (rotl64 v1 1 + rotl64 v2 7 + rotl64 v3 12 + rotl64 v4 18) in
        (p, mergeRound (mergeRound (mergeRound (mergeRound h v1) v2) v3) v4)
      else (input, u64 (seed + PRIME64_5)) in
    let h := u64 (h + Z.of_nat len) in
    let '(p, h) := tail8 (Nat.div (length p) 8) p h in
    let '(p, h) :=
      if 4 <=? Z.of_nat (length p) then
        let h := Z.lxor h (u64 (read 4 p * PRIME64_1)) in
        (skipn 4 p, u64 (rotl64 h 23 * PRIME64_2 + PRIME64_3))
      else (p, h) in
    avalanche (tail1 p h).
End XXHash.

(** ** Data model *)

(** Objects live on the heap and are named by their address. *)
Definition ptr := nat.

Inductive ShaderType := kVertex | kPixel.

(** [xenos::PrimitiveType]: the enumerators this file names, the others by
    their code. *)
Inductive PrimitiveType :=
| kNone | kPointList | kLineList | kLineStrip | kLineLoop | kQuadList
| k2DLineStrip | kRectangleList | kLinePatch | kTrianglePatch | kQuadPatch
| kOtherPrimitive (code : Z).

Inductive IndexFormat := kInt16 | kInt32.

Inductive TessellationMode := kDiscrete | kContinuous | kAdaptive.

(** What [DxbcShaderTranslator::Translate] leaves in the shader object, and
    its return value. *)
Record Translation := {
  tr_result : bool;
  tr_is_translated : bool;
  tr_is_valid : bool;
  tr_binary : list byte
}.

Record D3D12Shader := {
  shader_type : ShaderType;
  ucode_data_hash : Z;
  ucode_dwords : list Z;
  is_translated : bool;
  is_valid : bool;
  translated_binary : list byte
}.

(** The constructor: a shader object starts untranslated. *)
Definition new_D3D12Shader (t : ShaderType) (hash : Z) (dwords : list Z)
  : D3D12Shader :=
  {| shader_type := t; ucode_data_hash := hash; ucode_dwords := dwords;
     is_translated := false; is_valid := false; translated_binary := [] |}.

Definition set_translation (tr : Translation) (s : D3D12Shader) : D3D12Shader :=
  {| shader_type := shader_type s; ucode_data_hash := ucode_data_hash s;
     ucode_dwords := ucode_dwords s;
     is_translated := tr_is_translated tr; is_valid := tr_is_valid tr;
     translated_binary := tr_binary tr |}.

(** Modelled from the spec: the declaration of [PipelineDescription]
    (pipeline_cache.h) is not among the sources.  The record has the two
    shader hashes, the five enumerated fields that
    [GetCurrentStateDescription] fills before the rasterizer state, and the
    rasterizer, depth/stencil and render-target fields as the bytes they
    occupy.  Enumerated fields hold their code; [kNone] is code 0 for each of
    them, the others follow in declaration order. *)
Record PipelineDescription := {
  vertex_shader_hash : Z;
  pixel_shader_hash : Z;
  strip_cut_index : Z;
  tessellation_mode : Z;
  primitive_topology_type : Z;
  patch_type : Z;
  geometry_shader : Z;
  fixed_function_state : list byte
}.

Module PipelineStripCutIndex.
Definition kNone : Z := 0.
Definition kFFFF : Z := 1.
Definition kFFFFFFFF : Z := 2.
End PipelineStripCutIndex.

Module PipelineTessellationMode.
Definition kNone : Z := 0.
Definition kDiscrete : Z := 1.
Definition kContinuous : Z := 2.
Definition kAdaptive : Z := 3.
End PipelineTessellationMode.

Module PipelinePrimitiveTopologyType.
Definition kPoint : Z := 0.
Definition kLine : Z := 1.
Definition kTriangle : Z := 2.
Definition kPatch : Z := 3.
End PipelinePrimitiveTopologyType.

Module PipelinePatchType.
Definition kNone : Z := 0.
Definition kLine : Z := 1.
Definition kTriangle : Z := 2.
Definition kQuad : Z := 3.
End PipelinePatchType.

Module PipelineGeometryShader.
Definition kNone : Z := 0.
Definition kPointList : Z := 1.
Definition kRectangleList : Z := 2.
Definition kQuadList : Z := 3.
End PipelineGeometryShader.

(** The object representation of a description: what [memcmp], [XXH64] and
    [fwrite] see. *)
Definition PipelineDescription_bytes (d : PipelineDescription) : list byte :=
  le_bytes 8 (vertex_shader_hash d) ++ le_bytes 8 (pixel_shader_hash d) ++
  [byte_of_Z (strip_cut_index d); byte_of_Z (tessellation_mode d);
   byte_of_Z (primitive_topology_type d); byte_of_Z (patch_type d);
   byte_of_Z (geometry_shader d)] ++
  fixed_function_state d.

(** The description whose object representation is [bs]: what [fread] into
    a [PipelineDescription] gives. *)
Definition PipelineDescription_of_bytes (bs : list byte) : PipelineDescription :=
  {| vertex_shader_hash := le_value (firstn 8 bs);
     pixel_shader_hash := le_value (firstn 8 (skipn 8 bs));
     strip_cut_index := le_value (firstn 1 (skipn 16 bs));
     tessellation_mode := le_value (firstn 1 (skipn 17 bs));
     primitive_topology_type := le_value (firstn 1 (skipn 18 bs));
     patch_type := le_value (firstn 1 (skipn 19 bs));
     geometry_shader := le_value (firstn 1 (skipn 20 bs));
     fixed_function_state := skipn 21 bs |}.

(** [std::memcmp(&a, &b, sizeof(PipelineDescription)) == 0]. *)
Definition description_memcmp_equal (a b : PipelineDescription) : bool :=
  bool_decide (PipelineDescription_bytes a = PipelineDescription_bytes b).

Definition RootSignature := Z.
Definition PipelineStateHandle := Z.

Record PipelineRuntimeDescription := {
  vertex_shader : option ptr;
  pixel_shader : option ptr;
  root_signature : option RootSignature;
  description : PipelineDescription
}.

(** [PipelineState]: the compiled object (null until created) and the
    description it is created from. *)
Record PipelineState := {
  state : option PipelineStateHandle;
  runtime_description : PipelineRuntimeDescription
}.

Record PipelineStoredDescription := {
  description_hash : Z;
  stored_description : PipelineDescription
}.

(** The part of the register file and of the draw parameters that
    [ConfigurePipeline] receives.  The three decoded register fields are the
    ones the modelled code branches on; the raw registers feed the
    rasterizer, depth/stencil and blend state. *)
Record RegisterFile := {
  PA_SU_SC_MODE_CNTL_multi_prim_ib_ena : bool;
  VGT_HOS_CNTL_tess_mode : TessellationMode;
  SQ_PROGRAM_CNTL : Z;
  register_values : list Z
}.

Record DrawRequest := {
  req_vertex_shader : ptr;
  req_pixel_shader : option ptr;
  req_tessellated : bool;
  req_primitive_type : PrimitiveType;
  req_index_format : IndexFormat;
  req_early_z : bool;
  req_render_targets : list (Z * Z);
  req_regs : RegisterFile
}.

(** ** Collaborators

    Everything the file calls but does not define: the content hash, the
    shader translator, the command processor's root signature lookup, the
    Direct3D device, the host's processor count, configuration variables and
    the constants of declarations that live in headers. *)
Class Externals := {
  (** [XXH64(data, length, seed)] over the bytes of [data]. *)
  XXH64 : list byte -> Z -> Z;
  (** [DxbcShaderTranslator::Translate(shader, patch_primitive_type, cntl)]. *)
  Translate : D3D12Shader -> PrimitiveType -> Z -> Translation;
  (** [command_processor_->GetRootSignature(vs, ps, tessellated)]; [None] is
      a null root signature. *)
  GetRootSignature : D3D12Shader -> option D3D12Shader -> bool -> option RootSignature;
  (** The Direct3D object [CreateD3D12PipelineState] obtains for a runtime
      description and the shader objects it points to; [None] is [nullptr]. *)
  CreateGraphicsPipelineState :
    PipelineRuntimeDescription -> option D3D12Shader -> option D3D12Shader ->
    option PipelineStateHandle;
  (** Lines 1046-1303 of [GetCurrentStateDescription]: the rasterizer,
      depth/stencil and render-target fields, a function of the registers,
      the draw parameters and the pixel shader with no failure path. *)
  GetFixedFunctionState : bool -> DrawRequest -> option D3D12Shader -> list byte;
  sizeof_fixed_function_state : nat;
  (** [xe::threading::logical_processor_count()]. *)
  logical_processor_count : Z;
  cvars_d3d12_tessellation_adaptive : bool;
  cvars_d3d12_pipeline_creation_threads : Z;
  (** [xe::filesystem::CreateFolder]. *)
  CreateFolder : string -> bool;
  (** Whether the host gives a [std::vector<uint32_t>] that has to grow the
      memory for that many words; when it does not, [resize] throws
      [std::bad_alloc]. *)
  host_allocates : Z -> bool;
  (** The enumerators of [ShaderType] and [PrimitiveType] by their codes
      (xenia/gpu/shader.h, xenia/gpu/xenos.h). *)
  ShaderType_of_code : Z -> ShaderType;
  PrimitiveType_of_code : Z -> PrimitiveType;
  ShaderStoredHeader_kVersion : Z;
  PipelineDescription_kVersion : Z
}.

(** ** Files

    A storage stream is a file of the host: the disk maps a path to the
    bytes of the file, [None] when the file cannot be opened. *)
Inductive StoragePath :=
| ShaderStoragePath (root : string) (title_id : Z)
| PipelineStateStoragePath (root : string) (title_id : Z) (rov : bool).

#[global] Instance StoragePath_eq_dec : EqDecision StoragePath.
Proof. solve_decision. Defined.

Definition Disk := StoragePath -> option (list byte).

Definition disk_write (p : StoragePath) (bs : list byte) (d : Disk) : Disk :=
  fun q => if decide (q = p) then Some bs else d q.

Definition disk_read (d : Disk) (p : StoragePath) : list byte :=
  default [] (d p).

(** An open [FILE*], by the path it was opened on; the read position is
    local to the routines that read. *)
Record FILE := { file_path : StoragePath }.

(** [fread(buffer, size, 1, file)]: the item when [size] bytes are left,
    nothing otherwise; the position moves past what was read. *)
Definition fread1 (size : nat) (data : list byte) (pos : nat)
  : option (list byte) * nat :=
  if decide (pos + size <= length data)%nat
  then (Some (firstn size (skipn pos data)), (pos + size)%nat)
  else (None, Nat.max pos (length data)).

(** [fread(buffer, size, count, file)]: the complete items read. *)
Fixpoint fread_items (size count : nat) (data : list byte) (pos : nat)
  : list (list byte) :=
  match count with
  | O => []
  | S count' =>
      match fread1 size data pos with
      | (Some item, pos') => item :: fread_items size count' data pos'
      | (None, _) => []
      end
  end.

(** Modelled from the spec: [xe::filesystem::Seek] (xenia/base/filesystem)
    is not among the sources; it is the 64-bit [fseek], which moves the
    position by a non-negative offset and succeeds, also past the end. *)
Definition Seek_cur (offset : nat) (pos : nat) : bool * nat :=
  (true, (pos + offset)%nat).

(** Modelled from the spec: [xe::filesystem::TruncateStdioFile]
    (xenia/base/filesystem) is not among the sources; it sets the length of
    the file to the given offset, filling with zeros when that is past the
    end. *)
Definition TruncateStdioFile (length_ : nat) (data : list byte) : list byte :=
  firstn length_ data ++ repeat x00 (length_ - length data).

(** ** The cache object *)

(** The fields guarded by [creation_request_lock_], and the threads. *)
Record CreationPool := {
  creation_threads_ : list Z;
  creation_queue_ : list ptr;
  creation_threads_busy_ : Z;
  creation_completion_event_ : bool;
  creation_completion_set_event_ : bool;
  creation_threads_shutdown_from_ : Z
}.

Definition SIZE_MAX : Z := 2 ^ 64 - 1.

Record ShaderStorage := {
  shader_storage_file_ : option FILE;
  pipeline_state_storage_file_ : option FILE;
  shader_storage_file_flush_needed_ : bool;
  pipeline_state_storage_file_flush_needed_ : bool;
  storage_write_thread_ : bool;
  storage_write_shader_queue_ : list (ptr * Z);
  storage_write_pipeline_state_queue_ : list PipelineStoredDescription;
  storage_write_flush_shaders_ : bool;
  storage_write_flush_pipeline_states_ : bool;
  shader_storage_root_ : string;
  shader_storage_title_id_ : Z
}.

(** [translator_invocations] counts the calls of [Translate]; it is the only
    field with no counterpart in the class. [next_object] is the allocator. *)
Record PipelineCache := {
  edram_rov_used_ : bool;
  shader_map_ : gmap Z ptr;
  shader_heap : gmap ptr D3D12Shader;
  pipeline_states_ : list (Z * ptr);
  pipeline_heap : gmap ptr PipelineState;
  current_pipeline_state_ : option ptr;
  pool : CreationPool;
  storage : ShaderStorage;
  next_object : ptr;
  translator_invocations : nat
}.

Definition set_shaders (m : gmap Z ptr) (h : gmap ptr D3D12Shader) (n : ptr)
    (c : PipelineCache) : PipelineCache :=
  {| edram_rov_used_ := edram_rov_used_ c; shader_map_ := m; shader_heap := h;
     pipeline_states_ := pipeline_states_ c; pipeline_heap := pipeline_heap c;
     current_pipeline_state_ := current_pipeline_state_ c; pool := pool c;
     storage := storage c; next_object := n;
     translator_invocations := translator_invocations c |}.

Definition set_shader_object (p : ptr) (s : D3D12Shader) (invocations : nat)
    (c : PipelineCache) : PipelineCache :=
  {| edram_rov_used_ := edram_rov_used_ c; shader_map_ := shader_map_ c;
     shader_heap := <[p := s]> (shader_heap c);
     pipeline_states_ := pipeline_states_ c; pipeline_heap := pipeline_heap c;
     current_pipeline_state_ := current_pipeline_state_ c; pool := pool c;
     storage := storage c; next_object := next_object c;
     translator_invocations := invocations |}.

Definition set_pipeline_states (t : list (Z * ptr)) (h : gmap ptr PipelineState)
    (n : ptr) (c : PipelineCache) : PipelineCache :=
  {| edram_rov_used_ := edram_rov_used_ c; shader_map_ := shader_map_ c;
     shader_heap := shader_heap c;
     pipeline_states_ := t; pipeline_heap := h;
     current_pipeline_state_ := current_pipeline_state_ c; pool := pool c;
     storage := storage c; next_object := n;
     translator_invocations := translator_invocations c |}.

Definition set_current_pipeline_state (cur : option ptr) (c : PipelineCache)
  : PipelineCache :=
  {| edram_rov_used_ := edram_rov_used_ c; shader_map_ := shader_map_ c;
     shader_heap := shader_heap c;
     pipeline_states_ := pipeline_states_ c; pipeline_heap := pipeline_heap c;
     current_pipeline_state_ := cur; pool := pool c;
     storage := storage c; next_object := next_object c;
     translator_invocations := translator_invocations c |}.

Definition set_pool (p : CreationPool) (c : PipelineCache) : PipelineCache :=
  {| edram_rov_used_ := edram_rov_used_ c; shader_map_ := shader_map_ c;
     shader_heap := shader_heap c;
     pipeline_states_ := pipeline_states_ c; pipeline_heap := pipeline_heap c;
     current_pipeline_state_ := current_pipeline_state_ c; pool := p;
     storage := storage c; next_object := next_object c;
     translator_invocations := translator_invocations c |}.

Definition set_storage (s : ShaderStorage) (c : PipelineCache) : PipelineCache :=
  {| edram_rov_used_ := edram_rov_used_ c; shader_map_ := shader_map_ c;
     shader_heap := shader_heap c;
     pipeline_states_ := pipeline_states_ c; pipeline_heap := pipeline_heap c;
     current_pipeline_state_ := current_pipeline_state_ c; pool := pool c;
     storage := s; next_object := next_object c;
     translator_invocations := translator_invocations c |}.

Definition set_creation_queue (q : list ptr) (p : CreationPool) : CreationPool :=
  {| creation_threads_ := creation_threads_ p; creation_queue_ := q;
     creation_threads_busy_ := creation_threads_busy_ p;
     creation_completion_event_ := creation_completion_event_ p;
     creation_completion_set_event_ := creation_completion_set_event_ p;
     creation_threads_shutdown_from_ := creation_threads_shutdown_from_ p |}.

Definition set_storage_queues (flush_shaders flush_pipeline_states : bool)
    (shader_queue : list (ptr * Z))
    (pipeline_state_queue : list PipelineStoredDescription)
    (s : ShaderStorage) : ShaderStorage :=
  {| shader_storage_file_ := shader_storage_file_ s;
     pipeline_state_storage_file_ := pipeline_state_storage_file_ s;
     shader_storage_file_flush_needed_ := flush_shaders;
     pipeline_state_storage_file_flush_needed_ := flush_pipeline_states;
     storage_write_thread_ := storage_write_thread_ s;
     storage_write_shader_queue_ := shader_queue;
     storage_write_pipeline_state_queue_ := pipeline_state_queue;
     storage_write_flush_shaders_ := storage_write_flush_shaders_ s;
     storage_write_flush_pipeline_states_ :=
       storage_write_flush_pipeline_states_ s;
     shader_storage_root_ := shader_storage_root_ s;
     shader_storage_title_id_ := shader_storage_title_id_ s |}.

(** The cache as the constructor leaves it. *)
Definition new_PipelineCache (edram_rov_used : bool) : PipelineCache :=
  {| edram_rov_used_ := edram_rov_used;
     shader_map_ := ∅; shader_heap := ∅;
     pipeline_states_ := []; pipeline_heap := ∅;
     current_pipeline_state_ := None;
     pool := {| creation_threads_ := []; creation_queue_ := [];
                creation_threads_busy_ := 0;
                creation_completion_event_ := false;
                creation_completion_set_event_ := false;
                creation_threads_shutdown_from_ := 0 |};
     storage := {| shader_storage_file_ := None;
                   pipeline_state_storage_file_ := None;
                   shader_storage_file_flush_needed_ := false;
                   pipeline_state_storage_file_flush_needed_ := false;
                   storage_write_thread_ := false;
                   storage_write_shader_queue_ := [];
                   storage_write_pipeline_state_queue_ := [];
                   storage_write_flush_shaders_ := false;
                   storage_write_flush_pipeline_states_ := false;
                   shader_storage_root_ := EmptyString;
                   shader_storage_title_id_ := 0 |};
     next_object := 1%nat;
     translator_invocations := 0%nat |}.

(** ** The per-draw path *)

Section Facade.
Context `{ext : Externals}.

(** [PipelineCache::Initialize] (lines 94-126); the products and the
    conversion of the configuration variable are 32-bit unsigned. *)
Definition Initialize (c : PipelineCache) : PipelineCache :=
  let logical_processor_count :=
    if logical_processor_count =? 0 then 6 else logical_processor_count in
  let creation_thread_count :=
    if cvars_d3d12_pipeline_creation_threads =? 0 then 0
    else if cvars_d3d12_pipeline_creation_threads <? 0 then
      Z.max (logical_processor_count * 3 mod 2 ^ 32 / 4) 1
    else
      Z.min (cvars_d3d12_pipeline_creation_threads mod 2 ^ 32)
        logical_processor_count in
  set_pool
    {| creation_threads_ := Z.of_nat <$> seq 0 (Z.to_nat creation_thread_count);
       creation_queue_ := creation_queue_ (pool c);
       creation_threads_busy_ := 0;
       creation_completion_event_ := true;
       creation_completion_set_event_ := false;
       creation_threads_shutdown_from_ := SIZE_MAX |} c.

(** [PipelineCache::LoadShader] (lines 701-721). *)
Definition LoadShader (type : ShaderType) (guest_address : Z)
    (host_address : list Z) (c : PipelineCache) : ptr * PipelineCache :=
  let data_hash := XXH64 (dwords_bytes host_address) 0 in
  match shader_map_ c !! data_hash with
  | Some shader => (shader, c)
  | None =>
      let shader := next_object c in
      (shader,
       set_shaders (<[data_hash := shader]> (shader_map_ c))
         (<[shader := new_D3D12Shader type data_hash host_address]>
            (shader_heap c))
         (S shader) c)
  end.

(** [PipelineCache::TranslateShader] (lines 875-931).  [None] is the
    dereference of a pointer to no live object.  The texture and sampler
    bindings, the forced early-Z variant, the disassembly and the dump touch
    no field of the model. *)
Definition TranslateShader (shader : ptr) (cntl : Z)
    (patch_primitive_type : PrimitiveType) (c : PipelineCache)
  : option (bool * PipelineCache) :=
  s ← shader_heap c !! shader;
  let tr := Translate s patch_primitive_type cntl in
  let s' := set_translation tr s in
  let c' := set_shader_object shader s' (S (translator_invocations c)) c in
  if negb (tr_result tr) then Some (false, c')
  else Some (is_valid s', c').

(** The block both branches of [EnsureShadersTranslated] run after a
    successful translation (lines 754-763 and 772-781). *)
Definition queue_shader_write (shader : ptr) (cntl : Z) (c : PipelineCache)
  : PipelineCache :=
  match shader_storage_file_ (storage c) with
  | Some _ =>
      set_storage
        (set_storage_queues true
           (pipeline_state_storage_file_flush_needed_ (storage c))
           (storage_write_shader_queue_ (storage c) ++ [(shader, cntl)])
           (storage_write_pipeline_state_queue_ (storage c))
           (storage c)) c
  | None => c
  end.

Definition translate_if_needed (shader : ptr) (cntl : Z)
    (patch_primitive_type : PrimitiveType) (c : PipelineCache)
  : option (bool * PipelineCache) :=
  s ← shader_heap c !! shader;
  if negb (is_translated s) then
    '(ok, c1) ← TranslateShader shader cntl patch_primitive_type c;
    if negb ok then Some (false, c1)
    else Some (true, queue_shader_write shader cntl c1)
  else Some (true, c).

(** [PipelineCache::EnsureShadersTranslated] (lines 723-785). *)
Definition EnsureShadersTranslated (vertex_shader : ptr)
    (pixel_shader : option ptr) (tessellated : bool)
    (primitive_type : PrimitiveType) (regs : RegisterFile) (c : PipelineCache)
  : option (bool * PipelineCache) :=
  let sq_program_cntl := SQ_PROGRAM_CNTL regs in
  let patch_primitive_type := if tessellated then primitive_type else kNone in
  '(ok, c1) ← translate_if_needed vertex_shader sq_program_cntl
                patch_primitive_type c;
  if negb ok then Some (false, c1)
  else
    match pixel_shader with
    | Some ps =>
        translate_if_needed ps sq_program_cntl patch_primitive_type c1
    | None => Some (true, c1)
    end.

Definition zero_description : PipelineDescription :=
  {| vertex_shader_hash := 0; pixel_shader_hash := 0; strip_cut_index := 0;
     tessellation_mode := 0; primitive_topology_type := 0; patch_type := 0;
     geometry_shader := 0;
     fixed_function_state := repeat x00 sizeof_fixed_function_state |}.

(** [std::memset(&runtime_description_out, 0, sizeof(...))]. *)
Definition zero_runtime_description : PipelineRuntimeDescription :=
  {| vertex_shader := None; pixel_shader := None; root_signature := None;
     description := zero_description |}.

Definition set_description (d : PipelineDescription)
    (r : PipelineRuntimeDescription) : PipelineRuntimeDescription :=
  {| vertex_shader := vertex_shader r; pixel_shader := pixel_shader r;
     root_signature := root_signature r; description := d |}.

(** Lines 975-989: the tessellation mode of a tessellated draw. *)
Definition tessellated_mode (tess_mode : TessellationMode) : Z :=
  match tess_mode with
  | kContinuous => PipelineTessellationMode.kContinuous
  | kAdaptive =>
      if cvars_d3d12_tessellation_adaptive
      then PipelineTessellationMode.kAdaptive
      else PipelineTessellationMode.kContinuous
  | kDiscrete => PipelineTessellationMode.kDiscrete
  end.

(** Lines 973-1044: tessellation mode, topology type, patch type and
    geometry shader; [None] is the [return false] of the unhandled patch
    primitive. The result is (tessellation_mode, primitive_topology_type,
    patch_type, geometry_shader). *)
Definition topology_fields (tessellated : bool) (primitive_type : PrimitiveType)
    (tess_mode : TessellationMode) : option (Z * Z * Z * Z) :=
  if tessellated then
    let tessellation_mode := tessellated_mode tess_mode in
    match primitive_type with
    | kLinePatch =>
        Some (tessellation_mode, PipelinePrimitiveTopologyType.kPatch,
              PipelinePatchType.kLine, PipelineGeometryShader.kNone)
    | kTrianglePatch =>
        Some (tessellation_mode, PipelinePrimitiveTopologyType.kPatch,
              PipelinePatchType.kTriangle, PipelineGeometryShader.kNone)
    | kQuadPatch =>
        Some (tessellation_mode, PipelinePrimitiveTopologyType.kPatch,
              PipelinePatchType.kQuad, PipelineGeometryShader.kNone)
    | _ => None
    end
  else
    let primitive_topology_type :=
      match primitive_type with
      | kPointList => PipelinePrimitiveTopologyType.kPoint
      | kLineList | kLineStrip | kLineLoop | kQuadList | k2DLineStrip =>
          PipelinePrimitiveTopologyType.kLine
      | _ => PipelinePrimitiveTopologyType.kTriangle
      end in
    let geometry_shader :=
      match primitive_type with
      | kPointList => PipelineGeometryShader.kPointList
      | kRectangleList => PipelineGeometryShader.kRectangleList
      | kQuadList => PipelineGeometryShader.kQuadList
      | _ => PipelineGeometryShader.kNone
      end in
    Some (PipelineTessellationMode.kNone, primitive_topology_type,
          PipelinePatchType.kNone, geometry_shader).

(** The two shader objects a draw names: the dereferences of
    [vertex_shader] and, when it is not null, of [pixel_shader]. *)
Definition request_shaders (c : PipelineCache) (req : DrawRequest)
  : option (D3D12Shader * option D3D12Shader) :=
  vs ← shader_heap c !! req_vertex_shader req;
  ps ← match req_pixel_shader req with
       | Some p => Some <$> shader_heap c !! p
       | None => Some None
       end;
  Some (vs, ps).

(** [PipelineCache::GetCurrentStateDescription] (lines 933-1306).  The
    record [runtime_description_out] is passed in with whatever it held; the
    result is the return value and the record as the function leaves it. *)
Definition GetCurrentStateDescription (c : PipelineCache) (req : DrawRequest)
    (runtime_description_out : PipelineRuntimeDescription)
  : option (bool * PipelineRuntimeDescription) :=
  '(vs, ps) ← request_shaders c req;
  let regs := req_regs req in
  (* Initialize all unused fields to zero for comparison/hashing. *)
  let out := zero_runtime_description in
  match GetRootSignature vs ps (req_tessellated req) with
  | None => Some (false, out)
  | Some rs =>
      let pixel_hash :=
        match ps with
        | Some s => ucode_data_hash s
        | None => pixel_shader_hash (description out)
        end in
      let strip_cut :=
        if PA_SU_SC_MODE_CNTL_multi_prim_ib_ena regs then
          match req_index_format req with
          | kInt32 => PipelineStripCutIndex.kFFFFFFFF
          | kInt16 => PipelineStripCutIndex.kFFFF
          end
        else PipelineStripCutIndex.kNone in
      let fill tess topo patch geom fixed :=
        {| vertex_shader := Some (req_vertex_shader req);
           pixel_shader := req_pixel_shader req;
           root_signature := Some rs;
           description :=
             {| vertex_shader_hash := ucode_data_hash vs;
                pixel_shader_hash := pixel_hash;
                strip_cut_index := strip_cut;
                tessellation_mode := tess;
                primitive_topology_type := topo;
                patch_type := patch;
                geometry_shader := geom;
                fixed_function_state := fixed |} |} in
      match topology_fields (req_tessellated req) (req_primitive_type req)
              (VGT_HOS_CNTL_tess_mode regs) with
      | None =>
          (* the unhandled patch primitive: tessellation mode and topology
             type are already written *)
          Some (false,
                fill (tessellated_mode (VGT_HOS_CNTL_tess_mode regs))
                  PipelinePrimitiveTopologyType.kPatch
                  (patch_type (description out))
                  (geometry_shader (description out))
                  (fixed_function_state (description out)))
      | Some (tess, topo, patch, geom) =>
          Some (true,
                fill tess topo patch geom
                  (GetFixedFunctionState (edram_rov_used_ c) req ps))
      end
  end.

(** [PipelineCache::CreateD3D12PipelineState] (lines 1308-1655) fills a
    [D3D12_GRAPHICS_PIPELINE_STATE_DESC] from the description and the two
    shader objects and asks the device for the object. *)
Definition CreateD3D12PipelineState (c : PipelineCache)
    (rd : PipelineRuntimeDescription) : option PipelineStateHandle :=
  CreateGraphicsPipelineState rd
    (vertex_shader rd ≫= fun p => shader_heap c !! p)
    (pixel_shader rd ≫= fun p => shader_heap c !! p).

(** [pipeline_states_.equal_range(hash)] followed by the loop that compares
    the descriptions (lines 818-828 and 485-496): the first entry of the
    range whose description is byte-equal.  The outer [None] is a table
    entry that points to no live object. *)
Fixpoint find_pipeline_state (heap : gmap ptr PipelineState)
    (table : list (Z * ptr)) (hash : Z) (d : PipelineDescription)
  : option (option ptr) :=
  match table with
  | [] => Some None
  | (h, p) :: rest =>
      if decide (h = hash) then
        st ← heap !! p;
        if description_memcmp_equal
             (description (runtime_description st)) d
        then Some (Some p)
        else find_pipeline_state heap rest hash d
      else find_pipeline_state heap rest hash d
  end.

(** Lines 835-852 and 535-555: allocate the [PipelineState], insert it under
    [hash], and hand it to the creation threads, or create it on the spot
    when there are none. *)
Definition insert_pipeline_state (hash : Z) (rd : PipelineRuntimeDescription)
    (c : PipelineCache) : ptr * PipelineCache :=
  let new_pipeline_state := next_object c in
  let table := pipeline_states_ c ++ [(hash, new_pipeline_state)] in
  match creation_threads_ (pool c) with
  | _ :: _ =>
      (new_pipeline_state,
       set_pool
         (set_creation_queue
            (creation_queue_ (pool c) ++ [new_pipeline_state]) (pool c))
         (set_pipeline_states table
            (<[new_pipeline_state :=
                 {| state := None; runtime_description := rd |}]>
               (pipeline_heap c))
            (S new_pipeline_state) c))
  | [] =>
      (new_pipeline_state,
       set_pipeline_states table
         (<[new_pipeline_state :=
              {| state := CreateD3D12PipelineState c rd;
                 runtime_description := rd |}]>
            (pipeline_heap c))
         (S new_pipeline_state) c)
  end.

(** Lines 854-867. *)
Definition queue_pipeline_state_write (hash : Z) (d : PipelineDescription)
    (c : PipelineCache) : PipelineCache :=
  match pipeline_state_storage_file_ (storage c) with
  | Some _ =>
      set_storage
        (set_storage_queues
           (shader_storage_file_flush_needed_ (storage c)) true
           (storage_write_shader_queue_ (storage c))
           (storage_write_pipeline_state_queue_ (storage c) ++
              [{| description_hash := hash; stored_description := d |}])
           (storage c)) c
  | None => c
  end.

(** [PipelineCache::ConfigurePipeline] (lines 787-873).  The inner result is
    [None] for [return false], and the two out-parameters otherwise.
    [stack] is what the local [runtime_description] holds before it is
    filled. *)
Definition ConfigurePipeline (req : DrawRequest)
    (stack : PipelineRuntimeDescription) (c : PipelineCache)
  : option (option (ptr * option RootSignature) * PipelineCache) :=
  '(built, rd) ← GetCurrentStateDescription c req stack;
  if negb built then Some (None, c)
  else
    let desc := description rd in
    fast ← match current_pipeline_state_ c with
           | Some cur =>
               st ← pipeline_heap c !! cur;
               if description_memcmp_equal
                    (description (runtime_description st)) desc
               then Some (Some cur)
               else Some None
           | None => Some None
           end;
    match fast with
    | Some cur => Some (Some (cur, root_signature rd), c)
    | None =>
        let hash := XXH64 (PipelineDescription_bytes desc) 0 in
        found ← find_pipeline_state (pipeline_heap c) (pipeline_states_ c)
                  hash desc;
        match found with
        | Some found_pipeline_state =>
            st ← pipeline_heap c !! found_pipeline_state;
            Some (Some (found_pipeline_state,
                        root_signature (runtime_description st)),
                  set_current_pipeline_state (Some found_pipeline_state) c)
        | None =>
            '(translated, c1) ←
              EnsureShadersTranslated (req_vertex_shader req)
                (req_pixel_shader req) (req_tessellated req)
                (req_primitive_type req) (req_regs req) c;
            if negb translated then Some (None, c1)
            else
              let '(new_pipeline_state, c2) :=
                insert_pipeline_state hash rd c1 in
              let c3 := queue_pipeline_state_write hash desc c2 in
              Some (Some (new_pipeline_state, root_signature rd),
                    set_current_pipeline_state (Some new_pipeline_state) c3)
        end
    end.

End Facade.

(** ** The persistent storage *)

(** Modelled from the spec: the declaration of [ShaderStoredHeader]
    (pipeline_cache.h) is not among the sources.  Section 6 gives the record
    as content_hash: u64, word_count: u32, shader_kind, patch_kind,
    program_control_bits, followed by the microcode; the kinds take a byte
    each and the control bits a 32-bit word. *)
Record ShaderStoredHeader := {
  header_ucode_data_hash : Z;
  header_ucode_dword_count : Z;
  header_type : Z;
  header_patch_primitive_type : Z;
  header_sq_program_cntl : Z
}.

Definition sizeof_ShaderStoredHeader : nat := 18.

Definition ShaderStoredHeader_of_bytes (bs : list byte) : ShaderStoredHeader :=
  {| header_ucode_data_hash := le_value (firstn 8 bs);
     header_ucode_dword_count := le_value (firstn 4 (skipn 8 bs));
     header_type := le_value (firstn 1 (skipn 12 bs));
     header_patch_primitive_type := le_value (firstn 1 (skipn 13 bs));
     header_sq_program_cntl := le_value (firstn 4 (skipn 14 bs)) |}.

Definition ShaderStoredHeader_bytes (h : ShaderStoredHeader) : list byte :=
  le_bytes 8 (header_ucode_data_hash h) ++
  le_bytes 4 (header_ucode_dword_count h) ++
  le_bytes 1 (header_type h) ++ le_bytes 1 (header_patch_primitive_type h) ++
  le_bytes 4 (header_sq_program_cntl h).

Definition PipelineStoredDescription_of_bytes (bs : list byte)
  : PipelineStoredDescription :=
  {| description_hash := le_value (firstn 8 bs);
     stored_description := PipelineDescription_of_bytes (skipn 8 bs) |}.

Definition PipelineStoredDescription_bytes (r : PipelineStoredDescription)
  : list byte :=
  le_bytes 8 (description_hash r) ++
  PipelineDescription_bytes (stored_description r).

(** 'XESH', 'XEPS', and 'DXRO' or 'DXRT'. *)
Definition shader_storage_magic : Z := 0x48534558.
Definition pipeline_state_storage_magic : Z := 0x53504558.
Definition pipeline_state_storage_magic_api (edram_rov_used : bool) : Z :=
  if edram_rov_used then 0x4F525844 else 0x54525844.

Section Storage.
Context `{ext : Externals}.

Definition sizeof_PipelineDescription : nat :=
  (21 + sizeof_fixed_function_state)%nat.

Definition sizeof_PipelineStoredDescription : nat :=
  (8 + sizeof_PipelineDescription)%nat.

(** The processor count as both storage routines take it: 6 when the host
    cannot tell. *)
Definition processor_count : Z :=
  if logical_processor_count =? 0 then 6 else logical_processor_count.

(** [PipelineCache::ShutdownShaderStorage] (lines 625-652). *)
Definition ShutdownShaderStorage (c : PipelineCache) : PipelineCache :=
  set_storage
    {| shader_storage_file_ := None;
       pipeline_state_storage_file_ := None;
       shader_storage_file_flush_needed_ :=
         match shader_storage_file_ (storage c) with
         | Some _ => false
         | None => shader_storage_file_flush_needed_ (storage c)
         end;
       pipeline_state_storage_file_flush_needed_ :=
         match pipeline_state_storage_file_ (storage c) with
         | Some _ => false
         | None => pipeline_state_storage_file_flush_needed_ (storage c)
         end;
       storage_write_thread_ := false;
       storage_write_shader_queue_ := [];
       storage_write_pipeline_state_queue_ := [];
       storage_write_flush_shaders_ :=
         storage_write_flush_shaders_ (storage c);
       storage_write_flush_pipeline_states_ :=
         storage_write_flush_pipeline_states_ (storage c);
       shader_storage_root_ := EmptyString;
       shader_storage_title_id_ := 0 |} c.

(** The state of the loop that reads the shader stream (lines 244-358): the
    read position, [shader_storage_valid_bytes], the cache,
    [shaders_to_translate], [shaders_translated], whether a translation
    thread exists, and the words [ucode_dwords] has room for.  How many
    translation threads there are depends on how fast they drain the queue;
    whether there is one does not. *)
Record ShaderLoad := {
  load_pos : nat;
  shader_storage_valid_bytes : nat;
  load_cache : PipelineCache;
  shaders_to_translate : list (ShaderStoredHeader * ptr);
  shaders_translated : nat;
  shader_translation_threads : bool;
  ucode_dwords_capacity : Z
}.

(** What an iteration of the loop comes to: a [break]; [std::bad_alloc],
    which nothing in the file catches, so that the call does not return; or
    the state in which the loop goes on. *)
Inductive ShaderRead :=
| ReadBreak
| ReadBadAlloc
| ReadNext (st : ShaderLoad).

(** [ucode_dwords.resize(count)] (line 318), on a vector with room for
    [capacity] words, when the file holds [data] and is read up to [pos]:
    the room the vector has afterwards, or [None] when [std::bad_alloc] is
    thrown.  A vector does not give up room, so a count within its capacity
    allocates nothing.  Beyond that the vector asks the host for memory.
    Memory for a payload that the file holds in full is taken to be there,
    as memory for the objects of the cache is; for a count that the file
    does not hold, and a header can name any count of 32 bits, the host
    decides.  The room after a growth is the count asked for; an
    implementation that rounds it up asks the host less often. *)
Definition resize_ucode_dwords (data : list byte) (pos : nat)
    (capacity count : Z) : option Z :=
  if (count <=? capacity)
     || (Z.of_nat pos + count * 4 <=? Z.of_nat (length data))
     || host_allocates count
  then Some (Z.max capacity count)
  else None.

(** The body of the [while (true)] of lines 298-358. *)
Definition shader_storage_read (data : list byte) (st : ShaderLoad)
  : ShaderRead :=
  match fread1 sizeof_ShaderStoredHeader data (load_pos st) with
  | (None, _) => ReadBreak
  | (Some header_bytes, pos1) =>
      let shader_header := ShaderStoredHeader_of_bytes header_bytes in
      let ucode_byte_count :=
        Z.to_nat (header_ucode_dword_count shader_header * 4) in
      let c := load_cache st in
      match shader_map_ c !! header_ucode_data_hash shader_header with
      | Some _ =>
          (* Already added. *)
          let '(sought, pos2) := Seek_cur ucode_byte_count pos1 in
          if negb sought then ReadBreak
          else
            ReadNext
              {| load_pos := pos2;
                 shader_storage_valid_bytes :=
                   (shader_storage_valid_bytes st +
                    (sizeof_ShaderStoredHeader + ucode_byte_count))%nat;
                 load_cache := c;
                 shaders_to_translate := shaders_to_translate st;
                 shaders_translated := shaders_translated st;
                 shader_translation_threads :=
                   shader_translation_threads st;
                 ucode_dwords_capacity := ucode_dwords_capacity st |}
      | None =>
          match resize_ucode_dwords data pos1 (ucode_dwords_capacity st)
                  (header_ucode_dword_count shader_header) with
          | None => ReadBadAlloc
          | Some capacity =>
              match (if header_ucode_dword_count shader_header =? 0
                     then (Some [], pos1)
                     else fread1 ucode_byte_count data pos1) with
              | (None, _) => ReadBreak
              | (Some ucode_bytes, pos2) =>
                  let ucode_data_hash := XXH64 ucode_bytes 0 in
                  if negb (header_ucode_data_hash shader_header =?
                           ucode_data_hash)
                  then ReadBreak (* Validation failed. *)
                  else
                    let shader := next_object c in
                    let c' :=
                      set_shaders
                        (<[ucode_data_hash := shader]> (shader_map_ c))
                        (<[shader :=
                             new_D3D12Shader
                               (ShaderType_of_code
                                  (header_type shader_header))
                               ucode_data_hash
                               (bytes_dwords
                                  (Z.to_nat
                                     (header_ucode_dword_count shader_header))
                                  ucode_bytes)]> (shader_heap c))
                        (S shader) c in
                    ReadNext
                      {| load_pos := pos2;
                         shader_storage_valid_bytes :=
                           (shader_storage_valid_bytes st +
                            (sizeof_ShaderStoredHeader +
                             ucode_byte_count))%nat;
                         load_cache := c';
                         shaders_to_translate :=
                           shaders_to_translate st ++
                           [(shader_header, shader)];
                         shaders_translated := S (shaders_translated st);
                         shader_translation_threads :=
                           shader_translation_threads st ||
                           (1 <=? processor_count - 1);
                         ucode_dwords_capacity := capacity |}
              end
          end
      end
  end.

(** The loop itself; every iteration that continues reads a header, so the
    length of the file bounds their number.  [None] is [std::bad_alloc]. *)
Fixpoint shader_storage_loop (fuel : nat) (data : list byte) (st : ShaderLoad)
  : option ShaderLoad :=
  match fuel with
  | O => Some st
  | S fuel' =>
      match shader_storage_read data st with
      | ReadBreak => Some st
      | ReadBadAlloc => None
      | ReadNext st' => shader_storage_loop fuel' data st'
      end
  end.

(** What the translation threads do with [shaders_to_translate] (lines
    261-294): every queued shader is translated once, with the control bits
    and patch type stored with it; the failed ones are collected.  The
    queued shaders are distinct objects, so the order in which the threads
    take them does not show. *)
Fixpoint translate_queued (queue : list (ShaderStoredHeader * ptr))
    (failed : list ptr) (c : PipelineCache)
  : option (list ptr * PipelineCache) :=
  match queue with
  | [] => Some (failed, c)
  | (shader_header, shader) :: rest =>
      '(ok, c') ← TranslateShader shader
                    (header_sq_program_cntl shader_header)
                    (PrimitiveType_of_code
                       (header_patch_primitive_type shader_header)) c;
      translate_queued rest (if (ok : bool) then failed else failed ++ [shader]) c'
  end.

(** Lines 369-372. *)
Fixpoint erase_failed (failed : list ptr) (c : PipelineCache)
  : option PipelineCache :=
  match failed with
  | [] => Some c
  | shader :: rest =>
      s ← shader_heap c !! shader;
      erase_failed rest
        (set_shaders (delete (ucode_data_hash s) (shader_map_ c))
           (delete shader (shader_heap c)) (next_object c) c)
  end.

Definition shader_storage_header_ok (data : list byte) : bool :=
  match fread1 8 data 0 with
  | (Some header, _) =>
      (le_value (firstn 4 header) =? shader_storage_magic) &&
      (byte_swap32 (le_value (skipn 4 header)) =? ShaderStoredHeader_kVersion)
  | (None, _) => false
  end.

(** Lines 359-373: when there are translation threads, they finish the
    queue and are joined, and the shaders they failed on are erased. *)
Definition join_shader_translation_threads (st : ShaderLoad)
  : option PipelineCache :=
  if shader_translation_threads st then
    '(failed, c1) ← translate_queued (shaders_to_translate st) []
                      (load_cache st);
    erase_failed failed c1
  else Some (load_cache st).

(** The state in which the loop is entered (lines 244-258): the header is
    read and counted as valid, and [ucode_dwords] has reserved 0xFFFF
    words. *)
Definition shader_load_start (c : PipelineCache) : ShaderLoad :=
  {| load_pos := 8; shader_storage_valid_bytes := 8; load_cache := c;
     shaders_to_translate := []; shaders_translated := 0;
     shader_translation_threads := false;
     ucode_dwords_capacity := 0xFFFF |}.

(** The shader stream (lines 222-389): the cache and the file after it.
    [None] is a call that does not return: [std::bad_alloc] is thrown in the
    loop, or a pointer to no live object is dereferenced. *)
Definition load_shader_storage (data : list byte) (c : PipelineCache)
  : option (ShaderLoad * list byte) :=
  if shader_storage_header_ok data then
    st ← shader_storage_loop (length data) data (shader_load_start c);
    c' ← join_shader_translation_threads st;
    Some ({| load_pos := load_pos st;
             shader_storage_valid_bytes := shader_storage_valid_bytes st;
             load_cache := c';
             shaders_to_translate := shaders_to_translate st;
             shaders_translated := shaders_translated st;
             shader_translation_threads := shader_translation_threads st;
             ucode_dwords_capacity := ucode_dwords_capacity st |},
          TruncateStdioFile (shader_storage_valid_bytes st) data)
  else
    Some ({| load_pos := 0; shader_storage_valid_bytes := 0; load_cache := c;
             shaders_to_translate := []; shaders_translated := 0;
             shader_translation_threads := false;
             ucode_dwords_capacity := 0 |},
          TruncateStdioFile 0 data ++
          le_bytes 4 shader_storage_magic ++
          le_bytes 4 (byte_swap32 ShaderStoredHeader_kVersion)).

(** How the replay resolves a shader hash of a stored description. *)
Inductive ResolvedShader :=
| ShaderMissing
| ShaderNull
| ShaderFound (p : ptr) (s : D3D12Shader).

(** Lines 502-510. *)
Definition resolve_vertex_shader (c : PipelineCache) (d : PipelineDescription)
  : option ResolvedShader :=
  match shader_map_ c !! vertex_shader_hash d with
  | None => Some ShaderMissing
  | Some p =>
      s ← shader_heap c !! p;
      if negb (is_valid s) then Some ShaderMissing else Some (ShaderFound p s)
  end.

(** Lines 511-523. *)
Definition resolve_pixel_shader (c : PipelineCache) (d : PipelineDescription)
  : option ResolvedShader :=
  if negb (pixel_shader_hash d =? 0) then
    match shader_map_ c !! pixel_shader_hash d with
    | None => Some ShaderMissing
    | Some p =>
        s ← shader_heap c !! p;
        if negb (is_valid s) then Some ShaderMissing
        else Some (ShaderFound p s)
    end
  else Some ShaderNull.

(** The body of the loop over the stored descriptions after the integrity
    check (lines 483-556): the cache, and whether a pipeline state was
    created. *)
Definition replay_pipeline_state (stored : PipelineStoredDescription)
    (c : PipelineCache) : option (PipelineCache * bool) :=
  let d := stored_description stored in
  found ← find_pipeline_state (pipeline_heap c) (pipeline_states_ c)
            (description_hash stored) d;
  match found with
  | Some _ => Some (c, false)
  | None =>
      vs ← resolve_vertex_shader c d;
      match vs with
      | ShaderFound vp v =>
          ps ← resolve_pixel_shader c d;
          match ps with
          | ShaderMissing => Some (c, false)
          | _ =>
              let pixel := match ps with
                           | ShaderFound pp p => Some (pp, p)
                           | _ => None
                           end in
              match GetRootSignature v (snd <$> pixel)
                      (negb (patch_type d =? PipelinePatchType.kNone)) with
              | None => Some (c, false)
              | Some rs =>
                  let rd := {| vertex_shader := Some vp;
                               pixel_shader := fst <$> pixel;
                               root_signature := Some rs;
                               description := d |} in
                  Some ((insert_pipeline_state (description_hash stored) rd c).2,
                        true)
              end
          end
      | _ => Some (c, false)
      end
  end.

(** The [for] over [pipeline_stored_descriptions] (lines 470-557): the valid
    byte count, the cache and [pipeline_states_created]. *)
Fixpoint pipeline_storage_loop (records : list PipelineStoredDescription)
    (valid_bytes : nat) (c : PipelineCache) (created : nat)
  : option (nat * PipelineCache * nat) :=
  match records with
  | [] => Some (valid_bytes, c, created)
  | stored :: rest =>
      if negb (XXH64 (PipelineDescription_bytes (stored_description stored)) 0
               =? description_hash stored)
      then Some (valid_bytes, c, created)
      else
        '(c', made) ← replay_pipeline_state stored c;
        pipeline_storage_loop rest
          (valid_bytes + sizeof_PipelineStoredDescription)%nat c'
          (if made : bool then S created else created)
  end.

Definition set_pipeline_state_object (p : ptr) (st : PipelineState)
    (c : PipelineCache) : PipelineCache :=
  set_pipeline_states (pipeline_states_ c) (<[p := st]> (pipeline_heap c))
    (next_object c) c.

(** One round of the loop of [CreateQueuedPipelineStatesOnProcessorThread]
    for every queued pipeline state. *)
Fixpoint create_queued (queue : list ptr) (c : PipelineCache)
  : option PipelineCache :=
  match queue with
  | [] => Some c
  | p :: rest =>
      st ← pipeline_heap c !! p;
      create_queued rest
        (set_pipeline_state_object p
           {| state := CreateD3D12PipelineState c (runtime_description st);
              runtime_description := runtime_description st |} c)
  end.

(** [PipelineCache::CreateQueuedPipelineStatesOnProcessorThread] (lines
    1786-1801), when no creation thread takes a request meanwhile. *)
Definition CreateQueuedPipelineStatesOnProcessorThread (c : PipelineCache)
  : option PipelineCache :=
  c' ← create_queued (creation_queue_ (pool c)) c;
  Some (set_pool (set_creation_queue [] (pool c')) c').

(** The [while] of lines 459-468: a thread is added, with the next index,
    as long as there are fewer than [bound]. *)
Fixpoint spawn_creation_threads (fuel : nat) (bound : nat) (threads : list Z)
  : list Z :=
  match fuel with
  | O => threads
  | S fuel' =>
      if decide (length threads < bound)%nat
      then spawn_creation_threads fuel' bound
             (threads ++ [Z.of_nat (length threads)])
      else threads
  end.

(** Lines 453-458. *)
Definition creation_thread_needed_count (stored original : nat) : nat :=
  Nat.max (Nat.min stored (Z.to_nat processor_count) - 1) original.

(** The creation threads during the replay, as lines 453-468 leave them. *)
Definition replay_creation_threads (stored : nat) (threads : list Z) : list Z :=
  let creation_thread_original_count := length threads in
  let creation_thread_needed_count :=
    creation_thread_needed_count stored creation_thread_original_count in
  spawn_creation_threads creation_thread_original_count
    creation_thread_original_count threads.

Definition set_creation_threads (threads : list Z) (p : CreationPool)
  : CreationPool :=
  {| creation_threads_ := threads; creation_queue_ := creation_queue_ p;
     creation_threads_busy_ := creation_threads_busy_ p;
     creation_completion_event_ := creation_completion_event_ p;
     creation_completion_set_event_ := creation_completion_set_event_ p;
     creation_threads_shutdown_from_ := creation_threads_shutdown_from_ p |}.

(** What a wait on [creation_completion_event_] that was armed under the
    lock returns to: the creation threads have signalled the event, which
    they do with no thread busy, and cleared the request. *)
Definition creation_completion_awaited (p : CreationPool) : CreationPool :=
  {| creation_threads_ := creation_threads_ p;
     creation_queue_ := creation_queue_ p;
     creation_threads_busy_ := 0;
     creation_completion_event_ := true;
     creation_completion_set_event_ := false;
     creation_threads_shutdown_from_ := creation_threads_shutdown_from_ p |}.

(** Lines 559-590: the additional threads are shut down and joined. *)
Definition shrink_creation_threads (original : nat) (blocking : bool)
    (p : CreationPool) : CreationPool :=
  if decide (original < length (creation_threads_ p))%nat then
    let p1 :=
      {| creation_threads_ := firstn original (creation_threads_ p);
         creation_queue_ := creation_queue_ p;
         creation_threads_busy_ := creation_threads_busy_ p;
         creation_completion_event_ := creation_completion_event_ p;
         creation_completion_set_event_ := creation_completion_set_event_ p;
         creation_threads_shutdown_from_ := SIZE_MAX |} in
    if blocking && negb (creation_threads_busy_ p1 =? 0)
    then creation_completion_awaited p1
    else p1
  else p.

Definition pipeline_state_storage_header_ok (edram_rov_used : bool)
    (data : list byte) : bool :=
  match fread1 12 data 0 with
  | (Some header, _) =>
      (le_value (firstn 4 header) =? pipeline_state_storage_magic) &&
      (le_value (firstn 4 (skipn 4 header)) =?
       pipeline_state_storage_magic_api edram_rov_used) &&
      (byte_swap32 (le_value (skipn 8 header)) =? PipelineDescription_kVersion)
  | (None, _) => false
  end.

(** The pipeline state stream (lines 391-612): the valid byte count, the
    cache, [pipeline_states_created] and the file after it. *)
Definition load_pipeline_state_storage (blocking : bool) (data : list byte)
    (c : PipelineCache) : option (nat * PipelineCache * nat * list byte) :=
  if pipeline_state_storage_header_ok (edram_rov_used_ c) data then
    let pipeline_state_storage_told_end := length data in
    let pipeline_state_storage_told_count :=
      ((pipeline_state_storage_told_end - 12) /
       sizeof_PipelineStoredDescription)%nat in
    let pipeline_stored_descriptions :=
      PipelineStoredDescription_of_bytes <$>
      fread_items sizeof_PipelineStoredDescription
        pipeline_state_storage_told_count data 12 in
    match pipeline_stored_descriptions with
    | [] => Some (12%nat, c, 0%nat, TruncateStdioFile 12 data)
    | _ :: _ =>
        let creation_thread_original_count :=
          length (creation_threads_ (pool c)) in
        let c1 :=
          set_pool
            (set_creation_threads
               (replay_creation_threads (length pipeline_stored_descriptions)
                  (creation_threads_ (pool c))) (pool c)) c in
        '(valid_bytes, c2, created) ←
          pipeline_storage_loop pipeline_stored_descriptions 12 c1 0;
        c3 ← CreateQueuedPipelineStatesOnProcessorThread c2;
        let c4 :=
          set_pool
            (shrink_creation_threads creation_thread_original_count blocking
               (pool c3)) c3 in
        Some (valid_bytes, c4, created, TruncateStdioFile valid_bytes data)
    end
  else
    Some (0%nat, c, 0%nat,
          TruncateStdioFile 0 data ++
          le_bytes 4 pipeline_state_storage_magic ++
          le_bytes 4 (pipeline_state_storage_magic_api (edram_rov_used_ c)) ++
          le_bytes 4 (byte_swap32 PipelineDescription_kVersion)).

Definition set_storage_files (shader_file pipeline_file : option FILE)
    (s : ShaderStorage) : ShaderStorage :=
  {| shader_storage_file_ := shader_file;
     pipeline_state_storage_file_ := pipeline_file;
     shader_storage_file_flush_needed_ := false;
     pipeline_state_storage_file_flush_needed_ :=
       match pipeline_file with
       | Some _ => false
       | None => pipeline_state_storage_file_flush_needed_ s
       end;
     storage_write_thread_ := storage_write_thread_ s;
     storage_write_shader_queue_ := storage_write_shader_queue_ s;
     storage_write_pipeline_state_queue_ :=
       storage_write_pipeline_state_queue_ s;
     storage_write_flush_shaders_ := storage_write_flush_shaders_ s;
     storage_write_flush_pipeline_states_ :=
       storage_write_flush_pipeline_states_ s;
     shader_storage_root_ := shader_storage_root_ s;
     shader_storage_title_id_ := shader_storage_title_id_ s |}.

(** Lines 614-622. *)
Definition start_storage_write_thread (storage_root : string) (title_id : Z)
    (s : ShaderStorage) : ShaderStorage :=
  {| shader_storage_file_ := shader_storage_file_ s;
     pipeline_state_storage_file_ := pipeline_state_storage_file_ s;
     shader_storage_file_flush_needed_ := shader_storage_file_flush_needed_ s;
     pipeline_state_storage_file_flush_needed_ :=
       pipeline_state_storage_file_flush_needed_ s;
     storage_write_thread_ := true;
     storage_write_shader_queue_ := storage_write_shader_queue_ s;
     storage_write_pipeline_state_queue_ :=
       storage_write_pipeline_state_queue_ s;
     storage_write_flush_shaders_ := false;
     storage_write_flush_pipeline_states_ := false;
     shader_storage_root_ := storage_root;
     shader_storage_title_id_ := title_id |}.

(** [PipelineCache::InitializeShaderStorage] (lines 199-623). *)
Definition InitializeShaderStorage (storage_root : string) (title_id : Z)
    (blocking : bool) (disk : Disk) (c : PipelineCache)
  : option (PipelineCache * Disk) :=
  let c0 := ShutdownShaderStorage c in
  if negb (CreateFolder storage_root) then Some (c0, disk)
  else
    let shader_path := ShaderStoragePath storage_root title_id in
    match disk shader_path with
    | None => Some (c0, disk)
    | Some shader_data =>
        let shader_file := {| file_path := shader_path |} in
        let c1 :=
          set_storage (set_storage_files (Some shader_file) None (storage c0))
            c0 in
        '(loaded, shader_data') ← load_shader_storage shader_data c1;
        let disk1 := disk_write shader_path shader_data' disk in
        let c2 := load_cache loaded in
        let pipeline_path :=
          PipelineStateStoragePath storage_root title_id (edram_rov_used_ c) in
        match disk1 pipeline_path with
        | None =>
            Some (set_storage (set_storage_files None None (storage c2)) c2,
                  disk1)
        | Some pipeline_data =>
            let c3 :=
              set_storage
                (set_storage_files (Some shader_file)
                   (Some {| file_path := pipeline_path |}) (storage c2)) c2 in
            '(_, c4, _, pipeline_data') ←
              load_pipeline_state_storage blocking pipeline_data c3;
            Some (set_storage
                    (start_storage_write_thread storage_root title_id
                       (storage c4)) c4,
                  disk_write pipeline_path pipeline_data' disk1)
        end
    end.

End Storage.

(** ** The creation threads *)

(** What a creation thread does next when it leaves the critical section at
    the head of its loop. *)
Inductive CreationThreadAction :=
| ThreadReturn
| ThreadWait
| ThreadCreate (pipeline_state_to_create : ptr).

(** Lines 1750-1755: the event is set if that was requested and no thread
    is busy. *)
Definition signal_creation_completion (p : CreationPool) : CreationPool :=
  if creation_completion_set_event_ p && (creation_threads_busy_ p =? 0) then
    {| creation_threads_ := creation_threads_ p;
       creation_queue_ := creation_queue_ p;
       creation_threads_busy_ := creation_threads_busy_ p;
       creation_completion_event_ := true;
       creation_completion_set_event_ := false;
       creation_threads_shutdown_from_ := creation_threads_shutdown_from_ p |}
  else p.

(** The critical section at the head of the loop of
    [PipelineCache::CreationThread] (lines 1746-1770). *)
Definition CreationThread_check (thread_index : Z) (p : CreationPool)
  : CreationPool * CreationThreadAction :=
  match creation_queue_ p with
  | front :: rest =>
      if creation_threads_shutdown_from_ p <=? thread_index then
        (signal_creation_completion p, ThreadReturn)
      else
        ({| creation_threads_ := creation_threads_ p;
            creation_queue_ := rest;
            creation_threads_busy_ := creation_threads_busy_ p + 1;
            creation_completion_event_ := creation_completion_event_ p;
            creation_completion_set_event_ :=
              creation_completion_set_event_ p;
            creation_threads_shutdown_from_ :=
              creation_threads_shutdown_from_ p |},
         ThreadCreate front)
  | [] =>
      (signal_creation_completion p,
       if creation_threads_shutdown_from_ p <=? thread_index
       then ThreadReturn else ThreadWait)
  end.

(** The critical section at the end of the loop (lines 1779-1782). *)
Definition CreationThread_done (p : CreationPool) : CreationPool :=
  {| creation_threads_ := creation_threads_ p;
     creation_queue_ := creation_queue_ p;
     creation_threads_busy_ := creation_threads_busy_ p - 1;
     creation_completion_event_ := creation_completion_event_ p;
     creation_completion_set_event_ := creation_completion_set_event_ p;
     creation_threads_shutdown_from_ := creation_threads_shutdown_from_ p |}.

(** Where a creation thread is: at the head of its loop (waiting on the
    condition variable or about to take the lock), creating the object of a
    dequeued pipeline state, about to take the lock to count itself out, or
    gone. *)
Inductive ThreadPc :=
| AtCheck
| Creating (pipeline_state_to_create : ptr)
| Finishing
| Exited.

Definition thread_busy (pc : ThreadPc) : bool :=
  match pc with
  | Creating _ | Finishing => true
  | _ => false
  end.

(** The cache together with its creation threads; thread [i] is the one
    started with index [i]. *)
Record System := {
  sys_cache : PipelineCache;
  sys_threads : list ThreadPc
}.

Section Pool.
Context `{ext : Externals}.

(** One atomic step of creation thread [i]; [None] when the thread cannot
    move (it does not exist or has returned) or dereferences a dead
    pointer. *)
Definition thread_step (i : nat) (s : System) : option System :=
  pc ← sys_threads s !! i;
  let c := sys_cache s in
  match pc with
  | AtCheck =>
      let '(p, action) := CreationThread_check (Z.of_nat i) (pool c) in
      Some {| sys_cache := set_pool p c;
              sys_threads :=
                <[i := match action with
                       | ThreadReturn => Exited
                       | ThreadWait => AtCheck
                       | ThreadCreate ps => Creating ps
                       end]> (sys_threads s) |}
  | Creating ps =>
      st ← pipeline_heap c !! ps;
      Some {| sys_cache :=
                set_pipeline_state_object ps
                  {| state :=
                       CreateD3D12PipelineState c (runtime_description st);
                     runtime_description := runtime_description st |} c;
              sys_threads := <[i := Finishing]> (sys_threads s) |}
  | Finishing =>
      Some {| sys_cache := set_pool (CreationThread_done (pool c)) c;
              sys_threads := <[i := AtCheck]> (sys_threads s) |}
  | Exited => None
  end.

(** Any number of steps of the creation threads, in any order. *)
Inductive threads_run : System -> System -> Prop :=
| threads_run_refl s : threads_run s s
| threads_run_step i s s' s'' :
    thread_step i s = Some s' -> threads_run s' s'' -> threads_run s s''.

(** The first part of [PipelineCache::ClearCache] (lines 147-172), up to the
    release of the lock: the cache, and [await_creation_completion_event]. *)
Definition ClearCache_quiesce (c : PipelineCache) : PipelineCache * bool :=
  let c1 := set_current_pipeline_state None (ShutdownShaderStorage c) in
  match creation_threads_ (pool c1) with
  | _ :: _ =>
      let await_creation_completion_event :=
        negb (creation_threads_busy_ (pool c1) =? 0) in
      (set_pool
         {| creation_threads_ := creation_threads_ (pool c1);
            creation_queue_ := [];
            creation_threads_busy_ := creation_threads_busy_ (pool c1);
            creation_completion_event_ :=
              if await_creation_completion_event then false
              else creation_completion_event_ (pool c1);
            creation_completion_set_event_ :=
              if await_creation_completion_event then true
              else creation_completion_set_event_ (pool c1);
            creation_threads_shutdown_from_ :=
              creation_threads_shutdown_from_ (pool c1) |} c1,
       await_creation_completion_event)
  | [] => (c1, false)
  end.

(** Lines 180-183: [it.second->state->Release(); delete it.second;] for
    every entry; [None] when an entry points to no live object or its
    [state] is null. *)
Fixpoint destroy_pipeline_states (table : list (Z * ptr))
    (heap : gmap ptr PipelineState) : option (gmap ptr PipelineState) :=
  match table with
  | [] => Some heap
  | (_, p) :: rest =>
      st ← heap !! p;
      _ ← state st;
      destroy_pipeline_states rest (delete p heap)
  end.

(** Lines 188-190. *)
Fixpoint destroy_shaders (shaders : list (Z * ptr))
    (heap : gmap ptr D3D12Shader) : option (gmap ptr D3D12Shader) :=
  match shaders with
  | [] => Some heap
  | (_, p) :: rest =>
      _ ← heap !! p;
      destroy_shaders rest (delete p heap)
  end.

(** Lines 179-191. *)
Definition ClearCache_destroy (c : PipelineCache) : option PipelineCache :=
  pipelines ← destroy_pipeline_states (pipeline_states_ c) (pipeline_heap c);
  shaders ← destroy_shaders (map_to_list (shader_map_ c)) (shader_heap c);
  Some (set_shaders ∅ shaders (next_object c)
          (set_pipeline_states [] pipelines (next_object c) c)).

(** [PipelineCache::ClearCache] (lines 146-197) from a system [s] with the
    files of [disk]: the lock is released after the queue is emptied, the
    creation threads run, the wait (if any) returns once the event is
    signalled, and the objects are destroyed; the storage is initialized
    again when it was in use and the cache is not shutting down. *)
Inductive ClearCache_run (shutting_down : bool) (disk : Disk) (s : System)
  : System -> Disk -> Prop :=
| ClearCache_run_intro c1 await s2 c3 c4 disk' :
    ClearCache_quiesce (sys_cache s) = (c1, await) ->
    threads_run {| sys_cache := c1; sys_threads := sys_threads s |} s2 ->
    (await = true ->
     creation_completion_event_ (pool (sys_cache s2)) = true) ->
    ClearCache_destroy (sys_cache s2) = Some c3 ->
    (if negb shutting_down && storage_write_thread_ (storage (sys_cache s))
     then InitializeShaderStorage
            (shader_storage_root_ (storage (sys_cache s)))
            (shader_storage_title_id_ (storage (sys_cache s))) false disk c3
     else Some (c3, disk)) = Some (c4, disk') ->
    ClearCache_run shutting_down disk s
      {| sys_cache := c4; sys_threads := sys_threads s2 |} disk'.

End Pool.

(** ** A concrete host

    The collaborators of the examples: the real hash, and a translator, a
    root signature provider and a device simple enough to run. *)
Module Example.

(** Modelled from the spec: the translator ([DxbcShaderTranslator]) is not
    among the sources.  Section 4.2: a shader whose translation fails is
    marked Failed, one whose translation succeeds Translated; here the
    microcode that starts with a zero word is the one that fails. *)
Definition translate (s : D3D12Shader) (patch : PrimitiveType) (cntl : Z)
  : Translation :=
  let ok := match ucode_dwords s with
            | 0 :: _ => false
            | _ => true
            end in
  {| tr_result := ok; tr_is_translated := true; tr_is_valid := ok;
     tr_binary := dwords_bytes (ucode_dwords s) |}.

(** A root signature exists for every vertex shader that has microcode. *)
Definition root_signature_of (vs : D3D12Shader) (ps : option D3D12Shader)
    (tessellated : bool) : option RootSignature :=
  match ucode_dwords vs with
  | [] => None
  | _ => Some (if tessellated then 2 else 1)
  end.

Definition create_state (rd : PipelineRuntimeDescription)
    (vs ps : option D3D12Shader) : option PipelineStateHandle :=
  match vs with
  | Some v => if is_valid v then Some (ucode_data_hash v) else None
  | None => None
  end.

Definition externals (processors creation_threads : Z) : Externals :=
  {| XXH64 := XXHash.XXH64;
     Translate := translate;
     GetRootSignature := root_signature_of;
     CreateGraphicsPipelineState := create_state;
     GetFixedFunctionState := fun _ req _ =>
       le_bytes 4 (if req_early_z req then 1 else 0);
     sizeof_fixed_function_state := 4;
     logical_processor_count := processors;
     cvars_d3d12_tessellation_adaptive := false;
     cvars_d3d12_pipeline_creation_threads := creation_threads;
     CreateFolder := fun _ => true;
     host_allocates := fun words => words <=? 0x10000000;
     ShaderType_of_code := fun z => if z =? 0 then kVertex else kPixel;
     PrimitiveType_of_code := fun z => if z =? 0 then kNone
                                       else kOtherPrimitive z;
     ShaderStoredHeader_kVersion := 0x20200301;
     PipelineDescription_kVersion := 0x20200309 |}.

Definition registers : RegisterFile :=
  {| PA_SU_SC_MODE_CNTL_multi_prim_ib_ena := false;
     VGT_HOS_CNTL_tess_mode := kDiscrete;
     SQ_PROGRAM_CNTL := 0x10030002;
     register_values := [] |}.

Definition draw (vs : ptr) (ps : option ptr) (early_z : bool) : DrawRequest :=
  {| req_vertex_shader := vs; req_pixel_shader := ps;
     req_tessellated := false; req_primitive_type := kRectangleList;
     req_index_format := kInt16; req_early_z := early_z;
     req_render_targets := []; req_regs := registers |}.

(** A cache without creation threads. *)
Definition cache0 : PipelineCache :=
  @Initialize (externals 8 0) (new_PipelineCache false).

(** A cache with two creation threads. *)
Definition cache2 : PipelineCache :=
  @Initialize (externals 8 2) (new_PipelineCache false).

(** Microcode that translates, microcode that does not, and microcode whose
    hash is zero. *)
Definition ucode_good : list Z := [0x10001001; 0x00001200; 0xC4000000].
Definition ucode_bad : list Z := [0; 0x00001200].

(** The description of a draw with the shader of [ucode_good] and, as pixel
    shader, object 2. *)
Definition zero_hash_draw_description : PipelineRuntimeDescription :=
  {| vertex_shader := Some 1%nat; pixel_shader := Some 2%nat;
     root_signature := Some 1;
     description :=
       {| vertex_shader_hash := XXHash.XXH64 (dwords_bytes ucode_good) 0;
          pixel_shader_hash := 0; strip_cut_index := 0;
          tessellation_mode := 0; primitive_topology_type := 2;
          patch_type := 0; geometry_shader := 2;
          fixed_function_state := le_bytes 4 0 |} |}.

(** The header of a shader stream of the current version, and a stored
    vertex shader with the given stored hash and microcode. *)
Definition shader_stream_header : list byte :=
  le_bytes 4 shader_storage_magic ++ rev (le_bytes 4 0x20200301).

Definition stored_shader (stored_hash : Z) (dwords : list Z) : list byte :=
  ShaderStoredHeader_bytes
    {| header_ucode_data_hash := stored_hash;
       header_ucode_dword_count := Z.of_nat (length dwords);
       header_type := 0; header_patch_primitive_type := 0;
       header_sq_program_cntl := 0x10030002 |} ++
  dwords_bytes dwords.

Definition hash_of (dwords : list Z) : Z :=
  XXHash.XXH64 (dwords_bytes dwords) 0.

(** A stream with one stored shader whose payload is not the microcode its
    stored hash is the hash of. *)
Definition stream_with_known_hash : list byte :=
  shader_stream_header ++ stored_shader (hash_of ucode_good) [0xDEADBEEF].

(** A stream that stores [ucode_good], and then a record with the same
    stored hash over another payload. *)
Definition stream_with_repeated_hash : list byte :=
  shader_stream_header ++ stored_shader (hash_of ucode_good) ucode_good ++
  stored_shader (hash_of ucode_good) [0xDEADBEEF].

(** A stream that stores [ucode_good] and ends with the header of a shader
    of 0xFFFFFFFE words, under a hash the stream has not stored, and no
    byte of its microcode. *)
Definition stream_with_unallocated_count : list byte :=
  shader_stream_header ++ stored_shader (hash_of ucode_good) ucode_good ++
  ShaderStoredHeader_bytes
    {| header_ucode_data_hash := 1;
       header_ucode_dword_count := 0xFFFFFFFE;
       header_type := 0; header_patch_primitive_type := 0;
       header_sq_program_cntl := 0x10030002 |}.

(** [ucode_good] as a stored shader: the bytes of its header and of its
    microcode. *)
Definition stored_good : list byte * list byte :=
  (ShaderStoredHeader_bytes
     {| header_ucode_data_hash := hash_of ucode_good;
        header_ucode_dword_count := 3;
        header_type := 0; header_patch_primitive_type := 0;
        header_sq_program_cntl := 0x10030002 |},
   dwords_bytes ucode_good).

(** The header of a pipeline state stream of the render-target mode and of
    the current version, and a description stored with its hash. *)
Definition pipeline_stream_header : list byte :=
  le_bytes 4 pipeline_state_storage_magic ++
  le_bytes 4 (pipeline_state_storage_magic_api false) ++
  rev (le_bytes 4 0x20200309).

Definition stored_pipeline_state (d : PipelineDescription) : list byte :=
  le_bytes 8 (XXHash.XXH64 (PipelineDescription_bytes d) 0) ++
  PipelineDescription_bytes d.

End Example.

(** ** Streams with a valid prefix

    The streams of section 4.5: a header, records that are valid, and
    trailing bytes at which the load stops. *)
Section ValidPrefix.
Context `{ext : Externals}.

(** A stored shader, as the bytes of its header and of its microcode. *)
Definition StoredShader : Type := list byte * list byte.

Definition stored_shader_bytes (r : StoredShader) : list byte := r.1 ++ r.2.

Definition stored_shader_hash (r : StoredShader) : Z :=
  header_ucode_data_hash (ShaderStoredHeader_of_bytes r.1).

(** The record is whole and its stored hash is the hash of its microcode. *)
Definition stored_shader_valid (r : StoredShader) : Prop :=
  length r.1 = sizeof_ShaderStoredHeader /\
  length r.2 =
    Z.to_nat (header_ucode_dword_count (ShaderStoredHeader_of_bytes r.1) * 4) /\
  stored_shader_hash r = XXH64 r.2 0.

(** Trailing bytes that are no record: too short for a header, or a
    header that is followed by too few bytes, or by bytes with another
    hash than the stored one.  The stored hash is not one the load knows:
    it is no key of the shader map and no hash of a record before.  When
    the bytes that follow the header are too few, the word count of the
    header is one that [ucode_dwords] has reserved room for or that the
    host allocates. *)
Definition shader_trailing_rejected (c : PipelineCache)
    (records : list StoredShader) (trailing : list byte) : Prop :=
  (length trailing < sizeof_ShaderStoredHeader)%nat \/
  (let h :=
     ShaderStoredHeader_of_bytes (firstn sizeof_ShaderStoredHeader trailing) in
   let n := Z.to_nat (header_ucode_dword_count h * 4) in
   shader_map_ c !! header_ucode_data_hash h = None /\
   (header_ucode_data_hash h ∉ stored_shader_hash <$> records) /\
   ((length trailing < sizeof_ShaderStoredHeader + n)%nat \/
    header_ucode_data_hash h <>
      XXH64 (firstn n (skipn sizeof_ShaderStoredHeader trailing)) 0) /\
   ((length trailing < sizeof_ShaderStoredHeader + n)%nat ->
    header_ucode_dword_count h <= 0xFFFF \/
    host_allocates (header_ucode_dword_count h) = true)).

(** What the loop does with a valid record whose hash it does not know. *)
Definition accept_stored_shader (r : StoredShader) (st : ShaderLoad)
  : ShaderLoad :=
  let h := ShaderStoredHeader_of_bytes r.1 in
  let c := load_cache st in
  {| load_pos := (load_pos st + sizeof_ShaderStoredHeader + length r.2)%nat;
     shader_storage_valid_bytes :=
       (shader_storage_valid_bytes st +
        (sizeof_ShaderStoredHeader + length r.2))%nat;
     load_cache :=
       set_shaders (<[XXH64 r.2 0 := next_object c]> (shader_map_ c))
         (<[next_object c :=
              new_D3D12Shader (ShaderType_of_code (header_type h))
                (XXH64 r.2 0)
                (bytes_dwords (Z.to_nat (header_ucode_dword_count h)) r.2)]>
            (shader_heap c))
         (S (next_object c)) c;
     shaders_to_translate := shaders_to_translate st ++ [(h, next_object c)];
     shaders_translated := S (shaders_translated st);
     shader_translation_threads :=
       shader_translation_threads st || (1 <=? processor_count - 1);
     ucode_dwords_capacity :=
       Z.max (ucode_dwords_capacity st) (header_ucode_dword_count h) |}.

Definition accept_stored_shaders (records : list StoredShader)
    (st : ShaderLoad) : ShaderLoad :=
  fold_left (fun st r => accept_stored_shader r st) records st.

(** A stored pipeline state is valid when its description hashes to the
    stored hash. *)
Definition stored_pipeline_state_valid (r : PipelineStoredDescription) : bool :=
  XXH64 (PipelineDescription_bytes (stored_description r)) 0 =?
  description_hash r.

(** Trailing bytes that are no record of the pipeline state stream: less
    than a record, or a first record that is not valid. *)
Definition pipeline_trailing_rejected (trailing : list byte) : Prop :=
  (length trailing < sizeof_PipelineStoredDescription)%nat \/
  stored_pipeline_state_valid
    (PipelineStoredDescription_of_bytes
       (firstn sizeof_PipelineStoredDescription trailing)) = false.

(** The shaders queued by the load are distinct live objects. *)
Definition queued_shaders_live (st : ShaderLoad) : Prop :=
  NoDup (snd <$> shaders_to_translate st) /\
  forall p, p ∈ snd <$> shaders_to_translate st ->
    (p < next_object (load_cache st))%nat /\
    is_Some (shader_heap (load_cache st) !! p).


(** Every pointer the cache holds is to a live object. *)
Definition cache_live (c : PipelineCache) : Prop :=
  (forall h p, (h, p) ∈ pipeline_states_ c -> is_Some (pipeline_heap c !! p)) /\
  (forall h p, shader_map_ c !! h = Some p -> is_Some (shader_heap c !! p)) /\
  (forall p, p ∈ creation_queue_ (pool c) -> is_Some (pipeline_heap c !! p)).

End ValidPrefix.

(** ** The pipeline state table *)
Section Table.
Context `{ext : Externals}.

Definition entry_description (st : PipelineState) : list byte :=
  PipelineDescription_bytes (description (runtime_description st)).

(** The table as the facade and the replay keep it: every entry is a live
    object stored under the hash of its description, no two entries have
    byte-equal descriptions, the allocator is ahead of every pipeline state,
    and the fast-path slot is empty or an entry of the table. *)
Definition table_inv (c : PipelineCache) : Prop :=
  (forall h p, (h, p) ∈ pipeline_states_ c ->
     exists st, pipeline_heap c !! p = Some st /\
                h = XXH64 (entry_description st) 0) /\
  (forall h1 p1 st1 h2 p2 st2,
     (h1, p1) ∈ pipeline_states_ c -> (h2, p2) ∈ pipeline_states_ c ->
     pipeline_heap c !! p1 = Some st1 -> pipeline_heap c !! p2 = Some st2 ->
     entry_description st1 = entry_description st2 -> p1 = p2) /\
  (forall p, is_Some (pipeline_heap c !! p) -> (p < next_object c)%nat) /\
  (forall cur, current_pipeline_state_ c = Some cur ->
     exists h, (h, cur) ∈ pipeline_states_ c).

(** [e] is the entry of the table for the description [d]. *)
Definition entry_for (c : PipelineCache) (d : PipelineDescription) (e : ptr)
  : Prop :=
  exists h st,
    (h, e) ∈ pipeline_states_ c /\ pipeline_heap c !! e = Some st /\
    entry_description st = PipelineDescription_bytes d.

(** One call of the facade on the thread that owns it: a shader is loaded
    or a pipeline is configured. *)
Inductive facade_step (c : PipelineCache) : PipelineCache -> Prop :=
| facade_LoadShader type guest_address host_address :
    facade_step c (LoadShader type guest_address host_address c).2
| facade_ConfigurePipeline req stack r c' :
    ConfigurePipeline req stack c = Some (r, c') -> facade_step c c'.

(** What the calls between lookup and insertion leave alone. *)
Definition same_table (c c' : PipelineCache) : Prop :=
  pipeline_states_ c' = pipeline_states_ c /\
  pipeline_heap c' = pipeline_heap c /\
  next_object c' = next_object c /\
  current_pipeline_state_ c' = current_pipeline_state_ c /\
  pool c' = pool c.

(** The ways through [ConfigurePipeline]: the description is not built; the
    fast-path slot holds it; the table holds it; a shader does not
    translate; a new pipeline state is inserted. *)
Inductive ConfigureOutcome (c : PipelineCache) (req : DrawRequest)
    (stack : PipelineRuntimeDescription)
  : option (ptr * option RootSignature) -> PipelineCache -> Prop :=
| outcome_not_built rd :
    GetCurrentStateDescription c req stack = Some (false, rd) ->
    ConfigureOutcome c req stack None c
| outcome_fast rd cur st :
    GetCurrentStateDescription c req stack = Some (true, rd) ->
    current_pipeline_state_ c = Some cur ->
    pipeline_heap c !! cur = Some st ->
    entry_description st = PipelineDescription_bytes (description rd) ->
    ConfigureOutcome c req stack (Some (cur, root_signature rd)) c
| outcome_found rd p st :
    GetCurrentStateDescription c req stack = Some (true, rd) ->
    find_pipeline_state (pipeline_heap c) (pipeline_states_ c)
      (XXH64 (PipelineDescription_bytes (description rd)) 0)
      (description rd) = Some (Some p) ->
    pipeline_heap c !! p = Some st ->
    ConfigureOutcome c req stack
      (Some (p, root_signature (runtime_description st)))
      (set_current_pipeline_state (Some p) c)
| outcome_not_translated rd c1 :
    GetCurrentStateDescription c req stack = Some (true, rd) ->
    find_pipeline_state (pipeline_heap c) (pipeline_states_ c)
      (XXH64 (PipelineDescription_bytes (description rd)) 0)
      (description rd) = Some None ->
    same_table c c1 ->
    ConfigureOutcome c req stack None c1
| outcome_inserted rd c1 :
    GetCurrentStateDescription c req stack = Some (true, rd) ->
    find_pipeline_state (pipeline_heap c) (pipeline_states_ c)
      (XXH64 (PipelineDescription_bytes (description rd)) 0)
      (description rd) = Some None ->
    same_table c c1 ->
    ConfigureOutcome c req stack
      (Some (next_object c1, root_signature rd))
      (set_current_pipeline_state (Some (next_object c1))
         (queue_pipeline_state_write
            (XXH64 (PipelineDescription_bytes (description rd)) 0)
            (description rd)
            (insert_pipeline_state
               (XXH64 (PipelineDescription_bytes (description rd)) 0) rd c1).2)).

End Table.

(** ** The creation threads and the cache *)

Definition count_busy (threads : list ThreadPc) : nat :=
  length (filter (fun pc => thread_busy pc = true) threads).

(** [creation_threads_busy_] counts the threads that hold a dequeued
    pipeline state, there is a thread for every entry of
    [creation_threads_], and nothing is queued for no thread. *)
Definition pool_inv (s : System) : Prop :=
  creation_threads_busy_ (pool (sys_cache s)) =
    Z.of_nat (count_busy (sys_threads s)) /\
  length (sys_threads s) = length (creation_threads_ (pool (sys_cache s))) /\
  (creation_threads_ (pool (sys_cache s)) = [] ->
   creation_queue_ (pool (sys_cache s)) = []).

(** While the queue is empty the creation threads keep it empty and keep
    the count of the busy ones; when a wait is armed they set the event
    only with no thread busy, and when none is busy none becomes busy. *)
Definition quiescing (await : bool) (s : System) : Prop :=
  creation_threads_busy_ (pool (sys_cache s)) =
    Z.of_nat (count_busy (sys_threads s)) /\
  creation_queue_ (pool (sys_cache s)) = [] /\
  (if await
   then creation_completion_event_ (pool (sys_cache s)) = true ->
        creation_threads_busy_ (pool (sys_cache s)) = 0
   else creation_threads_busy_ (pool (sys_cache s)) = 0).

(** What the creation threads do not touch. *)
Definition same_maps (c c' : PipelineCache) : Prop :=
  pipeline_states_ c' = pipeline_states_ c /\
  shader_map_ c' = shader_map_ c /\
  shader_heap c' = shader_heap c /\
  current_pipeline_state_ c' = current_pipeline_state_ c /\
  storage c' = storage c.

Section Schedules.
Context `{ext : Externals}.

(** The creation threads taking steps in the order of [schedule]. *)
Fixpoint run_schedule (schedule : list nat) (s : System) : option System :=
  match schedule with
  | [] => Some s
  | i :: rest => thread_step i s ≫= run_schedule rest
  end.

(** [ClearCache] when it does not have to wait and no creation thread
    moves meanwhile. *)
Definition ClearCache_sequential (shutting_down : bool) (disk : Disk)
    (c : PipelineCache) : option (PipelineCache * Disk) :=
  let '(c1, await) := ClearCache_quiesce c in
  if await then None
  else
    c3 ← ClearCache_destroy c1;
    if negb shutting_down && storage_write_thread_ (storage c)
    then InitializeShaderStorage (shader_storage_root_ (storage c))
           (shader_storage_title_id_ (storage c)) false disk c3
    else Some (c3, disk).

End Schedules.

(** ** Scenarios on the concrete host *)
Module Scenario.

Definition E : Externals := Example.externals 8 0.
Definition E2 : Externals := Example.externals 8 2.

Definition after {A} (r : option (A * PipelineCache)) (c : PipelineCache)
  : PipelineCache :=
  match r with
  | Some (_, c') => c'
  | None => c
  end.

(** The description of a draw with the shader of [ucode_good] alone. *)
Definition draw_description (early_z : bool) : PipelineRuntimeDescription :=
  {| vertex_shader := Some 1%nat; pixel_shader := None;
     root_signature := Some 1;
     description :=
       {| vertex_shader_hash := Example.hash_of Example.ucode_good;
          pixel_shader_hash := 0; strip_cut_index := 0;
          tessellation_mode := 0; primitive_topology_type := 2;
          patch_type := 0; geometry_shader := 2;
          fixed_function_state := le_bytes 4 (if early_z then 1 else 0) |} |}.

(** A shader is loaded; a draw is configured; then a draw that differs in
    the early-Z flag. *)
Definition loaded : PipelineCache :=
  (@LoadShader E kVertex 0 Example.ucode_good Example.cache0).2.

Definition configured : PipelineCache :=
  after (@ConfigurePipeline E (Example.draw 1%nat None false)
           (@zero_runtime_description E) loaded) loaded.

Definition configured_twice : PipelineCache :=
  after (@ConfigurePipeline E (Example.draw 1%nat None true)
           (@zero_runtime_description E) configured) configured.

(** A disk with a shader stream that stores [ucode_good] and an empty
    pipeline state stream, and the cache after the storage is initialized
    from it. *)
Definition disk0 : Disk :=
  fun path =>
    match path with
    | ShaderStoragePath _ _ =>
        Some (Example.shader_stream_header ++
              Example.stored_good.1 ++ Example.stored_good.2)
    | PipelineStateStoragePath _ _ _ => Some Example.pipeline_stream_header
    end.

Definition started : option (PipelineCache * Disk) :=
  @InitializeShaderStorage E "game" 0x415607E6 false disk0 Example.cache0.

Definition with_storage : PipelineCache :=
  match started with
  | Some (c, _) => c
  | None => Example.cache0
  end.

Definition disk1 : Disk :=
  match started with
  | Some (_, d) => d
  | None => disk0
  end.

Definition cleared : option (PipelineCache * Disk) :=
  @ClearCache_sequential E false disk1 with_storage.

Definition cleared_cache : PipelineCache :=
  match cleared with
  | Some (c, _) => c
  | None => with_storage
  end.

Definition cleared_disk : Disk :=
  match cleared with
  | Some (_, d) => d
  | None => disk1
  end.

(** Two creation threads; a draw is configured, and thread 0 has taken its
    pipeline state from the queue. *)
Definition queued : PipelineCache :=
  let c := (@LoadShader E2 kVertex 0 Example.ucode_good Example.cache2).2 in
  after (@ConfigurePipeline E2 (Example.draw 1%nat None false)
           (@zero_runtime_description E2) c) c.

Definition busy : System :=
  default {| sys_cache := queued; sys_threads := [AtCheck; AtCheck] |}
    (@run_schedule E2 [0%nat]
       {| sys_cache := queued; sys_threads := [AtCheck; AtCheck] |}).

(** [ClearCache] on it: the lock is released with the wait armed, thread 0
    creates the object, counts itself out and signals the event. *)
Definition busy_armed : System :=
  {| sys_cache := (ClearCache_quiesce (sys_cache busy)).1;
     sys_threads := sys_threads busy |}.

Definition busy_signalled : System :=
  default busy_armed (@run_schedule E2 [0%nat; 0%nat; 0%nat] busy_armed).

Definition busy_cleared : System :=
  {| sys_cache :=
       default (sys_cache busy_signalled)
         (ClearCache_destroy (sys_cache busy_signalled));
     sys_threads := sys_threads busy_signalled |}.

End Scenario.

(** ** The storage writing thread *)

(** [xe::copy_and_swap] on 32-bit elements (xenia/base/memory.h is not among
    the sources): every element goes through [xe::byte_swap]. *)
Definition copy_and_swap (dwords : list Z) : list Z := byte_swap32 <$> dwords.

(** [fwrite(buffer, size, 1, file)] on a stream opened with "a+b": the bytes
    go to the end of the file. *)
Definition fwrite (bs : list byte) (f : FILE) (d : Disk) : Disk :=
  disk_write (file_path f) (disk_read d (file_path f) ++ bs) d.

(** The writing thread: the cache whose queues it serves, the files, its
    locals [flush_shaders] and [flush_pipeline_states], and the [fflush]
    calls it has made, latest last ([None] is [fflush] of a null stream). *)
Record StorageWriter := {
  writer_cache : PipelineCache;
  writer_disk : Disk;
  flush_shaders : bool;
  flush_pipeline_states : bool;
  writer_fflushed : list (option FILE)
}.

(** How an iteration of the loop of [StorageWriteThread] ends: with
    [return], in [storage_write_request_cond_.wait], or at the end of the
    body after writing. *)
Inductive StorageWriterStatus := WriterReturned | WriterWaiting | WriterWrote.

Definition set_storage_write_requests (shader_queue : list (ptr * Z))
    (pipeline_state_queue : list PipelineStoredDescription)
    (write_flush_shaders write_flush_pipeline_states : bool)
    (s : ShaderStorage) : ShaderStorage :=
  {| shader_storage_file_ := shader_storage_file_ s;
     pipeline_state_storage_file_ := pipeline_state_storage_file_ s;
     shader_storage_file_flush_needed_ := shader_storage_file_flush_needed_ s;
     pipeline_state_storage_file_flush_needed_ :=
       pipeline_state_storage_file_flush_needed_ s;
     storage_write_thread_ := storage_write_thread_ s;
     storage_write_shader_queue_ := shader_queue;
     storage_write_pipeline_state_queue_ := pipeline_state_queue;
     storage_write_flush_shaders_ := write_flush_shaders;
     storage_write_flush_pipeline_states_ := write_flush_pipeline_states;
     shader_storage_root_ := shader_storage_root_ s;
     shader_storage_title_id_ := shader_storage_title_id_ s |}.

Section StorableRecords.
Context `{ext : Externals}.

(** A stored description that the stream can hold: it is stored with the
    hash of its bytes, the hash fits its field, and the description has the
    size of a [PipelineDescription]. *)
Definition storable_pipeline_state (r : PipelineStoredDescription) : Prop :=
  description_hash r =
    XXH64 (PipelineDescription_bytes (stored_description r)) 0 /\
  0 <= description_hash r < 2 ^ 64 /\
  length (fixed_function_state (stored_description r)) =
    sizeof_fixed_function_state.

(** Every shader of the map is a live object that was allocated before and
    is neither translated nor valid. *)
Definition shaders_untranslated (c : PipelineCache) : Prop :=
  forall (h : Z) (p : ptr), shader_map_ c !! h = Some p ->
    (p < next_object c)%nat /\
    exists s, shader_heap c !! p = Some s /\
              is_translated s = false /\ is_valid s = false.

End StorableRecords.

(** The accessors of [Shader] (xenia/gpu/shader.h) that this file calls and
    the shader object of the model does not record: the microcode as the
    object keeps it, the patch primitive type it was translated for, and the
    values of the enumerators of [ShaderType] and [PrimitiveType]. *)
Class ShaderAccessors := {
  Shader_ucode_dwords : D3D12Shader -> list Z;
  Shader_patch_primitive_type : D3D12Shader -> PrimitiveType;
  ShaderType_code : ShaderType -> Z;
  PrimitiveType_code : PrimitiveType -> Z
}.

Section StorageWriter.
Context `{ext : Externals} `{acc : ShaderAccessors}.

(** Lines 1713-1729: the header and the microcode written for a shader. *)
Definition written_shader_header (shader : D3D12Shader) (sq_program_cntl : Z)
  : ShaderStoredHeader :=
  {| header_ucode_data_hash := ucode_data_hash shader;
     header_ucode_dword_count :=
       Z.of_nat (length (Shader_ucode_dwords shader));
     header_type := ShaderType_code (shader_type shader);
     header_patch_primitive_type :=
       PrimitiveType_code (Shader_patch_primitive_type shader);
     header_sq_program_cntl := sq_program_cntl |}.

Definition written_shader_ucode (shader : D3D12Shader) : list byte :=
  if Z.of_nat (length (Shader_ucode_dwords shader)) =? 0 then []
  else
    (* Need to swap because the hash is calculated for the shader with guest
       endianness. *)
    dwords_bytes (copy_and_swap (Shader_ucode_dwords shader)).

Definition written_shader (shader : D3D12Shader) (sq_program_cntl : Z)
  : list byte :=
  ShaderStoredHeader_bytes (written_shader_header shader sq_program_cntl) ++
  written_shader_ucode shader.

(** A shader object that the stream can hold: the object keeps its
    microcode byte-swapped, its hash is the hash of the microcode it was
    made from, and hash, length, words and type fit their fields. *)
Definition storable_shader (s : D3D12Shader) : Prop :=
  copy_and_swap (Shader_ucode_dwords s) = ucode_dwords s /\
  ucode_data_hash s = XXH64 (dwords_bytes (ucode_dwords s)) 0 /\
  0 <= ucode_data_hash s < 2 ^ 64 /\
  Z.of_nat (length (ucode_dwords s)) < 2 ^ 32 /\
  Forall (fun w => 0 <= w < 2 ^ 32) (ucode_dwords s) /\
  ShaderType_of_code (ShaderType_code (shader_type s) mod 256) = shader_type s.

(** The record of a queued shader, as header and microcode. *)
Definition written_shader_record (heap : gmap ptr D3D12Shader)
    (pair : ptr * Z) : StoredShader :=
  match heap !! pair.1 with
  | Some s =>
      (ShaderStoredHeader_bytes (written_shader_header s pair.2),
       written_shader_ucode s)
  | None => ([], [])
  end.

(** What the thread writes for a queue of shaders and for a queue of
    pipeline state descriptions. *)
Definition written_shaders (heap : gmap ptr D3D12Shader)
    (queue : list (ptr * Z)) : list byte :=
  concat ((fun pair : ptr * Z =>
             match heap !! pair.1 with
             | Some s => written_shader s pair.2
             | None => []
             end) <$> queue).

Definition written_pipeline_states (queue : list PipelineStoredDescription)
  : list byte :=
  concat (PipelineStoredDescription_bytes <$> queue).

(** One iteration of the [while (true)] of [StorageWriteThread] (lines
    1668-1737), with [storage_write_thread_shutdown_] as the thread finds
    it; the queues are not touched by another thread during the iteration.
    [None] is a dereference of a dead shader or of a null stream. *)
Definition StorageWriteThread_iteration (shutdown : bool) (w : StorageWriter)
  : option (StorageWriter * StorageWriterStatus) :=
  let c := writer_cache w in
  let st := storage c in
  let fflushed1 :=
    if flush_shaders w
    then writer_fflushed w ++ [shader_storage_file_ st]
    else writer_fflushed w in
  let fflushed2 :=
    if flush_pipeline_states w
    then fflushed1 ++ [pipeline_state_storage_file_ st]
    else fflushed1 in
  if shutdown then
    Some ({| writer_cache := c; writer_disk := writer_disk w;
             flush_shaders := false; flush_pipeline_states := false;
             writer_fflushed := fflushed2 |}, WriterReturned)
  else
    let '(shader_pair, shader_queue, write_flush_shaders, flush_shaders') :=
      match storage_write_shader_queue_ st with
      | front :: rest =>
          (Some front, rest, storage_write_flush_shaders_ st, false)
      | [] =>
          if storage_write_flush_shaders_ st then (None, [], false, true)
          else (None, [], false, false)
      end in
    let '(pipeline_description, pipeline_state_queue,
          write_flush_pipeline_states, flush_pipeline_states') :=
      match storage_write_pipeline_state_queue_ st with
      | front :: rest =>
          (Some front, rest, storage_write_flush_pipeline_states_ st, false)
      | [] =>
          if storage_write_flush_pipeline_states_ st
          then (None, [], false, true)
          else (None, [], false, false)
      end in
    let c' :=
      set_storage
        (set_storage_write_requests shader_queue pipeline_state_queue
           write_flush_shaders write_flush_pipeline_states st) c in
    match shader_pair, pipeline_description with
    | None, None =>
        Some ({| writer_cache := c'; writer_disk := writer_disk w;
                 flush_shaders := flush_shaders';
                 flush_pipeline_states := flush_pipeline_states';
                 writer_fflushed := fflushed2 |}, WriterWaiting)
    | _, _ =>
        disk1 ←
          match shader_pair with
          | Some (shader, sq_program_cntl) =>
              s ← shader_heap c !! shader;
              file ← shader_storage_file_ st;
              Some (fwrite (written_shader s sq_program_cntl) file
                      (writer_disk w))
          | None => Some (writer_disk w)
          end;
        disk2 ←
          match pipeline_description with
          | Some stored =>
              file ← pipeline_state_storage_file_ st;
              Some (fwrite (PipelineStoredDescription_bytes stored) file disk1)
          | None => Some disk1
          end;
        Some ({| writer_cache := c'; writer_disk := disk2;
                 flush_shaders := flush_shaders';
                 flush_pipeline_states := flush_pipeline_states';
                 writer_fflushed := fflushed2 |}, WriterWrote)
    end.

(** The thread from the head of its loop until it returns or waits; every
    iteration that goes on takes a record from a queue. *)
Fixpoint StorageWriteThread_run (fuel : nat) (shutdown : bool)
    (w : StorageWriter) : option (StorageWriter * StorageWriterStatus) :=
  match fuel with
  | O => Some (w, WriterWrote)
  | S fuel' =>
      '(w', status) ← StorageWriteThread_iteration shutdown w;
      match status with
      | WriterWrote => StorageWriteThread_run fuel' shutdown w'
      | _ => Some (w', status)
      end
  end.

End StorageWriter.

(** What the load of the shader stream leaves alone: the entries of the
    table, their objects, the fast-path slot, the storage state and the
    creation threads are the same, and the allocator has not gone back. *)
Definition table_kept (c c' : PipelineCache) : Prop :=
  pipeline_states_ c' = pipeline_states_ c /\
  pipeline_heap c' = pipeline_heap c /\
  current_pipeline_state_ c' = current_pipeline_state_ c /\
  storage c' = storage c /\
  pool c' = pool c /\
  (next_object c <= next_object c')%nat.

(** ** The shader stages of a pipeline state

    The front of [CreateD3D12PipelineState] (lines 1308-1467): the strip cut
    value, the vertex, hull, domain and geometry stages, the topology type
    and the check of the pixel shader, up to the choice of the pixel shader
    bytecode, which reads [force_early_z] from the fixed-function part of
    the description. *)

Inductive D3D12_INDEX_BUFFER_STRIP_CUT_VALUE :=
| D3D12_INDEX_BUFFER_STRIP_CUT_VALUE_DISABLED
| D3D12_INDEX_BUFFER_STRIP_CUT_VALUE_0xFFFF
| D3D12_INDEX_BUFFER_STRIP_CUT_VALUE_0xFFFFFFFF.

Inductive D3D12_PRIMITIVE_TOPOLOGY_TYPE :=
| D3D12_PRIMITIVE_TOPOLOGY_TYPE_POINT
| D3D12_PRIMITIVE_TOPOLOGY_TYPE_LINE
| D3D12_PRIMITIVE_TOPOLOGY_TYPE_TRIANGLE
| D3D12_PRIMITIVE_TOPOLOGY_TYPE_PATCH.

(** What a [pShaderBytecode] is set to: one of the shaders built into the
    file, or the translated binary of a shader object. *)
Inductive ShaderBytecode :=
| discrete_triangle_hs
| adaptive_triangle_hs
| continuous_triangle_hs
| discrete_quad_hs
| continuous_quad_hs
| tessellation_triangle_vs
| tessellation_quad_vs
| primitive_point_list_gs
| primitive_rectangle_list_gs
| primitive_quad_list_gs
| translated_bytecode (binary : list byte).

(** The fields of [state_desc] set in lines 1328-1458; [None] is a stage
    left as [memset] made it. *)
Record PipelineStateStages := {
  IBStripCutValue : D3D12_INDEX_BUFFER_STRIP_CUT_VALUE;
  VS : ShaderBytecode;
  HS : option ShaderBytecode;
  DS : option ShaderBytecode;
  PrimitiveTopologyType : D3D12_PRIMITIVE_TOPOLOGY_TYPE;
  GS : option ShaderBytecode
}.

Section PipelineStateStages.
Context `{acc : ShaderAccessors}.

(** Lines 1330-1341. *)
Definition strip_cut_value (d : PipelineDescription)
  : D3D12_INDEX_BUFFER_STRIP_CUT_VALUE :=
  if strip_cut_index d =? PipelineStripCutIndex.kFFFF
  then D3D12_INDEX_BUFFER_STRIP_CUT_VALUE_0xFFFF
  else if strip_cut_index d =? PipelineStripCutIndex.kFFFFFFFF
  then D3D12_INDEX_BUFFER_STRIP_CUT_VALUE_0xFFFFFFFF
  else D3D12_INDEX_BUFFER_STRIP_CUT_VALUE_DISABLED.

(** Lines 1349-1419: the vertex, hull and domain stages of a translated
    vertex shader; [None] is a [return nullptr]. *)
Definition vertex_hull_domain_stages (d : PipelineDescription)
    (vertex_shader : D3D12Shader)
  : option (ShaderBytecode * option ShaderBytecode * option ShaderBytecode) :=
  if negb (tessellation_mode d =? PipelineTessellationMode.kNone) then
    if patch_type d =? PipelinePatchType.kTriangle then
      match Shader_patch_primitive_type vertex_shader with
      | kTrianglePatch =>
          Some (tessellation_triangle_vs,
                Some (if tessellation_mode d =?
                         PipelineTessellationMode.kDiscrete
                      then discrete_triangle_hs
                      else if tessellation_mode d =?
                                PipelineTessellationMode.kAdaptive
                      then adaptive_triangle_hs
                      else continuous_triangle_hs),
                Some (translated_bytecode (translated_binary vertex_shader)))
      | _ => None
      end
    else if patch_type d =? PipelinePatchType.kQuad then
      match Shader_patch_primitive_type vertex_shader with
      | kQuadPatch =>
          Some (tessellation_quad_vs,
                Some (if tessellation_mode d =?
                         PipelineTessellationMode.kDiscrete
                      then discrete_quad_hs
                      else continuous_quad_hs),
                Some (translated_bytecode (translated_binary vertex_shader)))
      | _ => None
      end
    else None
  else
    match Shader_patch_primitive_type vertex_shader with
    | kNone =>
        Some (translated_bytecode (translated_binary vertex_shader),
              None, None)
    | _ => None
    end.

(** Lines 1421-1440. *)
Definition topology_type (d : PipelineDescription)
  : option D3D12_PRIMITIVE_TOPOLOGY_TYPE :=
  if primitive_topology_type d =? PipelinePrimitiveTopologyType.kPoint
  then Some D3D12_PRIMITIVE_TOPOLOGY_TYPE_POINT
  else if primitive_topology_type d =? PipelinePrimitiveTopologyType.kLine
  then Some D3D12_PRIMITIVE_TOPOLOGY_TYPE_LINE
  else if primitive_topology_type d =? PipelinePrimitiveTopologyType.kTriangle
  then Some D3D12_PRIMITIVE_TOPOLOGY_TYPE_TRIANGLE
  else if primitive_topology_type d =? PipelinePrimitiveTopologyType.kPatch
  then Some D3D12_PRIMITIVE_TOPOLOGY_TYPE_PATCH
  else None.

(** Lines 1442-1458. *)
Definition geometry_stage (d : PipelineDescription) : option ShaderBytecode :=
  if geometry_shader d =? PipelineGeometryShader.kPointList
  then Some primitive_point_list_gs
  else if geometry_shader d =? PipelineGeometryShader.kRectangleList
  then Some primitive_rectangle_list_gs
  else if geometry_shader d =? PipelineGeometryShader.kQuadList
  then Some primitive_quad_list_gs
  else None.

(** Lines 1308-1467.  The outer [None] is the dereference of a shader
    pointer to no live object, the inner one a [return nullptr]. *)
Definition CreateD3D12PipelineState_stages (c : PipelineCache)
    (runtime_description : PipelineRuntimeDescription)
  : option (option PipelineStateStages) :=
  let d := description runtime_description in
  vp ← vertex_shader runtime_description;
  vs ← shader_heap c !! vp;
  ps ← match pixel_shader runtime_description with
       | Some pp => Some <$> shader_heap c !! pp
       | None => Some None
       end;
  Some
    (if negb (is_translated vs) then None
     else
       '(v, h, ds) ← vertex_hull_domain_stages d vs;
       topology ← topology_type d;
       if match ps with
          | Some p => negb (is_translated p)
          | None => false
          end
       then None
       else Some {| IBStripCutValue := strip_cut_value d;
                    VS := v; HS := h; DS := ds;
                    PrimitiveTopologyType := topology;
                    GS := geometry_stage d |}).

End PipelineStateStages.

(** Every pipeline state names a live vertex shader and, when it names a
    pixel shader, a live one; the allocator is ahead of every shader
    object. *)
Definition shaders_live (c : PipelineCache) : Prop :=
  (forall p, is_Some (shader_heap c !! p) -> (p < next_object c)%nat) /\
  (forall e st, pipeline_heap c !! e = Some st ->
     (exists vp, vertex_shader (runtime_description st) = Some vp /\
                 is_Some (shader_heap c !! vp)) /\
     (forall pp, pixel_shader (runtime_description st) = Some pp ->
                 is_Some (shader_heap c !! pp))).

(** What a translation leaves of the objects: the pipeline states and the
    allocator are the same, and the same shader objects are live. *)
Definition shader_objects_kept (c c' : PipelineCache) : Prop :=
  pipeline_heap c' = pipeline_heap c /\
  next_object c' = next_object c /\
  (forall p, is_Some (shader_heap c' !! p) <-> is_Some (shader_heap c !! p)).

(** What the load of the shader stream leaves of the objects that were there
    when the allocator stood at [n0]: the pipeline states are the same, the
    shader objects below [n0] are still live, and the allocator is ahead of
    every shader object. *)
Definition shader_objects_kept_below (n0 : ptr) (c c' : PipelineCache)
  : Prop :=
  pipeline_heap c' = pipeline_heap c /\
  (forall p, (p < n0)%nat -> is_Some (shader_heap c !! p) ->
             is_Some (shader_heap c' !! p)) /\
  (forall p, is_Some (shader_heap c' !! p) -> (p < next_object c')%nat) /\
  (n0 <= next_object c')%nat.

(** The shader map is sound: every entry points to a live shader object
    whose microcode hash is the key, and the allocator is ahead of every
    shader object. *)
Definition shader_map_live (c : PipelineCache) : Prop :=
  (forall p, is_Some (shader_heap c !! p) -> (p < next_object c)%nat) /\
  (forall h p, shader_map_ c !! h = Some p ->
     exists s, shader_heap c !! p = Some s /\ ucode_data_hash s = h).

(** The two storage files are open together, and the writing thread exists
    while they are: what the [assert_not_null(storage_write_thread_)] of
    [EnsureShadersTranslated] and [ConfigurePipeline] rely on. *)
Definition storage_files_consistent (c : PipelineCache) : Prop :=
  (is_Some (shader_storage_file_ (storage c)) <->
   is_Some (pipeline_state_storage_file_ (storage c))) /\
  (is_Some (shader_storage_file_ (storage c)) ->
   storage_write_thread_ (storage c) = true).

(** The files and the writing thread are the same. *)
Definition storage_files_kept (c c' : PipelineCache) : Prop :=
  shader_storage_file_ (storage c') = shader_storage_file_ (storage c) /\
  pipeline_state_storage_file_ (storage c') =
    pipeline_state_storage_file_ (storage c) /\
  storage_write_thread_ (storage c') = storage_write_thread_ (storage c).

Section UnallocatedCount.
Context `{ext : Externals}.

(** The file holds, at some position, a shader header whose word count is
    more than [ucode_dwords] has reserved, more than the file holds after
    the header, and more than the host allocates. *)
Definition names_unallocated_count (data : list byte) : Prop :=
  exists pos : nat,
    let h :=
      ShaderStoredHeader_of_bytes
        (firstn sizeof_ShaderStoredHeader (skipn pos data)) in
    (pos + sizeof_ShaderStoredHeader <= length data)%nat /\
    0xFFFF < header_ucode_dword_count h /\
    Z.of_nat (length data) <
      Z.of_nat (pos + sizeof_ShaderStoredHeader) +
      header_ucode_dword_count h * 4 /\
    host_allocates (header_ucode_dword_count h) = false.

End UnallocatedCount.

Section CacheCalls.
Context `{ext : Externals}.

(** One call on the thread that owns the cache: a call of the facade, or
    the load of the storage of a title. *)
Inductive cache_call (c : PipelineCache) : PipelineCache -> Prop :=
| call_facade c' : facade_step c c' -> cache_call c c'
| call_InitializeShaderStorage storage_root title_id blocking disk c' disk' :
    InitializeShaderStorage storage_root title_id blocking disk c =
      Some (c', disk') ->
    cache_call c c'.

End CacheCalls.

(** ** The end of a submission, and the shutdown *)

(** [PipelineCache::IsCreatingPipelineStates] (lines 693-699). *)
Definition IsCreatingPipelineStates (c : PipelineCache) : bool :=
  match creation_threads_ (pool c) with
  | [] => false
  | _ :: _ =>
      negb (bool_decide (creation_queue_ (pool c) = [])) ||
      negb (creation_threads_busy_ (pool c) =? 0)
  end.

(** The first part of [PipelineCache::EndSubmission] (lines 655-669): the
    flushes that are needed are requested from the writing thread. *)
Definition EndSubmission_request_flush (c : PipelineCache) : PipelineCache :=
  let s := storage c in
  if shader_storage_file_flush_needed_ s ||
     pipeline_state_storage_file_flush_needed_ s
  then
    set_storage
      {| shader_storage_file_ := shader_storage_file_ s;
         pipeline_state_storage_file_ := pipeline_state_storage_file_ s;
         shader_storage_file_flush_needed_ := false;
         pipeline_state_storage_file_flush_needed_ := false;
         storage_write_thread_ := storage_write_thread_ s;
         storage_write_shader_queue_ := storage_write_shader_queue_ s;
         storage_write_pipeline_state_queue_ :=
           storage_write_pipeline_state_queue_ s;
         storage_write_flush_shaders_ :=
           if shader_storage_file_flush_needed_ s then true
           else storage_write_flush_shaders_ s;
         storage_write_flush_pipeline_states_ :=
           if pipeline_state_storage_file_flush_needed_ s then true
           else storage_write_flush_pipeline_states_ s;
         shader_storage_root_ := shader_storage_root_ s;
         shader_storage_title_id_ := shader_storage_title_id_ s |} c
  else c.

(** The critical section of lines 674-685 (the same as lines 167-171): the
    pool, and [await_creation_completion_event]. *)
Definition await_creation_completion (p : CreationPool) : CreationPool * bool :=
  let await_creation_completion_event :=
    negb (creation_threads_busy_ p =? 0) in
  (if await_creation_completion_event then
     {| creation_threads_ := creation_threads_ p;
        creation_queue_ := creation_queue_ p;
        creation_threads_busy_ := creation_threads_busy_ p;
        creation_completion_event_ := false;
        creation_completion_set_event_ := true;
        creation_threads_shutdown_from_ := creation_threads_shutdown_from_ p |}
   else p,
   await_creation_completion_event).

(** The critical section of the loop of
    [CreateQueuedPipelineStatesOnProcessorThread] (lines 1790-1797): [None]
    is the [break]. *)
Definition processor_dequeue (c : PipelineCache) : option (ptr * PipelineCache) :=
  match creation_queue_ (pool c) with
  | [] => None
  | pipeline_state_to_create :: rest =>
      Some (pipeline_state_to_create,
            set_pool (set_creation_queue rest (pool c)) c)
  end.

(** A pipeline state waits for its object: it is in the creation queue, or
    a creation thread has taken it from there. *)
Definition creation_pending (s : System) (p : ptr) : Prop :=
  p ∈ creation_queue_ (pool (sys_cache s)) \/
  exists i : nat, sys_threads s !! i = Some (Creating p).

Section Submission.
Context `{ext : Externals}.

(** Lines 1798-1799. *)
Definition processor_create (pipeline_state_to_create : ptr)
    (c : PipelineCache) : option PipelineCache :=
  st ← pipeline_heap c !! pipeline_state_to_create;
  Some (set_pipeline_state_object pipeline_state_to_create
          {| state := CreateD3D12PipelineState c (runtime_description st);
             runtime_description := runtime_description st |} c).

(** The object of a pipeline state is the one [CreateD3D12PipelineState]
    gives for its description. *)
Definition pipeline_state_created (c : PipelineCache) (p : ptr) : Prop :=
  exists st, pipeline_heap c !! p = Some st /\
             state st = CreateD3D12PipelineState c (runtime_description st).

(** [CreateQueuedPipelineStatesOnProcessorThread] while the creation threads
    run: the processor thread takes and creates pipeline states until it
    finds the queue empty, and the creation threads take steps in between. *)
Inductive processor_creates_queued : System -> System -> Prop :=
| processor_queue_empty s :
    processor_dequeue (sys_cache s) = None ->
    processor_creates_queued s s
| processor_round s p c1 s2 c3 s4 s5 :
    processor_dequeue (sys_cache s) = Some (p, c1) ->
    threads_run {| sys_cache := c1; sys_threads := sys_threads s |} s2 ->
    processor_create p (sys_cache s2) = Some c3 ->
    threads_run {| sys_cache := c3; sys_threads := sys_threads s2 |} s4 ->
    processor_creates_queued s4 s5 ->
    processor_creates_queued s s5.

(** [PipelineCache::EndSubmission] (lines 654-691) from a system [s]: the
    flushes are requested; with creation threads, the processor thread
    helps to empty the queue, takes the lock, and waits for the completion
    event when a thread is busy. *)
Inductive EndSubmission_run (s : System) : System -> Prop :=
| EndSubmission_without_threads :
    creation_threads_ (pool (sys_cache s)) = [] ->
    EndSubmission_run s
      {| sys_cache := EndSubmission_request_flush (sys_cache s);
         sys_threads := sys_threads s |}
| EndSubmission_with_threads s0 s1 s2 p await s3 :
    creation_threads_ (pool (sys_cache s)) <> [] ->
    threads_run
      {| sys_cache := EndSubmission_request_flush (sys_cache s);
         sys_threads := sys_threads s |} s0 ->
    processor_creates_queued s0 s1 ->
    threads_run s1 s2 ->
    await_creation_completion (pool (sys_cache s2)) = (p, await) ->
    threads_run
      {| sys_cache := set_pool p (sys_cache s2);
         sys_threads := sys_threads s2 |} s3 ->
    (await = true ->
     creation_completion_event_ (pool (sys_cache s3)) = true) ->
    EndSubmission_run s s3.

(** Lines 132-142 of [PipelineCache::Shutdown]: all creation threads are
    told to shut down and joined. *)
Definition shut_down_creation_threads (p : CreationPool) : CreationPool :=
  {| creation_threads_ := creation_threads_ p;
     creation_queue_ := creation_queue_ p;
     creation_threads_busy_ := creation_threads_busy_ p;
     creation_completion_event_ := creation_completion_event_ p;
     creation_completion_set_event_ := creation_completion_set_event_ p;
     creation_threads_shutdown_from_ := 0 |}.

(** [PipelineCache::Shutdown] (lines 128-144): the cache is cleared, and
    when there are creation threads, the wait for each of them returns once
    it has returned.  The release of the event object leaves no trace in
    the model. *)
Inductive Shutdown_run (disk : Disk) (s : System) : System -> Disk -> Prop :=
| Shutdown_without_threads s1 disk1 :
    ClearCache_run true disk s s1 disk1 ->
    creation_threads_ (pool (sys_cache s1)) = [] ->
    Shutdown_run disk s s1 disk1
| Shutdown_with_threads s1 disk1 s2 :
    ClearCache_run true disk s s1 disk1 ->
    creation_threads_ (pool (sys_cache s1)) <> [] ->
    threads_run
      {| sys_cache :=
           set_pool (shut_down_creation_threads (pool (sys_cache s1)))
             (sys_cache s1);
         sys_threads := sys_threads s1 |} s2 ->
    Forall (fun pc => pc = Exited) (sys_threads s2) ->
    Shutdown_run disk s
      {| sys_cache :=
           set_pool (set_creation_threads [] (pool (sys_cache s2)))
             (sys_cache s2);
         sys_threads := sys_threads s2 |} disk1.

End Submission.

(** ** Runs of the cache with its creation threads *)

Definition set_sys_cache (c : PipelineCache) (s : System) : System :=
  {| sys_cache := c; sys_threads := sys_threads s |}.

(** Where the thread that owns the cache stands between two of its critical
    sections: outside of the calls below; in [EndSubmission], in the loop
    of [CreateQueuedPipelineStatesOnProcessorThread] before the lock of
    line 1791, creating the object of the pipeline state it took (lines
    1798-1799), after the [break] before the lock of line 675, and at the
    wait of line 688; in [ClearCache] at the wait of line 175, with the
    argument and the locals of the call; in [Shutdown] after [ClearCache] has
    returned (line 132); and in [Shutdown] in the loop that waits for the
    creation threads (lines 138-140). *)
Inductive OwnerPc :=
| OwnerIdle
| OwnerSubmitting
| OwnerCreating (pipeline_state_to_create : ptr)
| OwnerSubmitted
| OwnerAwaiting (await_creation_completion_event : bool)
| OwnerClearing (shutting_down await_creation_completion_event
                 reinitialize_shader_storage : bool)
    (shader_storage_root : string) (shader_storage_title_id : Z)
| OwnerCleared
| OwnerJoining.

(** The cache, its creation threads, and the thread that owns it. *)
Record Run := MkRun {
  run_system : System;
  run_owner : OwnerPc
}.

Section SystemRuns.
Context `{ext : Externals}.

(** The entries of the table of [c] are entries of the table of [c'], for
    the same descriptions. *)
Definition entries_kept (c c' : PipelineCache) : Prop :=
  forall d e, entry_for c d e -> entry_for c' d e.

(** What happens between two requests while the table stands: a call on the
    thread that owns the cache (of the facade, or the load of the storage
    of a title), a step of a creation thread, or the end of a submission,
    during which the creation threads run.  [ClearCache] and [Shutdown],
    which destroy the entries, are not among these. *)
Inductive system_step (s : System) : System -> Prop :=
| step_cache_call c' :
    cache_call (sys_cache s) c' -> system_step s (set_sys_cache c' s)
| step_creation_thread i s' :
    thread_step i s = Some s' -> system_step s s'
| step_EndSubmission s' :
    EndSubmission_run s s' -> system_step s s'.

(** One step of a run: a creation thread moves, whatever the owning thread
    is at, or the owning thread goes through its next critical section or
    call.  [LoadShader], [ConfigurePipeline] and [InitializeShaderStorage]
    are one step each, as they are defined; [EndSubmission] (lines 654-691),
    [ClearCache] (lines 146-197) and [Shutdown] (lines 128-144) release the
    lock in between and are several. *)
Inductive run_step : Run -> Run -> Prop :=
| run_creation_thread o i s s' :
    thread_step i s = Some s' -> run_step (MkRun s o) (MkRun s' o)
| run_cache_call s c' :
    cache_call (sys_cache s) c' ->
    run_step (MkRun s OwnerIdle) (MkRun (set_sys_cache c' s) OwnerIdle)
| run_EndSubmission_without_threads s :
    creation_threads_ (pool (sys_cache s)) = [] ->
    run_step (MkRun s OwnerIdle)
      (MkRun (set_sys_cache (EndSubmission_request_flush (sys_cache s)) s)
         OwnerIdle)
| run_EndSubmission_with_threads s :
    creation_threads_ (pool (sys_cache s)) <> [] ->
    run_step (MkRun s OwnerIdle)
      (MkRun (set_sys_cache (EndSubmission_request_flush (sys_cache s)) s)
         OwnerSubmitting)
| run_processor_dequeue s p c' :
    processor_dequeue (sys_cache s) = Some (p, c') ->
    run_step (MkRun s OwnerSubmitting)
      (MkRun (set_sys_cache c' s) (OwnerCreating p))
| run_processor_create s p c' :
    processor_create p (sys_cache s) = Some c' ->
    run_step (MkRun s (OwnerCreating p))
      (MkRun (set_sys_cache c' s) OwnerSubmitting)
| run_processor_break s :
    processor_dequeue (sys_cache s) = None ->
    run_step (MkRun s OwnerSubmitting) (MkRun s OwnerSubmitted)
| run_await_creation_completion s p await :
    await_creation_completion (pool (sys_cache s)) = (p, await) ->
    run_step (MkRun s OwnerSubmitted)
      (MkRun (set_sys_cache (set_pool p (sys_cache s)) s)
         (OwnerAwaiting await))
| run_creation_completed s await :
    (await = true ->
     creation_completion_event_ (pool (sys_cache s)) = true) ->
    run_step (MkRun s (OwnerAwaiting await)) (MkRun s OwnerIdle)
| run_ClearCache_quiesce s shutting_down c1 await :
    ClearCache_quiesce (sys_cache s) = (c1, await) ->
    run_step (MkRun s OwnerIdle)
      (MkRun (set_sys_cache c1 s)
         (OwnerClearing shutting_down await
            (negb shutting_down &&
             storage_write_thread_ (storage (sys_cache s)))
            (shader_storage_root_ (storage (sys_cache s)))
            (shader_storage_title_id_ (storage (sys_cache s)))))
| run_ClearCache_destroy s shutting_down await reinitialize storage_root
    title_id disk c3 c4 disk' :
    (await = true ->
     creation_completion_event_ (pool (sys_cache s)) = true) ->
    ClearCache_destroy (sys_cache s) = Some c3 ->
    (if reinitialize : bool
     then InitializeShaderStorage storage_root title_id false disk c3
     else Some (c3, disk)) = Some (c4, disk') ->
    run_step
      (MkRun s (OwnerClearing shutting_down await reinitialize storage_root
                  title_id))
      (MkRun (set_sys_cache c4 s)
         (if shutting_down then OwnerCleared else OwnerIdle))
| run_Shutdown_without_threads s :
    creation_threads_ (pool (sys_cache s)) = [] ->
    run_step (MkRun s OwnerCleared) (MkRun s OwnerIdle)
| run_Shutdown_with_threads s :
    creation_threads_ (pool (sys_cache s)) <> [] ->
    run_step (MkRun s OwnerCleared)
      (MkRun (set_sys_cache
                (set_pool (shut_down_creation_threads (pool (sys_cache s)))
                   (sys_cache s)) s)
         OwnerJoining)
| run_Shutdown_joined s :
    Forall (fun pc => pc = Exited) (sys_threads s) ->
    run_step (MkRun s OwnerJoining)
      (MkRun (set_sys_cache
                (set_pool (set_creation_threads [] (pool (sys_cache s)))
                   (sys_cache s)) s)
         OwnerIdle).

(** A run starts after [Initialize]: the creation threads it started are at
    the head of their loops, and the owning thread is in no call. *)
Definition run_initial (r : Run) : Prop :=
  run_owner r = OwnerIdle /\
  exists c0,
    sys_cache (run_system r) = Initialize c0 /\
    sys_threads (run_system r) =
      replicate (length (creation_threads_ (pool (Initialize c0)))) AtCheck.

(** The shutdown threshold and the queue in a run: the threshold is at
    [SIZE_MAX], above every thread, or nothing is queued and nothing will
    be, since the owning thread waits for the creation threads to return
    or has none; and from the lock of [ClearCache] to the lock of
    [Shutdown] nothing is queued for the creation threads. *)
Definition threshold_inv (r : Run) : Prop :=
  let p := pool (sys_cache (run_system r)) in
  Z.of_nat (length (sys_threads (run_system r))) <= SIZE_MAX /\
  (creation_threads_shutdown_from_ p = SIZE_MAX \/
   creation_queue_ p = [] /\
   (creation_threads_ p = [] \/ run_owner r = OwnerJoining)) /\
  match run_owner r with
  | OwnerClearing _ _ _ _ _ | OwnerCleared =>
      creation_threads_ p <> [] -> creation_queue_ p = []
  | _ => True
  end.

End SystemRuns.

(** ** A run on the concrete host with two creation threads *)
Module Threaded.

(** After [Initialize]: two creation threads at the head of their loops. *)
Definition initialized : System :=
  {| sys_cache := Example.cache2; sys_threads := [AtCheck; AtCheck] |}.

(** The shader of [ucode_good] is loaded; a draw is configured, and its
    pipeline state queued (see [Scenario.queued]). *)
Definition loaded : System :=
  set_sys_cache
    (@LoadShader Scenario.E2 kVertex 0 Example.ucode_good Example.cache2).2
    initialized.

Definition queued : System := set_sys_cache Scenario.queued loaded.

(** Thread 0 takes the pipeline state, creates its object and counts itself
    out. *)
Definition created : System :=
  default queued (@run_schedule Scenario.E2 [0%nat; 0%nat; 0%nat] queued).

(** A draw that differs in the early-Z flag is configured. *)
Definition configured_again : System :=
  set_sys_cache
    (Scenario.after
       (@ConfigurePipeline Scenario.E2 (Example.draw 1%nat None true)
          (@zero_runtime_description Scenario.E2) (sys_cache created))
       (sys_cache created))
    created.

(** [Shutdown] from [Scenario.busy], where thread 0 has taken the pipeline
    state: after [ClearCache] (see [Scenario.busy_cleared]), the threshold
    is lowered to 0. *)
Definition joining : System :=
  set_sys_cache
    (set_pool
       (shut_down_creation_threads (pool (sys_cache Scenario.busy_cleared)))
       (sys_cache Scenario.busy_cleared))
    Scenario.busy_cleared.

(** Thread 1 takes its next step. *)
Definition joining_returned : System :=
  default joining (@thread_step Scenario.E2 1%nat joining).

End Threaded.

(** ** A session on the concrete host: draw, write, load again *)
Module Session.

(** The shader objects of the examples keep their microcode byte-swapped
    and are no domain shaders; the enumerators are numbered so that
    [ShaderType_of_code] and [PrimitiveType_of_code] of the example host
    read them back. *)
Definition accessors : ShaderAccessors :=
  {| Shader_ucode_dwords := fun s => copy_and_swap (ucode_dwords s);
     Shader_patch_primitive_type := fun _ => kNone;
     ShaderType_code := fun t => match t with kVertex => 0 | kPixel => 1 end;
     PrimitiveType_code := fun t =>
       match t with
       | kNone => 0
       | kOtherPrimitive code => code
       | _ => 1
       end |}.

Definition E : Externals := Example.externals 8 0.
Definition E1 : Externals := Example.externals 1 0.
Definition E2 : Externals := Example.externals 8 2.

(** Both streams exist and are empty. *)
Definition disk_empty : Disk := fun _ => Some [].

Definition title : Z := 0x415607E6.

(** The storage is initialized on the empty streams, which gives them their
    headers. *)
Definition opened : PipelineCache * Disk :=
  default (Example.cache0, disk_empty)
    (@InitializeShaderStorage E "game" title false disk_empty Example.cache0).

(** A shader is loaded and a draw with it is configured. *)
Definition loaded : PipelineCache :=
  (@LoadShader E kVertex 0 Example.ucode_good opened.1).2.

Definition drawn : PipelineCache :=
  Scenario.after
    (@ConfigurePipeline E (Example.draw 1%nat None false)
       (@zero_runtime_description E) loaded) loaded.

(** A tessellated draw of line patches with the shader of [loaded]. *)
Definition line_patch_draw : DrawRequest :=
  {| req_vertex_shader := 1%nat; req_pixel_shader := None;
     req_tessellated := true; req_primitive_type := kLinePatch;
     req_index_format := kInt16; req_early_z := false;
     req_render_targets := []; req_regs := Example.registers |}.

(** The submission ends; the writing thread runs until it waits. *)
Definition submitted : PipelineCache := EndSubmission_request_flush drawn.

Definition writer : StorageWriter :=
  {| writer_cache := submitted; writer_disk := opened.2;
     flush_shaders := false; flush_pipeline_states := false;
     writer_fflushed := [] |}.

Definition written : StorageWriter :=
  match @StorageWriteThread_run accessors 2 false writer with
  | Some (w, _) => w
  | None => writer
  end.

Definition shader_file : FILE :=
  {| file_path := ShaderStoragePath "game" title |}.
Definition pipeline_state_file : FILE :=
  {| file_path := PipelineStateStoragePath "game" title false |}.

(** The next session initializes its storage on the streams as written. *)
Definition reopened : PipelineCache * Disk :=
  default (Example.cache0, writer_disk written)
    (@InitializeShaderStorage E "game" title false (writer_disk written)
       Example.cache0).

(** The same on a host with one logical processor. *)
Definition reopened_single : PipelineCache * Disk :=
  default (Example.cache0, writer_disk written)
    (@InitializeShaderStorage E1 "game" title false (writer_disk written)
       Example.cache0).

(** With two creation threads: the pipeline state of a draw is queued; in
    [taken], thread 0 has taken it from the queue. *)
Definition queued : System :=
  {| sys_cache := Scenario.queued; sys_threads := [AtCheck; AtCheck] |}.

Definition taken : System := Scenario.busy.

(** [EndSubmission] on [taken]: the processor thread finds the queue empty
    and arms the wait; thread 0 creates the object, counts itself out and
    signals the event. *)
Definition taken_armed : System :=
  {| sys_cache :=
       set_pool (await_creation_completion (pool (sys_cache taken))).1
         (sys_cache taken);
     sys_threads := sys_threads taken |}.

Definition taken_created : System :=
  default taken_armed (@run_schedule E2 [0%nat; 0%nat; 0%nat] taken_armed).

(** [EndSubmission] on [queued]: the processor thread takes the pipeline
    state from the queue and creates its object while the creation threads
    wait. *)
Definition queued_flushed : System :=
  {| sys_cache := EndSubmission_request_flush (sys_cache queued);
     sys_threads := sys_threads queued |}.

Definition queued_created : System :=
  match processor_dequeue (sys_cache queued_flushed) with
  | Some (p, c1) =>
      {| sys_cache := default c1 (@processor_create E2 p c1);
         sys_threads := sys_threads queued |}
  | None => queued_flushed
  end.

(** [Shutdown] on [taken]: after the cache is cleared, both threads are
    told to shut down and return. *)
Definition shutting_down : System :=
  {| sys_cache :=
       set_pool (shut_down_creation_threads
                   (pool (sys_cache Scenario.busy_cleared)))
         (sys_cache Scenario.busy_cleared);
     sys_threads := sys_threads Scenario.busy_cleared |}.

Definition threads_returned : System :=
  default shutting_down (@run_schedule E2 [0%nat; 1%nat] shutting_down).

Definition shut_down : System :=
  {| sys_cache :=
       set_pool (set_creation_threads [] (pool (sys_cache threads_returned)))
         (sys_cache threads_returned);
     sys_threads := sys_threads threads_returned |}.

End Session.

(** * Properties *)

(** The setters of the cache record, unfolded. *)
Ltac unfold_setters :=
  unfold set_pipeline_state_object in *;
  unfold set_shaders, set_shader_object, set_pipeline_states,
    set_current_pipeline_state, set_pool, set_storage, set_creation_queue,
    set_creation_threads in *.

Section FacadeProperties.
Context `{ext : Externals}.

(** C9. [LoadShader] is idempotent: a second call with the same microcode
    returns the object of the first and leaves the cache as the first left
    it, so it inserts nothing; and neither call invokes the translator. *)
Theorem LoadShader_idempotent :
  forall (type type' : ShaderType) (guest_address guest_address' : Z)
         (microcode : list Z) (c : PipelineCache),
    let first := LoadShader type guest_address microcode c in
    LoadShader type' guest_address' microcode first.2 = first /\
    translator_invocations first.2 = translator_invocations c /\
    (forall shader s, shader_heap first.2 !! shader = Some s ->
       shader_heap c !! shader = Some s \/
       s = new_D3D12Shader type (XXH64 (dwords_bytes microcode) 0) microcode).
Proof.
  intros type type' ga ga' microcode c. unfold LoadShader.
  destruct (shader_map_ c !! XXH64 (dwords_bytes microcode) 0) as [p|] eqn:E;
    cbn.
  - rewrite E. auto.
  - rewrite lookup_insert_eq. split; [reflexivity|]. split; [reflexivity|].
    intros shader s H.
    destruct (decide (shader = next_object c)) as [->|Hne].
    + rewrite lookup_insert_eq in H. right. congruence.
    + rewrite lookup_insert_ne in H by congruence. auto.
Qed.

(** The description does not depend on what the record held before. *)
Lemma GetCurrentStateDescription_zeroes c req stack stack' :
  GetCurrentStateDescription c req stack' =
  GetCurrentStateDescription c req stack.
Proof. reflexivity. Qed.

Lemma ConfigurePipeline_not_built c req stack rd :
  GetCurrentStateDescription c req stack = Some (false, rd) ->
  ConfigurePipeline req stack c = Some (None, c).
Proof. intros H. unfold ConfigurePipeline. rewrite H. reflexivity. Qed.

(** C8. The description builder zeroes the whole record before it fills a
    field: its result is the same whatever the record held, and all of it
    is zero when the root signature cannot be resolved.  In that case, and
    whenever the builder fails, [ConfigurePipeline] returns false and the
    cache is what it was: no translation, no entry, nothing queued. *)
Theorem ConfigurePipeline_layout_failure :
  forall (c : PipelineCache) (req : DrawRequest)
         (stack : PipelineRuntimeDescription)
         (vs : D3D12Shader) (ps : option D3D12Shader),
    request_shaders c req = Some (vs, ps) ->
    GetRootSignature vs ps (req_tessellated req) = None ->
    (forall stack',
       GetCurrentStateDescription c req stack' =
       Some (false, zero_runtime_description)) /\
    ConfigurePipeline req stack c = Some (None, c).
Proof.
  intros c req stack vs ps Hs Hr.
  assert (forall stack',
            GetCurrentStateDescription c req stack' =
            Some (false, zero_runtime_description)) as H.
  { intros stack'. unfold GetCurrentStateDescription.
    rewrite Hs. cbn. rewrite Hr. reflexivity. }
  split; [exact H|]. eapply ConfigurePipeline_not_built, H.
Qed.


End FacadeProperties.

Lemma ConfigurePipeline_layout_failure_witness :
  let c := (@LoadShader (Example.externals 8 0) kVertex 0 [] Example.cache0).2 in
  @ConfigurePipeline (Example.externals 8 0) (Example.draw 1%nat None false)
    (@zero_runtime_description (Example.externals 8 0)) c = Some (None, c).
Proof.
  intros c.
  refine (proj2 (@ConfigurePipeline_layout_failure (Example.externals 8 0) c
                   (Example.draw 1%nat None false) _
                   (new_D3D12Shader kVertex (XXHash.XXH64 [] 0) []) None _ _));
    vm_compute; reflexivity.
Defined.




Section TranslationProperties.
Context `{ext : Externals}.

Lemma translate_if_needed_invocations shader cntl patch c ok c' :
  translate_if_needed shader cntl patch c = Some (ok, c') ->
  (translator_invocations c <= translator_invocations c')%nat /\
  (ok = false -> (translator_invocations c < translator_invocations c')%nat).
Proof.
  unfold translate_if_needed, TranslateShader. intros H.
  destruct (shader_heap c !! shader) as [s|]; [|discriminate]. cbn in H.
  destruct (is_translated s); cbn in H.
  - injection H as <- <-. split; [lia|discriminate].
  - destruct (tr_result (Translate s patch cntl)); cbn in H.
    + destruct (tr_is_valid (Translate s patch cntl)); cbn in H;
        injection H as <- <-; cbn.
      * unfold queue_shader_write; cbn.
        destruct (shader_storage_file_ (storage c)); cbn;
          split; (lia || discriminate).
      * split; intros; lia.
    + injection H as <- <-. cbn. split; intros; lia.
Qed.

(** Whatever the translator leaves in a shader it rejects, a later
    [EnsureShadersTranslated] does not fail without calling it again. *)
Lemma EnsureShadersTranslated_fails_by_translating
    vertex_shader pixel_shader tessellated primitive_type regs c c' :
  EnsureShadersTranslated vertex_shader pixel_shader tessellated
    primitive_type regs c = Some (false, c') ->
  (translator_invocations c < translator_invocations c')%nat.
Proof.
  unfold EnsureShadersTranslated. intros H.
  destruct (translate_if_needed vertex_shader _ _ c) as [[ok c1]|] eqn:E1;
    [|discriminate].
  apply translate_if_needed_invocations in E1 as [Hle Hlt]. cbn in H.
  destruct ok; cbn in H.
  - destruct pixel_shader as [ps|]; [|discriminate].
    apply translate_if_needed_invocations in H as [_ H]. specialize (H eq_refl).
    lia.
  - injection H as <-. auto.
Qed.

End TranslationProperties.

(** C3. The code at the failing input: a vertex shader whose translation
    fails on the first request is left translated and not valid, and the
    request fails; the second request with the same shader does not call
    the translator, and it succeeds: it returns a new pipeline state that
    it has inserted into the table. *)
Theorem failed_translation_then_success :
  let E := Example.externals 8 0 in
  let loaded := @LoadShader E kVertex 0 Example.ucode_bad Example.cache0 in
  let req := Example.draw loaded.1 None false in
  let first := @ConfigurePipeline E req (@zero_runtime_description E) loaded.2 in
  let second :=
    first ≫= fun r => @ConfigurePipeline E req (@zero_runtime_description E) r.2 in
  fst <$> first = Some None /\
  (first ≫= fun r => is_translated <$> shader_heap r.2 !! loaded.1) = Some true /\
  (first ≫= fun r => is_valid <$> shader_heap r.2 !! loaded.1) = Some false /\
  (fun r => translator_invocations r.2) <$> first = Some 1%nat /\
  fst <$> second = Some (Some (2%nat, Some 1)) /\
  (fun r => translator_invocations r.2) <$> second = Some 1%nat /\
  (fun r => snd <$> pipeline_states_ r.2) <$> second = Some [2%nat].
Proof. vm_compute. repeat split; reflexivity. Qed.

Lemma spawn_creation_threads_at_bound fuel threads :
  spawn_creation_threads fuel (length threads) threads = threads.
Proof.
  destruct fuel; [reflexivity|]. cbn.
  destruct (decide (length threads < length threads)%nat); [lia|reflexivity].
Qed.

(** The replay leaves the creation threads as they are, whatever the number
    of stored descriptions and of processors. *)
Lemma replay_creation_threads_unchanged `{ext : Externals} stored threads :
  replay_creation_threads stored threads = threads.
Proof. apply spawn_creation_threads_at_bound. Qed.

(** C6. The code at the failing input: on a host with 8 processors, a cache
    with 2 creation threads and 8 stored descriptions to replay computes
    that 7 threads are needed, and enters the replay with the 2 it had. *)
Theorem replay_adds_no_creation_thread :
  let E := Example.externals 8 2 in
  let threads := creation_threads_ (pool Example.cache2) in
  threads = [0; 1] /\
  @creation_thread_needed_count E 8 (length threads) = 7%nat /\
  @replay_creation_threads E 8 threads = [0; 1].
Proof. vm_compute. auto. Qed.

(** The critical section at the head of the loop, taken alone: a creation
    thread returns from it exactly when its index is at or above
    [creation_threads_shutdown_from_], the test of the queue coming second,
    and it returns without taking anything from the queue; a thread below
    the threshold takes the front of a queue that is not empty.  That the
    queue is empty whenever the threshold is at or below the index of a
    thread is a property of the runs (see [threshold_inv]). *)
Lemma CreationThread_check_returns_iff :
  forall (thread_index : Z) (p : CreationPool),
    ((CreationThread_check thread_index p).2 = ThreadReturn <->
     creation_threads_shutdown_from_ p <= thread_index) /\
    ((CreationThread_check thread_index p).2 = ThreadReturn ->
     creation_queue_ (CreationThread_check thread_index p).1 =
     creation_queue_ p) /\
    (forall front rest,
       thread_index < creation_threads_shutdown_from_ p ->
       creation_queue_ p = front :: rest ->
       (CreationThread_check thread_index p).2 = ThreadCreate front /\
       creation_queue_ (CreationThread_check thread_index p).1 = rest).
Proof.
  intros idx p. unfold CreationThread_check, signal_creation_completion.
  destruct (creation_queue_ p) as [|front rest] eqn:Q;
    destruct (Z.leb_spec (creation_threads_shutdown_from_ p) idx); cbn;
    repeat split; try (intros; (discriminate || lia || congruence));
    try (destruct (creation_completion_set_event_ p &&
                   (creation_threads_busy_ p =? 0)); cbn; congruence).
  all: intros front' rest' Hlt Heq; try lia; try discriminate.
  all: injection Heq as <- <-; reflexivity.
Qed.

(** C5, as stated, fails: the shader map holds the hash of [ucode_good]; the
    stream stores a record with that hash over another payload, whose hash
    is not the stored one; the load counts the record as valid, keeping all
    60 bytes of the stream. *)
Lemma known_hash_accepted_unchecked :
  let E := Example.externals 8 0 in
  let c := (@LoadShader E kVertex 0 Example.ucode_good Example.cache0).2 in
  XXHash.XXH64 (dwords_bytes [0xDEADBEEF]) 0 <>
    Example.hash_of Example.ucode_good /\
  length Example.stream_with_known_hash = 30%nat /\
  (fun r => shader_storage_valid_bytes r.1) <$>
    @load_shader_storage E Example.stream_with_known_hash c = Some 30%nat /\
  snd <$> @load_shader_storage E Example.stream_with_known_hash c =
    Some Example.stream_with_known_hash.
Proof. vm_compute. repeat split; (reflexivity || discriminate). Qed.

Section RecordValidity.
Context `{ext : Externals}.

Lemma fread1_Some (n : nat) (data : list byte) (pos : nat) u pos' :
  fread1 n data pos = (Some u, pos') ->
  (pos + n <= length data)%nat /\ pos' = (pos + n)%nat.
Proof.
  unfold fread1. destruct (decide _); [|discriminate].
  intros [= _ <-]. auto.
Qed.

(** A payload that the file holds is resized for. *)
Lemma resize_ucode_dwords_held data pos capacity count :
  Z.of_nat pos + count * 4 <= Z.of_nat (length data) ->
  resize_ucode_dwords data pos capacity count = Some (Z.max capacity count).
Proof.
  intros H. unfold resize_ucode_dwords. apply Z.leb_le in H.
  rewrite H, orb_true_r. reflexivity.
Qed.

(** C5, amended. A record of the shader stream whose header can be read is
    accepted exactly when its stored hash is a key of the shader map, in
    which case its payload is skipped unread, or its payload can be read
    and hashes to the stored hash.  A record of the pipeline state stream
    is accepted exactly when its description hashes to the stored hash: on
    a mismatch the loop stops there and counts nothing more, on a match it
    counts the record and goes on. *)
Theorem stored_record_accepted_iff :
  forall (data : list byte) (st : ShaderLoad) (header_bytes : list byte)
         (pos1 : nat),
    fread1 sizeof_ShaderStoredHeader data (load_pos st) =
      (Some header_bytes, pos1) ->
    let shader_header := ShaderStoredHeader_of_bytes header_bytes in
    let ucode_byte_count :=
      Z.to_nat (header_ucode_dword_count shader_header * 4) in
    ((exists st', shader_storage_read data st = ReadNext st') <->
     is_Some (shader_map_ (load_cache st) !!
                header_ucode_data_hash shader_header) \/
     exists ucode_bytes,
       (if header_ucode_dword_count shader_header =? 0
        then ucode_bytes = []
        else (fread1 ucode_byte_count data pos1).1 = Some ucode_bytes) /\
       header_ucode_data_hash shader_header = XXH64 ucode_bytes 0) /\
    (forall stored rest valid_bytes c created,
       (XXH64 (PipelineDescription_bytes (stored_description stored)) 0 <>
          description_hash stored ->
        pipeline_storage_loop (stored :: rest) valid_bytes c created =
          Some (valid_bytes, c, created)) /\
       (XXH64 (PipelineDescription_bytes (stored_description stored)) 0 =
          description_hash stored ->
        pipeline_storage_loop (stored :: rest) valid_bytes c created =
          replay_pipeline_state stored c ≫=
            fun r : PipelineCache * bool =>
              pipeline_storage_loop rest
                (valid_bytes + sizeof_PipelineStoredDescription)%nat r.1
                (if r.2 then S created else created))).
Proof.
  intros data st hb pos1 Hread h n. split.
  - unfold shader_storage_read. rewrite Hread. fold h. fold n.
    apply fread1_Some in Hread as [Hpos1 Epos1].
    assert (n = Z.to_nat (header_ucode_dword_count h * 4)) as Hn
      by reflexivity.
    clearbody n. clearbody h.
    destruct (shader_map_ (load_cache st) !! header_ucode_data_hash h)
      as [p|] eqn:Hmap.
    + cbn. split; [intros _; left; eauto | intros _; eauto].
    + destruct (header_ucode_dword_count h =? 0) eqn:Hz.
      * apply Z.eqb_eq in Hz.
        rewrite resize_ucode_dwords_held by lia.
        destruct (Z.eqb_spec (header_ucode_data_hash h) (XXH64 [] 0)) as [e|ne];
          cbn.
        -- split; [intros _; right; exists []; auto | intros _; eauto].
        -- split; [intros [? ?]; discriminate|].
           intros [[? ?]|(u & -> & Hu)]; [discriminate | contradiction].
      * destruct (fread1 n data pos1) as [[u|] pos2] eqn:Hu; cbn.
        -- apply fread1_Some in Hu as [Hpos2 _].
           rewrite resize_ucode_dwords_held by lia.
           destruct (Z.eqb_spec (header_ucode_data_hash h) (XXH64 u 0))
             as [e|ne]; cbn.
           ++ split; [intros _; right; exists u; split; [reflexivity|exact e]
                     | intros _; eauto].
           ++ split; [intros [? ?]; discriminate|].
              intros [[? ?]|(u' & Hu' & He)]; [discriminate|].
              injection Hu' as <-. contradiction.
        -- destruct (resize_ucode_dwords _ _ _ _);
             (split; [intros [? ?]; discriminate|]);
             intros [[? ?]|(u' & Hu' & He)]; discriminate.
  - intros stored rest v c created. cbn [pipeline_storage_loop].
    split; intros H.
    + destruct (Z.eqb_spec
                  (XXH64 (PipelineDescription_bytes (stored_description stored)) 0)
                  (description_hash stored)); [contradiction | reflexivity].
    + rewrite H, Z.eqb_refl. cbn [negb].
      destruct (replay_pipeline_state stored c) as [[c' made]|]; reflexivity.
Qed.

End RecordValidity.

(** ** Streams with a valid prefix *)
Lemma fread1_app (pre x post : list byte) (n : nat) :
  length x = n ->
  fread1 n (pre ++ x ++ post) (length pre) = (Some x, (length pre + n)%nat).
Proof.
  intros <-. unfold fread1.
  destruct (decide _) as [_|H].
  - rewrite drop_app_length, take_app_length. reflexivity.
  - exfalso. apply H. rewrite !length_app. lia.
Qed.

Lemma fread1_short (data : list byte) (pos n : nat) :
  (length data < pos + n)%nat -> (fread1 n data pos).1 = None.
Proof.
  intros H. unfold fread1. destruct (decide _); [lia|reflexivity].
Qed.

Section ShaderStream.
Context `{ext : Externals}.

Lemma shader_storage_read_accepts pre r post st :
  load_pos st = length pre ->
  stored_shader_valid r ->
  shader_map_ (load_cache st) !! stored_shader_hash r = None ->
  shader_storage_read (pre ++ stored_shader_bytes r ++ post) st =
  ReadNext (accept_stored_shader r st).
Proof.
  intros Hpos (Hlen & Hn & Hhash) Hmap. destruct r as [hb ub].
  unfold stored_shader_hash in *. cbn [fst snd] in *.
  unfold shader_storage_read, stored_shader_bytes. cbn [fst snd].
  rewrite Hpos, <- app_assoc, (fread1_app pre hb (ub ++ post)) by exact Hlen.
  rewrite Hmap.
  set (h := ShaderStoredHeader_of_bytes hb) in *.
  rewrite resize_ucode_dwords_held by (rewrite !length_app; lia).
  assert ((if header_ucode_dword_count h =? 0
           then (Some [], (length pre + sizeof_ShaderStoredHeader)%nat)
           else fread1 (Z.to_nat (header_ucode_dword_count h * 4))
                  (pre ++ hb ++ ub ++ post)
                  (length pre + sizeof_ShaderStoredHeader)) =
          (Some ub, (length pre + sizeof_ShaderStoredHeader + length ub)%nat))
    as ->.
  { destruct (Z.eqb_spec (header_ucode_dword_count h) 0) as [e|ne].
    - rewrite e in Hn. cbn in Hn. destruct ub; [|discriminate].
      cbn. f_equal. lia.
    - rewrite <- Hn, <- Hlen, <- length_app, (app_assoc pre hb).
      apply fread1_app. reflexivity. }
  rewrite Hhash, Z.eqb_refl. cbn [negb].
  unfold accept_stored_shader. cbn [fst snd]. fold h.
  rewrite Hpos, Hn. reflexivity.
Qed.


Lemma accept_stored_shaders_cons r records st :
  accept_stored_shaders (r :: records) st =
  accept_stored_shaders records (accept_stored_shader r st).
Proof. reflexivity. Qed.

Lemma accept_stored_shaders_map records : forall st k,
  Forall stored_shader_valid records ->
  shader_map_ (load_cache (accept_stored_shaders records st)) !! k = None <->
  shader_map_ (load_cache st) !! k = None /\
  k ∉ (stored_shader_hash <$> records).
Proof.
  induction records as [|r records IH]; intros st k Hv.
  - cbn. split; [intros H; split; [exact H|apply not_elem_of_nil] | tauto].
  - inversion Hv as [|? ? (_ & _ & Hh) Hv']; subst.
    rewrite accept_stored_shaders_cons, (IH _ k Hv'). cbn.
    rewrite lookup_insert_None, <- Hh, not_elem_of_cons.
    split; intros; destruct_and?; split_and?; auto.
Qed.

Lemma accept_stored_shaders_counts records : forall st,
  Forall stored_shader_valid records ->
  let st' := accept_stored_shaders records st in
  load_pos st' =
    (load_pos st + length (concat (stored_shader_bytes <$> records)))%nat /\
  shader_storage_valid_bytes st' =
    (shader_storage_valid_bytes st +
     length (concat (stored_shader_bytes <$> records)))%nat /\
  shaders_translated st' = (shaders_translated st + length records)%nat.
Proof.
  induction records as [|r records IH]; intros st Hv.
  - cbn. lia.
  - inversion Hv as [|? ? (Hl & _ & _) Hv']; subst.
    cbv zeta. rewrite accept_stored_shaders_cons.
    destruct (IH (accept_stored_shader r st) Hv') as (-> & -> & ->).
    cbn [accept_stored_shader load_pos shader_storage_valid_bytes
         shaders_translated fmap list_fmap concat length].
    assert (length (stored_shader_bytes r) =
            (sizeof_ShaderStoredHeader + length r.2)%nat)
      by (unfold stored_shader_bytes; rewrite length_app; lia).
    rewrite !length_app. lia.
Qed.

Lemma resize_ucode_dwords_granted data pos capacity count :
  0xFFFF <= capacity ->
  count <= 0xFFFF \/ host_allocates count = true ->
  resize_ucode_dwords data pos capacity count = Some (Z.max capacity count).
Proof.
  intros Hc [H|H]; unfold resize_ucode_dwords.
  - assert ((count <=? capacity) = true) as -> by (apply Z.leb_le; lia).
    reflexivity.
  - rewrite H, orb_true_r. reflexivity.
Qed.

Lemma accept_stored_shaders_capacity records : forall st,
  ucode_dwords_capacity st <=
  ucode_dwords_capacity (accept_stored_shaders records st).
Proof.
  induction records as [|r records IH]; intros st; [cbn; lia|].
  rewrite accept_stored_shaders_cons.
  etransitivity; [|apply IH]. cbn. lia.
Qed.

Lemma shader_storage_read_rejects pre trailing st :
  load_pos st = length pre ->
  0xFFFF <= ucode_dwords_capacity st ->
  ((length trailing < sizeof_ShaderStoredHeader)%nat \/
   (let h :=
      ShaderStoredHeader_of_bytes (firstn sizeof_ShaderStoredHeader trailing) in
    let n := Z.to_nat (header_ucode_dword_count h * 4) in
    shader_map_ (load_cache st) !! header_ucode_data_hash h = None /\
    ((length trailing < sizeof_ShaderStoredHeader + n)%nat \/
     header_ucode_data_hash h <>
       XXH64 (firstn n (skipn sizeof_ShaderStoredHeader trailing)) 0) /\
    ((length trailing < sizeof_ShaderStoredHeader + n)%nat ->
     header_ucode_dword_count h <= 0xFFFF \/
     host_allocates (header_ucode_dword_count h) = true))) ->
  shader_storage_read (pre ++ trailing) st = ReadBreak.
Proof.
  intros Hpos Hcap H. unfold shader_storage_read. rewrite Hpos.
  destruct (decide (length trailing < sizeof_ShaderStoredHeader)%nat) as [Hs|Hl].
  { pose proof (fread1_short (pre ++ trailing) (length pre)
                  sizeof_ShaderStoredHeader) as Hf.
    rewrite length_app in Hf. specialize (Hf ltac:(lia)).
    destruct (fread1 _ _ _) as [[x|] p]; [discriminate|reflexivity]. }
  destruct H as [H|H]; [lia|].
  rewrite <- (take_drop sizeof_ShaderStoredHeader trailing) at 1.
  rewrite (fread1_app pre _ (drop sizeof_ShaderStoredHeader trailing))
    by (rewrite length_take; lia).
  cbv zeta in H.
  set (h := ShaderStoredHeader_of_bytes (take sizeof_ShaderStoredHeader trailing))
    in *.
  destruct H as (-> & H & Hgrant).
  destruct (Z.eqb_spec (header_ucode_dword_count h) 0) as [e|ne].
  - rewrite resize_ucode_dwords_granted by (auto; left; lia).
    rewrite e in H. change (Z.to_nat (0 * 4)) with 0%nat in H.
    rewrite take_0 in H. destruct H as [H|H]; [lia|].
    apply Z.eqb_neq in H. rewrite H. reflexivity.
  - set (n := Z.to_nat (header_ucode_dword_count h * 4)) in *.
    destruct (decide (length trailing < sizeof_ShaderStoredHeader + n)%nat)
      as [Hs|Hl'].
    + rewrite resize_ucode_dwords_granted by auto.
      pose proof (fread1_short (pre ++ trailing)
                    (length pre + sizeof_ShaderStoredHeader) n) as Hf.
      rewrite length_app in Hf. specialize (Hf ltac:(lia)).
      destruct (fread1 _ _ _) as [[x|] p]; [discriminate|reflexivity].
    + rewrite resize_ucode_dwords_held
        by (rewrite length_app; subst n; lia).
      destruct H as [H|H]; [lia|].
      assert (pre ++ trailing =
              (pre ++ take sizeof_ShaderStoredHeader trailing) ++
              take n (drop sizeof_ShaderStoredHeader trailing) ++
              drop n (drop sizeof_ShaderStoredHeader trailing)) as ->
        by (rewrite take_drop, <- app_assoc, take_drop; reflexivity).
      assert (length (pre ++ take sizeof_ShaderStoredHeader trailing) =
              (length pre + sizeof_ShaderStoredHeader)%nat) as <-
        by (rewrite length_app, length_take; lia).
      rewrite fread1_app by (rewrite length_take, length_drop; lia).
      apply Z.eqb_neq in H. rewrite H. reflexivity.
Qed.

(** A header of a hash the load does not know, with a word count beyond the
    room of [ucode_dwords], beyond what the file holds and beyond what the
    host allocates: [resize] throws. *)
Lemma shader_storage_read_throws data st header_bytes pos1 :
  fread1 sizeof_ShaderStoredHeader data (load_pos st) =
    (Some header_bytes, pos1) ->
  let h := ShaderStoredHeader_of_bytes header_bytes in
  shader_map_ (load_cache st) !! header_ucode_data_hash h = None ->
  ucode_dwords_capacity st < header_ucode_dword_count h ->
  Z.of_nat (length data) < Z.of_nat pos1 + header_ucode_dword_count h * 4 ->
  host_allocates (header_ucode_dword_count h) = false ->
  shader_storage_read data st = ReadBadAlloc.
Proof.
  intros Hread h Hmap Hcap Hheld Hhost.
  unfold shader_storage_read. rewrite Hread. fold h. rewrite Hmap.
  unfold resize_ucode_dwords.
  apply Z.leb_gt in Hcap, Hheld. rewrite Hcap, Hheld, Hhost. reflexivity.
Qed.

Lemma shader_storage_loop_valid_prefix records :
  forall pre trailing st fuel,
    load_pos st = length pre ->
    Forall stored_shader_valid records ->
    NoDup (stored_shader_hash <$> records) ->
    (forall k, k ∈ stored_shader_hash <$> records ->
               shader_map_ (load_cache st) !! k = None) ->
    (length records <= fuel)%nat ->
    shader_storage_read
      (pre ++ concat (stored_shader_bytes <$> records) ++ trailing)
      (accept_stored_shaders records st) = ReadBreak ->
    shader_storage_loop fuel
      (pre ++ concat (stored_shader_bytes <$> records) ++ trailing) st =
    Some (accept_stored_shaders records st).
Proof.
  induction records as [|r records IH];
    intros pre trailing st fuel Hpos Hv Hnd Hmap Hfuel Hrej.
  - destruct fuel; [reflexivity|]. cbn in *. rewrite Hrej. reflexivity.
  - destruct fuel as [|fuel]; [cbn in Hfuel; lia|].
    inversion Hv as [|? ? Hr Hv']; subst.
    cbn [fmap list_fmap concat] in *. apply NoDup_cons in Hnd as [Hnin Hnd].
    cbn [shader_storage_loop].
    rewrite <- (app_assoc (stored_shader_bytes r)).
    rewrite (shader_storage_read_accepts pre r _ st Hpos Hr)
      by (apply Hmap; left).
    rewrite accept_stored_shaders_cons.
    rewrite (app_assoc pre).
    rewrite <- (app_assoc (stored_shader_bytes r)), (app_assoc pre) in Hrej.
    apply IH; auto.
    + destruct Hr as (Hl & _ & _). cbn. rewrite Hpos.
      unfold stored_shader_bytes. rewrite !length_app. lia.
    + intros k Hk. cbn. rewrite lookup_insert_None. split.
      * apply Hmap. right. exact Hk.
      * destruct Hr as (_ & _ & Hh). rewrite <- Hh. intros <-. contradiction.
    + cbn in Hfuel. lia.
Qed.

Lemma TranslateShader_live shader cntl patch c :
  is_Some (shader_heap c !! shader) ->
  exists ok c',
    TranslateShader shader cntl patch c = Some (ok, c') /\
    (forall q, is_Some (shader_heap c' !! q) <-> is_Some (shader_heap c !! q)).
Proof.
  intros [s Hs]. unfold TranslateShader. rewrite Hs. cbn [mbind option_bind].
  assert (forall q inv,
            is_Some (shader_heap
                       (set_shader_object shader
                          (set_translation (Translate s patch cntl) s) inv c)
                     !! q) <-> is_Some (shader_heap c !! q)) as Hlive.
  { intros q inv. cbn. rewrite lookup_insert_is_Some.
    split; [intros [<-|[_ H]]; eauto | intros H].
    destruct (decide (shader = q)); auto. }
  destruct (negb (tr_result (Translate s patch cntl))); eauto.
Qed.

Lemma translate_queued_total queue : forall failed c,
  NoDup (failed ++ (snd <$> queue)) ->
  (forall p, p ∈ snd <$> queue -> is_Some (shader_heap c !! p)) ->
  exists failed' c',
    translate_queued queue failed c = Some (failed', c') /\
    NoDup failed' /\
    (forall p, p ∈ failed' -> p ∈ failed \/ p ∈ snd <$> queue) /\
    (forall q, is_Some (shader_heap c' !! q) <-> is_Some (shader_heap c !! q)).
Proof.
  induction queue as [|[h p] queue IH]; intros failed c Hnd Hlive.
  - exists failed, c. cbn in *. rewrite app_nil_r in Hnd. repeat split; auto.
  - cbn [fmap list_fmap snd] in *.
    destruct (TranslateShader_live p (header_sq_program_cntl h)
                (PrimitiveType_of_code (header_patch_primitive_type h)) c)
      as (ok & c1 & Ht & Hl1); [apply Hlive; left|].
    cbn [translate_queued]. rewrite Ht. cbn [mbind option_bind].
    destruct (IH (if ok then failed else failed ++ [p]) c1)
      as (failed' & c' & -> & Hnd' & Hin & Hl').
    + destruct ok.
      * apply NoDup_app in Hnd as (H1 & H2 & H3). apply NoDup_cons in H3 as [_ H3].
        apply NoDup_app. split_and!; auto.
        intros x Hx Hx'. apply (H2 x Hx). right. exact Hx'.
      * rewrite <- app_assoc. exact Hnd.
    + intros q Hq. apply Hl1, Hlive. right. exact Hq.
    + exists failed', c'. split_and!; auto.
      * intros q Hq. destruct (Hin q Hq) as [H|H]; [|right; right; exact H].
        destruct ok; [left; exact H|].
        apply elem_of_app in H as [H|H]; [left; exact H|].
        apply list_elem_of_singleton in H as ->. right. left.
      * intros q. rewrite Hl'. apply Hl1.
Qed.

Lemma erase_failed_total failed : forall c,
  NoDup failed ->
  (forall p, p ∈ failed -> is_Some (shader_heap c !! p)) ->
  is_Some (erase_failed failed c).
Proof.
  induction failed as [|p failed IH]; intros c Hnd Hlive; cbn.
  - eauto.
  - destruct (Hlive p) as [s Hs]; [left|]. rewrite Hs. cbn.
    apply NoDup_cons in Hnd as [Hnin Hnd]. apply IH; [exact Hnd|].
    intros q Hq. cbn. rewrite lookup_delete_is_Some. split.
    + intros ->. contradiction.
    + apply Hlive. right. exact Hq.
Qed.

Lemma accept_stored_shaders_live records : forall st,
  queued_shaders_live st ->
  queued_shaders_live (accept_stored_shaders records st).
Proof.
  induction records as [|r records IH]; intros st Hq; [exact Hq|].
  rewrite accept_stored_shaders_cons. apply IH.
  destruct Hq as [Hnd Hlive]. split; cbn.
  - rewrite fmap_app. cbn. apply NoDup_app. split_and!; auto.
    + intros p Hp Hp'. apply list_elem_of_singleton in Hp' as ->.
      apply Hlive in Hp as [Hp _]. lia.
    + apply NoDup_singleton.
  - intros p. rewrite fmap_app, elem_of_app. cbn.
    rewrite lookup_insert_is_Some. intros [Hp|Hp].
    + apply Hlive in Hp as [Hp Hs]. split; [lia|]. right. split; [lia|exact Hs].
    + apply list_elem_of_singleton in Hp as ->. split; [lia|]. left. reflexivity.
Qed.

Lemma TruncateStdioFile_prefix (kept trailing : list byte) :
  TruncateStdioFile (length kept) (kept ++ trailing) = kept.
Proof.
  unfold TruncateStdioFile. rewrite take_app_length, length_app.
  replace (length kept - (length kept + length trailing))%nat with 0%nat by lia.
  apply app_nil_r.
Qed.

Lemma load_shader_storage_valid_prefix c header records trailing :
  let data := header ++ concat (stored_shader_bytes <$> records) ++ trailing in
  length header = 8%nat ->
  shader_storage_header_ok data = true ->
  Forall stored_shader_valid records ->
  NoDup (stored_shader_hash <$> records) ->
  (forall k, k ∈ stored_shader_hash <$> records -> shader_map_ c !! k = None) ->
  shader_trailing_rejected c records trailing ->
  exists st,
    load_shader_storage data c =
      Some (st, header ++ concat (stored_shader_bytes <$> records)) /\
    shaders_translated st = length records /\
    shader_storage_valid_bytes st =
      length (header ++ concat (stored_shader_bytes <$> records)).
Proof.
  intros data Hlen Hok Hv Hnd Hmap Hrej.
  assert (shader_storage_loop (length data) data (shader_load_start c) =
          Some (accept_stored_shaders records (shader_load_start c)))
    as Hloop.
  { apply shader_storage_loop_valid_prefix; auto.
    - unfold data. rewrite !length_app.
      clear -Hv. induction Hv as [|r records (Hl & _ & _) _ IH]; cbn; [lia|].
      unfold stored_shader_bytes at 1. rewrite !length_app, Hl.
      unfold sizeof_ShaderStoredHeader. lia.
    - fold data.
      replace data with
        ((header ++ concat (stored_shader_bytes <$> records)) ++ trailing)
        by (unfold data; rewrite app_assoc; reflexivity).
      apply shader_storage_read_rejects.
      + rewrite (proj1 (accept_stored_shaders_counts records _ Hv)).
        rewrite length_app. cbn. lia.
      + etransitivity; [|apply accept_stored_shaders_capacity]. cbn. lia.
      + destruct Hrej as [H|(H1 & H2 & H3 & H4)]; [left; exact H|right].
        split; [|split; [exact H3|exact H4]].
        apply accept_stored_shaders_map; auto. }
  destruct (accept_stored_shaders_counts records (shader_load_start c) Hv)
    as (_ & Hvalid & Hcount).
  pose proof (accept_stored_shaders_live records (shader_load_start c)) as Hlive.
  destruct Hlive as [Hqnd Hqlive].
  { split; cbn; [apply NoDup_nil_2 | intros p Hp; inversion Hp]. }
  unfold load_shader_storage. rewrite Hok, Hloop.
  cbn [mbind option_bind].
  set (st := accept_stored_shaders records (shader_load_start c)) in *.
  clearbody st.
  assert (exists c', join_shader_translation_threads st = Some c')
    as [c' Hc'].
  { unfold join_shader_translation_threads.
    destruct (shader_translation_threads st); [|eauto].
    destruct (translate_queued_total (shaders_to_translate st) []
                (load_cache st)) as (failed & c1 & -> & Hfnd & Hfin & Hfl).
    - exact Hqnd.
    - intros p Hp. apply Hqlive, Hp.
    - cbn. apply erase_failed_total; [exact Hfnd|].
      intros p Hp. apply Hfl. destruct (Hfin p Hp) as [H|H]; [inversion H|].
      apply Hqlive, H. }
  rewrite Hc'. cbn [mbind option_bind].
  eexists. split; [|split].
  - rewrite Hvalid. cbn [shader_load_start shader_storage_valid_bytes].
    rewrite <- Hlen, <- length_app. unfold data. rewrite app_assoc.
    rewrite TruncateStdioFile_prefix. reflexivity.
  - cbn. rewrite ?Hcount. reflexivity.
  - cbn. rewrite ?Hvalid, length_app, Hlen. reflexivity.
Qed.
End ShaderStream.

Lemma fread_items_app size chunks : forall pre post n,
  Forall (fun r : list byte => length r = size) chunks ->
  fread_items size (length chunks + n) (pre ++ concat chunks ++ post)
    (length pre) =
  chunks ++ fread_items size n (pre ++ concat chunks ++ post)
              (length pre + length (concat chunks)).
Proof.
  induction chunks as [|r chunks IH]; intros pre post n Hlen.
  - cbn. rewrite Nat.add_0_r. reflexivity.
  - inversion Hlen as [|? ? Hr Hlen']; subst.
    cbn [length Nat.add fread_items concat].
    rewrite <- (app_assoc r), fread1_app by reflexivity.
    rewrite (app_assoc pre r), <- length_app, IH by exact Hlen'.
    cbn [app]. rewrite !length_app, Nat.add_assoc. reflexivity.
Qed.

Lemma fread_items_short size n pre trailing :
  (length trailing < size)%nat ->
  fread_items size n (pre ++ trailing) (length pre) = [].
Proof.
  intros H. destruct n; [reflexivity|]. cbn.
  pose proof (fread1_short (pre ++ trailing) (length pre) size) as Hf.
  rewrite length_app in Hf. specialize (Hf ltac:(lia)).
  destruct (fread1 _ _ _) as [[x|] p]; [discriminate|reflexivity].
Qed.

Lemma fread_items_head size n pre trailing :
  (size <= length trailing)%nat ->
  fread_items size (S n) (pre ++ trailing) (length pre) =
  take size trailing ::
    fread_items size n (pre ++ trailing) (length pre + size).
Proof.
  intros H. cbn.
  rewrite <- (take_drop size trailing) at 1.
  rewrite fread1_app by (rewrite length_take; lia). reflexivity.
Qed.

Lemma concat_length_chunks size (chunks : list (list byte)) :
  Forall (fun r => length r = size) chunks ->
  length (concat chunks) = (length chunks * size)%nat.
Proof.
  induction 1 as [|r chunks Hr _ IH]; cbn; [reflexivity|].
  rewrite length_app, IH, Hr. reflexivity.
Qed.

Section PipelineStream.
Context `{ext : Externals}.

Lemma find_pipeline_state_total heap table hash d :
  (forall h p, (h, p) ∈ table -> is_Some (heap !! p)) ->
  is_Some (find_pipeline_state heap table hash d).
Proof.
  induction table as [|[h p] table IH]; intros Hlive; cbn; [eauto|].
  assert (is_Some (find_pipeline_state heap table hash d)) as Hrest.
  { apply IH. intros h' p' H. apply (Hlive h'). right. exact H. }
  destruct (decide (h = hash)); [|exact Hrest].
  destruct (Hlive h p) as [st ->]; [left|]. cbn.
  destruct (description_memcmp_equal _ _); eauto.
Qed.

Lemma insert_is_Some_mono {A} (m : gmap ptr A) (i j : ptr) (x : A) :
  is_Some (m !! j) -> is_Some (<[i := x]> m !! j).
Proof.
  intros H. rewrite lookup_insert_is_Some.
  destruct (decide (i = j)); auto.
Qed.

Lemma insert_pipeline_state_live hash rd c :
  cache_live c -> cache_live (insert_pipeline_state hash rd c).2.
Proof.
  intros (Ht & Hs & Hq). unfold insert_pipeline_state.
  destruct (creation_threads_ (pool c)); unfold cache_live; unfold_setters;
    cbn; (split; [|split]); auto.
  - intros h p. rewrite elem_of_app, list_elem_of_singleton.
    intros [H|[= _ ->]]; [eapply insert_is_Some_mono, Ht, H|].
    rewrite lookup_insert_eq. eauto.
  - intros p Hp. apply insert_is_Some_mono, Hq, Hp.
  - intros h p. rewrite elem_of_app, list_elem_of_singleton.
    intros [H|[= _ ->]]; [eapply insert_is_Some_mono, Ht, H|].
    rewrite lookup_insert_eq. eauto.
  - intros p. rewrite elem_of_app, list_elem_of_singleton.
    intros [H| ->]; [eapply insert_is_Some_mono, Hq, H|].
    rewrite lookup_insert_eq. eauto.
Qed.

Lemma replay_pipeline_state_total stored c :
  cache_live c ->
  exists c' made,
    replay_pipeline_state stored c = Some (c', made) /\ cache_live c'.
Proof.
  intros Hlive. pose proof Hlive as (Ht & Hs & Hq).
  unfold replay_pipeline_state.
  destruct (find_pipeline_state_total (pipeline_heap c) (pipeline_states_ c)
              (description_hash stored) (stored_description stored) Ht)
    as [found ->]. cbn [mbind option_bind].
  destruct found; [eauto|].
  assert (exists r, resolve_vertex_shader c (stored_description stored) = Some r)
    as [vs ->].
  { unfold resolve_vertex_shader.
    destruct (shader_map_ c !! _) as [p|] eqn:E; [|eauto].
    destruct (Hs _ _ E) as [s ->]. cbn. destruct (negb (is_valid s)); eauto. }
  cbn [mbind option_bind]. destruct vs as [| |vp v]; eauto.
  assert (exists r, resolve_pixel_shader c (stored_description stored) = Some r)
    as [ps ->].
  { unfold resolve_pixel_shader. destruct (negb _); [|eauto].
    destruct (shader_map_ c !! _) as [p|] eqn:E; [|eauto].
    destruct (Hs _ _ E) as [s ->]. cbn. destruct (negb (is_valid s)); eauto. }
  cbn [mbind option_bind].
  destruct ps as [| |pp p]; eauto;
    destruct (GetRootSignature _ _ _); eauto using insert_pipeline_state_live.
Qed.

Lemma pipeline_storage_loop_valid_prefix records :
  forall rest valid_bytes c created,
    cache_live c ->
    Forall (fun r => stored_pipeline_state_valid r = true) records ->
    (rest = [] \/
     exists r rest', rest = r :: rest' /\ stored_pipeline_state_valid r = false) ->
    exists c' created',
      pipeline_storage_loop (records ++ rest) valid_bytes c created =
        Some ((valid_bytes +
               length records * sizeof_PipelineStoredDescription)%nat,
              c', created') /\
      cache_live c'.
Proof.
  induction records as [|r records IH]; intros rest v c n Hlive Hv Hrest.
  - cbn [app length Nat.mul]. rewrite Nat.add_0_r.
    destruct Hrest as [->|(r & rest' & -> & Hr)]; cbn [pipeline_storage_loop].
    + eauto.
    + unfold stored_pipeline_state_valid in Hr. rewrite Hr. cbn. eauto.
  - inversion Hv as [|? ? Hr Hv']; subst.
    cbn [app pipeline_storage_loop].
    unfold stored_pipeline_state_valid in Hr. rewrite Hr. cbn [negb].
    destruct (replay_pipeline_state_total r c Hlive) as (c1 & made & -> & Hl1).
    cbn [mbind option_bind].
    destruct (IH rest (v + sizeof_PipelineStoredDescription)%nat c1
                (if made then S n else n) Hl1 Hv' Hrest)
      as (c' & n' & -> & Hl').
    exists c', n'. split; [|exact Hl'].
    do 3 f_equal. cbn [length]. lia.
Qed.

Lemma create_queued_total queue : forall c,
  cache_live c ->
  (forall p, p ∈ queue -> is_Some (pipeline_heap c !! p)) ->
  exists c', create_queued queue c = Some c' /\ cache_live c' /\
             pool c' = pool c.
Proof.
  induction queue as [|p queue IH]; intros c Hlive Hq; cbn; [eauto|].
  destruct (Hq p) as [st ->]; [left|]. cbn.
  destruct (IH (set_pipeline_state_object p
                  {| state := CreateD3D12PipelineState c (runtime_description st);
                     runtime_description := runtime_description st |} c))
    as (c' & -> & Hl' & Hp').
  - destruct Hlive as (Ht & Hs & Hqq). unfold cache_live. unfold_setters. cbn.
    split_and!; auto.
    + intros h q H. eapply insert_is_Some_mono, Ht, H.
    + intros q H. apply insert_is_Some_mono, Hqq, H.
  - intros q H. unfold_setters. cbn. apply insert_is_Some_mono, Hq. right. exact H.
  - exists c'. split_and!; auto.
Qed.

Lemma load_pipeline_state_storage_valid_prefix blocking c header chunks trailing :
  let data := header ++ concat chunks ++ trailing in
  length header = 12%nat ->
  pipeline_state_storage_header_ok (edram_rov_used_ c) data = true ->
  Forall (fun r => length r = sizeof_PipelineStoredDescription /\
                   stored_pipeline_state_valid
                     (PipelineStoredDescription_of_bytes r) = true) chunks ->
  pipeline_trailing_rejected trailing ->
  cache_live c ->
  exists c' created,
    load_pipeline_state_storage blocking data c =
    Some ((12 + length chunks * sizeof_PipelineStoredDescription)%nat,
          c', created, header ++ concat chunks).
Proof.
  intros data Hlen Hok Hv Hrej Hlive.
  assert (Forall (fun r : list byte =>
                    length r = sizeof_PipelineStoredDescription) chunks) as Hsz
    by (eapply Forall_impl; [exact Hv|]; intros r [H _]; exact H).
  assert (0 < sizeof_PipelineStoredDescription)%nat as Hpos
    by (unfold sizeof_PipelineStoredDescription; lia).
  pose proof (concat_length_chunks _ _ Hsz) as Hcat.
  assert (forall n, TruncateStdioFile n data =
                    TruncateStdioFile n data) as _ by reflexivity.
  assert (TruncateStdioFile
            (12 + length chunks * sizeof_PipelineStoredDescription) data =
          header ++ concat chunks) as Htrunc.
  { rewrite <- Hlen, <- Hcat, <- length_app. unfold data. rewrite app_assoc.
    apply TruncateStdioFile_prefix. }
  unfold load_pipeline_state_storage. rewrite Hok.
  assert (exists rest,
            fread_items sizeof_PipelineStoredDescription
              ((length data - 12) / sizeof_PipelineStoredDescription) data 12 =
            chunks ++ rest /\
            (rest = [] \/
             exists r rest', rest = r :: rest' /\
               stored_pipeline_state_valid
                 (PipelineStoredDescription_of_bytes r) = false))
    as (rest & -> & Hrest).
  { assert ((length data - 12) / sizeof_PipelineStoredDescription =
            length chunks +
            length trailing / sizeof_PipelineStoredDescription)%nat as ->.
    { unfold data. rewrite !length_app, Hlen, Hcat.
      replace (12 + (length chunks * sizeof_PipelineStoredDescription +
                     length trailing) - 12)%nat
        with (length chunks * sizeof_PipelineStoredDescription +
              length trailing)%nat by lia.
      apply Nat.div_add_l. lia. }
    rewrite <- Hlen. unfold data. rewrite fread_items_app by exact Hsz.
    eexists. split; [reflexivity|].
    rewrite <- length_app, app_assoc.
    destruct Hrej as [Hshort|Hbad].
    - left. apply fread_items_short. exact Hshort.
    - destruct (decide (length trailing < sizeof_PipelineStoredDescription)%nat)
        as [Hshort|Hlong].
      + left. apply fread_items_short. exact Hshort.
      + right.
        destruct (length trailing / sizeof_PipelineStoredDescription)%nat
          as [|m] eqn:Hm.
        * apply Nat.div_small_iff in Hm; lia.
        * rewrite fread_items_head by lia. eauto. }
  rewrite fmap_app.
  destruct (pipeline_storage_loop_valid_prefix
              (PipelineStoredDescription_of_bytes <$> chunks)
              (PipelineStoredDescription_of_bytes <$> rest) 12
              (set_pool
                 (set_creation_threads
                    (replay_creation_threads
                       (length ((PipelineStoredDescription_of_bytes <$> chunks)
                                ++ (PipelineStoredDescription_of_bytes <$> rest)))
                       (creation_threads_ (pool c))) (pool c)) c) 0)
    as (c2 & created & Hloop & Hl2).
  { destruct Hlive as (Ht & Hs & Hq). unfold cache_live. unfold_setters. cbn.
    auto. }
  { apply Forall_fmap. eapply Forall_impl; [exact Hv|]. intros r [_ H]. exact H. }
  { destruct Hrest as [->|(r & rest' & -> & Hr)]; [left; reflexivity|].
    right. cbn. eauto. }
  rewrite length_fmap in Hloop.
  destruct ((PipelineStoredDescription_of_bytes <$> chunks) ++
            (PipelineStoredDescription_of_bytes <$> rest)) as [|d ds] eqn:Hd.
  - apply app_eq_nil in Hd as [Hc _]. apply fmap_nil_inv in Hc. subst chunks.
    cbn [length Nat.mul] in Htrunc |- *. rewrite Nat.add_0_r in Htrunc |- *.
    rewrite Htrunc. eauto.
  - rewrite Hloop. cbn [mbind option_bind].
    destruct (create_queued_total (creation_queue_ (pool c2)) c2 Hl2)
      as (c3 & Hc3 & Hl3 & Hp3); [apply Hl2|].
    unfold CreateQueuedPipelineStatesOnProcessorThread. rewrite Hc3.
    cbn [mbind option_bind]. rewrite Htrunc. eauto.
Qed.
End PipelineStream.

(** C1, as stated, fails: the stream stores [ucode_good] and then a record
    with the same stored hash over a payload with another hash.  The valid
    prefix is the header and the first record, 38 bytes; the load creates
    one shader, counts all 60 bytes as valid and leaves the file whole. *)
Lemma repeated_hash_kept_after_valid_prefix :
  let E := Example.externals 8 0 in
  let data := Example.stream_with_repeated_hash in
  XXHash.XXH64 (dwords_bytes [0xDEADBEEF]) 0 <>
    Example.hash_of Example.ucode_good /\
  length (Example.shader_stream_header ++
          Example.stored_shader (Example.hash_of Example.ucode_good)
            Example.ucode_good) = 38%nat /\
  (fun r => shaders_translated r.1) <$>
    @load_shader_storage E data Example.cache0 = Some 1%nat /\
  (fun r => shader_storage_valid_bytes r.1) <$>
    @load_shader_storage E data Example.cache0 = Some 60%nat /\
  snd <$> @load_shader_storage E data Example.cache0 = Some data /\
  length data = 60%nat.
Proof. vm_compute. repeat split; (reflexivity || discriminate). Qed.

(** C1, as stated, fails in a second way: the stream stores [ucode_good]
    and ends with a header that names 0xFFFFFFFE words under a hash the
    load does not know.  The load resizes [ucode_dwords] to the stored count
    before it reads the microcode (line 318); the host does not allocate
    that much, [std::bad_alloc] is thrown, and the call does not return:
    nothing is truncated. *)
Lemma unallocated_count_aborts_load :
  let E := Example.externals 8 0 in
  length Example.stream_with_unallocated_count = 56%nat /\
  @shader_storage_read E Example.stream_with_unallocated_count
    (@accept_stored_shader E Example.stored_good
       (shader_load_start Example.cache0)) = ReadBadAlloc /\
  @load_shader_storage E Example.stream_with_unallocated_count
    Example.cache0 = None.
Proof.
  intros E. split; [vm_compute; reflexivity|].
  assert (@shader_storage_read E Example.stream_with_unallocated_count
            (@accept_stored_shader E Example.stored_good
               (shader_load_start Example.cache0)) = ReadBadAlloc) as Hthrows.
  { apply (@shader_storage_read_throws E
             Example.stream_with_unallocated_count
             (@accept_stored_shader E Example.stored_good
                (shader_load_start Example.cache0))
             (firstn 18 (skipn 38 Example.stream_with_unallocated_count))
             56%nat); vm_compute; reflexivity. }
  split; [exact Hthrows|].
  unfold load_shader_storage.
  assert (@shader_storage_header_ok E Example.stream_with_unallocated_count
          = true) as -> by (vm_compute; reflexivity).
  replace (length Example.stream_with_unallocated_count) with 56%nat
    by (vm_compute; reflexivity).
  cbn [shader_storage_loop].
  assert (@shader_storage_read E Example.stream_with_unallocated_count
            (shader_load_start Example.cache0) =
          ReadNext (@accept_stored_shader E Example.stored_good
                      (shader_load_start Example.cache0))) as ->
    by (vm_compute; reflexivity).
  rewrite Hthrows. reflexivity.
Qed.

(** C1, amended. A shader stream with a matching header, then records that
    are valid and whose stored hashes differ from each other and from the
    keys of the shader map, then trailing bytes at which the loop stops
    (see [shader_trailing_rejected]: when they start with a header and are
    too few for its microcode, the word count of the header is within the
    0xFFFF words [ucode_dwords] has reserved, or the host allocates it):
    the load creates one shader for each record, counts the header and the
    records as valid and truncates the file to them.  A pipeline state
    stream with a matching header, then records that are valid, then
    trailing bytes that are less than a record or start with a record that
    is not valid: the load counts the header and the records as valid and
    truncates the file to them. *)
Theorem load_keeps_valid_prefix `{ext : Externals} :
  (forall c header records trailing,
     let data :=
       header ++ concat (stored_shader_bytes <$> records) ++ trailing in
     length header = 8%nat ->
     shader_storage_header_ok data = true ->
     Forall stored_shader_valid records ->
     NoDup (stored_shader_hash <$> records) ->
     (forall k, k ∈ stored_shader_hash <$> records ->
                shader_map_ c !! k = None) ->
     shader_trailing_rejected c records trailing ->
     exists st,
       load_shader_storage data c =
         Some (st, header ++ concat (stored_shader_bytes <$> records)) /\
       shaders_translated st = length records /\
       shader_storage_valid_bytes st =
         length (header ++ concat (stored_shader_bytes <$> records))) /\
  (forall blocking c header chunks trailing,
     let data := header ++ concat chunks ++ trailing in
     length header = 12%nat ->
     pipeline_state_storage_header_ok (edram_rov_used_ c) data = true ->
     Forall (fun r => length r = sizeof_PipelineStoredDescription /\
                      stored_pipeline_state_valid
                        (PipelineStoredDescription_of_bytes r) = true)
       chunks ->
     pipeline_trailing_rejected trailing ->
     cache_live c ->
     exists c' created,
       load_pipeline_state_storage blocking data c =
       Some ((12 + length chunks * sizeof_PipelineStoredDescription)%nat,
             c', created, header ++ concat chunks)).
Proof.
  split.
  - intros. apply load_shader_storage_valid_prefix; assumption.
  - intros. apply load_pipeline_state_storage_valid_prefix; assumption.
Qed.

Lemma cache0_live : cache_live Example.cache0.
Proof.
  split; [|split]; cbn.
  - intros h p H. inversion H.
  - intros h p H. rewrite lookup_empty in H. discriminate.
  - intros p H. inversion H.
Qed.

Lemma load_keeps_valid_prefix_witness :
  let E := Example.externals 8 0 in
  (exists st,
     @load_shader_storage E
       (Example.shader_stream_header ++
        concat (stored_shader_bytes <$> [Example.stored_good]) ++
        [x01; x02; x03]) Example.cache0 =
       Some (st, Example.shader_stream_header ++
                 concat (stored_shader_bytes <$> [Example.stored_good])) /\
     shaders_translated st = 1%nat) /\
  (exists c' created,
     @load_pipeline_state_storage E false
       (Example.pipeline_stream_header ++
        concat [Example.stored_pipeline_state
                  (description Example.zero_hash_draw_description)] ++
        [x01; x02]) Example.cache0 =
     Some ((12 + 1 * @sizeof_PipelineStoredDescription E)%nat, c', created,
           Example.pipeline_stream_header ++
           concat [Example.stored_pipeline_state
                     (description Example.zero_hash_draw_description)])).
Proof.
  intros E. split.
  - destruct (proj1 (@load_keeps_valid_prefix E) Example.cache0
                Example.shader_stream_header [Example.stored_good]
                [x01; x02; x03]) as (st & H1 & H2 & _).
    + reflexivity.
    + vm_compute. reflexivity.
    + constructor; [|constructor].
      split; [|split]; vm_compute; reflexivity.
    + apply NoDup_singleton.
    + intros k _. apply lookup_empty.
    + left. vm_compute. lia.
    + exists st. split; assumption.
  - apply (proj2 (@load_keeps_valid_prefix E) false Example.cache0
             Example.pipeline_stream_header
             [Example.stored_pipeline_state
                (description Example.zero_hash_draw_description)]
             [x01; x02]).
    + reflexivity.
    + vm_compute. reflexivity.
    + constructor; [|constructor]. split; vm_compute; reflexivity.
    + left. vm_compute. lia.
    + exact cache0_live.
Defined.

Lemma stored_record_accepted_iff_witness :
  let E := Example.externals 8 0 in
  let c := (@LoadShader E kVertex 0 Example.ucode_good Example.cache0).2 in
  exists st',
    @shader_storage_read E Example.stream_with_known_hash
      (shader_load_start c) = ReadNext st'.
Proof.
  intros E c.
  apply (proj1 (@stored_record_accepted_iff E
                  Example.stream_with_known_hash (shader_load_start c)
                  (firstn 18 (skipn 8 Example.stream_with_known_hash)) 26%nat
                  ltac:(vm_compute; reflexivity))).
  left. vm_compute. eauto.
Defined.

(** ** The pipeline state table *)
Section TableProperties.
Context `{ext : Externals}.

Lemma find_pipeline_state_found heap table hash d p :
  find_pipeline_state heap table hash d = Some (Some p) ->
  (hash, p) ∈ table /\
  exists st, heap !! p = Some st /\
             entry_description st = PipelineDescription_bytes d.
Proof.
  induction table as [|[h q] table IH]; cbn; [discriminate|].
  destruct (decide (h = hash)) as [->|Hne].
  - destruct (heap !! q) as [st|] eqn:E; [|discriminate]. cbn.
    unfold description_memcmp_equal. case_bool_decide as Heq.
    + intros [= ->]. split; [left|]. exists st. auto.
    + intros H. destruct (IH H) as [H1 H2]. split; [right; exact H1|exact H2].
  - intros H. destruct (IH H) as [H1 H2]. split; [right; exact H1|exact H2].
Qed.

Lemma find_pipeline_state_missing heap table hash d :
  find_pipeline_state heap table hash d = Some None ->
  forall p st, (hash, p) ∈ table -> heap !! p = Some st ->
               entry_description st <> PipelineDescription_bytes d.
Proof.
  induction table as [|[h q] table IH]; cbn.
  - intros _ p st H. inversion H.
  - destruct (decide (h = hash)) as [->|Hne].
    + destruct (heap !! q) as [st0|] eqn:E; [|discriminate]. cbn.
      unfold description_memcmp_equal. case_bool_decide as Heq; [discriminate|].
      intros H p st Hin Hp. apply elem_of_cons in Hin as [[= ->]|Hin].
      * rewrite E in Hp. injection Hp as <-. exact Heq.
      * eapply IH; eauto.
    + intros H p st Hin Hp. apply elem_of_cons in Hin as [[= ? ?]|Hin];
        [congruence|]. eapply IH; eauto.
Qed.

Lemma find_pipeline_state_total_inv c hash d :
  table_inv c ->
  is_Some (find_pipeline_state (pipeline_heap c) (pipeline_states_ c) hash d).
Proof.
  intros (Hk & _). apply find_pipeline_state_total.
  intros h p H. destruct (Hk h p H) as (st & -> & _). eauto.
Qed.

Lemma translate_if_needed_same_table shader cntl patch c ok c' :
  translate_if_needed shader cntl patch c = Some (ok, c') -> same_table c c'.
Proof.
  unfold translate_if_needed, TranslateShader, queue_shader_write. intros H.
  destruct (shader_heap c !! shader) as [s|]; [|discriminate]. cbn in H.
  destruct (is_translated s); cbn in H.
  { injection H as <- <-. repeat split. }
  destruct (tr_result (Translate s patch cntl)); cbn in H.
  - destruct (tr_is_valid (Translate s patch cntl)); cbn in H;
      injection H as <- <-; [|repeat split].
    cbn. destruct (shader_storage_file_ (storage c)); repeat split.
  - injection H as <- <-. repeat split.
Qed.

Lemma same_table_trans c1 c2 c3 :
  same_table c1 c2 -> same_table c2 c3 -> same_table c1 c3.
Proof.
  intros (a1 & a2 & a3 & a4 & a5) (b1 & b2 & b3 & b4 & b5).
  repeat split; congruence.
Qed.

Lemma EnsureShadersTranslated_same_table vs ps tess prim regs c ok c' :
  EnsureShadersTranslated vs ps tess prim regs c = Some (ok, c') ->
  same_table c c'.
Proof.
  unfold EnsureShadersTranslated. intros H.
  destruct (translate_if_needed vs _ _ c) as [[ok1 c1]|] eqn:E1;
    [|discriminate].
  apply translate_if_needed_same_table in E1. cbn in H.
  destruct ok1; cbn in H.
  - destruct ps as [p|].
    + apply translate_if_needed_same_table in H.
      eapply same_table_trans; eauto.
    + injection H as <- <-. exact E1.
  - injection H as <- <-. exact E1.
Qed.


Lemma insert_pipeline_state_fst hash rd c :
  (insert_pipeline_state hash rd c).1 = next_object c.
Proof.
  unfold insert_pipeline_state. destruct (creation_threads_ (pool c));
    reflexivity.
Qed.

Lemma ConfigurePipeline_outcome req stack c r c' :
  ConfigurePipeline req stack c = Some (r, c') ->
  ConfigureOutcome c req stack r c'.
Proof.
  unfold ConfigurePipeline. intros H.
  destruct (GetCurrentStateDescription c req stack) as [[built rd]|] eqn:Hb;
    [|discriminate]. cbn [mbind option_bind] in H.
  destruct built; cbn [negb] in H;
    [|injection H as <- <-; eapply outcome_not_built; eauto].
  destruct (match current_pipeline_state_ c with
            | Some cur => _
            | None => _
            end) as [fast|] eqn:Hfast; [|discriminate].
  cbn [mbind option_bind] in H.
  destruct fast as [cur|].
  - injection H as <- <-.
    destruct (current_pipeline_state_ c) as [cur'|] eqn:Hcur; [|discriminate].
    destruct (pipeline_heap c !! cur') as [st|] eqn:Hst; [|discriminate].
    cbn in Hfast. unfold description_memcmp_equal in Hfast.
    case_bool_decide as Heq; [|discriminate]. injection Hfast as ->.
    eapply outcome_fast; eauto.
  - destruct (find_pipeline_state _ _ _ _) as [found|] eqn:Hfind;
      [|discriminate]. cbn [mbind option_bind] in H.
    destruct found as [p|].
    + destruct (pipeline_heap c !! p) as [st|] eqn:Hst; [|discriminate].
      injection H as <- <-. eapply outcome_found; eauto.
    + destruct (EnsureShadersTranslated _ _ _ _ _ c) as [[ok c1]|] eqn:He;
        [|discriminate]. cbn [mbind option_bind] in H.
      apply EnsureShadersTranslated_same_table in He.
      destruct ok; cbn [negb] in H.
      * pose proof (insert_pipeline_state_fst
                      (XXH64 (PipelineDescription_bytes (description rd)) 0)
                      rd c1) as Hins.
        pose proof (outcome_inserted c req stack rd c1 Hb Hfind He) as Hout.
        destruct (insert_pipeline_state _ rd c1) as [new c2].
        cbn [fst snd] in Hins, Hout. subst new.
        injection H as <- <-. exact Hout.
      * injection H as <- <-. eapply outcome_not_translated; eauto.
Qed.


Lemma table_inv_same_table c c' :
  table_inv c -> same_table c c' -> table_inv c'.
Proof.
  intros (H1 & H2 & H3 & H4) (e1 & e2 & e3 & e4 & _).
  unfold table_inv. rewrite e1, e2, e3, e4. auto.
Qed.

Lemma entry_for_same_table c c' d e :
  entry_for c d e -> same_table c c' -> entry_for c' d e.
Proof.
  intros (h & st & H) (e1 & e2 & _). exists h, st. rewrite e1, e2. exact H.
Qed.

(** The cache after the insertion of a pipeline state for [rd]. *)
Lemma inserted_shape hash rd c :
  let c' :=
    set_current_pipeline_state (Some (next_object c))
      (queue_pipeline_state_write hash (description rd)
         (insert_pipeline_state hash rd c).2) in
  pipeline_states_ c' = pipeline_states_ c ++ [(hash, next_object c)] /\
  (exists st, pipeline_heap c' = <[next_object c := st]> (pipeline_heap c) /\
              runtime_description st = rd) /\
  next_object c' = S (next_object c) /\
  current_pipeline_state_ c' = Some (next_object c).
Proof.
  unfold insert_pipeline_state, queue_pipeline_state_write.
  destruct (creation_threads_ (pool c)); cbn;
    destruct (pipeline_state_storage_file_ (storage c)); cbn;
    repeat split; eauto.
Qed.

Lemma table_inv_inserted c rd :
  let hash := XXH64 (PipelineDescription_bytes (description rd)) 0 in
  let c' :=
    set_current_pipeline_state (Some (next_object c))
      (queue_pipeline_state_write hash (description rd)
         (insert_pipeline_state hash rd c).2) in
  table_inv c ->
  find_pipeline_state (pipeline_heap c) (pipeline_states_ c) hash
    (description rd) = Some None ->
  table_inv c' /\
  entry_for c' (description rd) (next_object c) /\
  (forall d e, entry_for c d e -> entry_for c' d e).
Proof.
  intros hash c' (Hk & Hu & Hf & Hc) Hfind.
  destruct (inserted_shape hash rd c) as (Et & (new & Eh & Erd) & En & Ec).
  fold c' in Et, Eh, En, Ec. clearbody c'.
  pose proof (find_pipeline_state_missing _ _ _ _ Hfind) as Hmiss.
  assert (forall p, is_Some (pipeline_heap c !! p) -> p <> next_object c)
    as Hfresh by (intros p Hp ->; apply Hf in Hp; lia).
  assert (forall h p, (h, p) ∈ pipeline_states_ c ->
                      pipeline_heap c' !! p = pipeline_heap c !! p) as Hold.
  { intros h p Hin. rewrite Eh, lookup_insert_ne; [reflexivity|].
    destruct (Hk h p Hin) as (st & Hst & _). intros <-.
    eapply Hfresh; eauto. }
  assert (entry_description new = PipelineDescription_bytes (description rd))
    as Enew by (unfold entry_description; rewrite Erd; reflexivity).
  split; [|split].
  - unfold table_inv. rewrite Et, En, Ec. split_and!.
    + intros h p. rewrite elem_of_app, list_elem_of_singleton.
      intros [Hin|[= -> ->]].
      * rewrite (Hold h p Hin). apply Hk, Hin.
      * exists new. rewrite Eh, lookup_insert_eq, Enew. auto.
    + intros h1 p1 st1 h2 p2 st2.
      rewrite !elem_of_app, !list_elem_of_singleton.
      intros [Hin1|[= -> ->]] [Hin2|[= -> ->]]; auto.
      * rewrite (Hold h1 p1 Hin1), (Hold h2 p2 Hin2). eauto.
      * rewrite (Hold h1 p1 Hin1), Eh, lookup_insert_eq.
        intros Hp1 [= <-] Heq. exfalso.
        destruct (Hk h1 p1 Hin1) as (st & Hst & Hh). rewrite Hp1 in Hst.
        injection Hst as <-.
        apply (Hmiss p1 st1); [|exact Hp1|congruence].
        rewrite Hh, Heq, Enew in Hin1. exact Hin1.
      * rewrite (Hold h2 p2 Hin2), Eh, lookup_insert_eq.
        intros [= <-] Hp2 Heq. exfalso.
        destruct (Hk h2 p2 Hin2) as (st & Hst & Hh). rewrite Hp2 in Hst.
        injection Hst as <-.
        apply (Hmiss p2 st2); [|exact Hp2|congruence].
        rewrite Hh, <- Heq, Enew in Hin2. exact Hin2.
    + intros p. rewrite Eh, lookup_insert_is_Some.
      intros [<-|[_ Hp]]; [lia|]. apply Hf in Hp. lia.
    + intros cur [= <-]. exists hash. apply elem_of_app. right. left.
  - exists hash, new. rewrite Et, Eh, lookup_insert_eq. split_and!; auto.
    apply elem_of_app. right. left.
  - intros d e (h & st & Hin & Hst & Hd). exists h, st. rewrite Et.
    split_and!; auto.
    + apply elem_of_app. left. exact Hin.
    + rewrite (Hold h e Hin). exact Hst.
Qed.

Lemma ConfigureOutcome_table c req stack r c' :
  table_inv c -> ConfigureOutcome c req stack r c' ->
  table_inv c' /\
  (forall d e, entry_for c d e -> entry_for c' d e) /\
  (forall e rs rd,
     r = Some (e, rs) ->
     GetCurrentStateDescription c req stack = Some (true, rd) ->
     entry_for c' (description rd) e /\
     current_pipeline_state_ c' = Some e).
Proof.
  intros Hinv Hout. pose proof Hinv as (Hk & Hu & Hf & Hc).
  destruct Hout as [rd Hb|rd cur st Hb Hcur Hst Heq|rd p st Hb Hfind Hst
                   |rd c1 Hb Hfind Hsame|rd c1 Hb Hfind Hsame].
  - split_and!; auto. intros e rs rd' [=].
  - split_and!; auto. intros e rs rd' [= <- _] Hb'.
    rewrite Hb in Hb'. injection Hb' as <-. split; [|exact Hcur].
    destruct (Hc cur Hcur) as [h Hin]. exists h, st. auto.
  - destruct (find_pipeline_state_found _ _ _ _ _ Hfind)
      as (Hin & st' & Hst' & Hd).
    split_and!.
    + unfold table_inv. unfold_setters. cbn. split_and!; auto.
      intros cur [= <-]. eauto.
    + intros d e He. exact He.
    + intros e rs rd' [= <- _] Hb'. rewrite Hb in Hb'. injection Hb' as <-.
      split; [|reflexivity]. eexists _, st'. eauto.
  - split_and!.
    + eapply table_inv_same_table; eauto.
    + intros d e He. eapply entry_for_same_table; eauto.
    + intros e rs rd' [=].
  - pose proof (table_inv_same_table _ _ Hinv Hsame) as Hinv1.
    destruct Hsame as (e1 & e2 & e3 & e4 & e5).
    destruct (table_inv_inserted c1 rd Hinv1) as (Hi & He & Hp).
    { rewrite e1, e2. exact Hfind. }
    split_and!; auto.
    + intros d e Hde. apply Hp. eapply entry_for_same_table; eauto.
      repeat split; auto.
    + intros e rs rd' [= <- _] Hb'. rewrite Hb in Hb'. injection Hb' as <-.
      split; [exact He|reflexivity].
Qed.


Lemma find_pipeline_state_entry c d d' e :
  table_inv c -> entry_for c d e ->
  PipelineDescription_bytes d' = PipelineDescription_bytes d ->
  find_pipeline_state (pipeline_heap c) (pipeline_states_ c)
    (XXH64 (PipelineDescription_bytes d') 0) d' = Some (Some e).
Proof.
  intros Hinv (h & st & Hin & Hst & Hd) Heq.
  pose proof Hinv as (Hk & Hu & _).
  destruct (find_pipeline_state_total_inv c
              (XXH64 (PipelineDescription_bytes d') 0) d' Hinv)
    as [found Hfind].
  rewrite Hfind. do 2 f_equal.
  assert (h = XXH64 (PipelineDescription_bytes d') 0) as ->.
  { destruct (Hk h e Hin) as (st' & Hst' & ->). rewrite Hst in Hst'.
    injection Hst' as <-. rewrite Hd, Heq. reflexivity. }
  destruct found as [p|].
  - destruct (find_pipeline_state_found _ _ _ _ _ Hfind)
      as (Hinp & stp & Hstp & Hdp).
    f_equal. eapply Hu; eauto. congruence.
  - exfalso. eapply (find_pipeline_state_missing _ _ _ _ Hfind); eauto.
    congruence.
Qed.

Lemma ConfigurePipeline_returns_entry c req stack rd d e :
  table_inv c -> entry_for c d e ->
  GetCurrentStateDescription c req stack = Some (true, rd) ->
  PipelineDescription_bytes (description rd) = PipelineDescription_bytes d ->
  exists rs c',
    ConfigurePipeline req stack c = Some (Some (e, rs), c') /\
    (current_pipeline_state_ c = Some e ->
     rs = root_signature rd /\ c' = c).
Proof.
  intros Hinv He Hb Heq. pose proof Hinv as (Hk & Hu & _ & Hc).
  pose proof (find_pipeline_state_entry c d (description rd) e Hinv He Heq)
    as Hfind.
  pose proof He as (h & st & Hin & Hst & Hd).
  unfold ConfigurePipeline. rewrite Hb. cbn [mbind option_bind negb].
  destruct (current_pipeline_state_ c) as [cur|] eqn:Hcur.
  - destruct (Hc cur eq_refl) as [hc Hinc].
    destruct (Hk hc cur Hinc) as (stc & Hstc & _). rewrite Hstc.
    cbn [mbind option_bind]. unfold description_memcmp_equal.
    case_bool_decide as Hmem; cbn [mbind option_bind].
    + assert (cur = e) as ->
        by (eapply Hu; eauto; unfold entry_description in *; congruence).
      eauto.
    + rewrite Hfind. cbn [mbind option_bind]. rewrite Hst.
      cbn [mbind option_bind]. do 2 eexists. split; [reflexivity|].
      intros [= ->]. exfalso. apply Hmem. rewrite Hst in Hstc.
      injection Hstc as <-. unfold entry_description in Hd. congruence.
  - cbn [mbind option_bind]. rewrite Hfind. cbn [mbind option_bind].
    rewrite Hst. cbn [mbind option_bind]. do 2 eexists.
    split; [reflexivity|]. discriminate.
Qed.

Lemma facade_step_table c c' :
  table_inv c -> facade_step c c' ->
  table_inv c' /\ (forall d e, entry_for c d e -> entry_for c' d e).
Proof.
  intros Hinv [type ga ha|req stack r c2 H].
  - unfold LoadShader. destruct (shader_map_ c !! _); cbn; [auto|].
    destruct Hinv as (Hk & Hu & Hf & Hc). split.
    + unfold table_inv. cbn. split_and!; auto.
      intros p Hp. apply Hf in Hp. lia.
    + auto.
  - apply ConfigurePipeline_outcome in H.
    destruct (ConfigureOutcome_table _ _ _ _ _ Hinv H) as (H1 & H2 & _). auto.
Qed.

Lemma facade_steps_table c c' :
  table_inv c -> rtc facade_step c c' ->
  table_inv c' /\ (forall d e, entry_for c d e -> entry_for c' d e).
Proof.
  intros Hinv Hsteps. induction Hsteps as [c|c c1 c2 Hstep _ IH]; [auto|].
  destruct (facade_step_table _ _ Hinv Hstep) as [Hinv1 He1].
  destruct (IH Hinv1) as [Hinv2 He2]. auto.
Qed.

End TableProperties.

(** ** Quiescence *)
Section Quiescence.
Context `{ext : Externals}.

Lemma count_busy_insert threads i old new :
  threads !! i = Some old ->
  Z.of_nat (count_busy (<[i := new]> threads)) =
  Z.of_nat (count_busy threads)
  - (if thread_busy old then 1 else 0) + (if thread_busy new then 1 else 0).
Proof.
  unfold count_busy. revert i.
  induction threads as [|pc threads IH]; intros i H; [discriminate|].
  destruct i as [|i]; cbn in H.
  - injection H as ->.
    change (<[0%nat := new]> (old :: threads)) with (new :: threads).
    rewrite !filter_cons.
    destruct (thread_busy old), (thread_busy new);
      repeat case_decide; try congruence; cbn [length]; lia.
  - change (<[S i := new]> (pc :: threads))
      with (pc :: <[i := new]> threads).
    rewrite !filter_cons. specialize (IH i H).
    case_decide; cbn [length]; lia.
Qed.

Lemma count_busy_pos threads i pc :
  threads !! i = Some pc -> thread_busy pc = true ->
  (0 < count_busy threads)%nat.
Proof.
  unfold count_busy. revert i.
  induction threads as [|pc' threads IH]; intros i H Hb; [discriminate|].
  rewrite filter_cons. destruct i as [|i]; cbn in H.
  - injection H as ->. rewrite decide_True by exact Hb. cbn. lia.
  - specialize (IH i H Hb). case_decide; cbn; lia.
Qed.

Lemma thread_step_quiescing await i s s' :
  quiescing await s -> thread_step i s = Some s' ->
  quiescing await s' /\ same_maps (sys_cache s) (sys_cache s').
Proof.
  intros (Hb & Hq & He) H. unfold thread_step in H.
  destruct (sys_threads s !! i) as [pc|] eqn:Hpc; [|discriminate].
  cbn [mbind option_bind] in H.
  pose proof (count_busy_insert (sys_threads s) i pc) as Hins.
  destruct pc as [|ps| |].
  - unfold CreationThread_check in H. rewrite Hq in H.
    injection H as <-. cbn [sys_cache sys_threads].
    split; [|repeat split].
    assert (count_busy
              (<[i := if creation_threads_shutdown_from_ (pool (sys_cache s))
                         <=? Z.of_nat i then Exited else AtCheck]>
                 (sys_threads s)) = count_busy (sys_threads s)) as Hc.
    { apply Nat2Z.inj. rewrite (Hins _ Hpc).
      destruct (_ <=? _); cbn; lia. }
    unfold quiescing, signal_creation_completion. unfold_setters.
    cbn [sys_cache sys_threads pool].
    destruct (creation_threads_shutdown_from_ (pool (sys_cache s)) <=? Z.of_nat i);
      rewrite Hc;
      destruct (creation_completion_set_event_ (pool (sys_cache s))) eqn:Hse;
      destruct (Z.eqb_spec (creation_threads_busy_ (pool (sys_cache s))) 0);
      destruct await; cbn; split_and!; auto.
  - destruct (pipeline_heap (sys_cache s) !! ps) as [st|]; [|discriminate].
    injection H as <-. cbn [sys_cache sys_threads].
    split; [|repeat split].
    unfold quiescing. unfold_setters. cbn [sys_cache sys_threads pool].
    split_and!; auto. rewrite Hb. symmetry.
    rewrite (Hins _ Hpc). cbn. lia.
  - injection H as <-. cbn [sys_cache sys_threads].
    split; [|repeat split].
    unfold quiescing, CreationThread_done. unfold_setters.
    cbn [sys_cache sys_threads pool creation_threads_busy_ creation_queue_
         creation_completion_event_ creation_completion_set_event_].
    pose proof (count_busy_pos _ _ _ Hpc eq_refl) as Hpos.
    split_and!; auto.
    + rewrite (Hins _ Hpc), Hb. cbn. lia.
    + destruct await; [intros Hev; specialize (He Hev)|]; lia.
  - discriminate.
Qed.

Lemma threads_run_quiescing await s s' :
  quiescing await s -> threads_run s s' ->
  quiescing await s' /\ same_maps (sys_cache s) (sys_cache s').
Proof.
  intros Hq Hrun. induction Hrun as [s|i s s1 s2 Hstep _ IH].
  - split; [exact Hq|repeat split].
  - destruct (thread_step_quiescing _ _ _ _ Hq Hstep)
      as (Hq1 & e1 & e2 & e3 & e4 & e5).
    destruct (IH Hq1) as (Hq2 & f1 & f2 & f3 & f4 & f5).
    split; [exact Hq2|]. repeat split; congruence.
Qed.

Lemma count_busy_zero threads :
  count_busy threads = 0%nat ->
  Forall (fun pc => thread_busy pc = false) threads.
Proof.
  unfold count_busy. induction threads as [|pc threads IH]; [constructor|].
  rewrite filter_cons. destruct (thread_busy pc) eqn:Hpc.
  - rewrite decide_True by reflexivity. discriminate.
  - rewrite decide_False by discriminate. intros H. constructor; auto.
Qed.

Lemma destroy_pipeline_states_gone table : forall heap heap',
  destroy_pipeline_states table heap = Some heap' ->
  (forall q, heap !! q = None -> heap' !! q = None) /\
  (forall h p, (h, p) ∈ table -> heap' !! p = None).
Proof.
  induction table as [|[h p] table IH]; intros heap heap' H; cbn in H.
  - injection H as <-. split; [auto|]. intros h p Hin. inversion Hin.
  - destruct (heap !! p) as [st|]; [|discriminate]. cbn in H.
    destruct (state st); [|discriminate]. cbn in H.
    destruct (IH _ _ H) as [Hmono Hgone]. split.
    + intros q Hq. apply Hmono. rewrite lookup_delete_None. auto.
    + intros h' p' Hin. apply elem_of_cons in Hin as [[= -> ->]|Hin].
      * apply Hmono. apply lookup_delete_eq.
      * eapply Hgone, Hin.
Qed.

Lemma destroy_shaders_gone shaders : forall heap heap',
  destroy_shaders shaders heap = Some heap' ->
  (forall q, heap !! q = None -> heap' !! q = None) /\
  (forall h p, (h, p) ∈ shaders -> heap' !! p = None).
Proof.
  induction shaders as [|[h p] shaders IH]; intros heap heap' H; cbn in H.
  - injection H as <-. split; [auto|]. intros h p Hin. inversion Hin.
  - destruct (heap !! p) as [s|]; [|discriminate]. cbn in H.
    destruct (IH _ _ H) as [Hmono Hgone]. split.
    + intros q Hq. apply Hmono. rewrite lookup_delete_None. auto.
    + intros h' p' Hin. apply elem_of_cons in Hin as [[= -> ->]|Hin].
      * apply Hmono. apply lookup_delete_eq.
      * eapply Hgone, Hin.
Qed.

Lemma ClearCache_quiesce_quiescing s c1 await :
  pool_inv s ->
  ClearCache_quiesce (sys_cache s) = (c1, await) ->
  quiescing await {| sys_cache := c1; sys_threads := sys_threads s |} /\
  pipeline_states_ c1 = pipeline_states_ (sys_cache s) /\
  shader_map_ c1 = shader_map_ (sys_cache s) /\
  shader_heap c1 = shader_heap (sys_cache s) /\
  pipeline_heap c1 = pipeline_heap (sys_cache s) /\
  current_pipeline_state_ c1 = None.
Proof.
  intros (Hb & Hlen & Hempty) H. unfold ClearCache_quiesce in H.
  unfold ShutdownShaderStorage in H. unfold_setters.
  cbn [pool] in H.
  destruct (creation_threads_ (pool (sys_cache s))) as [|t threads] eqn:Ht.
  - injection H as <- <-. unfold quiescing. cbn.
    destruct (sys_threads s); [|discriminate].
    rewrite Hb. split_and!; auto.
  - injection H as <- <-. unfold quiescing. cbn.
    destruct (Z.eqb_spec (creation_threads_busy_ (pool (sys_cache s))) 0);
      cbn; split_and!; auto. discriminate.
Qed.

(** C4, amended. [ClearCache] when the cache is shutting down or no storage
    is in use: once it has returned, the creation queue is empty, no
    creation thread is busy, both maps are empty, the fast-path slot is
    null, and every pipeline state and every shader that the maps held is
    deleted. *)
Theorem ClearCache_quiesces_and_releases :
  forall (shutting_down : bool) (disk disk' : Disk) (s s' : System),
    pool_inv s ->
    shutting_down = true \/
      storage_write_thread_ (storage (sys_cache s)) = false ->
    ClearCache_run shutting_down disk s s' disk' ->
    creation_queue_ (pool (sys_cache s')) = [] /\
    creation_threads_busy_ (pool (sys_cache s')) = 0 /\
    Forall (fun pc => thread_busy pc = false) (sys_threads s') /\
    pipeline_states_ (sys_cache s') = [] /\
    shader_map_ (sys_cache s') = ∅ /\
    current_pipeline_state_ (sys_cache s') = None /\
    (forall h p, (h, p) ∈ pipeline_states_ (sys_cache s) ->
       pipeline_heap (sys_cache s') !! p = None) /\
    (forall h p, shader_map_ (sys_cache s) !! h = Some p ->
       shader_heap (sys_cache s') !! p = None).
Proof.
  intros shutting_down disk disk' s s' Hinv Hmode Hrun.
  destruct Hrun as [c1 await s2 c3 c4 disk' Hq Hthreads Hev Hd Hre].
  assert (c4 = c3) as ->.
  { destruct Hmode as [-> | Hw];
      [cbn in Hre | rewrite Hw, andb_false_r in Hre]; congruence. }
  destruct (ClearCache_quiesce_quiescing s c1 await Hinv Hq)
    as (Hqs & Et & Em & Eh & Ep & Ec).
  destruct (threads_run_quiescing _ _ _ Hqs Hthreads)
    as ((Hb & Hqueue & Hidle) & e1 & e2 & e3 & e4 & e5).
  cbn [sys_cache] in e1, e2, e3, e4, e5.
  assert (creation_threads_busy_ (pool (sys_cache s2)) = 0) as Hzero.
  { destruct await; [apply Hidle, Hev; reflexivity | exact Hidle]. }
  unfold ClearCache_destroy in Hd.
  destruct (destroy_pipeline_states _ _) as [pipelines|] eqn:Hp;
    [|discriminate].
  destruct (destroy_shaders _ _) as [shaders|] eqn:Hs; [|discriminate].
  cbn in Hd. injection Hd as <-. cbn.
  destruct (destroy_pipeline_states_gone _ _ _ Hp) as [_ Hgp].
  destruct (destroy_shaders_gone _ _ _ Hs) as [_ Hgs].
  split_and!; auto.
  - apply count_busy_zero. lia.
  - congruence.
  - intros h p Hin. apply (Hgp h). rewrite e1, Et. exact Hin.
  - intros h p Hin. apply (Hgs h). apply elem_of_map_to_list.
    rewrite e2, Em. exact Hin.
Qed.

End Quiescence.

Lemma table_inv_loaded : @table_inv Scenario.E Scenario.loaded.
Proof.
  split_and!.
  - intros h p H. inversion H.
  - intros h1 p1 st1 h2 p2 st2 H. inversion H.
  - intros p [st H]. vm_compute in H. discriminate.
  - intros cur H. vm_compute in H. discriminate.
Qed.

Section Runs.
Context `{ext : Externals}.

Lemma run_schedule_threads_run schedule : forall s s',
  run_schedule schedule s = Some s' -> threads_run s s'.
Proof.
  induction schedule as [|i schedule IH]; intros s s' H; cbn in H.
  - injection H as <-. constructor.
  - destruct (thread_step i s) as [s1|] eqn:Hs; [|discriminate].
    eapply threads_run_step; eauto.
Qed.

Lemma ClearCache_sequential_run shutting_down disk s c' disk' :
  ClearCache_sequential shutting_down disk (sys_cache s) = Some (c', disk') ->
  ClearCache_run shutting_down disk s
    {| sys_cache := c'; sys_threads := sys_threads s |} disk'.
Proof.
  unfold ClearCache_sequential. intros H.
  destruct (ClearCache_quiesce (sys_cache s)) as [c1 await] eqn:Hq.
  destruct await; [discriminate|].
  destruct (ClearCache_destroy c1) as [c3|] eqn:Hd; [|discriminate].
  cbn [mbind option_bind] in H.
  apply (ClearCache_run_intro shutting_down disk s c1 false
           {| sys_cache := c1; sys_threads := sys_threads s |} c3 c' disk').
  - exact Hq.
  - constructor.
  - discriminate.
  - exact Hd.
  - exact H.
Qed.

End Runs.

(** C4, as stated, fails: the cache has no creation thread and its storage
    is in use, with one stored shader; [ClearCache(false)] destroys the
    shader, initializes the storage again and returns with the shader of
    the stream in the shader map. *)
Lemma ClearCache_reloads_storage :
  let s := {| sys_cache := Scenario.with_storage; sys_threads := [] |} in
  let s' := {| sys_cache := Scenario.cleared_cache; sys_threads := [] |} in
  storage_write_thread_ (storage (sys_cache s)) = true /\
  @ClearCache_run Scenario.E false Scenario.disk1 s s' Scenario.cleared_disk /\
  shader_map_ (sys_cache s') !! Example.hash_of Example.ucode_good =
    Some 2%nat /\
  is_Some (shader_heap (sys_cache s') !! 2%nat).
Proof.
  intros s s'. split; [vm_compute; reflexivity|]. split.
  - apply (@ClearCache_sequential_run Scenario.E false Scenario.disk1 s
             Scenario.cleared_cache Scenario.cleared_disk).
    vm_compute. reflexivity.
  - split; vm_compute; eauto.
Qed.

Lemma pool_inv_busy : pool_inv Scenario.busy.
Proof.
  split_and!.
  - vm_compute. reflexivity.
  - vm_compute. reflexivity.
  - intros H. vm_compute in H. discriminate.
Qed.

Lemma ClearCache_run_busy :
  @ClearCache_run Scenario.E2 true Scenario.disk0 Scenario.busy
    Scenario.busy_cleared Scenario.disk0.
Proof.
  apply (@ClearCache_run_intro Scenario.E2 true Scenario.disk0 Scenario.busy
           (sys_cache Scenario.busy_armed) true Scenario.busy_signalled
           (sys_cache Scenario.busy_cleared) (sys_cache Scenario.busy_cleared)
           Scenario.disk0).
  - vm_compute. reflexivity.
  - apply (@run_schedule_threads_run Scenario.E2 [0%nat; 0%nat; 0%nat]).
    vm_compute. reflexivity.
  - intros _. vm_compute. reflexivity.
  - vm_compute. reflexivity.
  - reflexivity.
Qed.

Lemma ClearCache_quiesces_and_releases_witness :
  creation_threads_busy_ (pool (sys_cache Scenario.busy)) = 1 /\
  creation_threads_busy_ (pool (sys_cache Scenario.busy_cleared)) = 0 /\
  pipeline_states_ (sys_cache Scenario.busy_cleared) = [] /\
  pipeline_heap (sys_cache Scenario.busy_cleared) !! 2%nat = None.
Proof.
  destruct (@ClearCache_quiesces_and_releases Scenario.E2 true Scenario.disk0
              Scenario.disk0 Scenario.busy Scenario.busy_cleared
              pool_inv_busy (or_introl eq_refl) ClearCache_run_busy)
    as (_ & Hbusy & _ & Htable & _ & _ & Hgone & _).
  split; [vm_compute; reflexivity|]. split; [exact Hbusy|].
  split; [exact Htable|].
  apply (Hgone 7285260959315838721). vm_compute. left.
Defined.

(** * Further properties of the code *)

Lemma byte_to_Z_range (b : byte) : 0 <= byte_to_Z b < 256.
Proof.
  unfold byte_to_Z. pose proof (Byte.to_N_bounded b). lia.
Qed.

Lemma byte_of_Z_to_Z (b : byte) : byte_of_Z (byte_to_Z b) = b.
Proof.
  unfold byte_of_Z, byte_to_Z. pose proof (Byte.to_N_bounded b).
  rewrite Z.mod_small by lia. rewrite N2Z.id, Byte.of_to_N. reflexivity.
Qed.

Lemma byte_to_Z_of_Z (z : Z) : byte_to_Z (byte_of_Z z) = z mod 256.
Proof.
  unfold byte_of_Z, byte_to_Z.
  pose proof (Z.mod_pos_bound z 256 ltac:(lia)) as Hm.
  destruct (Byte.of_N (Z.to_N (z mod 256))) as [b|] eqn:E.
  - apply Byte.to_of_N in E. rewrite E. lia.
  - apply Byte.of_N_None_iff in E. lia.
Qed.

Lemma length_le_bytes n v : length (le_bytes n v) = n.
Proof. revert v. induction n as [|n IH]; intros v; cbn; [|rewrite IH]; reflexivity. Qed.

Lemma le_value_le_bytes n v : le_value (le_bytes n v) = v mod 256 ^ Z.of_nat n.
Proof.
  revert v. induction n as [|n IH]; intros v.
  - cbn. rewrite Z.mod_1_r. reflexivity.
  - cbn [le_bytes le_value]. rewrite IH, byte_to_Z_of_Z.
    rewrite Nat2Z.inj_succ, Z.pow_succ_r by lia.
    rewrite Z.rem_mul_r by lia. reflexivity.
Qed.

Lemma le_bytes_le_value bs : le_bytes (length bs) (le_value bs) = bs.
Proof.
  induction bs as [|b bs IH]; [reflexivity|].
  cbn [length le_bytes le_value].
  pose proof (byte_to_Z_range b) as Hb.
  f_equal.
  - rewrite <- (byte_of_Z_to_Z b) at 2. unfold byte_of_Z.
    replace ((byte_to_Z b + 256 * le_value bs) mod 256) with (byte_to_Z b mod 256);
      [reflexivity|].
    rewrite (Z.mul_comm 256), Z.mod_add by lia. reflexivity.
  - replace ((byte_to_Z b + 256 * le_value bs) / 256) with (le_value bs); [exact IH|].
    rewrite (Z.mul_comm 256), Z.div_add by lia.
    rewrite (Z.div_small (byte_to_Z b)) by lia. lia.
Qed.

Lemma le_value_range bs : 0 <= le_value bs < 256 ^ Z.of_nat (length bs).
Proof.
  induction bs as [|b bs IH]; [cbn; lia|].
  cbn [length le_value]. pose proof (byte_to_Z_range b).
  rewrite Nat2Z.inj_succ, Z.pow_succ_r by lia. lia.
Qed.

Lemma length_dwords_bytes ws : length (dwords_bytes ws) = (4 * length ws)%nat.
Proof.
  unfold dwords_bytes. induction ws as [|w ws IH]; [reflexivity|].
  cbn [flat_map]. rewrite length_app, IH, length_le_bytes. cbn [length]. lia.
Qed.

Lemma bytes_dwords_dwords_bytes ws post :
  Forall (fun w => 0 <= w < 2 ^ 32) ws ->
  bytes_dwords (length ws) (dwords_bytes ws ++ post) = ws.
Proof.
  induction 1 as [|w ws Hw _ IH]; [reflexivity|].
  unfold dwords_bytes. cbn [flat_map length bytes_dwords].
  rewrite <- app_assoc.
  rewrite take_app_length' by (rewrite length_le_bytes; reflexivity).
  rewrite drop_app_length' by (rewrite length_le_bytes; reflexivity).
  rewrite le_value_le_bytes. fold (dwords_bytes ws). rewrite IH.
  f_equal. apply Z.mod_small. cbn. lia.
Qed.

Lemma dwords_bytes_bytes_dwords n bs :
  length bs = (4 * n)%nat -> dwords_bytes (bytes_dwords n bs) = bs.
Proof.
  revert bs. induction n as [|n IH]; intros bs Hl.
  - destruct bs; [reflexivity|discriminate].
  - cbn [bytes_dwords]. unfold dwords_bytes. cbn [flat_map].
    fold (dwords_bytes (bytes_dwords n (skipn 4 bs))).
    rewrite IH by (rewrite length_skipn; lia).
    pose proof (le_bytes_le_value (firstn 4 bs)) as H.
    rewrite length_firstn, Nat.min_l in H by lia.
    rewrite H. apply firstn_skipn.
Qed.

Lemma disk_read_fwrite bs f d :
  disk_read (fwrite bs f d) (file_path f) = disk_read d (file_path f) ++ bs.
Proof.
  unfold fwrite, disk_read, disk_write.
  destruct (decide _); [reflexivity|congruence].
Qed.

Lemma disk_fwrite_other bs f d path :
  path <> file_path f -> fwrite bs f d path = d path.
Proof.
  intros H. unfold fwrite, disk_write. destruct (decide _); [congruence|reflexivity].
Qed.

Section StorageWriterProperties.
Context `{ext : Externals} `{acc : ShaderAccessors}.

Ltac writer_simpl :=
  cbn [writer_disk writer_cache flush_shaders flush_pipeline_states
       writer_fflushed storage shader_heap set_storage
       set_storage_write_requests storage_write_shader_queue_
       storage_write_pipeline_state_queue_ storage_write_flush_shaders_
       storage_write_flush_pipeline_states_ shader_storage_file_
       pipeline_state_storage_file_] in *.

Lemma pick_flush_request {A} (b : bool) :
  (if b then (@None A, @nil A, false, true) else (None, [], false, false)) =
  (None, [], false, b).
Proof. destruct b; reflexivity. Qed.

(** The thread from the head of its loop to its next wait. *)
Lemma StorageWriteThread_run_to_wait fuel : forall (w : StorageWriter) fs fp,
  let c := writer_cache w in
  let sq := storage_write_shader_queue_ (storage c) in
  let pq := storage_write_pipeline_state_queue_ (storage c) in
  let rs := storage_write_flush_shaders_ (storage c) in
  let rp := storage_write_flush_pipeline_states_ (storage c) in
  shader_storage_file_ (storage c) = Some fs ->
  pipeline_state_storage_file_ (storage c) = Some fp ->
  file_path fs <> file_path fp ->
  (forall p cntl, (p, cntl) ∈ sq -> is_Some (shader_heap c !! p)) ->
  (length sq `max` length pq < fuel)%nat ->
  exists w',
    StorageWriteThread_run fuel false w = Some (w', WriterWaiting) /\
    disk_read (writer_disk w') (file_path fs) =
      disk_read (writer_disk w) (file_path fs) ++
      written_shaders (shader_heap c) sq /\
    disk_read (writer_disk w') (file_path fp) =
      disk_read (writer_disk w) (file_path fp) ++ written_pipeline_states pq /\
    (forall path, path <> file_path fs -> path <> file_path fp ->
       writer_disk w' path = writer_disk w path) /\
    writer_cache w' =
      set_storage (set_storage_write_requests [] [] false false (storage c)) c /\
    flush_shaders w' = rs && (length pq <=? length sq)%nat /\
    flush_pipeline_states w' = rp && (length sq <=? length pq)%nat /\
    writer_fflushed w' =
      writer_fflushed w ++
      (if flush_shaders w then [Some fs] else []) ++
      (if flush_pipeline_states w then [Some fp] else []) ++
      (if rs && (length sq <? length pq)%nat then [Some fs] else []) ++
      (if rp && (length pq <? length sq)%nat then [Some fp] else []).
Proof.
  induction fuel as [|fuel IH]; intros w fs fp c sq pq rs rp Hfs Hfp Hne Hlive Hfuel;
    [lia|].
  cbn [StorageWriteThread_run]. unfold StorageWriteThread_iteration.
  fold c. rewrite Hfs, Hfp. fold sq pq rs rp.
  assert (writer_fflushed w ++
          (if flush_shaders w then [Some fs] else []) ++
          (if flush_pipeline_states w then [Some fp] else []) =
          (if flush_pipeline_states w
           then (if flush_shaders w
                 then writer_fflushed w ++ [Some fs] else writer_fflushed w) ++
                [Some fp]
           else if flush_shaders w
                then writer_fflushed w ++ [Some fs] else writer_fflushed w))
    as Htop.
  { destruct (flush_shaders w), (flush_pipeline_states w); cbn;
      rewrite <- ?app_assoc, ?app_nil_r; reflexivity. }
  destruct sq as [|[p cntl] sq'] eqn:Esq; destruct pq as [|d pq'] eqn:Epq.
  - (* nothing queued *)
    cbn [length] in *. rewrite !pick_flush_request. cbn.
    eexists. split; [reflexivity|]. cbn.
    rewrite !app_nil_r, !andb_true_r, !andb_false_r. cbn.
    split_and!; try reflexivity.
    rewrite app_nil_r. symmetry. exact Htop.
  - (* a pipeline state only *)
    rewrite pick_flush_request. cbn [mbind option_bind].
    set (w1 := {| writer_cache := _ |}).
    specialize (IH w1 fs fp). cbn zeta in IH.
    destruct IH as (w' & Hrun & Hds & Hdp & Hdo & Hc & Hls & Hlp & Hfl);
      try assumption.
    { cbn [length] in *. cbn. lia. }
    exists w'. rewrite Hrun. split; [reflexivity|].
    subst w1. writer_simpl.
    rewrite Hds, Hdp. cbn [length].
    split_and!.
    + unfold disk_read. rewrite disk_fwrite_other by congruence.
      unfold written_shaders. cbn. rewrite !app_nil_r. reflexivity.
    + rewrite disk_read_fwrite. unfold written_pipeline_states. cbn.
      rewrite <- app_assoc. reflexivity.
    + intros path H1 H2. rewrite Hdo by assumption.
      apply disk_fwrite_other. exact H2.
    + exact Hc.
    + rewrite Hls. cbn. rewrite andb_false_r. reflexivity.
    + rewrite Hlp. cbn. rewrite andb_true_r. reflexivity.
    + rewrite Hfl, <- Htop. cbn [negb andb].
      rewrite !andb_false_r. cbn.
      rewrite <- !app_assoc. f_equal. f_equal. f_equal.
      destruct rs; cbn; rewrite ?app_nil_r; reflexivity.
  - (* a shader only *)
    rewrite pick_flush_request.
    destruct (Hlive p cntl) as [s Hs]; [left|].
    rewrite Hs. cbn [mbind option_bind].
    set (w1 := {| writer_cache := _ |}).
    specialize (IH w1 fs fp). cbn zeta in IH.
    destruct IH as (w' & Hrun & Hds & Hdp & Hdo & Hc & Hls & Hlp & Hfl);
      try assumption.
    { subst w1. writer_simpl. intros q k H. apply (Hlive q k). right. exact H. }
    { cbn [length] in *. cbn. lia. }
    exists w'. rewrite Hrun. split; [reflexivity|].
    subst w1. writer_simpl.
    rewrite Hds, Hdp. cbn [length].
    split_and!.
    + rewrite disk_read_fwrite. unfold written_shaders. cbn. rewrite Hs.
      rewrite <- app_assoc. reflexivity.
    + unfold disk_read. rewrite disk_fwrite_other by congruence.
      unfold written_pipeline_states. cbn. rewrite !app_nil_r. reflexivity.
    + intros path H1 H2. rewrite Hdo by assumption.
      apply disk_fwrite_other. exact H1.
    + exact Hc.
    + rewrite Hls. cbn. rewrite andb_true_r. reflexivity.
    + rewrite Hlp. cbn. rewrite andb_false_r. reflexivity.
    + rewrite Hfl, <- Htop. cbn [negb andb].
      rewrite !andb_false_r. cbn.
      rewrite <- !app_assoc. f_equal. f_equal. f_equal.
      destruct rp; cbn; rewrite ?app_nil_r; reflexivity.
  - (* a shader and a pipeline state *)
    destruct (Hlive p cntl) as [s Hs]; [left|].
    rewrite Hs. cbn [mbind option_bind].
    set (w1 := {| writer_cache := _ |}).
    specialize (IH w1 fs fp). cbn zeta in IH.
    destruct IH as (w' & Hrun & Hds & Hdp & Hdo & Hc & Hls & Hlp & Hfl);
      try assumption.
    { subst w1. writer_simpl. intros q k H. apply (Hlive q k). right. exact H. }
    { cbn [length] in *. cbn. lia. }
    exists w'. rewrite Hrun. split; [reflexivity|].
    subst w1. writer_simpl.
    rewrite Hds, Hdp. cbn [length].
    split_and!.
    + unfold disk_read at 1. rewrite disk_fwrite_other by congruence.
      fold (disk_read (fwrite (written_shader s cntl) fs (writer_disk w))
              (file_path fs)).
      rewrite disk_read_fwrite. unfold written_shaders. cbn. rewrite Hs.
      rewrite <- app_assoc. reflexivity.
    + rewrite disk_read_fwrite.
      unfold disk_read at 1. rewrite disk_fwrite_other by congruence.
      unfold written_pipeline_states. cbn.
      rewrite <- app_assoc. reflexivity.
    + intros path H1 H2. rewrite Hdo by assumption.
      rewrite !disk_fwrite_other by assumption. reflexivity.
    + exact Hc.
    + rewrite Hls. reflexivity.
    + rewrite Hlp. reflexivity.
    + rewrite Hfl, <- Htop. cbn [negb andb].
      rewrite <- !app_assoc. reflexivity.
Qed.

(** X2. Until it waits, the writing thread takes every queued shader and every
    queued pipeline state description and appends their records to the two
    files in the order of the queues; it leaves both queues empty and no
    other file touched. *)
Theorem StorageWriteThread_writes_queues_in_order (w : StorageWriter) fs fp fuel :
  let c := writer_cache w in
  let sq := storage_write_shader_queue_ (storage c) in
  let pq := storage_write_pipeline_state_queue_ (storage c) in
  shader_storage_file_ (storage c) = Some fs ->
  pipeline_state_storage_file_ (storage c) = Some fp ->
  file_path fs <> file_path fp ->
  (forall p cntl, (p, cntl) ∈ sq -> is_Some (shader_heap c !! p)) ->
  (length sq `max` length pq < fuel)%nat ->
  exists w',
    StorageWriteThread_run fuel false w = Some (w', WriterWaiting) /\
    disk_read (writer_disk w') (file_path fs) =
      disk_read (writer_disk w) (file_path fs) ++
      written_shaders (shader_heap c) sq /\
    disk_read (writer_disk w') (file_path fp) =
      disk_read (writer_disk w) (file_path fp) ++ written_pipeline_states pq /\
    (forall path, path <> file_path fs -> path <> file_path fp ->
       writer_disk w' path = writer_disk w path) /\
    storage_write_shader_queue_ (storage (writer_cache w')) = [] /\
    storage_write_pipeline_state_queue_ (storage (writer_cache w')) = [] /\
    shader_heap (writer_cache w') = shader_heap c /\
    shader_map_ (writer_cache w') = shader_map_ c /\
    pipeline_states_ (writer_cache w') = pipeline_states_ c.
Proof.
  intros c sq pq Hfs Hfp Hne Hlive Hfuel.
  destruct (StorageWriteThread_run_to_wait fuel w fs fp Hfs Hfp Hne Hlive Hfuel)
    as (w' & Hrun & Hds & Hdp & Hdo & Hc & _).
  exists w'. rewrite Hc. split_and!; try assumption; reflexivity.
Qed.

(** X3. A flush that is requested while the thread still has to take [n]
    shaders and [m] pipeline state descriptions: the shader file is flushed
    before the thread waits only when [n < m], the pipeline state file only
    when [m < n], and then after the records of that file are written.
    Otherwise the request is held in the local flag while the thread waits,
    and carried out at the head of the next iteration, whether the thread
    then goes on or returns. *)
Theorem StorageWriteThread_flush_deferred (w : StorageWriter) fs fp fuel :
  let c := writer_cache w in
  let sq := storage_write_shader_queue_ (storage c) in
  let pq := storage_write_pipeline_state_queue_ (storage c) in
  let rs := storage_write_flush_shaders_ (storage c) in
  let rp := storage_write_flush_pipeline_states_ (storage c) in
  shader_storage_file_ (storage c) = Some fs ->
  pipeline_state_storage_file_ (storage c) = Some fp ->
  file_path fs <> file_path fp ->
  (forall p cntl, (p, cntl) ∈ sq -> is_Some (shader_heap c !! p)) ->
  (length sq `max` length pq < fuel)%nat ->
  flush_shaders w = false ->
  flush_pipeline_states w = false ->
  exists w',
    StorageWriteThread_run fuel false w = Some (w', WriterWaiting) /\
    storage_write_flush_shaders_ (storage (writer_cache w')) = false /\
    storage_write_flush_pipeline_states_ (storage (writer_cache w')) = false /\
    writer_fflushed w' =
      writer_fflushed w ++
      (if rs && (length sq <? length pq)%nat then [Some fs] else []) ++
      (if rp && (length pq <? length sq)%nat then [Some fp] else []) /\
    forall shutdown, exists w'' status,
      StorageWriteThread_iteration shutdown w' = Some (w'', status) /\
      status = (if shutdown then WriterReturned else WriterWaiting) /\
      writer_disk w'' = writer_disk w' /\
      writer_fflushed w'' =
        writer_fflushed w' ++
        (if rs && (length pq <=? length sq)%nat then [Some fs] else []) ++
        (if rp && (length sq <=? length pq)%nat then [Some fp] else []).
Proof.
  intros c sq pq rs rp Hfs Hfp Hne Hlive Hfuel Hls Hlp.
  destruct (StorageWriteThread_run_to_wait fuel w fs fp Hfs Hfp Hne Hlive Hfuel)
    as (w' & Hrun & _ & _ & _ & Hc & Hfs' & Hfp' & Hfl).
  fold c sq pq rs rp in Hc, Hfs', Hfp', Hfl.
  rewrite Hls, Hlp in Hfl. cbn [app] in Hfl.
  exists w'. rewrite Hc. split_and!; try assumption; try reflexivity.
  intros shutdown. unfold StorageWriteThread_iteration.
  rewrite Hc, Hfs', Hfp'. writer_simpl. rewrite Hfs, Hfp.
  destruct shutdown.
  - eexists _, _. split; [reflexivity|]. cbn.
    split_and!; try reflexivity.
    destruct (rs && _), (rp && _); cbn; rewrite <- ?app_assoc, ?app_nil_r;
      reflexivity.
  - cbn. eexists _, _. split; [reflexivity|]. cbn.
    split_and!; try reflexivity.
    destruct (rs && _), (rp && _); cbn; rewrite <- ?app_assoc, ?app_nil_r;
      reflexivity.
Qed.

End StorageWriterProperties.

Lemma ShaderStoredHeader_of_bytes_bytes h post :
  ShaderStoredHeader_of_bytes
    (firstn sizeof_ShaderStoredHeader (ShaderStoredHeader_bytes h ++ post)) =
  {| header_ucode_data_hash := header_ucode_data_hash h mod 2 ^ 64;
     header_ucode_dword_count := header_ucode_dword_count h mod 2 ^ 32;
     header_type := header_type h mod 256;
     header_patch_primitive_type := header_patch_primitive_type h mod 256;
     header_sq_program_cntl := header_sq_program_cntl h mod 2 ^ 32 |}.
Proof.
  unfold ShaderStoredHeader_of_bytes.
  change (firstn 8 (firstn sizeof_ShaderStoredHeader
                      (ShaderStoredHeader_bytes h ++ post)))
    with (le_bytes 8 (header_ucode_data_hash h)).
  change (firstn 4 (skipn 8 (firstn sizeof_ShaderStoredHeader
                               (ShaderStoredHeader_bytes h ++ post))))
    with (le_bytes 4 (header_ucode_dword_count h)).
  change (firstn 1 (skipn 12 (firstn sizeof_ShaderStoredHeader
                                (ShaderStoredHeader_bytes h ++ post))))
    with (le_bytes 1 (header_type h)).
  change (firstn 1 (skipn 13 (firstn sizeof_ShaderStoredHeader
                                (ShaderStoredHeader_bytes h ++ post))))
    with (le_bytes 1 (header_patch_primitive_type h)).
  change (firstn 4 (skipn 14 (firstn sizeof_ShaderStoredHeader
                                (ShaderStoredHeader_bytes h ++ post))))
    with (le_bytes 4 (header_sq_program_cntl h)).
  rewrite !le_value_le_bytes. reflexivity.
Qed.

Lemma length_ShaderStoredHeader_bytes h :
  length (ShaderStoredHeader_bytes h) = sizeof_ShaderStoredHeader.
Proof. reflexivity. Qed.

Section WriteReadRoundTrip.
Context `{ext : Externals} `{acc : ShaderAccessors}.

Lemma written_shader_ucode_storable s :
  storable_shader s -> written_shader_ucode s = dwords_bytes (ucode_dwords s).
Proof.
  intros (Hswap & _). unfold written_shader_ucode. rewrite Hswap.
  destruct (Z.eqb_spec (Z.of_nat (length (Shader_ucode_dwords s))) 0) as [e|ne];
    [|reflexivity].
  assert (length (ucode_dwords s) = 0%nat) as Hl.
  { rewrite <- Hswap. unfold copy_and_swap. rewrite length_fmap. lia. }
  destruct (ucode_dwords s); [reflexivity|discriminate].
Qed.

Lemma written_shader_header_decoded s cntl :
  storable_shader s ->
  ShaderStoredHeader_of_bytes
    (ShaderStoredHeader_bytes (written_shader_header s cntl)) =
  {| header_ucode_data_hash := ucode_data_hash s;
     header_ucode_dword_count := Z.of_nat (length (ucode_dwords s));
     header_type := ShaderType_code (shader_type s) mod 256;
     header_patch_primitive_type :=
       PrimitiveType_code (Shader_patch_primitive_type s) mod 256;
     header_sq_program_cntl := cntl mod 2 ^ 32 |}.
Proof.
  intros (Hswap & _ & Hh & Hc & _).
  pose proof (ShaderStoredHeader_of_bytes_bytes (written_shader_header s cntl) [])
    as H.
  rewrite app_nil_r in H.
  rewrite firstn_all2 in H by (rewrite length_ShaderStoredHeader_bytes; lia).
  rewrite H. cbn [written_shader_header header_ucode_data_hash
                  header_ucode_dword_count header_type
                  header_patch_primitive_type header_sq_program_cntl].
  assert (length (Shader_ucode_dwords s) = length (ucode_dwords s)) as ->
    by (rewrite <- Hswap; unfold copy_and_swap; rewrite length_fmap; reflexivity).
  rewrite (Z.mod_small (ucode_data_hash s)) by lia.
  rewrite (Z.mod_small (Z.of_nat _)) by lia.
  reflexivity.
Qed.

Lemma written_shader_valid s cntl :
  storable_shader s ->
  let r : StoredShader :=
    (ShaderStoredHeader_bytes (written_shader_header s cntl),
     written_shader_ucode s) in
  stored_shader_valid r /\ stored_shader_hash r = ucode_data_hash s.
Proof.
  intros Hs r. pose proof Hs as (_ & Hhash & _).
  unfold stored_shader_valid, stored_shader_hash. subst r. cbn [fst snd].
  rewrite (written_shader_header_decoded s cntl Hs),
    (written_shader_ucode_storable s Hs).
  cbn [header_ucode_data_hash header_ucode_dword_count].
  split_and!; try reflexivity; try exact Hhash.
  rewrite length_dwords_bytes. lia.
Qed.

(** X4. The record the writing thread writes for a shader is accepted by the
    load, which makes the same shader object of it and queues it for
    translation with the stored control bits and patch type. *)
Theorem written_shader_read_back s cntl pre post st :
  storable_shader s ->
  load_pos st = length pre ->
  shader_map_ (load_cache st) !! ucode_data_hash s = None ->
  exists st' h,
    shader_storage_read (pre ++ written_shader s cntl ++ post) st =
      ReadNext st' /\
    load_pos st' = length (pre ++ written_shader s cntl) /\
    shader_map_ (load_cache st') !! ucode_data_hash s =
      Some (next_object (load_cache st)) /\
    shader_heap (load_cache st') !! next_object (load_cache st) =
      Some (new_D3D12Shader (shader_type s) (ucode_data_hash s)
              (ucode_dwords s)) /\
    shaders_to_translate st' =
      shaders_to_translate st ++ [(h, next_object (load_cache st))] /\
    header_sq_program_cntl h = cntl mod 2 ^ 32 /\
    header_patch_primitive_type h =
      PrimitiveType_code (Shader_patch_primitive_type s) mod 256.
Proof.
  intros Hs Hpos Hmap.
  destruct (written_shader_valid s cntl Hs) as [Hv Hh].
  set (r := (ShaderStoredHeader_bytes (written_shader_header s cntl),
             written_shader_ucode s) : StoredShader) in *.
  pose proof (shader_storage_read_accepts pre r post st Hpos Hv) as Hread.
  rewrite Hh in Hread. specialize (Hread Hmap).
  change (stored_shader_bytes r) with (written_shader s cntl) in Hread.
  pose proof Hs as (_ & Hhash & _ & _ & Hw & Ht).
  eexists _, _. split; [exact Hread|].
  unfold accept_stored_shader. subst r.
  cbn [fst snd load_pos load_cache shaders_to_translate].
  rewrite (written_shader_header_decoded s cntl Hs),
    (written_shader_ucode_storable s Hs).
  cbn [header_type header_ucode_dword_count header_sq_program_cntl
       header_patch_primitive_type].
  split_and!.
  - unfold written_shader. rewrite (written_shader_ucode_storable s Hs).
    rewrite !length_app, length_ShaderStoredHeader_bytes, Hpos. lia.
  - unfold set_shaders. cbn. rewrite <- Hhash. apply lookup_insert_eq.
  - unfold set_shaders. cbn. rewrite lookup_insert_eq. rewrite <- Hhash, Ht.
    rewrite Nat2Z.id.
    pose proof (bytes_dwords_dwords_bytes (ucode_dwords s) [] Hw) as Hb.
    rewrite app_nil_r in Hb. rewrite Hb. reflexivity.
  - reflexivity.
  - reflexivity.
  - reflexivity.
Qed.

Lemma written_shaders_records heap queue :
  written_shaders heap queue =
  concat (stored_shader_bytes <$> (written_shader_record heap <$> queue)).
Proof.
  unfold written_shaders. rewrite <- list_fmap_compose. f_equal.
  apply list_fmap_ext. intros _ pair _. unfold written_shader_record. cbn.
  destruct (heap !! pair.1); reflexivity.
Qed.

Lemma shader_storage_header_ok_app header rest :
  length header = 8%nat ->
  shader_storage_header_ok (header ++ rest) = shader_storage_header_ok header.
Proof.
  intros Hl. unfold shader_storage_header_ok.
  pose proof (fread1_app [] header rest 8 Hl) as H1. cbn [app length] in H1.
  pose proof (fread1_app [] header [] 8 Hl) as H2. cbn [app length] in H2.
  rewrite app_nil_r in H2. rewrite H1, H2. reflexivity.
Qed.

(** X5. The shader stream that the writing thread makes of a fresh file by
    writing a queue of storable shaders with distinct hashes is loaded
    whole: every record is accepted and nothing is cut off. *)
Theorem written_shaders_reload (w : StorageWriter) fs fp c0 fuel :
  let c := writer_cache w in
  let sq := storage_write_shader_queue_ (storage c) in
  let pq := storage_write_pipeline_state_queue_ (storage c) in
  let header := disk_read (writer_disk w) (file_path fs) in
  shader_storage_file_ (storage c) = Some fs ->
  pipeline_state_storage_file_ (storage c) = Some fp ->
  file_path fs <> file_path fp ->
  length header = 8%nat ->
  shader_storage_header_ok header = true ->
  (forall p cntl, (p, cntl) ∈ sq ->
     exists s, shader_heap c !! p = Some s /\ storable_shader s /\
               shader_map_ c0 !! ucode_data_hash s = None) ->
  NoDup ((fun pair : ptr * Z => ucode_data_hash <$> shader_heap c !! pair.1)
           <$> sq) ->
  (length sq `max` length pq < fuel)%nat ->
  exists w' st,
    StorageWriteThread_run fuel false w = Some (w', WriterWaiting) /\
    disk_read (writer_disk w') (file_path fs) =
      header ++ written_shaders (shader_heap c) sq /\
    load_shader_storage (disk_read (writer_disk w') (file_path fs)) c0 =
      Some (st, disk_read (writer_disk w') (file_path fs)) /\
    shaders_translated st = length sq.
Proof.
  intros c sq pq header Hfs Hfp Hne Hlen Hok Hq Hnd Hfuel.
  destruct (StorageWriteThread_run_to_wait fuel w fs fp Hfs Hfp Hne)
    as (w' & Hrun & Hds & _).
  { intros p cntl Hp. destruct (Hq p cntl Hp) as (s & Hs & _).
    fold c. rewrite Hs. eauto. }
  { exact Hfuel. }
  fold c sq header in Hds.
  exists w'. rewrite Hrun, Hds.
  set (records := written_shader_record (shader_heap c) <$> sq).
  assert (Forall (fun pair : ptr * Z =>
            stored_shader_valid (written_shader_record (shader_heap c) pair) /\
            Some (stored_shader_hash
                    (written_shader_record (shader_heap c) pair)) =
              ucode_data_hash <$> shader_heap c !! pair.1 /\
            shader_map_ c0 !!
              stored_shader_hash (written_shader_record (shader_heap c) pair) =
              None) sq) as Hall.
  { apply Forall_forall. intros [p cntl] Hp.
    destruct (Hq p cntl Hp) as (s & Hs & Hst & Hm).
    unfold written_shader_record. cbn [fst snd]. rewrite Hs.
    destruct (written_shader_valid s cntl Hst) as [Hv Hh]. cbn zeta in Hv, Hh.
    rewrite Hh. split_and!; [exact Hv|reflexivity|exact Hm]. }
  assert (Forall stored_shader_valid records) as Hv.
  { unfold records. apply Forall_fmap. eapply Forall_impl; [exact Hall|].
    cbn. tauto. }
  assert (Some <$> (stored_shader_hash <$> records) =
          (fun pair : ptr * Z => ucode_data_hash <$> shader_heap c !! pair.1)
            <$> sq) as Hhashes.
  { unfold records. rewrite <- !list_fmap_compose.
    apply Forall_fmap_ext. eapply Forall_impl; [exact Hall|].
    cbn. tauto. }
  destruct (load_shader_storage_valid_prefix c0 header records [])
    as (st & Hload & Hcount & _).
  - exact Hlen.
  - rewrite shader_storage_header_ok_app by exact Hlen. exact Hok.
  - exact Hv.
  - rewrite <- Hhashes in Hnd. eapply NoDup_fmap_1. exact Hnd.
  - intros k Hk. unfold records in Hk.
    rewrite <- list_fmap_compose in Hk.
    apply list_elem_of_fmap in Hk as (pair & -> & Hp).
    rewrite Forall_forall in Hall. apply (Hall pair Hp).
  - left. cbn. unfold sizeof_ShaderStoredHeader. lia.
  - rewrite app_nil_r in Hload. unfold records in Hload.
    rewrite <- written_shaders_records in Hload.
    exists st. split_and!; try reflexivity.
    + exact Hload.
    + rewrite Hcount. unfold records. apply length_fmap.
Qed.

End WriteReadRoundTrip.

Lemma PipelineDescription_bytes_of_bytes bs :
  (21 <= length bs)%nat ->
  PipelineDescription_bytes (PipelineDescription_of_bytes bs) = bs.
Proof.
  intros H.
  do 21 (destruct bs as [|? bs]; [cbn in H; lia|]). clear H.
  unfold PipelineDescription_bytes, PipelineDescription_of_bytes.
  cbn [vertex_shader_hash pixel_shader_hash strip_cut_index tessellation_mode
       primitive_topology_type patch_type geometry_shader fixed_function_state
       firstn skipn].
  rewrite (le_bytes_le_value [_; _; _; _; _; _; _; _]).
  rewrite (le_bytes_le_value [_; _; _; _; _; _; _; _]).
  cbn [le_value]. rewrite !Z.mul_0_r, !Z.add_0_r, !byte_of_Z_to_Z.
  reflexivity.
Qed.

Lemma length_PipelineDescription_bytes d :
  length (PipelineDescription_bytes d) =
  (21 + length (fixed_function_state d))%nat.
Proof.
  unfold PipelineDescription_bytes.
  rewrite !length_app, !length_le_bytes. reflexivity.
Qed.

Lemma PipelineStoredDescription_of_bytes_bytes r :
  0 <= description_hash r < 2 ^ 64 ->
  let read :=
    PipelineStoredDescription_of_bytes (PipelineStoredDescription_bytes r) in
  description_hash read = description_hash r /\
  PipelineDescription_bytes (stored_description read) =
    PipelineDescription_bytes (stored_description r).
Proof.
  intros Hh. unfold PipelineStoredDescription_of_bytes,
    PipelineStoredDescription_bytes.
  cbn [description_hash stored_description].
  rewrite take_app_length' by (rewrite length_le_bytes; reflexivity).
  rewrite drop_app_length' by (rewrite length_le_bytes; reflexivity).
  rewrite le_value_le_bytes.
  split; [apply Z.mod_small; cbn; lia|].
  apply PipelineDescription_bytes_of_bytes.
  rewrite length_PipelineDescription_bytes. lia.
Qed.

Section PipelineRoundTrip.
Context `{ext : Externals}.

(** What translating leaves alone, besides the table. *)
Lemma translate_if_needed_keeps shader cntl patch c ok c' :
  translate_if_needed shader cntl patch c = Some (ok, c') ->
  storage_write_pipeline_state_queue_ (storage c') =
    storage_write_pipeline_state_queue_ (storage c) /\
  pipeline_state_storage_file_ (storage c') =
    pipeline_state_storage_file_ (storage c) /\
  shader_storage_file_ (storage c') = shader_storage_file_ (storage c) /\
  shader_map_ c' = shader_map_ c /\
  edram_rov_used_ c' = edram_rov_used_ c.
Proof.
  unfold translate_if_needed, TranslateShader, queue_shader_write. intros H.
  destruct (shader_heap c !! shader) as [s|]; [|discriminate]. cbn in H.
  destruct (is_translated s); cbn in H.
  { injection H as <- <-. repeat split. }
  destruct (tr_result (Translate s patch cntl)); cbn in H.
  - destruct (tr_is_valid (Translate s patch cntl)); cbn in H;
      injection H as <- <-; [|repeat split].
    cbn. destruct (shader_storage_file_ (storage c)) eqn:E; cbn; rewrite ?E;
      repeat split.
  - injection H as <- <-. repeat split.
Qed.

Lemma EnsureShadersTranslated_keeps vs ps tess prim regs c ok c' :
  EnsureShadersTranslated vs ps tess prim regs c = Some (ok, c') ->
  storage_write_pipeline_state_queue_ (storage c') =
    storage_write_pipeline_state_queue_ (storage c) /\
  pipeline_state_storage_file_ (storage c') =
    pipeline_state_storage_file_ (storage c) /\
  shader_storage_file_ (storage c') = shader_storage_file_ (storage c) /\
  shader_map_ c' = shader_map_ c /\
  edram_rov_used_ c' = edram_rov_used_ c.
Proof.
  unfold EnsureShadersTranslated. intros H.
  destruct (translate_if_needed vs _ _ c) as [[ok1 c1]|] eqn:E1;
    [|discriminate].
  apply translate_if_needed_keeps in E1. cbn in H.
  destruct ok1; cbn in H.
  - destruct ps as [p|].
    + apply translate_if_needed_keeps in H.
      destruct E1 as (e1 & e2 & e3 & e4 & e5), H as (h1 & h2 & h3 & h4 & h5).
      repeat split; congruence.
    + injection H as <- <-. exact E1.
  - injection H as <- <-. exact E1.
Qed.

(** The two ways through [ConfigurePipeline]: nothing is inserted, or the
    shaders are translated and a pipeline state is inserted. *)
Lemma ConfigurePipeline_inserts req stack c r c' :
  ConfigurePipeline req stack c = Some (r, c') ->
  (pipeline_states_ c' = pipeline_states_ c /\
   pipeline_heap c' = pipeline_heap c /\
   pool c' = pool c /\
   storage_write_pipeline_state_queue_ (storage c') =
     storage_write_pipeline_state_queue_ (storage c)) \/
  (exists rd c1,
     GetCurrentStateDescription c req stack = Some (true, rd) /\
     find_pipeline_state (pipeline_heap c) (pipeline_states_ c)
       (XXH64 (PipelineDescription_bytes (description rd)) 0)
       (description rd) = Some None /\
     EnsureShadersTranslated (req_vertex_shader req) (req_pixel_shader req)
       (req_tessellated req) (req_primitive_type req) (req_regs req) c =
       Some (true, c1) /\
     r = Some (next_object c1, root_signature rd) /\
     c' = set_current_pipeline_state (Some (next_object c1))
            (queue_pipeline_state_write
               (XXH64 (PipelineDescription_bytes (description rd)) 0)
               (description rd)
               (insert_pipeline_state
                  (XXH64 (PipelineDescription_bytes (description rd)) 0)
                  rd c1).2)).
Proof.
  unfold ConfigurePipeline. intros H.
  destruct (GetCurrentStateDescription c req stack) as [[built rd]|] eqn:Hb;
    [|discriminate]. cbn [mbind option_bind] in H.
  destruct built; cbn [negb] in H;
    [|injection H as <- <-; left; repeat split].
  destruct (match current_pipeline_state_ c with
            | Some cur => _
            | None => _
            end) as [fast|] eqn:Hfast; [|discriminate].
  cbn [mbind option_bind] in H.
  destruct fast as [cur|].
  - injection H as <- <-. left. repeat split.
  - destruct (find_pipeline_state _ _ _ _) as [found|] eqn:Hfind;
      [|discriminate]. cbn [mbind option_bind] in H.
    destruct found as [p|].
    + destruct (pipeline_heap c !! p) as [st|] eqn:Hst; [|discriminate].
      injection H as <- <-. left. repeat split.
    + destruct (EnsureShadersTranslated _ _ _ _ _ c) as [[ok c1]|] eqn:He;
        [|discriminate]. cbn [mbind option_bind] in H.
      destruct ok; cbn [negb] in H.
      * right. exists rd, c1.
        pose proof (insert_pipeline_state_fst
                      (XXH64 (PipelineDescription_bytes (description rd)) 0)
                      rd c1) as Hins.
        destruct (insert_pipeline_state _ rd c1) as [new c2].
        cbn [fst snd] in Hins |- *. subst new.
        injection H as <- <-. repeat split; assumption.
      * injection H as <- <-. left.
        destruct (EnsureShadersTranslated_same_table _ _ _ _ _ _ _ _ He)
          as (e1 & e2 & _ & _ & e3).
        destruct (EnsureShadersTranslated_keeps _ _ _ _ _ _ _ _ He)
          as (e4 & _).
        repeat split; assumption.
Qed.

Lemma GetCurrentStateDescription_fixed_function_state c req stack rd :
  GetCurrentStateDescription c req stack = Some (true, rd) ->
  exists ps, fixed_function_state (description rd) =
             GetFixedFunctionState (edram_rov_used_ c) req ps.
Proof.
  unfold GetCurrentStateDescription. intros H.
  destruct (request_shaders c req) as [[vs ps]|]; [|discriminate].
  cbn [mbind option_bind] in H.
  destruct (GetRootSignature vs ps (req_tessellated req)); [|discriminate].
  destruct (topology_fields _ _ _) as [[[[tess topo] patch] geom]|];
    [|discriminate].
  injection H as <-. exists ps. reflexivity.
Qed.

Lemma insert_pipeline_state_shape hash rd c :
  let c2 := (insert_pipeline_state hash rd c).2 in
  pipeline_states_ c2 = pipeline_states_ c ++ [(hash, next_object c)] /\
  storage c2 = storage c /\
  (exists st, pipeline_heap c2 !! next_object c = Some st /\
              runtime_description st = rd) /\
  creation_queue_ (pool c2) =
    match creation_threads_ (pool c) with
    | [] => creation_queue_ (pool c)
    | _ :: _ => creation_queue_ (pool c) ++ [next_object c]
    end /\
  creation_threads_ (pool c2) = creation_threads_ (pool c).
Proof.
  unfold insert_pipeline_state.
  destruct (creation_threads_ (pool c)) eqn:E; cbn; rewrite ?E;
    rewrite lookup_insert_eq; split_and!; eauto.
Qed.

(** X6. [ConfigurePipeline] queues for the storage nothing but the description
    of the pipeline state it inserts, stored with the hash under which the
    pipeline state is in the table; the record is one the stream can hold. *)
Theorem ConfigurePipeline_queues_storable_record c req stack r c' :
  (forall bs, 0 <= XXH64 bs 0 < 2 ^ 64) ->
  (forall rov rq ps,
     length (GetFixedFunctionState rov rq ps) = sizeof_fixed_function_state) ->
  ConfigurePipeline req stack c = Some (r, c') ->
  let queue := storage_write_pipeline_state_queue_ (storage c) in
  let queue' := storage_write_pipeline_state_queue_ (storage c') in
  (pipeline_states_ c' = pipeline_states_ c /\ queue' = queue) \/
  (exists p rs st,
     r = Some (p, rs) /\
     pipeline_heap c' !! p = Some st /\
     let stored :=
       {| description_hash := XXH64 (entry_description st) 0;
          stored_description := description (runtime_description st) |} in
     storable_pipeline_state stored /\
     pipeline_states_ c' = pipeline_states_ c ++ [(description_hash stored, p)] /\
     queue' = match pipeline_state_storage_file_ (storage c) with
              | Some _ => queue ++ [stored]
              | None => queue
              end).
Proof.
  intros Hrange Hfixed H queue queue'.
  destruct (ConfigurePipeline_inserts req stack c r c' H)
    as [(H1 & _ & _ & H2)|(rd & c1 & Hb & _ & He & -> & ->)];
    [left; split; assumption|right].
  set (hash := XXH64 (PipelineDescription_bytes (description rd)) 0) in *.
  destruct (insert_pipeline_state_shape hash rd c1)
    as (Ht & Hs & (st & Hst & Hrd) & _).
  destruct (EnsureShadersTranslated_same_table _ _ _ _ _ _ _ _ He)
    as (e1 & e2 & e3 & _).
  destruct (EnsureShadersTranslated_keeps _ _ _ _ _ _ _ _ He)
    as (k1 & k2 & _).
  exists (next_object c1), (root_signature rd), st.
  split; [reflexivity|].
  assert (entry_description st = PipelineDescription_bytes (description rd))
    as Hentry by (unfold entry_description; rewrite Hrd; reflexivity).
  unfold queue_pipeline_state_write. rewrite Hs, k2.
  split_and!.
  - destruct (pipeline_state_storage_file_ (storage c)); cbn; exact Hst.
  - split; [reflexivity|split; [apply Hrange|]].
    cbn [description_hash stored_description].
    + rewrite Hrd.
      destruct (GetCurrentStateDescription_fixed_function_state _ _ _ _ Hb)
        as [ps ->]. apply Hfixed.
  - cbn [description_hash]. rewrite Hentry. fold hash.
    destruct (pipeline_state_storage_file_ (storage c)); cbn; rewrite Ht, e1;
      reflexivity.
  - unfold queue', queue, queue_pipeline_state_write.
    rewrite Hentry, Hrd, Hs, k2. fold hash.
    destruct (pipeline_state_storage_file_ (storage c)); cbn; rewrite ?Hs, ?k1;
      reflexivity.
Qed.

Lemma insert_pipeline_state_state hash rd c :
  let c2 := (insert_pipeline_state hash rd c).2 in
  shader_heap c2 = shader_heap c /\
  pipeline_heap c2 =
    <[next_object c :=
        {| state := match creation_threads_ (pool c) with
                    | [] => CreateD3D12PipelineState c rd
                    | _ :: _ => None
                    end;
           runtime_description := rd |}]> (pipeline_heap c).
Proof.
  unfold insert_pipeline_state.
  destruct (creation_threads_ (pool c)); cbn; split; reflexivity.
Qed.


Lemma pipeline_state_storage_header_ok_app rov header rest :
  length header = 12%nat ->
  pipeline_state_storage_header_ok rov (header ++ rest) =
  pipeline_state_storage_header_ok rov header.
Proof.
  intros Hl. unfold pipeline_state_storage_header_ok.
  pose proof (fread1_app [] header rest 12 Hl) as H1. cbn [app length] in H1.
  pose proof (fread1_app [] header [] 12 Hl) as H2. cbn [app length] in H2.
  rewrite app_nil_r in H2. rewrite H1, H2. reflexivity.
Qed.

(** X7. A pipeline state stream that is a header followed by the records the
    writing thread writes for storable descriptions is loaded whole: every
    record passes the integrity check and nothing is cut off. *)
Theorem written_pipeline_states_reload blocking c0 header queue :
  length header = 12%nat ->
  pipeline_state_storage_header_ok (edram_rov_used_ c0) header = true ->
  Forall storable_pipeline_state queue ->
  cache_live c0 ->
  let data := header ++ written_pipeline_states queue in
  exists c' created,
    load_pipeline_state_storage blocking data c0 =
    Some (length data, c', created, data).
Proof.
  intros Hlen Hok Hq Hlive data.
  set (chunks := PipelineStoredDescription_bytes <$> queue).
  assert (Forall (fun r => length r = sizeof_PipelineStoredDescription /\
                           stored_pipeline_state_valid
                             (PipelineStoredDescription_of_bytes r) = true)
            chunks) as Hv.
  { unfold chunks. apply Forall_fmap. eapply Forall_impl; [exact Hq|].
    intros r (Hh & Hr & Hf). split.
    - unfold PipelineStoredDescription_bytes.
      rewrite length_app, length_le_bytes, length_PipelineDescription_bytes, Hf.
      reflexivity.
    - destruct (PipelineStoredDescription_of_bytes_bytes r Hr) as [H1 H2].
      unfold stored_pipeline_state_valid. rewrite H1, H2, <- Hh.
      apply Z.eqb_refl. }
  destruct (load_pipeline_state_storage_valid_prefix blocking c0 header chunks [])
    as (c' & created & Hload); try assumption.
  - rewrite pipeline_state_storage_header_ok_app by exact Hlen. exact Hok.
  - left. cbn. unfold sizeof_PipelineStoredDescription. lia.
  - rewrite app_nil_r in Hload. exists c', created.
    unfold data, written_pipeline_states. fold chunks. rewrite Hload.
    repeat f_equal. rewrite length_app, Hlen.
    rewrite (concat_length_chunks sizeof_PipelineStoredDescription).
    + reflexivity.
    + eapply Forall_impl; [exact Hv|]. cbn. tauto.
Qed.

End PipelineRoundTrip.

Section InitializeProperties.
Context `{ext : Externals}.

(** X1. [Initialize] starts no creation thread when the configuration variable
    is 0; otherwise it starts at least one thread and at most one for every
    logical processor (6 when the host reports none), also when the product
    by 3 wraps; the threads get the indices from 0 up, none is busy, nothing
    is queued by it and no thread is told to shut down. *)
Theorem Initialize_creation_thread_count (c : PipelineCache) :
  0 <= logical_processor_count < 2 ^ 32 ->
  - 2 ^ 31 <= cvars_d3d12_pipeline_creation_threads < 2 ^ 31 ->
  let p := pool (Initialize c) in
  let n := Z.of_nat (length (creation_threads_ p)) in
  let processors :=
    if logical_processor_count =? 0 then 6 else logical_processor_count in
  (cvars_d3d12_pipeline_creation_threads = 0 -> n = 0) /\
  (cvars_d3d12_pipeline_creation_threads <> 0 -> 1 <= n <= processors) /\
  (0 < cvars_d3d12_pipeline_creation_threads ->
   n = Z.min cvars_d3d12_pipeline_creation_threads processors) /\
  (forall i, (i < length (creation_threads_ p))%nat ->
     creation_threads_ p !! i = Some (Z.of_nat i)) /\
  creation_threads_busy_ p = 0 /\
  creation_queue_ p = creation_queue_ (pool c) /\
  creation_threads_shutdown_from_ p = SIZE_MAX.
Proof.
  intros Hp Hc p n processors. subst p n. unfold Initialize.
  cbn [pool set_pool creation_threads_ creation_threads_busy_ creation_queue_
       creation_threads_shutdown_from_].
  fold processors.
  assert (1 <= processors < 2 ^ 32) as Hproc.
  { unfold processors. destruct (Z.eqb_spec logical_processor_count 0); lia. }
  rewrite length_fmap, length_seq.
  set (count := if cvars_d3d12_pipeline_creation_threads =? 0 then 0
                else if cvars_d3d12_pipeline_creation_threads <? 0
                     then Z.max (processors * 3 mod 2 ^ 32 / 4) 1
                     else Z.min (cvars_d3d12_pipeline_creation_threads mod 2 ^ 32)
                            processors).
  assert (0 <= count) as Hcount.
  { unfold count.
    pose proof (Z.mod_pos_bound cvars_d3d12_pipeline_creation_threads (2 ^ 32)
                  ltac:(lia)).
    destruct (Z.eqb_spec cvars_d3d12_pipeline_creation_threads 0); [lia|].
    destruct (Z.ltb_spec cvars_d3d12_pipeline_creation_threads 0); lia. }
  rewrite Z2Nat.id by exact Hcount.
  split_and!; try reflexivity.
  - intros H. unfold count. rewrite H. reflexivity.
  - intros H. unfold count.
    destruct (Z.eqb_spec cvars_d3d12_pipeline_creation_threads 0); [lia|].
    destruct (Z.ltb_spec cvars_d3d12_pipeline_creation_threads 0).
    + assert (processors * 3 mod 2 ^ 32 / 4 <= processors); [|lia].
      destruct (Z.le_gt_cases (2 ^ 30) processors).
      * pose proof (Z.mod_pos_bound (processors * 3) (2 ^ 32) ltac:(lia)).
        transitivity (2 ^ 30 - 1); [|lia].
        apply Z.lt_le_pred. apply Z.div_lt_upper_bound; lia.
      * pose proof (Z.mod_le (processors * 3) (2 ^ 32) ltac:(lia) ltac:(lia)).
        transitivity (processors * 3 / 4).
        -- apply Z.div_le_mono; lia.
        -- apply Z.div_le_upper_bound; lia.
    + rewrite Z.mod_small by lia. lia.
  - intros H. unfold count.
    destruct (Z.eqb_spec cvars_d3d12_pipeline_creation_threads 0); [lia|].
    destruct (Z.ltb_spec cvars_d3d12_pipeline_creation_threads 0); [lia|].
    rewrite Z.mod_small by lia. reflexivity.
  - intros i Hi. rewrite list_lookup_fmap, lookup_seq_lt by exact Hi.
    reflexivity.
Qed.

End InitializeProperties.

Section SingleProcessor.
Context `{ext : Externals}.
Hypothesis single : logical_processor_count = 1.

Lemma shader_storage_read_single data st st' :
  shader_storage_read data st = ReadNext st' ->
  shaders_untranslated (load_cache st) ->
  shader_translation_threads st = false ->
  shaders_untranslated (load_cache st') /\
  shader_translation_threads st' = false /\
  translator_invocations (load_cache st') =
    translator_invocations (load_cache st) /\
  pipeline_states_ (load_cache st') = pipeline_states_ (load_cache st) /\
  pipeline_heap (load_cache st') = pipeline_heap (load_cache st) /\
  pool (load_cache st') = pool (load_cache st) /\
  storage (load_cache st') = storage (load_cache st) /\
  edram_rov_used_ (load_cache st') = edram_rov_used_ (load_cache st).
Proof.
  unfold shader_storage_read. intros H Hinv Hthreads.
  destruct (fread1 sizeof_ShaderStoredHeader data (load_pos st))
    as [[header_bytes|] pos1]; [|discriminate].
  set (h := ShaderStoredHeader_of_bytes header_bytes) in *.
  destruct (shader_map_ (load_cache st) !! header_ucode_data_hash h) eqn:Hm.
  - cbn in H. injection H as <-. cbn. split_and!; try assumption; reflexivity.
  - destruct (resize_ucode_dwords _ _ _ _) as [capacity|]; [|discriminate].
    destruct (if header_ucode_dword_count h =? 0 then _ else _)
      as [[ucode_bytes|] pos2]; [|discriminate].
    destruct (negb _); [discriminate|].
    injection H as <-. cbn. rewrite Hthreads.
    unfold processor_count. rewrite single. cbn.
    split_and!; try reflexivity.
    intros h0 p H. cbn in H |- *.
    destruct (decide (h0 = XXH64 ucode_bytes 0)) as [->|Hne].
    + rewrite lookup_insert_eq in H. injection H as <-. split; [lia|].
      rewrite lookup_insert_eq. eexists. split; [reflexivity|].
      split; reflexivity.
    + rewrite lookup_insert_ne in H by congruence.
      destruct (Hinv h0 p H) as [Hlt (s & Hs & Ht & Hv)]. split; [lia|].
      rewrite lookup_insert_ne by lia. eauto.
Qed.

Lemma shader_storage_loop_single fuel : forall data st st',
  shaders_untranslated (load_cache st) ->
  shader_translation_threads st = false ->
  shader_storage_loop fuel data st = Some st' ->
  shaders_untranslated (load_cache st') /\
  shader_translation_threads st' = false /\
  translator_invocations (load_cache st') =
    translator_invocations (load_cache st) /\
  pipeline_states_ (load_cache st') = pipeline_states_ (load_cache st) /\
  pipeline_heap (load_cache st') = pipeline_heap (load_cache st) /\
  pool (load_cache st') = pool (load_cache st) /\
  storage (load_cache st') = storage (load_cache st) /\
  edram_rov_used_ (load_cache st') = edram_rov_used_ (load_cache st).
Proof.
  induction fuel as [|fuel IH]; intros data st st' Hinv Hthreads Hloop;
    cbn in Hloop.
  - injection Hloop as <-. split_and!; try assumption; reflexivity.
  - destruct (shader_storage_read data st) as [| |st1] eqn:Hread;
      [|discriminate|].
    + injection Hloop as <-. split_and!; try assumption; reflexivity.
    + destruct (shader_storage_read_single data st st1 Hread Hinv Hthreads)
        as (H1 & H2 & H3 & H4 & H5 & H6 & H7 & H8).
      destruct (IH data st1 st' H1 H2 Hloop)
        as (I1 & I2 & I3 & I4 & I5 & I6 & I7 & I8).
      split_and!; try assumption; congruence.
Qed.

Lemma load_shader_storage_single data c loaded data' :
  load_shader_storage data c = Some (loaded, data') ->
  shaders_untranslated c ->
  let c' := load_cache loaded in
  shaders_untranslated c' /\
  translator_invocations c' = translator_invocations c /\
  pipeline_states_ c' = pipeline_states_ c /\
  pipeline_heap c' = pipeline_heap c /\
  pool c' = pool c /\
  storage c' = storage c /\
  edram_rov_used_ c' = edram_rov_used_ c.
Proof.
  unfold load_shader_storage. intros H Hinv.
  destruct (shader_storage_header_ok data).
  - destruct (shader_storage_loop (length data) data (shader_load_start c))
      as [st|] eqn:Hloop; [|discriminate]. cbn [mbind option_bind] in H.
    destruct (shader_storage_loop_single (length data) data
                (shader_load_start c) st Hinv eq_refl Hloop)
      as (I1 & I2 & I3 & I4 & I5 & I6 & I7 & I8).
    unfold join_shader_translation_threads in H. rewrite I2 in H.
    cbn in H. injection H as <- <-. cbn.
    split_and!; assumption.
  - injection H as <- <-. cbn. split_and!; try assumption; reflexivity.
Qed.

Lemma resolve_vertex_shader_single c d :
  shaders_untranslated c -> resolve_vertex_shader c d = Some ShaderMissing.
Proof.
  unfold resolve_vertex_shader. intros Hinv.
  destruct (shader_map_ c !! vertex_shader_hash d) as [p|] eqn:Hm;
    [|reflexivity].
  destruct (Hinv _ _ Hm) as [_ (s & Hs & _ & Hv)].
  rewrite Hs. cbn. rewrite Hv. reflexivity.
Qed.

Lemma replay_pipeline_state_single stored c c' made :
  replay_pipeline_state stored c = Some (c', made) ->
  shaders_untranslated c ->
  c' = c /\ made = false.
Proof.
  unfold replay_pipeline_state. intros H Hinv.
  rewrite (resolve_vertex_shader_single c _ Hinv) in H.
  destruct (find_pipeline_state _ _ _ _) as [[found|]|]; cbn in H;
    [injection H as <- <-; auto| |discriminate].
  injection H as <- <-; auto.
Qed.

Lemma pipeline_storage_loop_single records : forall valid_bytes c created r,
  pipeline_storage_loop records valid_bytes c created = Some r ->
  shaders_untranslated c ->
  r.1.2 = c /\ r.2 = created.
Proof.
  induction records as [|stored records IH]; intros vb c created r H Hinv;
    cbn in H.
  - injection H as <-. auto.
  - destruct (negb _); [injection H as <-; auto|].
    destruct (replay_pipeline_state stored c) as [[c' made]|] eqn:Hr;
      [|discriminate]. cbn in H.
    destruct (replay_pipeline_state_single _ _ _ _ Hr Hinv) as [-> ->].
    apply (IH _ _ _ _ H Hinv).
Qed.

Lemma create_queued_keeps queue : forall c c',
  create_queued queue c = Some c' ->
  pipeline_states_ c' = pipeline_states_ c /\
  shader_map_ c' = shader_map_ c /\
  shader_heap c' = shader_heap c /\
  next_object c' = next_object c /\
  translator_invocations c' = translator_invocations c /\
  pool c' = pool c /\
  storage c' = storage c /\
  edram_rov_used_ c' = edram_rov_used_ c.
Proof.
  induction queue as [|p queue IH]; intros c c' H; cbn in H.
  - injection H as <-. repeat split.
  - destruct (pipeline_heap c !! p) as [st|]; [|discriminate]. cbn in H.
    apply IH in H. exact H.
Qed.

Lemma shaders_untranslated_frame c c' :
  shader_map_ c' = shader_map_ c ->
  shader_heap c' = shader_heap c ->
  next_object c' = next_object c ->
  shaders_untranslated c -> shaders_untranslated c'.
Proof.
  unfold shaders_untranslated. intros -> -> ->. auto.
Qed.

Lemma load_pipeline_state_storage_single blocking data c r :
  load_pipeline_state_storage blocking data c = Some r ->
  shaders_untranslated c ->
  let c' := r.1.1.2 in
  shaders_untranslated c' /\
  translator_invocations c' = translator_invocations c /\
  pipeline_states_ c' = pipeline_states_ c /\
  r.1.2 = 0%nat.
Proof.
  unfold load_pipeline_state_storage. intros H Hinv.
  destruct (pipeline_state_storage_header_ok _ _);
    [|injection H as <-; cbn; auto].
  destruct (PipelineStoredDescription_of_bytes <$> _) as [|d ds];
    [injection H as <-; cbn; auto|].
  set (c1 := set_pool _ c) in H.
  destruct (pipeline_storage_loop (d :: ds) 12 c1 0) as [[[vb c2] created]|]
    eqn:Hloop; [|discriminate]. cbn [mbind option_bind] in H.
  destruct (pipeline_storage_loop_single _ _ _ _ _ Hloop) as [E1 E2];
    [exact Hinv|]. cbn in E1, E2. subst c2 created.
  unfold CreateQueuedPipelineStatesOnProcessorThread in H.
  destruct (create_queued _ c1) as [c3|] eqn:Hq; [|discriminate].
  cbn in H. injection H as <-. cbn.
  destruct (create_queued_keeps _ _ _ Hq) as (K1 & K2 & K3 & K4 & K5 & _).
  split_and!; try assumption; try reflexivity.
  intros h p Hm. cbn in Hm |- *. rewrite K2 in Hm. rewrite K3, K4.
  apply (Hinv h p Hm).
Qed.

(** X9. On a host with one logical processor the load starts no translation
    thread: [InitializeShaderStorage] on a cache whose shaders are
    untranslated (a cache with an empty shader map is one) never calls the
    translator, leaves every shader it loads untranslated, and makes no
    pipeline state of the stored descriptions, whatever the files hold. *)
Theorem single_processor_storage_loads_nothing_translated
    storage_root title_id blocking disk c c' disk' :
  InitializeShaderStorage storage_root title_id blocking disk c =
    Some (c', disk') ->
  shaders_untranslated c ->
  translator_invocations c' = translator_invocations c /\
  shaders_untranslated c' /\
  pipeline_states_ c' = pipeline_states_ c.
Proof.
  unfold InitializeShaderStorage. intros H Hinv.
  destruct (negb (CreateFolder storage_root));
    [injection H as <- <-; auto|].
  destruct (disk (ShaderStoragePath storage_root title_id)) as [shader_data|];
    [|injection H as <- <-; auto].
  set (c1 := set_storage _ (ShutdownShaderStorage c)) in H.
  destruct (load_shader_storage shader_data c1) as [[loaded data']|] eqn:Hl;
    [|discriminate]. cbn [mbind option_bind] in H.
  destruct (load_shader_storage_single _ _ _ _ Hl)
    as (I1 & I2 & I3 & _); [exact Hinv|].
  destruct (disk_write _ data' disk _) as [pipeline_data|].
  - set (c3 := set_storage _ (load_cache loaded)) in H.
    destruct (load_pipeline_state_storage blocking pipeline_data c3)
      as [[[[vb c4] created] pd']|] eqn:Hp; [|discriminate].
    cbn [mbind option_bind] in H. injection H as <- <-.
    destruct (load_pipeline_state_storage_single _ _ _ _ Hp)
      as (J1 & J2 & J3 & _); [exact I1|].
    subst c1 c3. cbn in I2, I3, J1, J2, J3 |- *.
    split_and!; [congruence|exact J1|congruence].
  - injection H as <- <-. subst c1. cbn in I2, I3 |- *.
    split_and!; assumption.
Qed.

End SingleProcessor.

Section PoolInvariant.
Context `{ext : Externals}.

(** What a step of a creation thread is, by where the thread stands. *)
Lemma thread_step_inv i s s' :
  thread_step i s = Some s' ->
  exists pc, sys_threads s !! i = Some pc /\
    match pc with
    | AtCheck =>
        s' = {| sys_cache :=
                  set_pool
                    (CreationThread_check (Z.of_nat i) (pool (sys_cache s))).1
                    (sys_cache s);
                sys_threads :=
                  <[i := match (CreationThread_check (Z.of_nat i)
                                  (pool (sys_cache s))).2 with
                         | ThreadReturn => Exited
                         | ThreadWait => AtCheck
                         | ThreadCreate ps => Creating ps
                         end]> (sys_threads s) |}
    | Creating ps =>
        exists st, pipeline_heap (sys_cache s) !! ps = Some st /\
          s' = {| sys_cache :=
                    set_pipeline_state_object ps
                      {| state :=
                           CreateD3D12PipelineState (sys_cache s)
                             (runtime_description st);
                         runtime_description := runtime_description st |}
                      (sys_cache s);
                  sys_threads := <[i := Finishing]> (sys_threads s) |}
    | Finishing =>
        s' = {| sys_cache :=
                  set_pool (CreationThread_done (pool (sys_cache s)))
                    (sys_cache s);
                sys_threads := <[i := AtCheck]> (sys_threads s) |}
    | Exited => False
    end.
Proof.
  unfold thread_step. intros H.
  destruct (sys_threads s !! i) as [pc|]; [|discriminate].
  exists pc. split; [reflexivity|]. cbn [mbind option_bind] in H.
  destruct pc as [|ps| |].
  - destruct (CreationThread_check _ _) as [p action]. injection H as <-.
    reflexivity.
  - destruct (pipeline_heap (sys_cache s) !! ps) as [st|]; [|discriminate].
    injection H as <-. eauto.
  - injection H as <-. reflexivity.
  - discriminate.
Qed.

Lemma CreationThread_check_cases i p :
  let r := CreationThread_check i p in
  creation_threads_ r.1 = creation_threads_ p /\
  creation_threads_shutdown_from_ r.1 = creation_threads_shutdown_from_ p /\
  ((creation_queue_ r.1 = creation_queue_ p /\
    creation_threads_busy_ r.1 = creation_threads_busy_ p /\
    (r.2 = ThreadReturn \/ r.2 = ThreadWait) /\
    (r.2 = ThreadWait -> creation_queue_ p = [])) \/
   (exists front,
      creation_queue_ p = front :: creation_queue_ r.1 /\
      creation_threads_busy_ r.1 = creation_threads_busy_ p + 1 /\
      r.2 = ThreadCreate front)).
Proof.
  unfold CreationThread_check, signal_creation_completion.
  destruct (creation_queue_ p) as [|front rest] eqn:Hq.
  - destruct (creation_completion_set_event_ p && _),
      (creation_threads_shutdown_from_ p <=? i); cbn; rewrite ?Hq;
      split_and!; auto; left; split_and!; auto; discriminate.
  - destruct (creation_threads_shutdown_from_ p <=? i).
    + destruct (creation_completion_set_event_ p && _); cbn; rewrite ?Hq;
        split_and!; auto; left; split_and!; auto; discriminate.
    + cbn. split_and!; auto. right. eauto.
Qed.

(** The creation threads keep the count of the busy ones right, whatever is
    queued; they start and stop no thread, leave the shutdown threshold, the
    table, the shaders and the storage alone, and take from the queue
    without adding to it. *)
Lemma thread_step_pool i s s' :
  thread_step i s = Some s' ->
  creation_threads_busy_ (pool (sys_cache s)) =
    Z.of_nat (count_busy (sys_threads s)) ->
  creation_threads_busy_ (pool (sys_cache s')) =
    Z.of_nat (count_busy (sys_threads s')) /\
  length (sys_threads s') = length (sys_threads s) /\
  creation_threads_ (pool (sys_cache s')) =
    creation_threads_ (pool (sys_cache s)) /\
  creation_threads_shutdown_from_ (pool (sys_cache s')) =
    creation_threads_shutdown_from_ (pool (sys_cache s)) /\
  (exists taken, creation_queue_ (pool (sys_cache s)) =
                 taken ++ creation_queue_ (pool (sys_cache s'))) /\
  same_maps (sys_cache s) (sys_cache s') /\
  next_object (sys_cache s') = next_object (sys_cache s).
Proof.
  intros H Hb. apply thread_step_inv in H as (pc & Hpc & H).
  pose proof (count_busy_insert (sys_threads s) i pc) as Hins.
  destruct pc as [|ps| |]; [| |
    |contradiction].
  - subst s'. cbn [sys_cache sys_threads].
    pose proof (CreationThread_check_cases (Z.of_nat i) (pool (sys_cache s)))
      as Hc. cbv zeta in Hc.
    destruct (CreationThread_check (Z.of_nat i) (pool (sys_cache s)))
      as [p' action]. cbn [fst snd] in *.
    rewrite length_insert, (Hins _ Hpc).
    unfold_setters. cbn [pool next_object].
    destruct Hc as (Ht & Hs & [(Hq & Hbusy & Ha & _)|(front & Hq & Hbusy & ->)]).
    + split_and!; auto; [|exists []; rewrite Hq; reflexivity|repeat split].
      rewrite Hbusy, Hb. destruct Ha as [-> | ->]; cbn; lia.
    + split_and!; auto; [|exists [front]; exact Hq|repeat split].
      rewrite Hbusy, Hb. cbn. lia.
  - destruct H as (st & Hst & ->). cbn [sys_cache sys_threads].
    rewrite length_insert, (Hins _ Hpc). unfold_setters. cbn.
    split_and!; auto; [lia|exists []; reflexivity|repeat split].
  - subst s'. cbn [sys_cache sys_threads].
    rewrite length_insert, (Hins _ Hpc). unfold CreationThread_done.
    unfold_setters. cbn.
    split_and!; auto; [lia|exists []; reflexivity|repeat split].
Qed.

Lemma threads_run_pool s s' :
  threads_run s s' ->
  creation_threads_busy_ (pool (sys_cache s)) =
    Z.of_nat (count_busy (sys_threads s)) ->
  creation_threads_busy_ (pool (sys_cache s')) =
    Z.of_nat (count_busy (sys_threads s')) /\
  length (sys_threads s') = length (sys_threads s) /\
  creation_threads_ (pool (sys_cache s')) =
    creation_threads_ (pool (sys_cache s)) /\
  creation_threads_shutdown_from_ (pool (sys_cache s')) =
    creation_threads_shutdown_from_ (pool (sys_cache s)) /\
  (exists taken, creation_queue_ (pool (sys_cache s)) =
                 taken ++ creation_queue_ (pool (sys_cache s'))) /\
  same_maps (sys_cache s) (sys_cache s') /\
  next_object (sys_cache s') = next_object (sys_cache s).
Proof.
  induction 1 as [s|i s s1 s2 Hstep _ IH]; intros Hb.
  - split_and!; auto; [exists []; reflexivity|repeat split].
  - destruct (thread_step_pool _ _ _ Hstep Hb)
      as (H1 & H2 & H3 & H4 & (t1 & H5) & (a1 & a2 & a3 & a4 & a5) & H7).
    destruct (IH H1)
      as (I1 & I2 & I3 & I4 & (t2 & I5) & (b1 & b2 & b3 & b4 & b5) & I7).
    split_and!; try congruence.
    + exists (t1 ++ t2). rewrite H5, I5, app_assoc. reflexivity.
    + repeat split; congruence.
Qed.

End PoolInvariant.

Section SubmissionProperties.
Context `{ext : Externals}.

Lemma CreateD3D12PipelineState_shader_heap c c' rd :
  shader_heap c' = shader_heap c ->
  CreateD3D12PipelineState c' rd = CreateD3D12PipelineState c rd.
Proof. unfold CreateD3D12PipelineState. intros ->. reflexivity. Qed.

Lemma pipeline_state_created_frame c c' p :
  shader_heap c' = shader_heap c ->
  pipeline_heap c' !! p = pipeline_heap c !! p ->
  pipeline_state_created c p -> pipeline_state_created c' p.
Proof.
  intros Hs Hp (st & Hst & Hc). exists st. rewrite Hp.
  split; [exact Hst|].
  rewrite (CreateD3D12PipelineState_shader_heap c c' _ Hs). exact Hc.
Qed.

(** A pipeline state that waits for its object or has it keeps doing so
    when a creation thread moves. *)
Lemma thread_step_settles i s s' p :
  thread_step i s = Some s' ->
  creation_pending s p \/ pipeline_state_created (sys_cache s) p ->
  creation_pending s' p \/ pipeline_state_created (sys_cache s') p.
Proof.
  intros H Hp. apply thread_step_inv in H as (pc & Hpc & H).
  destruct pc as [|ps| |]; [| | |contradiction].
  - subst s'.
    pose proof (CreationThread_check_cases (Z.of_nat i) (pool (sys_cache s)))
      as Hc. cbv zeta in Hc.
    destruct (CreationThread_check (Z.of_nat i) (pool (sys_cache s)))
      as [p' action]. cbn [fst snd] in *.
    destruct Hp as [[Hq|(j & Hj)]|Hcr].
    + destruct Hc as (_ & _ & [(Hq' & _)|(front & Hq' & _ & ->)]).
      * left. left. cbn. rewrite Hq'. exact Hq.
      * rewrite Hq' in Hq. apply elem_of_cons in Hq as [->|Hq].
        -- left. right. exists i. cbn.
           apply list_lookup_insert_eq. eapply lookup_lt_Some, Hpc.
        -- left. left. exact Hq.
    + left. right. exists j. cbn.
      rewrite list_lookup_insert_ne; [exact Hj|]. intros <-. congruence.
    + right. eapply pipeline_state_created_frame; [| |exact Hcr]; reflexivity.
  - destruct H as (st & Hst & ->).
    destruct (decide (p = ps)) as [->|Hne].
    + right. exists {| state := CreateD3D12PipelineState (sys_cache s)
                                  (runtime_description st);
                       runtime_description := runtime_description st |}.
      cbn. unfold_setters. cbn. rewrite lookup_insert_eq. split; reflexivity.
    + destruct Hp as [[Hq|(j & Hj)]|Hcr].
      * left. left. exact Hq.
      * left. right. exists j. cbn.
        rewrite list_lookup_insert_ne; [exact Hj|]. intros <-. congruence.
      * right. eapply pipeline_state_created_frame; [| |exact Hcr].
        -- reflexivity.
        -- cbn. unfold_setters. cbn. apply lookup_insert_ne. congruence.
  - subst s'. destruct Hp as [[Hq|(j & Hj)]|Hcr].
    + left. left. exact Hq.
    + left. right. exists j. cbn.
      rewrite list_lookup_insert_ne; [exact Hj|]. intros <-. congruence.
    + right. eapply pipeline_state_created_frame; [| |exact Hcr]; reflexivity.
Qed.

Lemma threads_run_settles s s' p :
  threads_run s s' ->
  creation_pending s p \/ pipeline_state_created (sys_cache s) p ->
  creation_pending s' p \/ pipeline_state_created (sys_cache s') p.
Proof.
  induction 1 as [s|i s s1 s2 Hstep _ IH]; intros Hp; [exact Hp|].
  apply IH. eapply thread_step_settles; eauto.
Qed.

Lemma processor_creates_queued_inv s s' :
  processor_creates_queued s s' ->
  creation_threads_busy_ (pool (sys_cache s)) =
    Z.of_nat (count_busy (sys_threads s)) ->
  creation_threads_busy_ (pool (sys_cache s')) =
    Z.of_nat (count_busy (sys_threads s')) /\
  creation_queue_ (pool (sys_cache s')) = [] /\
  length (sys_threads s') = length (sys_threads s) /\
  creation_threads_ (pool (sys_cache s')) =
    creation_threads_ (pool (sys_cache s)) /\
  same_maps (sys_cache s) (sys_cache s') /\
  (forall p,
     creation_pending s p \/ pipeline_state_created (sys_cache s) p ->
     creation_pending s' p \/ pipeline_state_created (sys_cache s') p).
Proof.
  induction 1 as [s Hd|s p c1 s2 c3 s4 s5 Hd Hrun1 Hc Hrun2 _ IH]; intros Hb.
  - unfold processor_dequeue in Hd.
    destruct (creation_queue_ (pool (sys_cache s))) eqn:Hq; [|discriminate].
    split_and!; auto. repeat split.
  - unfold processor_dequeue in Hd.
    destruct (creation_queue_ (pool (sys_cache s))) as [|p' rest] eqn:Hq;
      [discriminate|]. injection Hd as -> <-.
    destruct (threads_run_pool _ _ Hrun1 Hb)
      as (B1 & L1 & T1 & _ & _ & (a1 & a2 & a3 & a4 & a5) & _).
    cbn [sys_cache sys_threads] in *.
    unfold processor_create in Hc.
    destruct (pipeline_heap (sys_cache s2) !! p) as [st|] eqn:Hst;
      [|discriminate]. injection Hc as <-.
    destruct (threads_run_pool _ _ Hrun2 B1)
      as (B2 & L2 & T2 & _ & _ & (b1 & b2 & b3 & b4 & b5) & _).
    cbn [sys_cache sys_threads] in *.
    destruct (IH B2) as (B3 & Q3 & L3 & T3 & (c1 & c2 & c3 & c4 & c5) & S3).
    cbn in a1, a2, a3, a4, a5, b1, b2, b3, b4, b5, T1, T2, L1, L2.
    split_and!; try congruence.
    + repeat split; congruence.
    + intros q Hq0. apply S3. eapply threads_run_settles; [exact Hrun2|].
      destruct (decide (q = p)) as [->|Hne].
      { right. eexists. cbn. unfold_setters. cbn. rewrite lookup_insert_eq.
        split; reflexivity. }
      assert (creation_pending s2 q \/
              pipeline_state_created (sys_cache s2) q) as [Hp2|Hc2].
      { eapply threads_run_settles; [exact Hrun1|].
        destruct Hq0 as [[Hin|(j & Hj)]|Hcr].
        - left. left. cbn. rewrite Hq in Hin.
          apply elem_of_cons in Hin as [->|Hin]; [congruence|exact Hin].
        - left. right. exists j. exact Hj.
        - right. eapply pipeline_state_created_frame; [| |exact Hcr];
            reflexivity. }
      * left. destruct Hp2 as [Hin|(j & Hj)]; [left; exact Hin|right; eauto].
      * right. eapply pipeline_state_created_frame; [| |exact Hc2].
        -- reflexivity.
        -- cbn. unfold_setters. cbn. apply lookup_insert_ne. congruence.
Qed.

Lemma EndSubmission_request_flush_frame c :
  let c' := EndSubmission_request_flush c in
  pool c' = pool c /\ pipeline_states_ c' = pipeline_states_ c /\
  pipeline_heap c' = pipeline_heap c /\ shader_map_ c' = shader_map_ c /\
  shader_heap c' = shader_heap c /\
  current_pipeline_state_ c' = current_pipeline_state_ c.
Proof.
  unfold EndSubmission_request_flush.
  destruct (_ || _); repeat split.
Qed.

(** What [EndSubmission] comes to, with or without creation threads. *)
Lemma EndSubmission_run_inv s s' :
  pool_inv s ->
  EndSubmission_run s s' ->
  quiescing false s' /\
  pipeline_states_ (sys_cache s') = pipeline_states_ (sys_cache s) /\
  shader_map_ (sys_cache s') = shader_map_ (sys_cache s) /\
  shader_heap (sys_cache s') = shader_heap (sys_cache s) /\
  current_pipeline_state_ (sys_cache s') =
    current_pipeline_state_ (sys_cache s) /\
  storage (sys_cache s') =
    storage (EndSubmission_request_flush (sys_cache s)) /\
  creation_threads_ (pool (sys_cache s')) =
    creation_threads_ (pool (sys_cache s)) /\
  (forall p,
     creation_pending s p \/ pipeline_state_created (sys_cache s) p ->
     creation_pending s' p \/ pipeline_state_created (sys_cache s') p).
Proof.
  intros (Hb & Hlen & Hempty) Hrun.
  destruct (EndSubmission_request_flush_frame (sys_cache s))
    as (F1 & F2 & F3 & F4 & F5 & F6).
  destruct Hrun as [Hnone|s0 s1 s2 p await s3 Hsome Hrun0 Hproc Hrun1 Hawait
                            Hrun2 Hevent].
  - split_and!; cbn [sys_cache sys_threads]; try assumption; try congruence.
    + unfold quiescing. cbn [sys_cache sys_threads]. rewrite F1.
      rewrite Hnone in Hlen. destruct (sys_threads s); [|discriminate].
      split_and!; auto.
    + intros q [[Hin|(j & Hj)]|Hcr].
      * left. left. cbn. rewrite F1. exact Hin.
      * left. right. exists j. exact Hj.
      * right. eapply pipeline_state_created_frame; [| |exact Hcr];
          [exact F5|rewrite F3; reflexivity].
  - set (sf := {| sys_cache := EndSubmission_request_flush (sys_cache s);
                  sys_threads := sys_threads s |}) in *.
    assert (creation_threads_busy_ (pool (sys_cache sf)) =
            Z.of_nat (count_busy (sys_threads sf))) as Hbf
      by (cbn; rewrite F1; exact Hb).
    destruct (threads_run_pool _ _ Hrun0 Hbf)
      as (B0 & _ & T0 & _ & _ & (a1 & a2 & a3 & a4 & a5) & _).
    destruct (processor_creates_queued_inv _ _ Hproc B0)
      as (B1 & Q1 & _ & T1 & (b1 & b2 & b3 & b4 & b5) & S1).
    destruct (threads_run_pool _ _ Hrun1 B1)
      as (B2 & _ & T2 & _ & (taken & Q2) & (c1 & c2 & c3 & c4 & c5) & _).
    rewrite Q1 in Q2. symmetry in Q2. apply app_eq_nil in Q2 as [_ Q2].
    unfold await_creation_completion in Hawait. injection Hawait as <- <-.
    set (s2' := {| sys_cache := _ |}) in Hrun2.
    assert (quiescing (negb (creation_threads_busy_ (pool (sys_cache s2)) =? 0))
              s2') as Hq2.
    { unfold quiescing. subst s2'. cbn [sys_cache sys_threads].
      destruct (Z.eqb_spec (creation_threads_busy_ (pool (sys_cache s2))) 0)
        as [Hz|Hnz]; cbn; split_and!; auto. discriminate. }
    destruct (threads_run_quiescing _ _ _ Hq2 Hrun2)
      as ((B3 & Q3 & Hidle) & (d1 & d2 & d3 & d4 & d5)).
    cbn [sys_cache sys_threads] in *.
    assert (creation_threads_busy_ (pool (sys_cache s3)) = 0) as Hzero.
    { destruct (negb _); [apply Hidle, Hevent; reflexivity|exact Hidle]. }
    assert (creation_threads_busy_ (pool (sys_cache s2')) =
            Z.of_nat (count_busy (sys_threads s2'))) as B2'.
    { subst s2'. cbn. destruct (negb _); exact B2. }
    destruct (threads_run_pool _ _ Hrun2 B2') as (_ & _ & T3 & _).
    assert (creation_threads_ (pool (sys_cache s2')) =
            creation_threads_ (pool (sys_cache s2))) as T2'
      by (subst s2'; cbn; destruct (negb _); reflexivity).
    subst s2' sf.
    cbn in a1, a2, a3, a4, a5, d1, d2, d3, d4, d5, T0.
    split_and!.
    + unfold quiescing. split_and!; assumption.
    + congruence.
    + congruence.
    + congruence.
    + congruence.
    + congruence.
    + congruence.
    + intros q Hq. eapply threads_run_settles; [exact Hrun2|].
      assert (creation_pending s2 q \/
              pipeline_state_created (sys_cache s2) q) as [Hp2|Hc2].
      { eapply threads_run_settles; [exact Hrun1|]. apply S1.
        eapply threads_run_settles; [exact Hrun0|].
        destruct Hq as [[Hin|(j & Hj)]|Hcr].
        - left. left. cbn. rewrite F1. exact Hin.
        - left. right. exists j. exact Hj.
        - right. eapply pipeline_state_created_frame; [| |exact Hcr];
            cbn [sys_cache]; [exact F5|rewrite F3; reflexivity]. }
      * left. destruct Hp2 as [Hin|(j & Hj)]; [|right; eauto].
        left. cbn. destruct (negb _); exact Hin.
      * right. eapply pipeline_state_created_frame; [| |exact Hc2];
          reflexivity.
Qed.

Lemma quiescing_not_creating s :
  quiescing false s -> IsCreatingPipelineStates (sys_cache s) = false.
Proof.
  intros (_ & Hq & Hz). unfold IsCreatingPipelineStates.
  destruct (creation_threads_ (pool (sys_cache s))); [reflexivity|].
  rewrite Hq, Hz. reflexivity.
Qed.

(** X10. When [EndSubmission] has returned, nothing is queued for creation and
    no creation thread is busy, so that [IsCreatingPipelineStates] is false,
    and stays false while only the creation threads run; no flush is needed
    any more, and each flush that was needed is requested from the writing
    thread. *)
Theorem EndSubmission_leaves_nothing_creating (s s' : System) :
  pool_inv s ->
  EndSubmission_run s s' ->
  (forall s'', threads_run s' s'' ->
     IsCreatingPipelineStates (sys_cache s'') = false /\
     creation_queue_ (pool (sys_cache s'')) = [] /\
     creation_threads_busy_ (pool (sys_cache s'')) = 0 /\
     Forall (fun pc => thread_busy pc = false) (sys_threads s'')) /\
  let before := storage (sys_cache s) in
  let after := storage (sys_cache s') in
  shader_storage_file_flush_needed_ after = false /\
  pipeline_state_storage_file_flush_needed_ after = false /\
  storage_write_flush_shaders_ after =
    shader_storage_file_flush_needed_ before ||
    storage_write_flush_shaders_ before /\
  storage_write_flush_pipeline_states_ after =
    pipeline_state_storage_file_flush_needed_ before ||
    storage_write_flush_pipeline_states_ before.
Proof.
  intros Hinv Hrun.
  destruct (EndSubmission_run_inv s s' Hinv Hrun)
    as (Hq & _ & _ & _ & _ & Hst & _).
  split.
  - intros s'' Hthreads.
    destruct (threads_run_quiescing _ _ _ Hq Hthreads) as [Hq' _].
    pose proof Hq' as (Hb & Hqueue & Hz).
    split_and!; auto using quiescing_not_creating.
    apply count_busy_zero. lia.
  - cbv zeta. rewrite Hst. unfold EndSubmission_request_flush.
    destruct (shader_storage_file_flush_needed_ (storage (sys_cache s))) eqn:E1,
      (pipeline_state_storage_file_flush_needed_ (storage (sys_cache s)))
        eqn:E2; cbn; rewrite ?E1, ?E2; auto.
Qed.

(** X11. When [EndSubmission] has returned, every pipeline state that was queued
    for creation or taken by a creation thread has the object that
    [CreateD3D12PipelineState] gives for its description, and so has every
    pipeline state that had it before. *)
Theorem EndSubmission_creates_queued (s s' : System) (p : ptr) :
  pool_inv s ->
  EndSubmission_run s s' ->
  creation_pending s p \/ pipeline_state_created (sys_cache s) p ->
  pipeline_state_created (sys_cache s') p.
Proof.
  intros Hinv Hrun Hp.
  destruct (EndSubmission_run_inv s s' Hinv Hrun)
    as ((Hb & Hq & Hz) & _ & _ & _ & _ & _ & _ & Hs).
  destruct (Hs p Hp) as [[Hin|(i & Hi)]|Hc]; [| |exact Hc].
  - rewrite Hq in Hin. inversion Hin.
  - exfalso. rewrite Hz in Hb.
    assert (count_busy (sys_threads s') = 0%nat) as H0 by lia.
    apply count_busy_zero in H0. rewrite Forall_forall in H0.
    specialize (H0 (Creating p)). cbn in H0.
    assert (true = false); [|discriminate].
    apply H0. eapply list_elem_of_lookup_2. exact Hi.
Qed.

End SubmissionProperties.

Section ShutdownProperties.
Context `{ext : Externals}.

Lemma ClearCache_quiesce_keeps c :
  let c1 := (ClearCache_quiesce c).1 in
  storage c1 = storage (ShutdownShaderStorage c) /\
  creation_threads_ (pool c1) = creation_threads_ (pool c) /\
  creation_threads_shutdown_from_ (pool c1) =
    creation_threads_shutdown_from_ (pool c).
Proof.
  unfold ClearCache_quiesce, ShutdownShaderStorage. unfold_setters.
  cbn [pool]. destruct (creation_threads_ (pool c)) eqn:E; cbn; rewrite ?E;
    repeat split.
Qed.

Lemma thread_step_idle_heap i s s' :
  quiescing false s -> thread_step i s = Some s' ->
  pipeline_heap (sys_cache s') = pipeline_heap (sys_cache s).
Proof.
  intros (Hb & Hq & Hz) H. apply thread_step_inv in H as (pc & Hpc & H).
  destruct pc as [|ps| |]; [subst s'; reflexivity| |subst s'; reflexivity
                            |contradiction].
  exfalso. rewrite Hz in Hb.
  assert (count_busy (sys_threads s) = 0%nat) as H0 by lia.
  apply count_busy_zero in H0. rewrite Forall_forall in H0.
  specialize (H0 (Creating ps)). cbn in H0.
  assert (true = false); [|discriminate].
  apply H0. eapply list_elem_of_lookup_2. exact Hpc.
Qed.

Lemma threads_run_idle_heap s s' :
  quiescing false s -> threads_run s s' ->
  pipeline_heap (sys_cache s') = pipeline_heap (sys_cache s).
Proof.
  intros Hq Hrun. induction Hrun as [s|i s s1 s2 Hstep _ IH]; [reflexivity|].
  rewrite IH.
  - eapply thread_step_idle_heap; eauto.
  - eapply thread_step_quiescing; eauto.
Qed.

(** [ClearCache(true)], as [Shutdown] calls it. *)
Lemma ClearCache_run_shutting_down disk s s' disk' :
  pool_inv s ->
  ClearCache_run true disk s s' disk' ->
  quiescing false s' /\
  disk' = disk /\
  length (sys_threads s') = length (sys_threads s) /\
  creation_threads_ (pool (sys_cache s')) =
    creation_threads_ (pool (sys_cache s)) /\
  pipeline_states_ (sys_cache s') = [] /\
  shader_map_ (sys_cache s') = ∅ /\
  current_pipeline_state_ (sys_cache s') = None /\
  storage (sys_cache s') = storage (ShutdownShaderStorage (sys_cache s)) /\
  (forall h p, (h, p) ∈ pipeline_states_ (sys_cache s) ->
     pipeline_heap (sys_cache s') !! p = None) /\
  (forall h p, shader_map_ (sys_cache s) !! h = Some p ->
     shader_heap (sys_cache s') !! p = None).
Proof.
  intros Hinv Hrun.
  destruct Hrun as [c1 await s2 c3 c4 disk' Hq Hthreads Hev Hd Hre].
  cbn in Hre. injection Hre as <- <-.
  destruct (ClearCache_quiesce_quiescing s c1 await Hinv Hq)
    as (Hqs & Et & Em & Eh & Ep & Ec).
  pose proof (ClearCache_quiesce_keeps (sys_cache s)) as (Ks & Kt & _).
  rewrite Hq in Ks, Kt. cbn [fst] in Ks, Kt.
  destruct (threads_run_quiescing _ _ _ Hqs Hthreads)
    as ((Hb & Hqueue & Hidle) & e1 & e2 & e3 & e4 & e5).
  destruct (threads_run_pool _ _ Hthreads (proj1 Hqs))
    as (_ & Hlen & Ht & _).
  cbn [sys_cache sys_threads] in *.
  assert (creation_threads_busy_ (pool (sys_cache s2)) = 0) as Hzero.
  { destruct await; [apply Hidle, Hev; reflexivity | exact Hidle]. }
  unfold ClearCache_destroy in Hd.
  destruct (destroy_pipeline_states _ _) as [pipelines|] eqn:Hp;
    [|discriminate].
  destruct (destroy_shaders _ _) as [shaders|] eqn:Hs; [|discriminate].
  cbn in Hd. injection Hd as <-.
  destruct (destroy_pipeline_states_gone _ _ _ Hp) as [_ Hgp].
  destruct (destroy_shaders_gone _ _ _ Hs) as [_ Hgs].
  unfold quiescing. cbn.
  split_and!; auto; try congruence.
  - rewrite e5, Ks. reflexivity.
  - intros h p Hin. apply (Hgp h). rewrite e1, Et. exact Hin.
  - intros h p Hin. apply (Hgs h). apply elem_of_map_to_list.
    rewrite e2, Em. exact Hin.
Qed.

(** X12. When [Shutdown] has returned, every creation thread has returned and
    the cache has none left; nothing is queued and nothing is being created;
    the table and the shader map are empty and the objects they held are
    deleted; the storage is closed with its queues dropped, and the files
    are as they were. *)
Theorem Shutdown_stops_everything (disk disk' : Disk) (s s' : System) :
  pool_inv s ->
  Shutdown_run disk s s' disk' ->
  creation_threads_ (pool (sys_cache s')) = [] /\
  Forall (fun pc => pc = Exited) (sys_threads s') /\
  length (sys_threads s') = length (sys_threads s) /\
  creation_queue_ (pool (sys_cache s')) = [] /\
  creation_threads_busy_ (pool (sys_cache s')) = 0 /\
  IsCreatingPipelineStates (sys_cache s') = false /\
  pipeline_states_ (sys_cache s') = [] /\
  shader_map_ (sys_cache s') = ∅ /\
  current_pipeline_state_ (sys_cache s') = None /\
  (forall h p, (h, p) ∈ pipeline_states_ (sys_cache s) ->
     pipeline_heap (sys_cache s') !! p = None) /\
  (forall h p, shader_map_ (sys_cache s) !! h = Some p ->
     shader_heap (sys_cache s') !! p = None) /\
  storage_write_thread_ (storage (sys_cache s')) = false /\
  shader_storage_file_ (storage (sys_cache s')) = None /\
  pipeline_state_storage_file_ (storage (sys_cache s')) = None /\
  storage_write_shader_queue_ (storage (sys_cache s')) = [] /\
  storage_write_pipeline_state_queue_ (storage (sys_cache s')) = [] /\
  disk' = disk.
Proof.
  intros Hinv Hrun.
  destruct Hrun as [s1 disk1 Hclear Hnone|s1 disk1 s2 Hclear Hsome Hthreads Hex].
  - destruct (ClearCache_run_shutting_down _ _ _ _ Hinv Hclear)
      as ((Hb & Hq & Hz) & Hd & Hlen & Ht & Hp & Hm & Hc & Hst & Hgp & Hgs).
    destruct Hinv as (_ & Hl & _). rewrite <- Ht, Hnone in Hl.
    rewrite Hst. unfold IsCreatingPipelineStates. rewrite Hnone.
    split_and!; auto.
    rewrite <- Hlen in Hl. destruct (sys_threads s1); [constructor|discriminate].
  - destruct (ClearCache_run_shutting_down _ _ _ _ Hinv Hclear)
      as (Hqs & Hd & Hlen & Ht & Hp & Hm & Hc & Hst & Hgp & Hgs).
    set (s1' := {| sys_cache := _ |}) in Hthreads.
    assert (quiescing false s1') as Hqs'.
    { destruct Hqs as (Hb & Hq & Hz). unfold quiescing. subst s1'. cbn.
      split_and!; assumption. }
    destruct (threads_run_quiescing _ _ _ Hqs' Hthreads)
      as ((Hb & Hq & Hz) & e1 & e2 & e3 & e4 & e5).
    destruct (threads_run_pool _ _ Hthreads (proj1 Hqs'))
      as (_ & Hlen2 & _ & _ & _ & _ & _).
    pose proof (threads_run_idle_heap _ _ Hqs' Hthreads) as Hheap.
    subst s1'. cbn in e1, e2, e3, e4, e5, Hlen2, Hheap. cbn.
    unfold IsCreatingPipelineStates. cbn.
    split_and!; auto; try congruence.
    + intros h p Hin. rewrite Hheap. eapply Hgp, Hin.
    + intros h p Hin. rewrite e3. eapply Hgs, Hin.
    + rewrite e5, Hst. reflexivity.
    + rewrite e5, Hst. reflexivity.
    + rewrite e5, Hst. reflexivity.
    + rewrite e5, Hst. reflexivity.
    + rewrite e5, Hst. reflexivity.
Qed.

Lemma destroy_pipeline_states_null table : forall heap h p st,
  (h, p) ∈ table -> heap !! p = Some st -> state st = None ->
  destroy_pipeline_states table heap = None.
Proof.
  induction table as [|[h' p'] table IH]; intros heap h p st Hin Hst Hnull.
  - inversion Hin.
  - cbn. destruct (decide (p' = p)) as [->|Hne].
    + rewrite Hst. cbn. rewrite Hnull. reflexivity.
    + destruct (heap !! p') as [st'|]; [|reflexivity]. cbn.
      destruct (state st'); [|reflexivity]. cbn.
      apply (IH _ h p st).
      * apply elem_of_cons in Hin as [[= _ ->]|Hin]; [congruence|exact Hin].
      * rewrite lookup_delete_ne by congruence. exact Hst.
      * exact Hnull.
Qed.

Lemma thread_step_keeps_null i s s' p st :
  creation_queue_ (pool (sys_cache s)) = [] ->
  (forall j, sys_threads s !! j <> Some (Creating p)) ->
  pipeline_heap (sys_cache s) !! p = Some st ->
  thread_step i s = Some s' ->
  creation_queue_ (pool (sys_cache s')) = [] /\
  (forall j, sys_threads s' !! j <> Some (Creating p)) /\
  pipeline_heap (sys_cache s') !! p = Some st.
Proof.
  intros Hq Hnot Hst H. apply thread_step_inv in H as (pc & Hpc & H).
  destruct pc as [|ps| |]; [| | |contradiction].
  - subst s'. unfold CreationThread_check, signal_creation_completion.
    rewrite Hq. cbn [sys_cache sys_threads fst snd].
    split_and!.
    + unfold_setters. cbn. destruct (_ && _); cbn; first [reflexivity|exact Hq].
    + intros j Hj. destruct (decide (j = i)) as [->|Hne].
      * rewrite list_lookup_insert_eq in Hj by (eapply lookup_lt_Some, Hpc).
        destruct (_ <=? _); discriminate.
      * rewrite list_lookup_insert_ne in Hj by congruence. eapply Hnot, Hj.
    + exact Hst.
  - destruct H as (st' & Hst' & ->). cbn [sys_cache sys_threads].
    assert (ps <> p) as Hne by (intros ->; eapply Hnot, Hpc).
    split_and!.
    + exact Hq.
    + intros j Hj. destruct (decide (j = i)) as [->|Hne'].
      * rewrite list_lookup_insert_eq in Hj by (eapply lookup_lt_Some, Hpc).
        discriminate.
      * rewrite list_lookup_insert_ne in Hj by congruence. eapply Hnot, Hj.
    + unfold_setters. cbn. rewrite lookup_insert_ne by exact Hne. exact Hst.
  - subst s'. cbn [sys_cache sys_threads]. split_and!.
    + exact Hq.
    + intros j Hj. destruct (decide (j = i)) as [->|Hne'].
      * rewrite list_lookup_insert_eq in Hj by (eapply lookup_lt_Some, Hpc).
        discriminate.
      * rewrite list_lookup_insert_ne in Hj by congruence. eapply Hnot, Hj.
    + exact Hst.
Qed.

Lemma threads_run_keeps_null s s' p st :
  threads_run s s' ->
  creation_queue_ (pool (sys_cache s)) = [] ->
  (forall j, sys_threads s !! j <> Some (Creating p)) ->
  pipeline_heap (sys_cache s) !! p = Some st ->
  pipeline_heap (sys_cache s') !! p = Some st /\
  pipeline_states_ (sys_cache s') = pipeline_states_ (sys_cache s).
Proof.
  induction 1 as [s|i s s1 s2 Hstep _ IH]; intros Hq Hnot Hst; [auto|].
  destruct (thread_step_keeps_null _ _ _ _ _ Hq Hnot Hst Hstep)
    as (Hq1 & Hnot1 & Hst1).
  destruct (IH Hq1 Hnot1 Hst1) as [H1 H2]. split; [exact H1|].
  rewrite H2. apply thread_step_inv in Hstep as (pc & _ & Hstep).
  destruct pc; [subst s1; reflexivity|destruct Hstep as (? & _ & ->); reflexivity
               |subst s1; reflexivity|contradiction].
Qed.

(** X13. [ClearCache] releases the state of every pipeline state of the table
    without a test for null.  With a pipeline state in the table whose
    state is null and which no creation thread is creating (one that is
    still queued, which [ClearCache] drops from the queue, or one whose
    creation failed) it dereferences the null state: no run of it
    returns. *)
Theorem ClearCache_dereferences_null_state
    (shutting_down : bool) (disk disk' : Disk) (s s' : System)
    (h : Z) (p : ptr) (st : PipelineState) :
  pool_inv s ->
  (h, p) ∈ pipeline_states_ (sys_cache s) ->
  pipeline_heap (sys_cache s) !! p = Some st ->
  state st = None ->
  (forall i, sys_threads s !! i <> Some (Creating p)) ->
  ~ ClearCache_run shutting_down disk s s' disk'.
Proof.
  intros Hinv Hin Hst Hnull Hnot Hrun.
  destruct Hrun as [c1 await s2 c3 c4 disk' Hq Hthreads Hev Hd Hre].
  destruct (ClearCache_quiesce_quiescing s c1 await Hinv Hq)
    as ((_ & Hqueue & _) & Et & _ & _ & Ep & _).
  cbn [sys_cache sys_threads] in Hqueue.
  destruct (threads_run_keeps_null _ _ p st Hthreads) as [Hst2 Ht2].
  - exact Hqueue.
  - exact Hnot.
  - cbn. rewrite Ep. exact Hst.
  - cbn in Ht2. unfold ClearCache_destroy in Hd.
    rewrite (destroy_pipeline_states_null _ _ h p st) in Hd;
      [discriminate| |exact Hst2|exact Hnull].
    rewrite Ht2, Et. exact Hin.
Qed.

End ShutdownProperties.

(** The hash of the example host is a 64-bit value. *)
Lemma lxor_u64_range a b :
  0 <= a < 2 ^ 64 -> 0 <= b < 2 ^ 64 -> 0 <= Z.lxor a b < 2 ^ 64.
Proof.
  intros Ha Hb. split; [apply Z.lxor_nonneg; lia|].
  destruct (Z.eq_dec (Z.lxor a b) 0) as [->|Hne]; [lia|].
  apply Z.log2_lt_pow2; [pose proof (Z.lxor_nonneg a b); lia|].
  eapply Z.le_lt_trans; [apply Z.log2_lxor; lia|].
  apply Z.max_lub_lt.
  - destruct (Z.eq_dec a 0) as [->|]; [cbn; lia|]. apply Z.log2_lt_pow2; lia.
  - destruct (Z.eq_dec b 0) as [->|]; [cbn; lia|]. apply Z.log2_lt_pow2; lia.
Qed.

Lemma shiftr_u64_range a n :
  0 <= a < 2 ^ 64 -> 0 <= n -> 0 <= Z.shiftr a n < 2 ^ 64.
Proof.
  intros Ha Hn. rewrite Z.shiftr_div_pow2 by exact Hn.
  pose proof (Z.pow_pos_nonneg 2 n ltac:(lia) Hn) as Hp.
  split; [apply Z.div_pos; lia|].
  apply Z.div_lt_upper_bound; [lia|]. nia.
Qed.

Lemma XXH64_range bs seed : 0 <= XXHash.XXH64 bs seed < 2 ^ 64.
Proof.
  unfold XXHash.XXH64.
  destruct (if 32 <=? Z.of_nat (length bs) then _ else _) as [p h].
  destruct (XXHash.tail8 _ _ _) as [p1 h1].
  destruct (if 4 <=? Z.of_nat (length p1) then _ else _) as [p2 h2].
  unfold XXHash.avalanche. generalize (XXHash.tail1 p2 h2). intros t.
  cbv zeta.
  set (a := XXHash.u64 (Z.lxor t (Z.shiftr t 33) * XXHash.PRIME64_2)).
  assert (0 <= a < 2 ^ 64) as Ha by (apply Z.mod_pos_bound; lia).
  set (b := XXHash.u64 (Z.lxor a (Z.shiftr a 29) * XXHash.PRIME64_3)).
  assert (0 <= b < 2 ^ 64) as Hb by (apply Z.mod_pos_bound; lia).
  apply lxor_u64_range; [exact Hb|]. apply shiftr_u64_range; [exact Hb|lia].
Qed.


Section ReplayKeepsTable.
Context `{ext : Externals}.

Lemma table_kept_refl c : table_kept c c.
Proof. unfold table_kept. split_and!; auto. Qed.

Lemma table_kept_trans c1 c2 c3 :
  table_kept c1 c2 -> table_kept c2 c3 -> table_kept c1 c3.
Proof.
  intros (a1 & a2 & a3 & a4 & a5 & a6) (b1 & b2 & b3 & b4 & b5 & b6).
  unfold table_kept. split_and!; try congruence. lia.
Qed.

Lemma table_inv_kept c c' : table_inv c -> table_kept c c' -> table_inv c'.
Proof.
  intros (H1 & H2 & H3 & H4) (e1 & e2 & e3 & _ & _ & e4).
  unfold table_inv. rewrite e1, e2, e3. split_and!; auto.
  intros p Hp. specialize (H3 p Hp). lia.
Qed.

Lemma shader_storage_read_table_kept data st st' :
  shader_storage_read data st = ReadNext st' ->
  table_kept (load_cache st) (load_cache st').
Proof.
  unfold shader_storage_read. intros H.
  destruct (fread1 sizeof_ShaderStoredHeader data (load_pos st))
    as [[header_bytes|] pos1]; [|discriminate].
  destruct (shader_map_ (load_cache st) !! _).
  - cbn in H. injection H as <-. apply table_kept_refl.
  - destruct (resize_ucode_dwords _ _ _ _) as [capacity|]; [|discriminate].
    destruct (if _ =? 0 then _ else _) as [[ucode_bytes|] pos2];
      [|discriminate].
    destruct (negb _); [discriminate|]. injection H as <-.
    unfold table_kept. cbn. split_and!; auto.
Qed.

Lemma shader_storage_loop_table_kept fuel : forall data st st',
  shader_storage_loop fuel data st = Some st' ->
  table_kept (load_cache st) (load_cache st').
Proof.
  induction fuel as [|fuel IH]; intros data st st' Hloop; cbn in Hloop.
  - injection Hloop as <-. apply table_kept_refl.
  - destruct (shader_storage_read data st) as [| |st1] eqn:Hread;
      [injection Hloop as <-; apply table_kept_refl|discriminate|].
    eapply table_kept_trans; [|eapply IH, Hloop].
    eapply shader_storage_read_table_kept, Hread.
Qed.

Lemma TranslateShader_table_kept shader cntl patch c ok c' :
  TranslateShader shader cntl patch c = Some (ok, c') -> table_kept c c'.
Proof.
  unfold TranslateShader. intros H.
  destruct (shader_heap c !! shader) as [s|]; [|discriminate]. cbn in H.
  destruct (negb _); injection H as <- <-; unfold table_kept; cbn;
    split_and!; auto.
Qed.

Lemma translate_queued_table_kept queue : forall failed c failed' c',
  translate_queued queue failed c = Some (failed', c') -> table_kept c c'.
Proof.
  induction queue as [|[h shader] queue IH]; intros failed c failed' c' H;
    cbn in H.
  - injection H as <- <-. apply table_kept_refl.
  - destruct (TranslateShader _ _ _ c) as [[ok c1]|] eqn:Ht; [|discriminate].
    cbn in H. eapply table_kept_trans; [|eapply IH, H].
    eapply TranslateShader_table_kept, Ht.
Qed.

Lemma erase_failed_table_kept failed : forall c c',
  erase_failed failed c = Some c' -> table_kept c c'.
Proof.
  induction failed as [|shader failed IH]; intros c c' H; cbn in H.
  - injection H as <-. apply table_kept_refl.
  - destruct (shader_heap c !! shader) as [s|]; [|discriminate]. cbn in H.
    eapply table_kept_trans; [|eapply IH, H].
    unfold table_kept; cbn; split_and!; auto.
Qed.

Lemma load_shader_storage_table_kept data c loaded data' :
  load_shader_storage data c = Some (loaded, data') ->
  table_kept c (load_cache loaded).
Proof.
  unfold load_shader_storage, join_shader_translation_threads. intros H.
  destruct (shader_storage_header_ok data);
    [|injection H as <- <-; apply table_kept_refl].
  destruct (shader_storage_loop (length data) data (shader_load_start c))
    as [st|] eqn:Hloop; [|discriminate]. cbn [mbind option_bind] in H.
  apply shader_storage_loop_table_kept in Hloop. cbn in Hloop.
  destruct (shader_translation_threads st).
  - destruct (translate_queued _ _ _) as [[failed c1]|] eqn:Ht;
      [|discriminate]. cbn in H.
    destruct (erase_failed failed c1) as [c2|] eqn:He; [|discriminate].
    cbn in H. injection H as <- <-. cbn.
    eapply table_kept_trans; [exact Hloop|].
    eapply table_kept_trans;
      [eapply translate_queued_table_kept, Ht
      |eapply erase_failed_table_kept, He].
  - cbn in H. injection H as <- <-. exact Hloop.
Qed.

(** The table after an insertion that leaves the fast-path slot and the
    storage queue alone, as the replay makes it. *)
Lemma table_inv_insert_pipeline_state c rd :
  let hash := XXH64 (PipelineDescription_bytes (description rd)) 0 in
  table_inv c ->
  find_pipeline_state (pipeline_heap c) (pipeline_states_ c) hash
    (description rd) = Some None ->
  table_inv (insert_pipeline_state hash rd c).2.
Proof.
  intros hash Hinv Hfind.
  destruct (table_inv_inserted c rd Hinv Hfind) as ((H1 & H2 & H3 & _) & _).
  fold hash in H1, H2, H3.
  set (c1 := (insert_pipeline_state hash rd c).2) in *.
  assert (pipeline_states_
            (set_current_pipeline_state (Some (next_object c))
               (queue_pipeline_state_write hash (description rd) c1)) =
          pipeline_states_ c1 /\
          pipeline_heap
            (set_current_pipeline_state (Some (next_object c))
               (queue_pipeline_state_write hash (description rd) c1)) =
          pipeline_heap c1 /\
          next_object
            (set_current_pipeline_state (Some (next_object c))
               (queue_pipeline_state_write hash (description rd) c1)) =
          next_object c1) as (E1 & E2 & E3).
  { unfold queue_pipeline_state_write.
    destruct (pipeline_state_storage_file_ (storage c1)); cbn; auto. }
  rewrite E1, E2 in H1, H2. rewrite E2, E3 in H3.
  destruct Hinv as (_ & _ & _ & Hcur).
  unfold table_inv. split_and!; auto.
  intros cur Hc.
  assert (current_pipeline_state_ c = Some cur) as Hc'.
  { revert Hc. subst c1. unfold insert_pipeline_state.
    destruct (creation_threads_ (pool c)); cbn; auto. }
  destruct (Hcur cur Hc') as (h & Hin). exists h.
  destruct (insert_pipeline_state_shape hash rd c) as (Et & _).
  fold c1 in Et. rewrite Et. apply elem_of_app. left. exact Hin.
Qed.

(** The replay inserts a stored description, which has passed the
    integrity check, only when the table has no entry for it. *)
Lemma replay_pipeline_state_table_inv stored c c' made :
  XXH64 (PipelineDescription_bytes (stored_description stored)) 0 =
    description_hash stored ->
  replay_pipeline_state stored c = Some (c', made) ->
  table_inv c -> table_inv c'.
Proof.
  unfold replay_pipeline_state. intros Hhash H Hinv.
  destruct (find_pipeline_state _ _ _ _) as [[found|]|] eqn:Hfind;
    cbn in H; [injection H as <- <-; exact Hinv| |discriminate].
  destruct (resolve_vertex_shader c _) as [[| |vp v]|]; cbn in H;
    try discriminate; try (injection H as <- <-; exact Hinv).
  destruct (resolve_pixel_shader c _) as [ps|]; cbn in H; [|discriminate].
  rewrite <- Hhash in Hfind, H.
  destruct ps as [| |pp ps]; try (injection H as <- <-; exact Hinv);
    (destruct (GetRootSignature v _ _) as [rs|];
     [|injection H as <- <-; exact Hinv]);
    injection H as <- <-;
    match goal with
    | |- table_inv (insert_pipeline_state _ ?rd c).2 =>
        apply (table_inv_insert_pipeline_state c rd Hinv Hfind)
    end.
Qed.

Lemma pipeline_storage_loop_table_inv records : forall valid_bytes c created r,
  pipeline_storage_loop records valid_bytes c created = Some r ->
  table_inv c -> table_inv r.1.2.
Proof.
  induction records as [|stored records IH]; intros vb c created r H Hinv;
    cbn in H.
  - injection H as <-. exact Hinv.
  - destruct (_ =? _) eqn:Hhash; cbn in H; [|injection H as <-; exact Hinv].
    apply Z.eqb_eq in Hhash.
    destruct (replay_pipeline_state stored c) as [[c' made]|] eqn:Hr;
      [|discriminate]. cbn in H.
    apply (IH _ _ _ _ H).
    apply (replay_pipeline_state_table_inv _ _ _ _ Hhash Hr Hinv).
Qed.

Lemma set_pipeline_state_object_table_inv p st st0 c :
  pipeline_heap c !! p = Some st0 ->
  runtime_description st = runtime_description st0 ->
  table_inv c -> table_inv (set_pipeline_state_object p st c).
Proof.
  intros Hp Hrd (H1 & H2 & H3 & H4).
  assert (forall q stq,
            pipeline_heap (set_pipeline_state_object p st c) !! q = Some stq ->
            exists stq0, pipeline_heap c !! q = Some stq0 /\
                         entry_description stq = entry_description stq0)
    as Hback.
  { intros q stq Hq. cbn in Hq. destruct (decide (q = p)) as [->|Hne].
    - rewrite lookup_insert_eq in Hq. injection Hq as <-. exists st0.
      split; [exact Hp|]. unfold entry_description. rewrite Hrd. reflexivity.
    - rewrite lookup_insert_ne in Hq by congruence. eauto. }
  unfold table_inv. split_and!.
  - intros h q Hin. destruct (H1 h q Hin) as (stq & Hq & Hh). cbn.
    destruct (decide (q = p)) as [->|Hne].
    + rewrite lookup_insert_eq. eexists. split; [reflexivity|].
      rewrite Hh. unfold entry_description.
      assert (stq = st0) as -> by congruence. rewrite Hrd. reflexivity.
    + rewrite lookup_insert_ne by congruence. eauto.
  - intros h1 p1 st1 h2 p2 st2 Hin1 Hin2 Hp1 Hp2 He.
    destruct (Hback _ _ Hp1) as (s1 & Hs1 & He1).
    destruct (Hback _ _ Hp2) as (s2 & Hs2 & He2).
    apply (H2 h1 p1 s1 h2 p2 s2 Hin1 Hin2 Hs1 Hs2). congruence.
  - intros q [stq Hq]. destruct (Hback _ _ Hq) as (s & Hs & _).
    apply H3. eauto.
  - exact H4.
Qed.

Lemma create_queued_table_inv queue : forall c c',
  create_queued queue c = Some c' -> table_inv c -> table_inv c'.
Proof.
  induction queue as [|p queue IH]; intros c c' H Hinv; cbn in H.
  - injection H as <-. exact Hinv.
  - destruct (pipeline_heap c !! p) as [st|] eqn:Hp; [|discriminate].
    cbn in H. apply (IH _ _ H).
    apply (set_pipeline_state_object_table_inv p _ st c Hp); auto.
Qed.

Lemma table_inv_frame c c' :
  pipeline_states_ c' = pipeline_states_ c ->
  pipeline_heap c' = pipeline_heap c ->
  current_pipeline_state_ c' = current_pipeline_state_ c ->
  next_object c' = next_object c ->
  table_inv c -> table_inv c'.
Proof.
  intros E1 E2 E3 E4 (H1 & H2 & H3 & H4).
  unfold table_inv. rewrite E1, E2, E3, E4. auto.
Qed.

Lemma load_pipeline_state_storage_table_inv blocking data c r :
  load_pipeline_state_storage blocking data c = Some r ->
  table_inv c -> table_inv r.1.1.2.
Proof.
  unfold load_pipeline_state_storage. intros H Hinv.
  destruct (pipeline_state_storage_header_ok _ _);
    [|injection H as <-; exact Hinv].
  destruct (PipelineStoredDescription_of_bytes <$> _) as [|d ds];
    [injection H as <-; exact Hinv|].
  set (c1 := set_pool _ c) in H.
  destruct (pipeline_storage_loop (d :: ds) 12 c1 0) as [[[vb c2] created]|]
    eqn:Hloop; [|discriminate]. cbn [mbind option_bind] in H.
  apply pipeline_storage_loop_table_inv in Hloop;
    [|apply (table_inv_frame c c1); auto]. cbn in Hloop.
  unfold CreateQueuedPipelineStatesOnProcessorThread in H.
  destruct (create_queued _ c2) as [c3|] eqn:Hq; [|discriminate].
  cbn in H. injection H as <-. cbn.
  apply (create_queued_table_inv _ _ _ Hq) in Hloop.
  revert Hloop. apply table_inv_frame; reflexivity.
Qed.

(** X14. [InitializeShaderStorage] keeps the table of pipeline states sound:
    when, before the call, every entry is a live pipeline state stored
    under the hash of its description, no two entries have the same
    description, and the fast-path slot is empty or an entry, the same holds
    after the load, whatever the two files hold.  A stored description is
    inserted only if its stored hash is the hash of its bytes and the table
    has no entry for it. *)
Theorem InitializeShaderStorage_keeps_table_sound
    storage_root title_id blocking disk c c' disk' :
  InitializeShaderStorage storage_root title_id blocking disk c =
    Some (c', disk') ->
  table_inv c -> table_inv c'.
Proof.
  unfold InitializeShaderStorage. intros H Hinv.
  assert (table_inv (ShutdownShaderStorage c)) as Hinv0.
  { revert Hinv. apply table_inv_frame; reflexivity. }
  destruct (negb (CreateFolder storage_root));
    [injection H as <- <-; exact Hinv0|].
  destruct (disk (ShaderStoragePath storage_root title_id)) as [shader_data|];
    [|injection H as <- <-; exact Hinv0].
  set (c1 := set_storage _ (ShutdownShaderStorage c)) in H.
  destruct (load_shader_storage shader_data c1) as [[loaded data']|] eqn:Hl;
    [|discriminate]. cbn [mbind option_bind] in H.
  apply load_shader_storage_table_kept in Hl.
  assert (table_inv (load_cache loaded)) as Hinv2.
  { apply (table_inv_kept c1); [|exact Hl].
    revert Hinv0. apply table_inv_frame; reflexivity. }
  destruct (disk_write _ data' disk _) as [pipeline_data|].
  - set (c3 := set_storage _ (load_cache loaded)) in H.
    destruct (load_pipeline_state_storage blocking pipeline_data c3)
      as [[[[vb c4] created] pd']|] eqn:Hp; [|discriminate].
    cbn [mbind option_bind] in H. injection H as <- <-.
    apply load_pipeline_state_storage_table_inv in Hp;
      [|revert Hinv2; apply table_inv_frame; reflexivity].
    revert Hp. apply table_inv_frame; reflexivity.
  - injection H as <- <-. revert Hinv2. apply table_inv_frame; reflexivity.
Qed.

Lemma replay_pipeline_state_storage stored c c' made :
  replay_pipeline_state stored c = Some (c', made) -> storage c' = storage c.
Proof.
  unfold replay_pipeline_state. intros H.
  destruct (find_pipeline_state _ _ _ _) as [[found|]|];
    cbn in H; [injection H as <- <-; reflexivity| |discriminate].
  destruct (resolve_vertex_shader c _) as [[| |vp v]|]; cbn in H;
    try discriminate; try (injection H as <- <-; reflexivity).
  destruct (resolve_pixel_shader c _) as [ps|]; cbn in H; [|discriminate].
  destruct ps as [| |pp ps]; try (injection H as <- <-; reflexivity);
    (destruct (GetRootSignature v _ _) as [rs|];
     [|injection H as <- <-; reflexivity]);
    injection H as <- <-;
    match goal with
    | |- storage (insert_pipeline_state ?h ?rd c).2 = _ =>
        apply (insert_pipeline_state_shape h rd c)
    end.
Qed.

Lemma pipeline_storage_loop_storage records : forall valid_bytes c created r,
  pipeline_storage_loop records valid_bytes c created = Some r ->
  storage r.1.2 = storage c.
Proof.
  induction records as [|stored records IH]; intros vb c created r H;
    cbn in H.
  - injection H as <-. reflexivity.
  - destruct (negb _); [injection H as <-; reflexivity|].
    destruct (replay_pipeline_state stored c) as [[c' made]|] eqn:Hr;
      [|discriminate]. cbn in H.
    rewrite (IH _ _ _ _ H). apply (replay_pipeline_state_storage _ _ _ _ Hr).
Qed.

Lemma load_pipeline_state_storage_storage blocking data c r :
  load_pipeline_state_storage blocking data c = Some r ->
  storage r.1.1.2 = storage c.
Proof.
  unfold load_pipeline_state_storage. intros H.
  destruct (pipeline_state_storage_header_ok _ _);
    [|injection H as <-; reflexivity].
  destruct (PipelineStoredDescription_of_bytes <$> _) as [|d ds];
    [injection H as <-; reflexivity|].
  set (c1 := set_pool _ c) in H.
  destruct (pipeline_storage_loop (d :: ds) 12 c1 0) as [[[vb c2] created]|]
    eqn:Hloop; [|discriminate]. cbn [mbind option_bind] in H.
  apply pipeline_storage_loop_storage in Hloop. cbn in Hloop.
  unfold CreateQueuedPipelineStatesOnProcessorThread in H.
  destruct (create_queued _ c2) as [c3|] eqn:Hq; [|discriminate].
  cbn in H. injection H as <-. cbn.
  destruct (create_queued_keeps _ _ _ Hq) as (_ & _ & _ & _ & _ & _ & K & _).
  congruence.
Qed.

(** X15. [InitializeShaderStorage] leaves both write queues empty: the requests
    that were pending are dropped with the storage it closes, and nothing it
    reads from the two files, translates or replays is queued to be written
    again. *)
Theorem InitializeShaderStorage_queues_no_write
    storage_root title_id blocking disk c c' disk' :
  InitializeShaderStorage storage_root title_id blocking disk c =
    Some (c', disk') ->
  storage_write_shader_queue_ (storage c') = [] /\
  storage_write_pipeline_state_queue_ (storage c') = [].
Proof.
  unfold InitializeShaderStorage. intros H.
  destruct (negb (CreateFolder storage_root));
    [injection H as <- <-; auto|].
  destruct (disk (ShaderStoragePath storage_root title_id)) as [shader_data|];
    [|injection H as <- <-; auto].
  set (c1 := set_storage _ (ShutdownShaderStorage c)) in H.
  destruct (load_shader_storage shader_data c1) as [[loaded data']|] eqn:Hl;
    [|discriminate]. cbn [mbind option_bind] in H.
  apply load_shader_storage_table_kept in Hl.
  destruct Hl as (_ & _ & _ & Hs & _ & _).
  destruct (disk_write _ data' disk _) as [pipeline_data|].
  - set (c3 := set_storage _ (load_cache loaded)) in H.
    destruct (load_pipeline_state_storage blocking pipeline_data c3)
      as [[[[vb c4] created] pd']|] eqn:Hp; [|discriminate].
    cbn [mbind option_bind] in H. injection H as <- <-.
    apply load_pipeline_state_storage_storage in Hp. cbn in Hp |- *.
    rewrite Hp. subst c3. cbn. rewrite Hs. subst c1. cbn. auto.
  - injection H as <- <-. cbn. rewrite Hs. subst c1. cbn. auto.
Qed.

End ReplayKeepsTable.

Section StagesOfBuiltDescriptions.
Context `{ext : Externals} `{acc : ShaderAccessors}.

Lemma tessellated_mode_not_none tess_mode :
  (tessellated_mode tess_mode =? PipelineTessellationMode.kNone) = false.
Proof.
  unfold tessellated_mode.
  destruct tess_mode; try destruct cvars_d3d12_tessellation_adaptive;
    reflexivity.
Qed.

(** What [GetCurrentStateDescription] leaves in the record it has built. *)
Lemma GetCurrentStateDescription_built c req stack rd :
  GetCurrentStateDescription c req stack = Some (true, rd) ->
  vertex_shader rd = Some (req_vertex_shader req) /\
  pixel_shader rd = req_pixel_shader req /\
  exists tess topo patch geom,
    topology_fields (req_tessellated req) (req_primitive_type req)
      (VGT_HOS_CNTL_tess_mode (req_regs req)) =
      Some (tess, topo, patch, geom) /\
    tessellation_mode (description rd) = tess /\
    primitive_topology_type (description rd) = topo /\
    patch_type (description rd) = patch /\
    geometry_shader (description rd) = geom.
Proof.
  unfold GetCurrentStateDescription. intros H.
  destruct (request_shaders c req) as [[vs ps]|]; [|discriminate].
  cbn in H. destruct (GetRootSignature _ _ _) as [rs|]; [|discriminate].
  destruct (topology_fields _ _ _) as [[[[tess topo] patch] geom]|];
    [|discriminate].
  injection H as <-. cbn. split_and!; try reflexivity.
  exists tess, topo, patch, geom. split_and!; reflexivity.
Qed.

(** X16. For a description that [GetCurrentStateDescription] has built, the
    stage selection of [CreateD3D12PipelineState] returns no pipeline state
    in exactly four cases: the vertex shader is not translated; the draw is
    a tessellated draw of line patches, which the description builder
    accepts; the vertex shader was translated for another patch primitive
    type than that of the draw (none when the draw is not tessellated); the
    pixel shader is not translated.  The shader objects are those of the
    draw, as the cache holds them when the pipeline state is created. *)
Theorem CreateD3D12PipelineState_stages_of_built_description
    c req stack rd c' vs ps :
  GetCurrentStateDescription c req stack = Some (true, rd) ->
  request_shaders c' req = Some (vs, ps) ->
  exists r,
    CreateD3D12PipelineState_stages c' rd = Some r /\
    (r = None <->
     is_translated vs = false \/
     (req_tessellated req = true /\ req_primitive_type req = kLinePatch) \/
     Shader_patch_primitive_type vs <>
       (if req_tessellated req then req_primitive_type req else kNone) \/
     (exists p, ps = Some p /\ is_translated p = false)).
Proof.
  intros Hb Hs.
  destruct (GetCurrentStateDescription_built _ _ _ _ Hb)
    as (Hv & Hp & tess & topo & patch & geom & Ht & E1 & E2 & E3 & E4).
  unfold request_shaders in Hs.
  destruct (shader_heap c' !! req_vertex_shader req) as [vs0|] eqn:Hvs;
    [|discriminate]. cbn in Hs.
  unfold CreateD3D12PipelineState_stages. rewrite Hv, Hp. cbn.
  rewrite Hvs. cbn.
  assert (match req_pixel_shader req with
          | Some pp => Some <$> shader_heap c' !! pp
          | None => Some None
          end = Some ps /\ vs0 = vs) as [Hps ->].
  { destruct (match req_pixel_shader req with
              | Some pp => Some <$> shader_heap c' !! pp
              | None => Some None
              end) as [ps0|]; [|discriminate].
    cbn in Hs. injection Hs as -> ->. auto. }
  rewrite Hps. cbn. eexists. split; [reflexivity|].
  destruct (is_translated vs) eqn:Hvt; cbn; [|tauto].
  unfold vertex_hull_domain_stages, topology_type. rewrite E1, E2, E3.
  unfold topology_fields in Ht.
  assert (forall p : D3D12Shader, ps = Some p -> is_translated p = false ->
            (if match ps with
                | Some p0 => negb (is_translated p0)
                | None => false
                end then true else false) = true) as Hpx.
  { intros p -> ->. reflexivity. }
  destruct (req_tessellated req).
  - destruct (req_primitive_type req); try discriminate;
      injection Ht as <- <- <- <-;
      rewrite tessellated_mode_not_none; cbn;
      try (split; [intros _; right; left; split; reflexivity|reflexivity]);
      (destruct (Shader_patch_primitive_type vs) eqn:Hpt; cbn;
       try (split; [intros _; right; right; left; discriminate|reflexivity]);
       destruct ps as [p|]; cbn;
       [destruct (is_translated p) eqn:Hpt'; cbn;
        [split; [discriminate|];
         intros [?|[[_ ?]|[?|(p0 & Hp0 & Hp1)]]]; try congruence
        |split; [intros _; right; right; right; eauto|reflexivity]]
       |split; [discriminate|];
        intros [?|[[_ ?]|[?|(p0 & Hp0 & Hp1)]]]; congruence]).
  - assert (tess = PipelineTessellationMode.kNone /\
            (topo = PipelinePrimitiveTopologyType.kPoint \/
             topo = PipelinePrimitiveTopologyType.kLine \/
             topo = PipelinePrimitiveTopologyType.kTriangle)) as [-> Htopo].
    { injection Ht as <- <- _ _. split; [reflexivity|].
      destruct (req_primitive_type req); auto. }
    cbn.
    destruct (Shader_patch_primitive_type vs) eqn:Hpt; cbn;
      try (split; [intros _; right; right; left; discriminate|reflexivity]).
    destruct Htopo as [-> | [-> | ->]]; cbn;
      (destruct ps as [p|]; cbn;
       [destruct (is_translated p) eqn:Hpt'; cbn;
        [split; [discriminate|];
         intros [?|[[? _]|[?|(p0 & Hp0 & Hp1)]]]; congruence
        |split; [intros _; right; right; right; eauto|reflexivity]]
       |split; [discriminate|];
        intros [?|[[? _]|[?|(p0 & Hp0 & Hp1)]]]; congruence]).
Qed.

End StagesOfBuiltDescriptions.

Section FreshStreams.
Context `{ext : Externals}.

Lemma byte_swap32_range v : 0 <= byte_swap32 v < 2 ^ 32.
Proof.
  unfold byte_swap32.
  pose proof (le_value_range (rev (le_bytes 4 v))) as H.
  rewrite length_rev, length_le_bytes in H. exact H.
Qed.

Lemma byte_swap32_involutive v :
  0 <= v < 2 ^ 32 -> byte_swap32 (byte_swap32 v) = v.
Proof.
  intros Hv. unfold byte_swap32.
  pose proof (le_bytes_le_value (rev (le_bytes 4 v))) as H.
  rewrite length_rev, length_le_bytes in H. rewrite H, rev_involutive.
  rewrite le_value_le_bytes. apply Z.mod_small. exact Hv.
Qed.

Lemma le_value_le_bytes_u32 v : 0 <= v < 2 ^ 32 -> le_value (le_bytes 4 v) = v.
Proof. intros Hv. rewrite le_value_le_bytes. apply Z.mod_small. exact Hv. Qed.

Lemma fresh_shader_stream_ok :
  0 <= ShaderStoredHeader_kVersion < 2 ^ 32 ->
  shader_storage_header_ok
    (le_bytes 4 shader_storage_magic ++
     le_bytes 4 (byte_swap32 ShaderStoredHeader_kVersion)) = true.
Proof.
  intros Hv. unfold shader_storage_header_ok, fread1.
  rewrite length_app, !length_le_bytes. cbn [decide Nat.add].
  destruct (decide (8 <= 8)%nat) as [_|Hn]; [|lia].
  rewrite drop_0, (firstn_all2 (n := 8))
    by (rewrite length_app, !length_le_bytes; cbn; lia).
  rewrite take_app_length' by (rewrite length_le_bytes; reflexivity).
  rewrite drop_app_length' by (rewrite length_le_bytes; reflexivity).
  rewrite !le_value_le_bytes_u32
    by (try apply byte_swap32_range; vm_compute; split; congruence).
  rewrite byte_swap32_involutive by exact Hv.
  rewrite !Z.eqb_refl. reflexivity.
Qed.

Lemma fresh_pipeline_state_stream_ok rov :
  0 <= PipelineDescription_kVersion < 2 ^ 32 ->
  pipeline_state_storage_header_ok rov
    (le_bytes 4 pipeline_state_storage_magic ++
     le_bytes 4 (pipeline_state_storage_magic_api rov) ++
     le_bytes 4 (byte_swap32 PipelineDescription_kVersion)) = true.
Proof.
  intros Hv. unfold pipeline_state_storage_header_ok, fread1.
  rewrite !length_app, !length_le_bytes. cbn [decide Nat.add].
  destruct (decide (12 <= 12)%nat) as [_|Hn]; [|lia].
  rewrite drop_0, (firstn_all2 (n := 12))
    by (rewrite !length_app, !length_le_bytes; cbn; lia).
  rewrite take_app_length' by (rewrite length_le_bytes; reflexivity).
  rewrite drop_app_length' by (rewrite length_le_bytes; reflexivity).
  rewrite take_app_length' by (rewrite length_le_bytes; reflexivity).
  change 8%nat with (4 + 4)%nat. rewrite <- drop_drop.
  rewrite drop_app_length' by (rewrite length_le_bytes; reflexivity).
  rewrite drop_app_length' by (rewrite length_le_bytes; reflexivity).
  rewrite !le_value_le_bytes_u32
    by (try apply byte_swap32_range; destruct rov; vm_compute;
        split; congruence).
  rewrite byte_swap32_involutive by exact Hv.
  rewrite !Z.eqb_refl. reflexivity.
Qed.

Lemma TruncateStdioFile_0 data : TruncateStdioFile 0 data = [].
Proof. unfold TruncateStdioFile. rewrite take_0. reflexivity. Qed.

Lemma TruncateStdioFile_all data :
  TruncateStdioFile (length data) data = data.
Proof.
  unfold TruncateStdioFile. rewrite firstn_all, Nat.sub_diag.
  apply app_nil_r.
Qed.

(** X17. A stream whose header is not the expected one, an empty file among
    them, is reset: no record is read from it, the cache is left as it is,
    and the file holds a fresh header and nothing else.  The next load
    accepts the fresh stream, reads nothing and leaves the file as it is. *)
Theorem storage_stream_reset_on_bad_header blocking data c :
  0 <= ShaderStoredHeader_kVersion < 2 ^ 32 ->
  0 <= PipelineDescription_kVersion < 2 ^ 32 ->
  (shader_storage_header_ok data = false ->
   exists st st' fresh,
     load_shader_storage data c = Some (st, fresh) /\
     load_cache st = c /\ length fresh = 8%nat /\
     load_shader_storage fresh c = Some (st', fresh) /\
     load_cache st' = c) /\
  (pipeline_state_storage_header_ok (edram_rov_used_ c) data = false ->
   exists fresh,
     load_pipeline_state_storage blocking data c =
       Some (0%nat, c, 0%nat, fresh) /\
     length fresh = 12%nat /\
     load_pipeline_state_storage blocking fresh c =
       Some (12%nat, c, 0%nat, fresh)).
Proof.
  intros Hs Hp. split; intros Hbad.
  - unfold load_shader_storage at 1. rewrite Hbad.
    rewrite TruncateStdioFile_0, app_nil_l.
    do 3 eexists. split; [reflexivity|]. split; [reflexivity|].
    split; [rewrite length_app, !length_le_bytes; reflexivity|].
    unfold load_shader_storage. rewrite (fresh_shader_stream_ok Hs).
    set (fresh := le_bytes 4 shader_storage_magic ++ _).
    assert (length fresh = 8%nat) as Hl
      by (subst fresh; rewrite length_app, !length_le_bytes; reflexivity).
    rewrite Hl. cbn [shader_storage_loop].
    assert (shader_storage_read fresh (shader_load_start c) = ReadBreak)
      as ->.
    { unfold shader_storage_read, fread1. cbn [load_pos shader_load_start].
      rewrite Hl.
      destruct (decide _) as [Hle|_]; [|reflexivity].
      unfold sizeof_ShaderStoredHeader in Hle. lia. }
    pose proof (TruncateStdioFile_all fresh) as Ht. rewrite Hl in Ht.
    clearbody fresh. cbn -[TruncateStdioFile]. rewrite Ht. split; reflexivity.
  - unfold load_pipeline_state_storage at 1. rewrite Hbad.
    rewrite TruncateStdioFile_0, app_nil_l.
    eexists. split; [reflexivity|].
    split; [rewrite !length_app, !length_le_bytes; reflexivity|].
    unfold load_pipeline_state_storage.
    rewrite (fresh_pipeline_state_stream_ok _ Hp).
    set (fresh := le_bytes 4 pipeline_state_storage_magic ++ _).
    assert (length fresh = 12%nat) as Hl
      by (subst fresh; rewrite !length_app, !length_le_bytes; reflexivity).
    pose proof (TruncateStdioFile_all fresh) as Ht. rewrite Hl in Ht.
    rewrite Hl. clearbody fresh. rewrite Nat.sub_diag.
    change (0 / sizeof_PipelineStoredDescription)%nat with 0%nat.
    cbn [fread_items fmap list_fmap]. rewrite Ht. reflexivity.
Qed.

End FreshStreams.

Section ShadersStayLive.
Context `{ext : Externals}.

Lemma shader_objects_kept_refl c : shader_objects_kept c c.
Proof. unfold shader_objects_kept. split_and!; auto. Qed.

Lemma shader_objects_kept_trans c1 c2 c3 :
  shader_objects_kept c1 c2 -> shader_objects_kept c2 c3 ->
  shader_objects_kept c1 c3.
Proof.
  intros (a1 & a2 & a3) (b1 & b2 & b3). unfold shader_objects_kept.
  split_and!; try congruence. intros p. rewrite b3. apply a3.
Qed.

Lemma shaders_live_kept c c' :
  shaders_live c -> shader_objects_kept c c' -> shaders_live c'.
Proof.
  intros [Hahead Hlive] (E1 & E2 & E3). split.
  - intros p Hp. rewrite E2. apply Hahead, E3, Hp.
  - intros e st He. rewrite E1 in He.
    destruct (Hlive e st He) as [(vp & Hv & Hvl) Hpl]. split.
    + exists vp. split; [exact Hv|]. apply E3, Hvl.
    + intros pp Hpp. apply E3, Hpl, Hpp.
Qed.

Lemma TranslateShader_objects_kept shader cntl patch c ok c' :
  TranslateShader shader cntl patch c = Some (ok, c') ->
  shader_objects_kept c c'.
Proof.
  unfold TranslateShader. intros H.
  destruct (shader_heap c !! shader) as [s|] eqn:Hs; [|discriminate].
  cbn in H.
  assert (forall s' n p,
            is_Some (shader_heap (set_shader_object shader s' n c) !! p) <->
            is_Some (shader_heap c !! p)) as Hdom.
  { intros s' n p. cbn. destruct (decide (p = shader)) as [->|Hne].
    - rewrite lookup_insert_eq, Hs. split; eauto.
    - rewrite lookup_insert_ne by congruence. reflexivity. }
  destruct (negb _); injection H as <- <-; unfold shader_objects_kept;
    split_and!; try reflexivity; apply Hdom.
Qed.

Lemma translate_if_needed_objects_kept shader cntl patch c ok c' :
  translate_if_needed shader cntl patch c = Some (ok, c') ->
  shader_objects_kept c c'.
Proof.
  unfold translate_if_needed. intros H.
  destruct (shader_heap c !! shader) as [s|]; [|discriminate]. cbn in H.
  destruct (negb (is_translated s));
    [|injection H as <- <-; apply shader_objects_kept_refl].
  destruct (TranslateShader shader cntl patch c) as [[ok1 c1]|] eqn:Ht;
    [|discriminate]. cbn in H.
  apply TranslateShader_objects_kept in Ht.
  destruct (negb ok1); injection H as <- <-; [exact Ht|].
  eapply shader_objects_kept_trans; [exact Ht|].
  unfold queue_shader_write, shader_objects_kept.
  destruct (shader_storage_file_ (storage c1)); cbn; split_and!; auto.
Qed.

Lemma EnsureShadersTranslated_objects_kept vs ps tess prim regs c ok c' :
  EnsureShadersTranslated vs ps tess prim regs c = Some (ok, c') ->
  shader_objects_kept c c'.
Proof.
  unfold EnsureShadersTranslated. intros H.
  destruct (translate_if_needed vs _ _ c) as [[ok1 c1]|] eqn:E1;
    [|discriminate].
  apply translate_if_needed_objects_kept in E1. cbn in H.
  destruct ok1; cbn in H; [|injection H as <- <-; exact E1].
  destruct ps as [p|]; [|injection H as <- <-; exact E1].
  apply translate_if_needed_objects_kept in H.
  eapply shader_objects_kept_trans; eauto.
Qed.

(** A pipeline state that names live shaders is inserted. *)
Lemma insert_pipeline_state_shaders_live hash rd c vp :
  shaders_live c ->
  vertex_shader rd = Some vp -> is_Some (shader_heap c !! vp) ->
  (forall pp, pixel_shader rd = Some pp -> is_Some (shader_heap c !! pp)) ->
  shaders_live (insert_pipeline_state hash rd c).2.
Proof.
  intros [Hahead Hlive] Hv Hvl Hpl.
  destruct (insert_pipeline_state_state hash rd c) as [Es Ep].
  assert (next_object (insert_pipeline_state hash rd c).2 =
          S (next_object c)) as En.
  { unfold insert_pipeline_state.
    destruct (creation_threads_ (pool c)); reflexivity. }
  split.
  - intros p Hp. rewrite Es in Hp. rewrite En. specialize (Hahead p Hp). lia.
  - intros e st He. rewrite Ep in He. rewrite Es.
    destruct (decide (e = next_object c)) as [->|Hne].
    + rewrite lookup_insert_eq in He. injection He as <-. cbn. eauto.
    + rewrite lookup_insert_ne in He by congruence. apply (Hlive e st He).
Qed.

Lemma shaders_live_frame c c' :
  shader_heap c' = shader_heap c ->
  pipeline_heap c' = pipeline_heap c ->
  next_object c' = next_object c ->
  shaders_live c -> shaders_live c'.
Proof.
  intros E1 E2 E3 H. apply (shaders_live_kept c c' H).
  unfold shader_objects_kept. rewrite E1, E2, E3. split_and!; auto.
Qed.

Lemma request_shaders_live c req r :
  request_shaders c req = Some r ->
  is_Some (shader_heap c !! req_vertex_shader req) /\
  (forall pp, req_pixel_shader req = Some pp ->
              is_Some (shader_heap c !! pp)).
Proof.
  unfold request_shaders. intros H.
  destruct (shader_heap c !! req_vertex_shader req) as [vs|]; [|discriminate].
  cbn in H. split; [eauto|]. intros pp Hpp. rewrite Hpp in H.
  destruct (shader_heap c !! pp); [eauto|discriminate].
Qed.

Lemma ConfigurePipeline_shaders_live req stack c r c' :
  ConfigurePipeline req stack c = Some (r, c') ->
  shaders_live c -> shaders_live c'.
Proof.
  unfold ConfigurePipeline. intros H Hinv.
  destruct (GetCurrentStateDescription c req stack) as [[built rd]|] eqn:Hb;
    [|discriminate]. cbn [mbind option_bind] in H.
  destruct built; cbn [negb] in H; [|injection H as <- <-; exact Hinv].
  destruct (match current_pipeline_state_ c with
            | Some cur => _
            | None => _
            end) as [fast|] eqn:Hfast; [|discriminate].
  cbn [mbind option_bind] in H.
  destruct fast as [cur|]; [injection H as <- <-; exact Hinv|].
  destruct (find_pipeline_state _ _ _ _) as [found|] eqn:Hfind;
    [|discriminate]. cbn [mbind option_bind] in H.
  destruct found as [p|].
  - destruct (pipeline_heap c !! p) as [st|] eqn:Hst; [|discriminate].
    injection H as <- <-. revert Hinv. apply shaders_live_frame; reflexivity.
  - destruct (EnsureShadersTranslated _ _ _ _ _ c) as [[ok c1]|] eqn:He;
      [|discriminate]. cbn [mbind option_bind] in H.
    apply EnsureShadersTranslated_objects_kept in He.
    pose proof (shaders_live_kept _ _ Hinv He) as Hinv1.
    destruct ok; cbn [negb] in H; [|injection H as <- <-; exact Hinv1].
    destruct (insert_pipeline_state _ rd c1) as [new c2] eqn:Hi.
    injection H as <- <-.
    destruct (GetCurrentStateDescription_built _ _ _ _ Hb) as (Hv & Hp & _).
    assert (is_Some (request_shaders c req)) as [rs Hrs].
    { unfold GetCurrentStateDescription in Hb.
      destruct (request_shaders c req); [eauto|discriminate]. }
    destruct (request_shaders_live _ _ _ Hrs) as [Hvl Hpl].
    destruct He as (_ & _ & Hdom).
    pose proof (insert_pipeline_state_shaders_live
                  (XXH64 (PipelineDescription_bytes (description rd)) 0)
                  rd c1 _ Hinv1 Hv (proj2 (Hdom _) Hvl)) as Hins.
    rewrite Hi in Hins. cbn in Hins.
    assert (shaders_live c2) as Hinv2.
    { apply Hins. intros pp Hpp. apply Hdom, Hpl. congruence. }
    revert Hinv2. apply shaders_live_frame;
      unfold queue_pipeline_state_write;
      destruct (pipeline_state_storage_file_ (storage c2)); reflexivity.
Qed.

Lemma LoadShader_shaders_live type guest_address host_address c :
  shaders_live c ->
  shaders_live (LoadShader type guest_address host_address c).2.
Proof.
  intros [Hahead Hlive]. unfold LoadShader.
  destruct (shader_map_ c !! _); [split; assumption|]. split; cbn.
  - intros p Hp. destruct (decide (p = next_object c)) as [->|Hne]; [lia|].
    rewrite lookup_insert_ne in Hp by congruence.
    specialize (Hahead p Hp). lia.
  - intros e st He. destruct (Hlive e st He) as [(vp & Hv & Hvl) Hpl].
    assert (forall p, is_Some (shader_heap c !! p) ->
              is_Some (<[next_object c :=
                           new_D3D12Shader type
                             (XXH64 (dwords_bytes host_address) 0)
                             host_address]> (shader_heap c) !! p)) as Hgrow.
    { intros p Hp. rewrite lookup_insert_ne; [exact Hp|].
      specialize (Hahead p Hp). lia. }
    split; [exists vp; split; [exact Hv|apply Hgrow, Hvl]|].
    intros pp Hpp. apply Hgrow, Hpl, Hpp.
Qed.

(** The shader stream. *)
Lemma shader_storage_read_kept_below n0 c0 data st st' :
  shader_storage_read data st = ReadNext st' ->
  shader_objects_kept_below n0 c0 (load_cache st) ->
  Forall (fun hp => n0 <= hp.2)%nat (shaders_to_translate st) ->
  shader_objects_kept_below n0 c0 (load_cache st') /\
  Forall (fun hp => n0 <= hp.2)%nat (shaders_to_translate st').
Proof.
  unfold shader_storage_read. intros H (K1 & K2 & K3 & K4) Hq.
  destruct (fread1 sizeof_ShaderStoredHeader data (load_pos st))
    as [[header_bytes|] pos1]; [|discriminate].
  destruct (shader_map_ (load_cache st) !! _).
  - cbn in H. injection H as <-. cbn. split; [split_and!; assumption|exact Hq].
  - destruct (resize_ucode_dwords _ _ _ _) as [capacity|]; [|discriminate].
    destruct (if _ =? 0 then _ else _) as [[ucode_bytes|] pos2];
      [|discriminate].
    destruct (negb _); [discriminate|]. injection H as <-. cbn. split.
    + unfold shader_objects_kept_below. cbn. split_and!.
      * exact K1.
      * intros p Hp Hl. rewrite lookup_insert_ne by lia. apply (K2 p Hp Hl).
      * intros p Hp.
        destruct (decide (p = next_object (load_cache st))) as [->|Hne];
          [lia|].
        rewrite lookup_insert_ne in Hp by congruence.
        specialize (K3 p Hp). lia.
      * lia.
    + apply Forall_app. split; [exact Hq|]. constructor; [exact K4|constructor].
Qed.

Lemma shader_storage_loop_kept_below n0 c0 fuel : forall data st st',
  shader_objects_kept_below n0 c0 (load_cache st) ->
  Forall (fun hp => n0 <= hp.2)%nat (shaders_to_translate st) ->
  shader_storage_loop fuel data st = Some st' ->
  shader_objects_kept_below n0 c0 (load_cache st') /\
  Forall (fun hp => n0 <= hp.2)%nat (shaders_to_translate st').
Proof.
  induction fuel as [|fuel IH]; intros data st st' HK Hq Hloop;
    cbn in Hloop; [injection Hloop as <-; auto|].
  destruct (shader_storage_read data st) as [| |st1] eqn:Hread;
    [injection Hloop as <-; auto|discriminate|].
  destruct (shader_storage_read_kept_below _ _ _ _ _ Hread HK Hq) as [HK1 Hq1].
  apply (IH data st1 st' HK1 Hq1 Hloop).
Qed.

Lemma shader_objects_kept_below_kept n0 c0 c c' :
  shader_objects_kept_below n0 c0 c -> shader_objects_kept c c' ->
  shader_objects_kept_below n0 c0 c'.
Proof.
  intros (K1 & K2 & K3 & K4) (E1 & E2 & E3).
  unfold shader_objects_kept_below. rewrite E1, E2. split_and!; auto.
  - intros p Hp Hl. apply E3, (K2 p Hp Hl).
  - intros p Hp. apply K3, E3, Hp.
Qed.

Lemma translate_queued_kept_below n0 c0 queue : forall failed c failed' c',
  translate_queued queue failed c = Some (failed', c') ->
  shader_objects_kept_below n0 c0 c ->
  Forall (fun hp => n0 <= hp.2)%nat queue ->
  Forall (fun p => n0 <= p)%nat failed ->
  shader_objects_kept_below n0 c0 c' /\
  Forall (fun p => n0 <= p)%nat failed'.
Proof.
  induction queue as [|[h shader] queue IH];
    intros failed c failed' c' H HK Hq Hf; cbn in H.
  - injection H as <- <-. auto.
  - destruct (TranslateShader _ _ _ c) as [[ok c1]|] eqn:Ht; [|discriminate].
    cbn in H. apply TranslateShader_objects_kept in Ht.
    inversion Hq as [|? ? Hh Hq']; subst.
    apply (IH _ _ _ _ H).
    + apply (shader_objects_kept_below_kept _ _ _ _ HK Ht).
    + exact Hq'.
    + destruct ok; [exact Hf|].
      apply Forall_app. split; [exact Hf|]. constructor; [exact Hh|constructor].
Qed.

Lemma erase_failed_kept_below n0 c0 failed : forall c c',
  erase_failed failed c = Some c' ->
  shader_objects_kept_below n0 c0 c ->
  Forall (fun p => n0 <= p)%nat failed ->
  shader_objects_kept_below n0 c0 c'.
Proof.
  induction failed as [|shader failed IH]; intros c c' H HK Hf; cbn in H.
  - injection H as <-. exact HK.
  - destruct (shader_heap c !! shader) as [s|]; [|discriminate]. cbn in H.
    inversion Hf as [|? ? Hs Hf']; subst.
    apply (IH _ _ H); [|exact Hf'].
    destruct HK as (K1 & K2 & K3 & K4).
    unfold shader_objects_kept_below. cbn. split_and!; auto.
    + intros p Hp Hl. rewrite lookup_delete_ne by lia. apply (K2 p Hp Hl).
    + intros p Hp. apply K3.
      destruct (decide (p = shader)) as [->|Hne].
      * rewrite lookup_delete_eq in Hp. destruct Hp; discriminate.
      * rewrite lookup_delete_ne in Hp by congruence. exact Hp.
Qed.

Lemma shaders_live_kept_below c c' :
  shaders_live c -> shader_objects_kept_below (next_object c) c c' ->
  shaders_live c'.
Proof.
  intros [Hahead Hlive] (K1 & K2 & K3 & K4). split; [exact K3|].
  intros e st He. rewrite K1 in He.
  destruct (Hlive e st He) as [(vp & Hv & Hvl) Hpl]. split.
  - exists vp. split; [exact Hv|]. apply K2; [apply Hahead|]; exact Hvl.
  - intros pp Hpp. specialize (Hpl pp Hpp). apply K2; [apply Hahead|]; exact Hpl.
Qed.

Lemma load_shader_storage_shaders_live data c loaded data' :
  load_shader_storage data c = Some (loaded, data') ->
  shaders_live c -> shaders_live (load_cache loaded).
Proof.
  unfold load_shader_storage, join_shader_translation_threads.
  intros H Hinv.
  destruct (shader_storage_header_ok data);
    [|injection H as <- <-; exact Hinv].
  assert (shader_objects_kept_below (next_object c) c c) as HK0.
  { unfold shader_objects_kept_below. split_and!; auto. apply Hinv. }
  destruct (shader_storage_loop (length data) data (shader_load_start c))
    as [st|] eqn:Hloop; [|discriminate]. cbn [mbind option_bind] in H.
  destruct (shader_storage_loop_kept_below (next_object c) c (length data)
              data (shader_load_start c) st HK0 (Forall_nil_2 _) Hloop)
    as [HK Hq].
  apply (shaders_live_kept_below c); [exact Hinv|].
  destruct (shader_translation_threads st).
  - destruct (translate_queued _ _ _) as [[failed c1]|] eqn:Ht;
      [|discriminate]. cbn in H.
    destruct (erase_failed failed c1) as [c2|] eqn:He; [|discriminate].
    cbn in H. injection H as <- <-. cbn.
    destruct (translate_queued_kept_below _ _ _ _ _ _ _ Ht HK Hq
                (Forall_nil_2 _)) as [HK1 Hf].
    apply (erase_failed_kept_below _ _ _ _ _ He HK1 Hf).
  - cbn in H. injection H as <- <-. exact HK.
Qed.

(** The pipeline state stream. *)
Lemma resolve_vertex_shader_live c d vp v :
  resolve_vertex_shader c d = Some (ShaderFound vp v) ->
  is_Some (shader_heap c !! vp).
Proof.
  unfold resolve_vertex_shader. intros H.
  destruct (shader_map_ c !! vertex_shader_hash d) as [p|]; [|discriminate].
  destruct (shader_heap c !! p) as [s|] eqn:Hs; [|discriminate]. cbn in H.
  destruct (negb (is_valid s)); [discriminate|].
  injection H as <- <-. eauto.
Qed.

Lemma resolve_pixel_shader_live c d pp p :
  resolve_pixel_shader c d = Some (ShaderFound pp p) ->
  is_Some (shader_heap c !! pp).
Proof.
  unfold resolve_pixel_shader. intros H.
  destruct (negb (pixel_shader_hash d =? 0)); [|discriminate].
  destruct (shader_map_ c !! pixel_shader_hash d) as [q|]; [|discriminate].
  destruct (shader_heap c !! q) as [s|] eqn:Hs; [|discriminate]. cbn in H.
  destruct (negb (is_valid s)); [discriminate|].
  injection H as <- <-. eauto.
Qed.

Lemma replay_pipeline_state_shaders_live stored c c' made :
  replay_pipeline_state stored c = Some (c', made) ->
  shaders_live c -> shaders_live c'.
Proof.
  unfold replay_pipeline_state. intros H Hinv.
  destruct (find_pipeline_state _ _ _ _) as [[found|]|];
    cbn in H; [injection H as <- <-; exact Hinv| |discriminate].
  destruct (resolve_vertex_shader c _) as [[| |vp v]|] eqn:Hv; cbn in H;
    try discriminate; try (injection H as <- <-; exact Hinv).
  apply resolve_vertex_shader_live in Hv.
  destruct (resolve_pixel_shader c _) as [ps|] eqn:Hp; cbn in H;
    [|discriminate].
  destruct ps as [| |pp ps]; try (injection H as <- <-; exact Hinv);
    (destruct (GetRootSignature v _ _) as [rs|];
     [|injection H as <- <-; exact Hinv]);
    injection H as <- <-;
    (eapply insert_pipeline_state_shaders_live;
     [exact Hinv|reflexivity|exact Hv|]); cbn; intros q Hq;
    [discriminate|].
  injection Hq as <-. apply (resolve_pixel_shader_live _ _ _ _ Hp).
Qed.

Lemma pipeline_storage_loop_shaders_live records :
  forall valid_bytes c created r,
  pipeline_storage_loop records valid_bytes c created = Some r ->
  shaders_live c -> shaders_live r.1.2.
Proof.
  induction records as [|stored records IH]; intros vb c created r H Hinv;
    cbn in H.
  - injection H as <-. exact Hinv.
  - destruct (negb _); [injection H as <-; exact Hinv|].
    destruct (replay_pipeline_state stored c) as [[c' made]|] eqn:Hr;
      [|discriminate]. cbn in H.
    apply (IH _ _ _ _ H).
    apply (replay_pipeline_state_shaders_live _ _ _ _ Hr Hinv).
Qed.

Lemma create_queued_shaders_live queue : forall c c',
  create_queued queue c = Some c' -> shaders_live c -> shaders_live c'.
Proof.
  induction queue as [|p queue IH]; intros c c' H Hinv; cbn in H.
  - injection H as <-. exact Hinv.
  - destruct (pipeline_heap c !! p) as [st|] eqn:Hp; [|discriminate].
    cbn in H. apply (IH _ _ H).
    destruct Hinv as [Hahead Hlive]. split; [exact Hahead|].
    intros e st' He. cbn in He |- *.
    destruct (decide (e = p)) as [->|Hne].
    + rewrite lookup_insert_eq in He. injection He as <-. cbn.
      apply (Hlive p st Hp).
    + rewrite lookup_insert_ne in He by congruence. apply (Hlive e st' He).
Qed.

Lemma load_pipeline_state_storage_shaders_live blocking data c r :
  load_pipeline_state_storage blocking data c = Some r ->
  shaders_live c -> shaders_live r.1.1.2.
Proof.
  unfold load_pipeline_state_storage. intros H Hinv.
  destruct (pipeline_state_storage_header_ok _ _);
    [|injection H as <-; exact Hinv].
  destruct (PipelineStoredDescription_of_bytes <$> _) as [|d ds];
    [injection H as <-; exact Hinv|].
  set (c1 := set_pool _ c) in H.
  destruct (pipeline_storage_loop (d :: ds) 12 c1 0) as [[[vb c2] created]|]
    eqn:Hloop; [|discriminate]. cbn [mbind option_bind] in H.
  apply pipeline_storage_loop_shaders_live in Hloop;
    [|revert Hinv; apply shaders_live_frame; reflexivity]. cbn in Hloop.
  unfold CreateQueuedPipelineStatesOnProcessorThread in H.
  destruct (create_queued _ c2) as [c3|] eqn:Hq; [|discriminate].
  cbn in H. injection H as <-. cbn.
  apply (create_queued_shaders_live _ _ _ Hq) in Hloop.
  revert Hloop. apply shaders_live_frame; reflexivity.
Qed.

Lemma InitializeShaderStorage_shaders_live
    storage_root title_id blocking disk c c' disk' :
  InitializeShaderStorage storage_root title_id blocking disk c =
    Some (c', disk') ->
  shaders_live c -> shaders_live c'.
Proof.
  unfold InitializeShaderStorage. intros H Hinv.
  assert (shaders_live (ShutdownShaderStorage c)) as Hinv0.
  { revert Hinv. apply shaders_live_frame; reflexivity. }
  destruct (negb (CreateFolder storage_root));
    [injection H as <- <-; exact Hinv0|].
  destruct (disk (ShaderStoragePath storage_root title_id)) as [shader_data|];
    [|injection H as <- <-; exact Hinv0].
  set (c1 := set_storage _ (ShutdownShaderStorage c)) in H.
  destruct (load_shader_storage shader_data c1) as [[loaded data']|] eqn:Hl;
    [|discriminate]. cbn [mbind option_bind] in H.
  apply load_shader_storage_shaders_live in Hl;
    [|revert Hinv0; apply shaders_live_frame; reflexivity].
  destruct (disk_write _ data' disk _) as [pipeline_data|].
  - set (c3 := set_storage _ (load_cache loaded)) in H.
    destruct (load_pipeline_state_storage blocking pipeline_data c3)
      as [[[[vb c4] created] pd']|] eqn:Hp; [|discriminate].
    cbn [mbind option_bind] in H. injection H as <- <-.
    apply load_pipeline_state_storage_shaders_live in Hp;
      [|revert Hl; apply shaders_live_frame; reflexivity].
    revert Hp. apply shaders_live_frame; reflexivity.
  - injection H as <- <-. revert Hl. apply shaders_live_frame; reflexivity.
Qed.

Lemma cache_call_shaders_live c c' :
  cache_call c c' -> shaders_live c -> shaders_live c'.
Proof.
  intros [c1 [type guest_address host_address|req stack r c2 H]
         |storage_root title_id blocking disk c1 disk' H] Hinv.
  - apply LoadShader_shaders_live, Hinv.
  - apply (ConfigurePipeline_shaders_live _ _ _ _ _ H Hinv).
  - apply (InitializeShaderStorage_shaders_live _ _ _ _ _ _ _ H Hinv).
Qed.

End ShadersStayLive.

Section LiveShadersOfPipelineStates.
Context `{ext : Externals} `{acc : ShaderAccessors}.

(** X18. Calls of [LoadShader], [ConfigurePipeline] and
    [InitializeShaderStorage], in any number and order, leave no pipeline
    state with a dangling shader
    pointer: when every pipeline state names live shader objects before the
    calls, so does every pipeline state after them, those inserted by the
    calls included, although the load erases the shader objects that failed
    to translate; the stage selection of [CreateD3D12PipelineState] then
    dereferences live objects only. *)
Theorem pipeline_states_name_live_shaders c c' :
  shaders_live c -> rtc cache_call c c' ->
  shaders_live c' /\
  (forall e st, pipeline_heap c' !! e = Some st ->
     is_Some (CreateD3D12PipelineState_stages c' (runtime_description st))).
Proof.
  intros Hinv Hcalls.
  assert (shaders_live c') as Hinv'.
  { induction Hcalls as [|c1 c2 c3 Hcall _ IH]; [exact Hinv|].
    apply IH, (cache_call_shaders_live _ _ Hcall Hinv). }
  split; [exact Hinv'|].
  intros e st He. destruct Hinv' as [_ Hlive].
  destruct (Hlive e st He) as [(vp & Hv & [vs Hvs]) Hpl].
  unfold CreateD3D12PipelineState_stages. rewrite Hv. cbn. rewrite Hvs. cbn.
  destruct (pixel_shader (runtime_description st)) as [pp|]; cbn; [|eauto].
  destruct (Hpl pp eq_refl) as [ps Hps]. rewrite Hps. cbn. eauto.
Qed.

End LiveShadersOfPipelineStates.

Section LoadDereferencesLiveObjects.
Context `{ext : Externals}.

Lemma cache_live_kept c c' :
  cache_live c -> table_kept c c' -> shader_map_live c' -> cache_live c'.
Proof.
  intros (Ht & _ & Hq) (E1 & E2 & _ & _ & E3 & _) [_ Hm].
  unfold cache_live. rewrite E1, E2, E3. split_and!; auto.
  intros h p Hp. destruct (Hm h p Hp) as (s & -> & _). eauto.
Qed.

Lemma shader_map_live_frame c c' :
  shader_map_ c' = shader_map_ c ->
  shader_heap c' = shader_heap c ->
  (next_object c <= next_object c')%nat ->
  shader_map_live c -> shader_map_live c'.
Proof.
  intros E1 E2 E3 [Hahead Hmap]. unfold shader_map_live.
  rewrite E1, E2. split; [|exact Hmap].
  intros p Hp. specialize (Hahead p Hp). lia.
Qed.

Lemma shader_storage_read_map_live data st st' :
  shader_storage_read data st = ReadNext st' ->
  shader_map_live (load_cache st) -> queued_shaders_live st ->
  shader_map_live (load_cache st') /\ queued_shaders_live st'.
Proof.
  unfold shader_storage_read. intros H [Hahead Hmap] [Hnd Hq].
  destruct (fread1 sizeof_ShaderStoredHeader data (load_pos st))
    as [[header_bytes|] pos1]; [|discriminate].
  destruct (shader_map_ (load_cache st) !! _).
  - cbn in H. injection H as <-. cbn. repeat split; auto; apply Hq; auto.
  - destruct (resize_ucode_dwords _ _ _ _) as [capacity|]; [|discriminate].
    destruct (if _ =? 0 then _ else _) as [[ucode_bytes|] pos2];
      [|discriminate].
    destruct (negb _); [discriminate|]. injection H as <-. cbn.
    split; [split|split]; cbn.
    + intros p Hp.
      destruct (decide (p = next_object (load_cache st))) as [->|Hne]; [lia|].
      rewrite lookup_insert_ne in Hp by congruence.
      specialize (Hahead p Hp). lia.
    + intros h p Hl.
      destruct (decide (h = XXH64 ucode_bytes 0)) as [->|Hne].
      * rewrite lookup_insert_eq in Hl. injection Hl as <-.
        rewrite lookup_insert_eq. eexists. split; reflexivity.
      * rewrite lookup_insert_ne in Hl by congruence.
        destruct (Hmap h p Hl) as (s & Hs & Hh). exists s.
        split; [|exact Hh]. rewrite lookup_insert_ne; [exact Hs|].
        assert (p < next_object (load_cache st))%nat by (apply Hahead; eauto).
        lia.
    + rewrite fmap_app. cbn. apply NoDup_app. split_and!; auto.
      * intros p Hp Hp'. apply list_elem_of_singleton in Hp' as ->.
        apply Hq in Hp as [Hp _]. lia.
      * apply NoDup_singleton.
    + intros p. rewrite fmap_app, elem_of_app. cbn.
      rewrite lookup_insert_is_Some. intros [Hp|Hp].
      * apply Hq in Hp as [Hp Hs]. split; [lia|]. right. split; [lia|exact Hs].
      * apply list_elem_of_singleton in Hp as ->. split; [lia|]. left.
        reflexivity.
Qed.

Lemma shader_storage_loop_map_live fuel : forall data st st',
  shader_map_live (load_cache st) -> queued_shaders_live st ->
  shader_storage_loop fuel data st = Some st' ->
  shader_map_live (load_cache st') /\ queued_shaders_live st'.
Proof.
  induction fuel as [|fuel IH]; intros data st st' Hm Hq Hloop;
    cbn in Hloop; [injection Hloop as <-; auto|].
  destruct (shader_storage_read data st) as [| |st1] eqn:Hread;
    [injection Hloop as <-; auto|discriminate|].
  destruct (shader_storage_read_map_live _ _ _ Hread Hm Hq) as [Hm1 Hq1].
  apply (IH data st1 st' Hm1 Hq1 Hloop).
Qed.

Lemma TranslateShader_map_live shader cntl patch c ok c' :
  TranslateShader shader cntl patch c = Some (ok, c') ->
  shader_map_live c -> shader_map_live c'.
Proof.
  unfold TranslateShader. intros H [Hahead Hmap].
  destruct (shader_heap c !! shader) as [s|] eqn:Hs; [|discriminate].
  cbn in H.
  assert (forall n,
            shader_map_live
              (set_shader_object shader
                 (set_translation (Translate s patch cntl) s) n c)) as Hkeep.
  { intros n. split; cbn.
    - intros p Hp. apply Hahead.
      destruct (decide (p = shader)) as [->|Hne]; [eauto|].
      rewrite lookup_insert_ne in Hp by congruence. exact Hp.
    - intros h p Hl. destruct (Hmap h p Hl) as (s0 & Hs0 & Hh).
      destruct (decide (p = shader)) as [->|Hne].
      + rewrite lookup_insert_eq. eexists. split; [reflexivity|].
        cbn. congruence.
      + rewrite lookup_insert_ne by congruence. eauto. }
  destruct (negb _); injection H as <- <-; apply Hkeep.
Qed.

Lemma translate_queued_map_live queue : forall failed c failed' c',
  translate_queued queue failed c = Some (failed', c') ->
  shader_map_live c -> shader_map_live c'.
Proof.
  induction queue as [|[h shader] queue IH]; intros failed c failed' c' H Hm;
    cbn in H.
  - injection H as <- <-. exact Hm.
  - destruct (TranslateShader _ _ _ c) as [[ok c1]|] eqn:Ht; [|discriminate].
    cbn in H. apply (IH _ _ _ _ H).
    apply (TranslateShader_map_live _ _ _ _ _ _ Ht Hm).
Qed.

(** An erased shader is taken out of the map together with its object: the
    map entry under its hash is the entry that points to it. *)
Lemma erase_failed_map_live failed : forall c c',
  erase_failed failed c = Some c' ->
  shader_map_live c -> shader_map_live c'.
Proof.
  induction failed as [|shader failed IH]; intros c c' H Hm; cbn in H.
  - injection H as <-. exact Hm.
  - destruct (shader_heap c !! shader) as [s|] eqn:Hs; [|discriminate].
    cbn in H. apply (IH _ _ H). destruct Hm as [Hahead Hmap]. split; cbn.
    + intros p Hp. apply Hahead.
      destruct (decide (p = shader)) as [->|Hne]; [eauto|].
      rewrite lookup_delete_ne in Hp by congruence. exact Hp.
    + intros h p Hl.
      destruct (decide (h = ucode_data_hash s)) as [->|Hne].
      * rewrite lookup_delete_eq in Hl. discriminate.
      * rewrite lookup_delete_ne in Hl by congruence.
        destruct (Hmap h p Hl) as (s0 & Hs0 & Hh). exists s0.
        split; [|exact Hh]. rewrite lookup_delete_ne; [exact Hs0|].
        intros <-. congruence.
Qed.

Lemma shader_storage_read_capacity data st st' :
  shader_storage_read data st = ReadNext st' ->
  ucode_dwords_capacity st <= ucode_dwords_capacity st'.
Proof.
  unfold shader_storage_read. intros H.
  destruct (fread1 sizeof_ShaderStoredHeader data (load_pos st))
    as [[header_bytes|] pos1]; [|discriminate].
  destruct (shader_map_ (load_cache st) !! _).
  - cbn in H. injection H as <-. cbn. lia.
  - unfold resize_ucode_dwords in H.
    destruct (_ || _ || _); [|discriminate].
    destruct (if _ =? 0 then _ else _) as [[ucode_bytes|] pos2];
      [|discriminate].
    destruct (negb _); [discriminate|]. injection H as <-. cbn. lia.
Qed.

(** Where the loop throws. *)
Lemma shader_storage_read_bad_alloc data st :
  0xFFFF <= ucode_dwords_capacity st ->
  shader_storage_read data st = ReadBadAlloc ->
  names_unallocated_count data.
Proof.
  unfold shader_storage_read, fread1 at 1. intros Hcap H.
  destruct (decide (load_pos st + sizeof_ShaderStoredHeader <=
                    length data)%nat) as [Hle|]; [|discriminate].
  destruct (shader_map_ (load_cache st) !! _).
  { cbn in H. discriminate. }
  unfold resize_ucode_dwords in H.
  destruct (_ <=? ucode_dwords_capacity st) eqn:H1;
    destruct (_ <=? Z.of_nat (length data)) eqn:H2;
    destruct (host_allocates _) eqn:H3; cbn in H;
    try (destruct (if _ =? 0 then _ else _) as [[?|] ?];
         [destruct (negb _)|]; discriminate).
  apply Z.leb_gt in H1, H2.
  exists (load_pos st). cbv zeta. split_and!; [exact Hle|lia|lia|exact H3].
Qed.

Lemma shader_storage_loop_bad_alloc fuel : forall data st,
  0xFFFF <= ucode_dwords_capacity st ->
  shader_storage_loop fuel data st = None ->
  names_unallocated_count data.
Proof.
  induction fuel as [|fuel IH]; intros data st Hcap Hloop; cbn in Hloop;
    [discriminate|].
  destruct (shader_storage_read data st) as [| |st1] eqn:Hread;
    [discriminate| |].
  - apply (shader_storage_read_bad_alloc data st Hcap Hread).
  - apply (IH data st1); [|exact Hloop].
    apply shader_storage_read_capacity in Hread. lia.
Qed.

Lemma load_shader_storage_total data c :
  cache_live c -> shader_map_live c ->
  (exists loaded data',
     load_shader_storage data c = Some (loaded, data') /\
     cache_live (load_cache loaded) /\ shader_map_live (load_cache loaded)) \/
  (load_shader_storage data c = None /\ names_unallocated_count data).
Proof.
  intros Hlive Hm.
  assert (queued_shaders_live (shader_load_start c)) as Hq0.
  { split; cbn; [apply NoDup_nil_2|]. intros p Hp. inversion Hp. }
  destruct (shader_storage_header_ok data) eqn:Hok.
  2:{ left. unfold load_shader_storage. rewrite Hok.
      do 2 eexists. split; [reflexivity|]. split; assumption. }
  destruct (shader_storage_loop (length data) data (shader_load_start c))
    as [st|] eqn:Hloop.
  2:{ right. unfold load_shader_storage. rewrite Hok, Hloop.
      split; [reflexivity|].
      apply (shader_storage_loop_bad_alloc _ _ (shader_load_start c)
               (Z.le_refl _) Hloop). }
  left.
  destruct (shader_storage_loop_map_live (length data) data
              (shader_load_start c) st Hm Hq0 Hloop) as [Hm1 [Hnd Hq]].
  assert (exists loaded data',
            load_shader_storage data c = Some (loaded, data') /\
            shader_map_live (load_cache loaded)) as (loaded & data' & Hl & Hm').
  { unfold load_shader_storage, join_shader_translation_threads.
    rewrite Hok, Hloop. cbn [mbind option_bind].
    destruct (shader_translation_threads st);
      [|do 2 eexists; split; [reflexivity|exact Hm1]].
    destruct (translate_queued_total (shaders_to_translate st) []
                (load_cache st))
      as (failed & c1 & Ht & Hndf & Hin & Hdom).
    { exact Hnd. }
    { intros p Hp. apply Hq, Hp. }
    rewrite Ht. cbn [mbind option_bind].
    pose proof (translate_queued_map_live _ _ _ _ _ Ht Hm1) as Hm2.
    destruct (erase_failed_total failed c1 Hndf) as [c2 He].
    { intros p Hp. apply Hdom. destruct (Hin p Hp) as [Hp'|Hp'];
        [inversion Hp'|apply Hq, Hp']. }
    rewrite He. cbn [mbind option_bind].
    do 2 eexists. split; [reflexivity|]. cbn.
    apply (erase_failed_map_live _ _ _ He Hm2). }
  exists loaded, data'. split_and!; auto.
  apply (cache_live_kept c); auto.
  apply (load_shader_storage_table_kept _ _ _ _ Hl).
Qed.

Lemma replay_pipeline_state_map_live stored c c' made :
  replay_pipeline_state stored c = Some (c', made) ->
  shader_map_live c -> shader_map_live c'.
Proof.
  unfold replay_pipeline_state. intros H Hm.
  destruct (find_pipeline_state _ _ _ _) as [[found|]|];
    cbn in H; [injection H as <- <-; exact Hm| |discriminate].
  destruct (resolve_vertex_shader c _) as [[| |vp v]|]; cbn in H;
    try discriminate; try (injection H as <- <-; exact Hm).
  destruct (resolve_pixel_shader c _) as [ps|]; cbn in H; [|discriminate].
  destruct ps as [| |pp ps]; try (injection H as <- <-; exact Hm);
    (destruct (GetRootSignature v _ _) as [rs|];
     [|injection H as <- <-; exact Hm]);
    injection H as <- <-; revert Hm; unfold insert_pipeline_state;
    destruct (creation_threads_ (pool c));
    apply shader_map_live_frame; cbn; auto.
Qed.

Lemma pipeline_storage_loop_total records : forall valid_bytes c created,
  cache_live c -> shader_map_live c ->
  exists r,
    pipeline_storage_loop records valid_bytes c created = Some r /\
    cache_live r.1.2 /\ shader_map_live r.1.2.
Proof.
  induction records as [|stored records IH]; intros vb c created Hlive Hm;
    cbn [pipeline_storage_loop].
  - eexists. split; [reflexivity|]. auto.
  - destruct (negb _); [eexists; split; [reflexivity|]; auto|].
    destruct (replay_pipeline_state_total stored c Hlive)
      as (c1 & made & Hr & Hlive1).
    rewrite Hr. cbn [mbind option_bind].
    apply IH; [exact Hlive1|].
    apply (replay_pipeline_state_map_live _ _ _ _ Hr Hm).
Qed.

Lemma cache_live_set_pool p c :
  creation_queue_ p = creation_queue_ (pool c) ->
  cache_live c -> cache_live (set_pool p c).
Proof.
  intros E (Ht & Hs & Hq). unfold cache_live. cbn. rewrite E. auto.
Qed.

Lemma load_pipeline_state_storage_total blocking data c :
  cache_live c -> shader_map_live c ->
  exists r,
    load_pipeline_state_storage blocking data c = Some r /\
    cache_live r.1.1.2 /\ shader_map_live r.1.1.2.
Proof.
  intros Hlive Hm. unfold load_pipeline_state_storage.
  destruct (pipeline_state_storage_header_ok _ _);
    [|eexists; split; [reflexivity|]; auto].
  destruct (PipelineStoredDescription_of_bytes <$> _) as [|d ds];
    [eexists; split; [reflexivity|]; auto|].
  set (c1 := set_pool _ c).
  destruct (pipeline_storage_loop_total (d :: ds) 12 c1 0)
    as ([[vb c2] created] & Hloop & Hlive2 & Hm2).
  { apply cache_live_set_pool; [reflexivity|exact Hlive]. }
  { revert Hm. apply shader_map_live_frame; reflexivity. }
  rewrite Hloop. cbn [mbind option_bind]. cbn in Hlive2, Hm2.
  unfold CreateQueuedPipelineStatesOnProcessorThread.
  destruct (create_queued_total (creation_queue_ (pool c2)) c2 Hlive2)
    as (c3 & Hq & Hlive3 & Hpool); [apply Hlive2|].
  rewrite Hq. cbn [mbind option_bind].
  eexists. split; [reflexivity|]. cbn [fst snd].
  destruct (create_queued_keeps _ _ _ Hq) as (_ & K2 & K3 & K4 & _).
  split.
  - destruct Hlive3 as (Ht & Hs & _). unfold cache_live. cbn.
    split_and!; auto.
    unfold shrink_creation_threads. cbn.
    destruct (decide _); [destruct (_ && _)|]; cbn; intros p Hp;
      inversion Hp.
  - revert Hm2. apply shader_map_live_frame; cbn; try congruence. lia.
Qed.

(** X19. [InitializeShaderStorage] dereferences live objects only, whatever
    the two files hold: on a cache in which every pointer of the table, of
    the shader map and of the creation queue is to a live object, and every
    entry of the shader map is under the hash of the shader it points to,
    it returns, and the cache it leaves is such a cache again; the shader
    objects the load erases are taken out of the map with them.  The one
    call that does not return is on a shader file that holds a header
    whose word count is more than [ucode_dwords] has reserved, more than
    the file holds and more than the host allocates: there
    [ucode_dwords.resize] throws [std::bad_alloc]. *)
Theorem InitializeShaderStorage_dereferences_live_objects
    storage_root title_id blocking disk c :
  cache_live c -> shader_map_live c ->
  (exists c' disk',
     InitializeShaderStorage storage_root title_id blocking disk c =
       Some (c', disk') /\
     cache_live c' /\ shader_map_live c') \/
  (InitializeShaderStorage storage_root title_id blocking disk c = None /\
   exists shader_data,
     disk (ShaderStoragePath storage_root title_id) = Some shader_data /\
     names_unallocated_count shader_data).
Proof.
  intros Hlive Hm. unfold InitializeShaderStorage.
  assert (cache_live (ShutdownShaderStorage c) /\
          shader_map_live (ShutdownShaderStorage c)) as [Hlive0 Hm0].
  { split; [exact Hlive|exact Hm]. }
  destruct (negb (CreateFolder storage_root)); [left; eauto|].
  destruct (disk (ShaderStoragePath storage_root title_id))
    as [shader_data|] eqn:Hfile; [|left; eauto].
  set (c1 := set_storage _ (ShutdownShaderStorage c)).
  destruct (load_shader_storage_total shader_data c1)
    as [(loaded & data' & Hl & Hlive2 & Hm2)|[Hl Hthrows]];
    [exact Hlive|exact Hm| |].
  2:{ right. rewrite Hl. split; [reflexivity|]. eauto. }
  left. rewrite Hl. cbn [mbind option_bind].
  destruct (disk_write _ data' disk _) as [pipeline_data|].
  - set (c3 := set_storage _ (load_cache loaded)).
    destruct (load_pipeline_state_storage_total blocking pipeline_data c3)
      as ([[[vb c4] created] pd'] & Hp & Hlive4 & Hm4);
      [exact Hlive2|exact Hm2|].
    rewrite Hp. cbn [mbind option_bind].
    do 2 eexists. split; [reflexivity|]. split; [exact Hlive4|exact Hm4].
  - do 2 eexists. split; [reflexivity|]. split; [exact Hlive2|exact Hm2].
Qed.

End LoadDereferencesLiveObjects.

Section FacadeDereferencesLiveObjects.
Context `{ext : Externals}.

Lemma translate_if_needed_total shader cntl patch c :
  is_Some (shader_heap c !! shader) ->
  is_Some (translate_if_needed shader cntl patch c).
Proof.
  intros [s Hs]. unfold translate_if_needed, TranslateShader.
  rewrite Hs. cbn.
  destruct (negb (is_translated s)); [|eauto].
  cbn. destruct (negb (tr_result _)); cbn; [eauto|].
  destruct (negb _); cbn; eauto.
Qed.

Lemma translate_if_needed_map_live shader cntl patch c ok c' :
  translate_if_needed shader cntl patch c = Some (ok, c') ->
  shader_map_live c -> shader_map_live c'.
Proof.
  unfold translate_if_needed. intros H Hm.
  destruct (shader_heap c !! shader) as [s|]; [|discriminate]. cbn in H.
  destruct (negb (is_translated s)); [|injection H as <- <-; exact Hm].
  destruct (TranslateShader shader cntl patch c) as [[ok1 c1]|] eqn:Ht;
    [|discriminate]. cbn in H.
  apply (TranslateShader_map_live _ _ _ _ _ _ Ht) in Hm.
  destruct (negb ok1); injection H as <- <-; [exact Hm|].
  revert Hm. unfold queue_shader_write.
  destruct (shader_storage_file_ (storage c1));
    apply shader_map_live_frame; cbn; auto.
Qed.

Lemma EnsureShadersTranslated_total vs ps tess prim regs c :
  is_Some (shader_heap c !! vs) ->
  (forall pp, ps = Some pp -> is_Some (shader_heap c !! pp)) ->
  is_Some (EnsureShadersTranslated vs ps tess prim regs c).
Proof.
  intros Hv Hp. unfold EnsureShadersTranslated.
  destruct (translate_if_needed_total vs (SQ_PROGRAM_CNTL regs)
              (if tess then prim else kNone) c Hv) as [[ok c1] Ht].
  rewrite Ht. cbn. destruct ok; cbn; [|eauto].
  destruct ps as [pp|]; [|eauto].
  apply translate_if_needed_total.
  apply translate_if_needed_objects_kept in Ht as (_ & _ & Hdom).
  apply Hdom, Hp. reflexivity.
Qed.

Lemma EnsureShadersTranslated_map_live vs ps tess prim regs c ok c' :
  EnsureShadersTranslated vs ps tess prim regs c = Some (ok, c') ->
  shader_map_live c -> shader_map_live c'.
Proof.
  unfold EnsureShadersTranslated. intros H Hm.
  destruct (translate_if_needed vs _ _ c) as [[ok1 c1]|] eqn:E1;
    [|discriminate].
  apply (translate_if_needed_map_live _ _ _ _ _ _ E1) in Hm. cbn in H.
  destruct ok1; cbn in H; [|injection H as <- <-; exact Hm].
  destruct ps as [p|]; [|injection H as <- <-; exact Hm].
  apply (translate_if_needed_map_live _ _ _ _ _ _ H Hm).
Qed.

Lemma cache_live_same_table c c' :
  cache_live c -> same_table c c' -> shader_map_live c' -> cache_live c'.
Proof.
  intros (Ht & _ & Hq) (E1 & E2 & _ & _ & E3) [_ Hm].
  unfold cache_live. rewrite E1, E2, E3. split_and!; auto.
  intros h p Hp. destruct (Hm h p Hp) as (s & -> & _). eauto.
Qed.

Lemma cache_live_frame c c' :
  pipeline_states_ c' = pipeline_states_ c ->
  pipeline_heap c' = pipeline_heap c ->
  shader_map_ c' = shader_map_ c ->
  shader_heap c' = shader_heap c ->
  pool c' = pool c ->
  cache_live c -> cache_live c'.
Proof.
  intros E1 E2 E3 E4 E5. unfold cache_live.
  rewrite E1, E2, E3, E4, E5. auto.
Qed.

(** X20. [ConfigurePipeline] dereferences live objects only: on a cache whose
    table is sound, a request that names live shader objects returns, and
    the table is sound again; a sound shader map and the liveness of every
    pointer the cache holds are kept as well, so that any number of calls
    of [ConfigurePipeline] and loads of the storage can follow. *)
Theorem ConfigurePipeline_dereferences_live_objects c req stack :
  table_inv c -> is_Some (request_shaders c req) ->
  exists r c',
    ConfigurePipeline req stack c = Some (r, c') /\
    table_inv c' /\
    (shader_map_live c -> shader_map_live c') /\
    (cache_live c -> shader_map_live c -> cache_live c').
Proof.
  intros Hinv [rs Hrs].
  assert (exists r c', ConfigurePipeline req stack c = Some (r, c'))
    as (r & c' & H).
  { destruct (request_shaders_live _ _ _ Hrs) as [Hvl Hpl].
    unfold ConfigurePipeline.
    assert (exists built rd,
              GetCurrentStateDescription c req stack = Some (built, rd))
      as (built & rd & ->).
    { unfold GetCurrentStateDescription. rewrite Hrs. destruct rs as [vs ps].
      cbn. destruct (GetRootSignature _ _ _); [|eauto].
      destruct (topology_fields _ _ _) as [[[[? ?] ?] ?]|]; eauto. }
    cbn [mbind option_bind]. destruct built; cbn [negb]; [|eauto].
    assert (exists fast,
              match current_pipeline_state_ c with
              | Some cur =>
                  st ← pipeline_heap c !! cur;
                  if description_memcmp_equal
                       (description (runtime_description st)) (description rd)
                  then Some (Some cur)
                  else Some None
              | None => Some None
              end = Some fast) as [fast ->].
    { destruct (current_pipeline_state_ c) as [cur|] eqn:Hcur; [|eauto].
      destruct Hinv as (Hk & _ & _ & Hc).
      destruct (Hc cur Hcur) as [h Hin].
      destruct (Hk h cur Hin) as (st & -> & _). cbn.
      destruct (description_memcmp_equal _ _); eauto. }
    cbn [mbind option_bind]. destruct fast as [cur|]; [eauto|].
    destruct (find_pipeline_state_total_inv c
                (XXH64 (PipelineDescription_bytes (description rd)) 0)
                (description rd) Hinv) as [found Hfind].
    rewrite Hfind. cbn [mbind option_bind]. destruct found as [p|].
    - destruct (find_pipeline_state_found _ _ _ _ _ Hfind)
        as (_ & st & -> & _). cbn. eauto.
    - destruct (EnsureShadersTranslated_total (req_vertex_shader req)
                  (req_pixel_shader req) (req_tessellated req)
                  (req_primitive_type req) (req_regs req) c Hvl Hpl)
        as [[ok c1] ->].
      cbn [mbind option_bind]. destruct ok; cbn [negb]; [|eauto].
      destruct (insert_pipeline_state _ rd c1). eauto. }
  exists r, c'. split; [exact H|].
  pose proof (ConfigurePipeline_outcome _ _ _ _ _ H) as Hout.
  split; [apply (ConfigureOutcome_table _ _ _ _ _ Hinv Hout)|].
  assert (shader_map_live c ->
          shader_map_live c' /\ (cache_live c -> cache_live c')) as Hmap.
  { intros Hm. revert H. unfold ConfigurePipeline.
    destruct (GetCurrentStateDescription c req stack) as [[built rd]|];
      [|discriminate]. cbn [mbind option_bind].
    destruct built; cbn [negb]; [|intros [= <- <-]; auto].
    destruct (match current_pipeline_state_ c with
              | Some cur => _
              | None => _
              end) as [fast|]; [|discriminate].
    cbn [mbind option_bind].
    destruct fast as [cur|]; [intros [= <- <-]; auto|].
    destruct (find_pipeline_state _ _ _ _) as [found|]; [|discriminate].
    cbn [mbind option_bind]. destruct found as [p|].
    - destruct (pipeline_heap c !! p); [|discriminate].
      intros [= <- <-]. auto.
    - destruct (EnsureShadersTranslated _ _ _ _ _ c) as [[ok c1]|] eqn:He;
        [|discriminate]. cbn [mbind option_bind].
      pose proof (EnsureShadersTranslated_map_live _ _ _ _ _ _ _ _ He Hm)
        as Hm1.
      pose proof (EnsureShadersTranslated_same_table _ _ _ _ _ _ _ _ He)
        as Hsame.
      assert (cache_live c -> cache_live c1) as Hlive1
        by (intros Hlive; apply (cache_live_same_table c); auto).
      destruct ok; cbn [negb]; [|intros [= <- <-]; auto].
      destruct (insert_pipeline_state _ rd c1) as [new c2] eqn:Hi.
      intros [= <- <-].
      pose proof (insert_pipeline_state_live
                    (XXH64 (PipelineDescription_bytes (description rd)) 0)
                    rd c1) as Hins.
      rewrite Hi in Hins. cbn in Hins.
      assert (shader_map_live c2) as Hm2.
      { revert Hm1. apply (f_equal snd) in Hi. cbn in Hi. subst c2.
        unfold insert_pipeline_state.
        destruct (creation_threads_ (pool c1));
          apply shader_map_live_frame; cbn; auto. }
      split.
      + revert Hm2. unfold queue_pipeline_state_write.
        destruct (pipeline_state_storage_file_ (storage c2));
          apply shader_map_live_frame; cbn; auto.
      + intros Hlive. specialize (Hins (Hlive1 Hlive)). revert Hins.
        unfold queue_pipeline_state_write.
        destruct (pipeline_state_storage_file_ (storage c2));
          apply cache_live_frame; reflexivity. }
  split; [intros Hm; apply (Hmap Hm)|].
  intros Hlive Hm. apply (Hmap Hm), Hlive.
Qed.

End FacadeDereferencesLiveObjects.

Section StorageFilesAndWriter.
Context `{ext : Externals}.

Lemma storage_files_kept_refl c : storage_files_kept c c.
Proof. unfold storage_files_kept. auto. Qed.

Lemma storage_files_kept_trans c1 c2 c3 :
  storage_files_kept c1 c2 -> storage_files_kept c2 c3 ->
  storage_files_kept c1 c3.
Proof.
  intros (a1 & a2 & a3) (b1 & b2 & b3). unfold storage_files_kept.
  split_and!; congruence.
Qed.

Lemma translate_if_needed_files_kept shader cntl patch c ok c' :
  translate_if_needed shader cntl patch c = Some (ok, c') ->
  storage_files_kept c c'.
Proof.
  unfold translate_if_needed, TranslateShader, queue_shader_write. intros H.
  destruct (shader_heap c !! shader) as [s|]; [|discriminate]. cbn in H.
  destruct (is_translated s); cbn in H;
    [injection H as <- <-; apply storage_files_kept_refl|].
  destruct (tr_result (Translate s patch cntl)); cbn in H;
    [|injection H as <- <-; unfold storage_files_kept; auto].
  destruct (tr_is_valid (Translate s patch cntl)); cbn in H;
    injection H as <- <-; [|unfold storage_files_kept; auto].
  cbn. destruct (shader_storage_file_ (storage c)) eqn:E;
    unfold storage_files_kept; cbn; rewrite ?E; auto.
Qed.

Lemma EnsureShadersTranslated_files_kept vs ps tess prim regs c ok c' :
  EnsureShadersTranslated vs ps tess prim regs c = Some (ok, c') ->
  storage_files_kept c c'.
Proof.
  unfold EnsureShadersTranslated. intros H.
  destruct (translate_if_needed vs _ _ c) as [[ok1 c1]|] eqn:E1;
    [|discriminate].
  apply translate_if_needed_files_kept in E1. cbn in H.
  destruct ok1; cbn in H; [|injection H as <- <-; exact E1].
  destruct ps as [p|]; [|injection H as <- <-; exact E1].
  apply translate_if_needed_files_kept in H.
  eapply storage_files_kept_trans; eauto.
Qed.

Lemma ConfigurePipeline_files_kept req stack c r c' :
  ConfigurePipeline req stack c = Some (r, c') -> storage_files_kept c c'.
Proof.
  unfold ConfigurePipeline. intros H.
  destruct (GetCurrentStateDescription c req stack) as [[built rd]|];
    [|discriminate]. cbn [mbind option_bind] in H.
  destruct built; cbn [negb] in H;
    [|injection H as <- <-; apply storage_files_kept_refl].
  destruct (match current_pipeline_state_ c with
            | Some cur => _
            | None => _
            end) as [fast|]; [|discriminate].
  cbn [mbind option_bind] in H.
  destruct fast as [cur|];
    [injection H as <- <-; apply storage_files_kept_refl|].
  destruct (find_pipeline_state _ _ _ _) as [found|]; [|discriminate].
  cbn [mbind option_bind] in H. destruct found as [p|].
  - destruct (pipeline_heap c !! p); [|discriminate].
    injection H as <- <-. unfold storage_files_kept. auto.
  - destruct (EnsureShadersTranslated _ _ _ _ _ c) as [[ok c1]|] eqn:He;
      [|discriminate]. cbn [mbind option_bind] in H.
    apply EnsureShadersTranslated_files_kept in He.
    destruct ok; cbn [negb] in H; [|injection H as <- <-; exact He].
    destruct (insert_pipeline_state _ rd c1) as [new c2] eqn:Hi.
    injection H as <- <-.
    eapply storage_files_kept_trans; [exact He|].
    destruct (insert_pipeline_state_shape
                (XXH64 (PipelineDescription_bytes (description rd)) 0) rd c1)
      as (_ & Es & _).
    rewrite Hi in Es. cbn in Es.
    unfold storage_files_kept, queue_pipeline_state_write.
    destruct (pipeline_state_storage_file_ (storage c2)) eqn:E; cbn;
      rewrite ?E, <- ?Es; rewrite ?E; auto.
Qed.

Lemma InitializeShaderStorage_files_consistent
    storage_root title_id blocking disk c c' disk' :
  InitializeShaderStorage storage_root title_id blocking disk c =
    Some (c', disk') ->
  storage_files_consistent c'.
Proof.
  unfold InitializeShaderStorage. intros H.
  assert (storage_files_consistent (ShutdownShaderStorage c)) as H0.
  { split; cbn; [split|]; intros [f Hf]; discriminate. }
  destruct (negb (CreateFolder storage_root));
    [injection H as <- <-; exact H0|].
  destruct (disk (ShaderStoragePath storage_root title_id)) as [shader_data|];
    [|injection H as <- <-; exact H0].
  set (c1 := set_storage _ (ShutdownShaderStorage c)) in H.
  destruct (load_shader_storage shader_data c1) as [[loaded data']|] eqn:Hl;
    [|discriminate]. cbn [mbind option_bind] in H.
  destruct (disk_write _ data' disk _) as [pipeline_data|].
  - set (c3 := set_storage _ (load_cache loaded)) in H.
    destruct (load_pipeline_state_storage blocking pipeline_data c3)
      as [[[[vb c4] created] pd']|] eqn:Hp; [|discriminate].
    cbn [mbind option_bind] in H. injection H as <- <-.
    apply load_pipeline_state_storage_storage in Hp. cbn in Hp.
    unfold storage_files_consistent. cbn. rewrite Hp. subst c3. cbn.
    split; [split; eauto|reflexivity].
  - injection H as <- <-.
    split; cbn; [split|]; intros [f Hf]; discriminate.
Qed.

(** X21. The two storage files are open together, and the writing thread
    exists while they are: [InitializeShaderStorage] leaves the cache so,
    whether it opens both files, one or none, and the calls of the facade
    keep it.  So when [EnsureShadersTranslated] or [ConfigurePipeline] finds
    a storage file open, after any calls of [LoadShader],
    [ConfigurePipeline] and [InitializeShaderStorage],
    [storage_write_thread_] is not null. *)
Theorem storage_write_thread_exists_while_files_open c c' :
  storage_files_consistent c -> rtc cache_call c c' ->
  storage_files_consistent c'.
Proof.
  intros Hinv Hcalls.
  induction Hcalls as [|c1 c2 c3 Hcall _ IH]; [exact Hinv|].
  apply IH. clear IH.
  destruct Hcall as [c2' [type guest_address host_address|req stack r c2'' H]
                    |storage_root title_id blocking disk c2' disk' H].
  - unfold LoadShader. destruct (shader_map_ c1 !! _); exact Hinv.
  - apply ConfigurePipeline_files_kept in H as (E1 & E2 & E3).
    unfold storage_files_consistent. rewrite E1, E2, E3. exact Hinv.
  - apply (InitializeShaderStorage_files_consistent _ _ _ _ _ _ _ H).
Qed.

End StorageFilesAndWriter.

Section ReplayedTessellation.
Context `{ext : Externals}.

(** X22. The replay of a stored description takes the draw for tessellated
    when the stored patch type is not [kNone]; [CreateD3D12PipelineState]
    does when the tessellation mode is not [kNone].  For a description that
    [GetCurrentStateDescription] has built, the two tests agree with each
    other and with the draw, and the topology type is [kPatch] exactly
    then: the replay asks for the root signature with the flag the draw
    had. *)
Theorem replay_tessellated_as_drawn c req stack rd :
  GetCurrentStateDescription c req stack = Some (true, rd) ->
  negb (patch_type (description rd) =? PipelinePatchType.kNone) =
    req_tessellated req /\
  negb (tessellation_mode (description rd) =?
        PipelineTessellationMode.kNone) = req_tessellated req /\
  (primitive_topology_type (description rd) =?
   PipelinePrimitiveTopologyType.kPatch) = req_tessellated req.
Proof.
  intros Hb.
  destruct (GetCurrentStateDescription_built _ _ _ _ Hb)
    as (_ & _ & tess & topo & patch & geom & Ht & -> & -> & -> & _).
  unfold topology_fields in Ht.
  destruct (req_tessellated req).
  - destruct (req_primitive_type req); try discriminate;
      injection Ht as <- <- <- _; rewrite tessellated_mode_not_none;
      split_and!; reflexivity.
  - injection Ht as <- <- <- _.
    destruct (req_primitive_type req); split_and!; reflexivity.
Qed.

End ReplayedTessellation.

Section EntriesAcrossSteps.
Context `{ext : Externals}.

Lemma entries_kept_refl c : entries_kept c c.
Proof. intros d e H. exact H. Qed.

Lemma entries_kept_trans c1 c2 c3 :
  entries_kept c1 c2 -> entries_kept c2 c3 -> entries_kept c1 c3.
Proof. intros H1 H2 d e H. apply H2, H1, H. Qed.

Lemma entries_kept_frame c c' :
  pipeline_states_ c' = pipeline_states_ c ->
  pipeline_heap c' = pipeline_heap c ->
  entries_kept c c'.
Proof.
  intros E1 E2 d e (h & st & H). exists h, st. rewrite E1, E2. exact H.
Qed.

Lemma entries_kept_table_kept c c' : table_kept c c' -> entries_kept c c'.
Proof. intros (E1 & E2 & _). apply entries_kept_frame; assumption. Qed.

Lemma insert_pipeline_state_entries_kept hash rd c :
  table_inv c -> entries_kept c (insert_pipeline_state hash rd c).2.
Proof.
  intros (_ & _ & Hf & _) d e (h & st & Hin & Hst & Hd).
  assert (e <> next_object c) as Hne.
  { intros ->. assert (next_object c < next_object c)%nat; [|lia].
    apply Hf. eauto. }
  exists h, st. unfold insert_pipeline_state.
  destruct (creation_threads_ (pool c)); cbn;
    rewrite lookup_insert_ne by congruence;
    (split_and!; auto; apply elem_of_app; left; exact Hin).
Qed.

Lemma replay_pipeline_state_entries_kept stored c c' made :
  replay_pipeline_state stored c = Some (c', made) ->
  table_inv c -> entries_kept c c'.
Proof.
  unfold replay_pipeline_state. intros H Hinv.
  destruct (find_pipeline_state _ _ _ _) as [[found|]|];
    cbn in H; [injection H as <- <-; apply entries_kept_refl| |discriminate].
  destruct (resolve_vertex_shader c _) as [[| |vp v]|]; cbn in H;
    try discriminate; try (injection H as <- <-; apply entries_kept_refl).
  destruct (resolve_pixel_shader c _) as [ps|]; cbn in H; [|discriminate].
  destruct ps as [| |pp ps];
    try (injection H as <- <-; apply entries_kept_refl);
    (destruct (GetRootSignature v _ _) as [rs|];
     [|injection H as <- <-; apply entries_kept_refl]);
    injection H as <- <-;
    apply insert_pipeline_state_entries_kept, Hinv.
Qed.

Lemma pipeline_storage_loop_entries_kept records :
  forall valid_bytes c created r,
  pipeline_storage_loop records valid_bytes c created = Some r ->
  table_inv c -> entries_kept c r.1.2.
Proof.
  induction records as [|stored records IH]; intros vb c created r H Hinv;
    cbn in H.
  - injection H as <-. apply entries_kept_refl.
  - destruct (_ =? _) eqn:Hhash; cbn in H;
      [|injection H as <-; apply entries_kept_refl].
    apply Z.eqb_eq in Hhash.
    destruct (replay_pipeline_state stored c) as [[c' made]|] eqn:Hr;
      [|discriminate]. cbn in H.
    eapply entries_kept_trans.
    + eapply replay_pipeline_state_entries_kept; eauto.
    + apply (IH _ _ _ _ H).
      apply (replay_pipeline_state_table_inv _ _ _ _ Hhash Hr Hinv).
Qed.

Lemma set_pipeline_state_object_entries_kept p st st0 c :
  pipeline_heap c !! p = Some st0 ->
  runtime_description st = runtime_description st0 ->
  entries_kept c (set_pipeline_state_object p st c).
Proof.
  intros Hp Hrd d e (h & ste & Hin & Hst & Hd).
  destruct (decide (e = p)) as [->|Hne].
  - exists h, st. split_and!; [exact Hin|cbn; apply lookup_insert_eq|].
    assert (ste = st0) as -> by congruence.
    unfold entry_description in *. rewrite Hrd. exact Hd.
  - exists h, ste. split_and!; auto. cbn.
    rewrite lookup_insert_ne by congruence. exact Hst.
Qed.

Lemma create_queued_entries_kept queue : forall c c',
  create_queued queue c = Some c' -> entries_kept c c'.
Proof.
  induction queue as [|p queue IH]; intros c c' H; cbn in H.
  - injection H as <-. apply entries_kept_refl.
  - destruct (pipeline_heap c !! p) as [st|] eqn:Hp; [|discriminate].
    cbn in H. eapply entries_kept_trans; [|apply (IH _ _ H)].
    apply (set_pipeline_state_object_entries_kept p _ st c Hp). reflexivity.
Qed.

Lemma load_pipeline_state_storage_entries_kept blocking data c r :
  load_pipeline_state_storage blocking data c = Some r ->
  table_inv c -> entries_kept c r.1.1.2.
Proof.
  unfold load_pipeline_state_storage. intros H Hinv.
  destruct (pipeline_state_storage_header_ok _ _);
    [|injection H as <-; apply entries_kept_refl].
  destruct (PipelineStoredDescription_of_bytes <$> _) as [|d ds];
    [injection H as <-; apply entries_kept_refl|].
  set (c1 := set_pool _ c) in H.
  destruct (pipeline_storage_loop (d :: ds) 12 c1 0) as [[[vb c2] created]|]
    eqn:Hloop; [|discriminate]. cbn [mbind option_bind] in H.
  apply pipeline_storage_loop_entries_kept in Hloop;
    [|apply (table_inv_frame c c1); auto]. cbn in Hloop.
  unfold CreateQueuedPipelineStatesOnProcessorThread in H.
  destruct (create_queued _ c2) as [c3|] eqn:Hq; [|discriminate].
  cbn in H. injection H as <-. cbn.
  apply create_queued_entries_kept in Hq.
  eapply entries_kept_trans; [|eapply entries_kept_trans];
    [|exact Hloop|]; [apply entries_kept_frame; reflexivity|].
  eapply entries_kept_trans; [exact Hq|].
  apply entries_kept_frame; reflexivity.
Qed.

(** The load of the storage keeps the table sound and keeps its entries. *)
Lemma InitializeShaderStorage_table
    storage_root title_id blocking disk c c' disk' :
  InitializeShaderStorage storage_root title_id blocking disk c =
    Some (c', disk') ->
  table_inv c -> table_inv c' /\ entries_kept c c'.
Proof.
  unfold InitializeShaderStorage. intros H Hinv.
  assert (table_inv (ShutdownShaderStorage c) /\
          entries_kept c (ShutdownShaderStorage c)) as [Hinv0 Hk0].
  { split; [revert Hinv; apply table_inv_frame; reflexivity
           |apply entries_kept_frame; reflexivity]. }
  destruct (negb (CreateFolder storage_root));
    [injection H as <- <-; auto|].
  destruct (disk (ShaderStoragePath storage_root title_id)) as [shader_data|];
    [|injection H as <- <-; auto].
  set (c1 := set_storage _ (ShutdownShaderStorage c)) in H.
  destruct (load_shader_storage shader_data c1) as [[loaded data']|] eqn:Hl;
    [|discriminate]. cbn [mbind option_bind] in H.
  apply load_shader_storage_table_kept in Hl.
  assert (table_inv (load_cache loaded)) as Hinv2.
  { apply (table_inv_kept c1); [|exact Hl].
    revert Hinv0. apply table_inv_frame; reflexivity. }
  assert (entries_kept c (load_cache loaded)) as Hk2.
  { eapply entries_kept_trans; [exact Hk0|].
    eapply entries_kept_trans; [|apply entries_kept_table_kept, Hl].
    apply entries_kept_frame; reflexivity. }
  destruct (disk_write _ data' disk _) as [pipeline_data|].
  - set (c3 := set_storage _ (load_cache loaded)) in H.
    destruct (load_pipeline_state_storage blocking pipeline_data c3)
      as [[[[vb c4] created] pd']|] eqn:Hp; [|discriminate].
    cbn [mbind option_bind] in H. injection H as <- <-.
    assert (table_inv c3) as Hinv3
      by (revert Hinv2; apply table_inv_frame; reflexivity).
    pose proof (load_pipeline_state_storage_table_inv _ _ _ _ Hp Hinv3) as Hi.
    pose proof (load_pipeline_state_storage_entries_kept _ _ _ _ Hp Hinv3)
      as Hk. cbn in Hi, Hk. split.
    + revert Hi. apply table_inv_frame; reflexivity.
    + eapply entries_kept_trans; [exact Hk2|].
      eapply entries_kept_trans; [|eapply entries_kept_trans; [exact Hk|]];
        apply entries_kept_frame; reflexivity.
  - injection H as <- <-. split.
    + revert Hinv2. apply table_inv_frame; reflexivity.
    + eapply entries_kept_trans; [exact Hk2|].
      apply entries_kept_frame; reflexivity.
Qed.

Lemma cache_call_table c c' :
  table_inv c -> cache_call c c' -> table_inv c' /\ entries_kept c c'.
Proof.
  intros Hinv [c1 Hstep|storage_root title_id blocking disk c1 disk' H].
  - apply facade_step_table; assumption.
  - eapply InitializeShaderStorage_table; eauto.
Qed.

(** A creation thread writes the pool and the object of the pipeline state
    it took: the table and the descriptions of its entries stay. *)
Lemma thread_step_table i s s' :
  thread_step i s = Some s' -> table_inv (sys_cache s) ->
  table_inv (sys_cache s') /\ entries_kept (sys_cache s) (sys_cache s').
Proof.
  intros H Hinv. apply thread_step_inv in H as (pc & Hpc & H).
  destruct pc as [|ps| |]; [| | |contradiction].
  - subst s'. cbn [sys_cache]. split.
    + revert Hinv. apply table_inv_frame; reflexivity.
    + apply entries_kept_frame; reflexivity.
  - destruct H as (st & Hst & ->). cbn [sys_cache]. split.
    + apply (set_pipeline_state_object_table_inv ps _ st); auto.
    + apply (set_pipeline_state_object_entries_kept ps _ st); auto.
  - subst s'. cbn [sys_cache]. split.
    + revert Hinv. apply table_inv_frame; reflexivity.
    + apply entries_kept_frame; reflexivity.
Qed.

Lemma threads_run_table s s' :
  threads_run s s' -> table_inv (sys_cache s) ->
  table_inv (sys_cache s') /\ entries_kept (sys_cache s) (sys_cache s').
Proof.
  induction 1 as [s|i s s1 s2 Hstep _ IH]; intros Hinv.
  - split; [exact Hinv|apply entries_kept_refl].
  - destruct (thread_step_table _ _ _ Hstep Hinv) as [H1 K1].
    destruct (IH H1) as [H2 K2]. split; [exact H2|].
    eapply entries_kept_trans; eauto.
Qed.

Lemma processor_creates_queued_table s s' :
  processor_creates_queued s s' -> table_inv (sys_cache s) ->
  table_inv (sys_cache s') /\ entries_kept (sys_cache s) (sys_cache s').
Proof.
  induction 1 as [s Hd|s p c1 s2 c3 s4 s5 Hd Hrun1 Hc Hrun2 _ IH];
    intros Hinv.
  - split; [exact Hinv|apply entries_kept_refl].
  - unfold processor_dequeue in Hd.
    destruct (creation_queue_ (pool (sys_cache s))) as [|p' rest];
      [discriminate|]. injection Hd as -> <-.
    destruct (threads_run_table _ _ Hrun1) as [H2 K2].
    { cbn. revert Hinv. apply table_inv_frame; reflexivity. }
    cbn [sys_cache] in K2.
    unfold processor_create in Hc.
    destruct (pipeline_heap (sys_cache s2) !! p) as [st|] eqn:Hst;
      [|discriminate]. injection Hc as <-.
    destruct (threads_run_table _ _ Hrun2) as [H4 K4].
    { cbn. apply (set_pipeline_state_object_table_inv p _ st); auto. }
    cbn [sys_cache] in K4.
    destruct (IH H4) as [H5 K5]. split; [exact H5|].
    eapply entries_kept_trans; [|exact K5].
    eapply entries_kept_trans; [|exact K4].
    eapply entries_kept_trans;
      [|apply (set_pipeline_state_object_entries_kept p _ st); auto].
    eapply entries_kept_trans; [|exact K2].
    apply entries_kept_frame; reflexivity.
Qed.

Lemma EndSubmission_run_table s s' :
  EndSubmission_run s s' -> table_inv (sys_cache s) ->
  table_inv (sys_cache s') /\ entries_kept (sys_cache s) (sys_cache s').
Proof.
  pose proof (EndSubmission_request_flush_frame (sys_cache s))
    as (_ & F1 & F2 & _ & _ & F3). cbv zeta in F1, F2, F3.
  assert (next_object (EndSubmission_request_flush (sys_cache s)) =
          next_object (sys_cache s)) as F4.
  { unfold EndSubmission_request_flush. destruct (_ || _); reflexivity. }
  intros [Hnone|s0 s1 s2 p await s3 Hsome Hrun0 Hproc Hrun1 Hawait Hrun2 Hev]
    Hinv.
  - cbn [sys_cache]. split.
    + revert Hinv. apply table_inv_frame; assumption.
    + apply entries_kept_frame; assumption.
  - destruct (threads_run_table _ _ Hrun0) as [H0 K0].
    { cbn. revert Hinv. apply table_inv_frame; assumption. }
    cbn [sys_cache] in K0.
    destruct (processor_creates_queued_table _ _ Hproc H0) as [H1 K1].
    destruct (threads_run_table _ _ Hrun1 H1) as [H2 K2].
    destruct (threads_run_table _ _ Hrun2) as [H3 K3].
    { cbn. revert H2. apply table_inv_frame; reflexivity. }
    cbn [sys_cache] in K3. split; [exact H3|].
    eapply entries_kept_trans; [|exact K3].
    eapply entries_kept_trans; [|apply entries_kept_frame; reflexivity].
    eapply entries_kept_trans; [|exact K2].
    eapply entries_kept_trans; [|exact K1].
    eapply entries_kept_trans; [|exact K0].
    apply entries_kept_frame; assumption.
Qed.

Lemma system_step_table s s' :
  system_step s s' -> table_inv (sys_cache s) ->
  table_inv (sys_cache s') /\ entries_kept (sys_cache s) (sys_cache s').
Proof.
  intros [c' Hcall|i s1 Hstep|s1 Hend] Hinv.
  - cbn [set_sys_cache sys_cache]. apply cache_call_table; assumption.
  - eapply thread_step_table; eauto.
  - apply EndSubmission_run_table; assumption.
Qed.

Lemma system_steps_table s s' :
  rtc system_step s s' -> table_inv (sys_cache s) ->
  table_inv (sys_cache s') /\ entries_kept (sys_cache s) (sys_cache s').
Proof.
  induction 1 as [s|s s1 s2 Hstep _ IH]; intros Hinv.
  - split; [exact Hinv|apply entries_kept_refl].
  - destruct (system_step_table _ _ Hstep Hinv) as [H1 K1].
    destruct (IH H1) as [H2 K2]. split; [exact H2|].
    eapply entries_kept_trans; eauto.
Qed.

(** C2. In a cache whose table is as the facade keeps it, let a request
    whose description is [rd1] return the entry [e1].  Whatever happens
    before the next request while the table stands - further calls of the
    facade, loads of the storage, steps of the creation threads, which
    write the objects of the entries they took from the queue, ends of
    submissions - a request whose description is byte-equal to that of
    [rd1] returns [e1]; when it follows immediately, it returns it from the
    fast-path slot, leaving the cache as it is.  And a request whose
    description differs in some byte returns another entry, whatever the
    hashes are: the hash selects the candidates, the bytes decide. *)
Theorem ConfigurePipeline_same_description_same_entry :
  forall (s1 s2 : System) (c1 : PipelineCache) (req1 req2 : DrawRequest)
         (stack1 stack2 rd1 rd2 : PipelineRuntimeDescription)
         (e1 : ptr) (rs1 : option RootSignature),
    table_inv (sys_cache s1) ->
    GetCurrentStateDescription (sys_cache s1) req1 stack1 = Some (true, rd1) ->
    ConfigurePipeline req1 stack1 (sys_cache s1) = Some (Some (e1, rs1), c1) ->
    rtc system_step (set_sys_cache c1 s1) s2 ->
    GetCurrentStateDescription (sys_cache s2) req2 stack2 = Some (true, rd2) ->
    (PipelineDescription_bytes (description rd2) =
     PipelineDescription_bytes (description rd1) ->
     exists rs2 c3,
       ConfigurePipeline req2 stack2 (sys_cache s2) =
         Some (Some (e1, rs2), c3) /\
       (sys_cache s2 = c1 -> rs2 = root_signature rd2 /\ c3 = c1)) /\
    (PipelineDescription_bytes (description rd2) <>
     PipelineDescription_bytes (description rd1) ->
     forall e2 rs2 c3,
       ConfigurePipeline req2 stack2 (sys_cache s2) =
         Some (Some (e2, rs2), c3) ->
       e2 <> e1).
Proof.
  intros s1 s2 c1 req1 req2 stack1 stack2 rd1 rd2 e1 rs1
    Hinv Hb1 H1 Hsteps Hb2.
  apply ConfigurePipeline_outcome in H1.
  destruct (ConfigureOutcome_table _ _ _ _ _ Hinv H1) as (Hinv1 & _ & Hres1).
  destruct (Hres1 e1 rs1 rd1 eq_refl Hb1) as [He1 Hcur1].
  destruct (system_steps_table _ _ Hsteps Hinv1) as [Hinv2 Hkeep].
  cbn [set_sys_cache sys_cache] in Hkeep.
  pose proof (Hkeep _ _ He1) as He2. split.
  - intros Heq.
    destruct (ConfigurePipeline_returns_entry (sys_cache s2) req2 stack2 rd2
                (description rd1) e1 Hinv2 He2 Hb2 Heq)
      as (rs2 & c3 & H2 & Hfast).
    exists rs2, c3. split; [exact H2|]. intros Hsame. rewrite Hsame in Hfast.
    destruct (Hfast Hcur1) as [-> ->]. auto.
  - intros Hne e2 rs2 c3 H2 ->.
    apply ConfigurePipeline_outcome in H2.
    destruct (ConfigureOutcome_table _ _ _ _ _ Hinv2 H2)
      as (Hinv3 & Hkeep3 & Hres2).
    destruct (Hres2 e1 rs2 rd2 eq_refl Hb2) as [(h & st & _ & Hst & Hd) _].
    destruct (Hkeep3 _ _ He2) as (h' & st' & _ & Hst' & Hd').
    rewrite Hst in Hst'. injection Hst' as <-. congruence.
Qed.

End EntriesAcrossSteps.

Section RunsOfTheCreationThreads.
Context `{ext : Externals}.

(** A creation thread starts and stops no thread, leaves the shutdown
    threshold alone, and queues nothing. *)
Lemma thread_step_threshold i s s' :
  thread_step i s = Some s' ->
  length (sys_threads s') = length (sys_threads s) /\
  creation_threads_ (pool (sys_cache s')) =
    creation_threads_ (pool (sys_cache s)) /\
  creation_threads_shutdown_from_ (pool (sys_cache s')) =
    creation_threads_shutdown_from_ (pool (sys_cache s)) /\
  (creation_queue_ (pool (sys_cache s)) = [] ->
   creation_queue_ (pool (sys_cache s')) = []).
Proof.
  intros H. apply thread_step_inv in H as (pc & Hpc & H).
  destruct pc as [|ps| |]; [| | |contradiction].
  - subst s'. cbn [sys_cache sys_threads]. rewrite length_insert.
    pose proof (CreationThread_check_cases (Z.of_nat i) (pool (sys_cache s)))
      as Hc. cbv zeta in Hc.
    destruct (CreationThread_check (Z.of_nat i) (pool (sys_cache s)))
      as [p' action]. cbn [fst snd] in *. unfold_setters. cbn [pool].
    destruct Hc as (Ht & Hs & [(Hq & _)|(front & Hq & _)]).
    + split_and!; auto. congruence.
    + split_and!; auto. intros E. rewrite E in Hq. discriminate.
  - destruct H as (st & Hst & ->). cbn [sys_cache sys_threads].
    rewrite length_insert. unfold_setters. cbn. auto.
  - subst s'. cbn [sys_cache sys_threads]. rewrite length_insert.
    unfold CreationThread_done. unfold_setters. cbn. auto.
Qed.

(** The step in which a creation thread returns: it was at the head of its
    loop, at or above the threshold. *)
Lemma thread_step_returns i s s' :
  thread_step i s = Some s' -> sys_threads s' !! i = Some Exited ->
  sys_threads s !! i = Some AtCheck /\
  creation_threads_shutdown_from_ (pool (sys_cache s)) <= Z.of_nat i.
Proof.
  intros H Hex. apply thread_step_inv in H as (pc & Hpc & H).
  pose proof (lookup_lt_Some _ _ _ Hpc) as Hlt.
  destruct pc as [|ps| |]; [| | |contradiction].
  - subst s'. cbn [sys_threads] in Hex.
    rewrite list_lookup_insert_eq in Hex by exact Hlt.
    split; [exact Hpc|]. unfold CreationThread_check in Hex.
    destruct (creation_queue_ (pool (sys_cache s)));
      destruct (creation_threads_shutdown_from_ (pool (sys_cache s))
                <=? Z.of_nat i) eqn:E; cbn in Hex; try discriminate;
      apply Z.leb_le; exact E.
  - destruct H as (st & _ & ->). cbn [sys_threads] in Hex.
    rewrite list_lookup_insert_eq in Hex by exact Hlt. discriminate.
  - subst s'. cbn [sys_threads] in Hex.
    rewrite list_lookup_insert_eq in Hex by exact Hlt. discriminate.
Qed.

Lemma insert_pipeline_state_pool hash rd c :
  let p' := pool (insert_pipeline_state hash rd c).2 in
  creation_threads_ p' = creation_threads_ (pool c) /\
  creation_threads_shutdown_from_ p' =
    creation_threads_shutdown_from_ (pool c) /\
  (creation_threads_ (pool c) = [] ->
   creation_queue_ p' = creation_queue_ (pool c)).
Proof.
  unfold insert_pipeline_state.
  destruct (creation_threads_ (pool c)) eqn:E; cbn; rewrite ?E;
    split_and!; auto; discriminate.
Qed.

Lemma queue_pipeline_state_write_pool hash d c :
  pool (queue_pipeline_state_write hash d c) = pool c.
Proof.
  unfold queue_pipeline_state_write.
  destruct (pipeline_state_storage_file_ (storage c)); reflexivity.
Qed.

(** The facade queues a pipeline state only for creation threads, and
    leaves the threads and the threshold alone. *)
Lemma facade_step_pool c c' :
  facade_step c c' ->
  creation_threads_ (pool c') = creation_threads_ (pool c) /\
  creation_threads_shutdown_from_ (pool c') =
    creation_threads_shutdown_from_ (pool c) /\
  (creation_threads_ (pool c) = [] ->
   creation_queue_ (pool c') = creation_queue_ (pool c)).
Proof.
  intros [type ga ha|req stack r c2 H].
  - unfold LoadShader. destruct (shader_map_ c !! _); cbn; auto.
  - apply ConfigurePipeline_outcome in H.
    destruct H as [rd Hb|rd cur st Hb Hcur Hst Heq|rd p st Hb Hfind Hst
                  |rd c1 Hb Hfind Hsame|rd c1 Hb Hfind Hsame]; auto.
    + destruct Hsame as (_ & _ & _ & _ & ->). auto.
    + destruct Hsame as (_ & _ & _ & _ & Ep).
      change (pool (set_current_pipeline_state ?x ?y)) with (pool y).
      rewrite queue_pipeline_state_write_pool, <- Ep.
      apply insert_pipeline_state_pool.
Qed.

Lemma replay_pipeline_state_pool stored c c' made :
  replay_pipeline_state stored c = Some (c', made) ->
  creation_threads_ (pool c') = creation_threads_ (pool c) /\
  creation_threads_shutdown_from_ (pool c') =
    creation_threads_shutdown_from_ (pool c) /\
  (creation_threads_ (pool c) = [] ->
   creation_queue_ (pool c') = creation_queue_ (pool c)).
Proof.
  unfold replay_pipeline_state. intros H.
  destruct (find_pipeline_state _ _ _ _) as [[found|]|];
    cbn in H; [injection H as <- <-; auto| |discriminate].
  destruct (resolve_vertex_shader c _) as [[| |vp v]|]; cbn in H;
    try discriminate; try (injection H as <- <-; auto).
  destruct (resolve_pixel_shader c _) as [ps|]; cbn in H; [|discriminate].
  destruct ps as [| |pp ps];
    try (injection H as <- <-; auto);
    (destruct (GetRootSignature v _ _) as [rs|];
     [|injection H as <- <-; auto]);
    injection H as <- <-; apply insert_pipeline_state_pool.
Qed.

Lemma pipeline_storage_loop_pool records :
  forall valid_bytes c created r,
  pipeline_storage_loop records valid_bytes c created = Some r ->
  creation_threads_ (pool r.1.2) = creation_threads_ (pool c) /\
  creation_threads_shutdown_from_ (pool r.1.2) =
    creation_threads_shutdown_from_ (pool c) /\
  (creation_threads_ (pool c) = [] ->
   creation_queue_ (pool r.1.2) = creation_queue_ (pool c)).
Proof.
  induction records as [|stored records IH]; intros vb c created r H;
    cbn in H.
  - injection H as <-. auto.
  - destruct (_ =? _); cbn in H; [|injection H as <-; auto].
    destruct (replay_pipeline_state stored c) as [[c' made]|] eqn:Hr;
      [|discriminate]. cbn in H.
    destruct (replay_pipeline_state_pool _ _ _ _ Hr) as (E1 & E2 & E3).
    destruct (IH _ _ _ _ H) as (F1 & F2 & F3).
    split_and!; try congruence.
    intros E. rewrite F3, E3; congruence.
Qed.

(** The pool after the load of the pipeline state stream: the threads and
    the threshold are those it had, and the queue is empty or the pool is
    as it was. *)
Lemma load_pipeline_state_storage_pool blocking data c r :
  load_pipeline_state_storage blocking data c = Some r ->
  creation_threads_ (pool r.1.1.2) = creation_threads_ (pool c) /\
  creation_threads_shutdown_from_ (pool r.1.1.2) =
    creation_threads_shutdown_from_ (pool c) /\
  (creation_queue_ (pool r.1.1.2) = [] \/ pool r.1.1.2 = pool c).
Proof.
  unfold load_pipeline_state_storage. intros H.
  destruct (pipeline_state_storage_header_ok _ _);
    [|injection H as <-; auto].
  destruct (PipelineStoredDescription_of_bytes <$> _) as [|d ds];
    [injection H as <-; auto|].
  rewrite replay_creation_threads_unchanged in H.
  set (c1 := set_pool _ c) in H.
  destruct (pipeline_storage_loop (d :: ds) 12 c1 0) as [[[vb c2] created]|]
    eqn:Hloop; [|discriminate]. cbn [mbind option_bind] in H.
  apply pipeline_storage_loop_pool in Hloop as (E1 & E2 & _).
  cbn in E1, E2.
  unfold CreateQueuedPipelineStatesOnProcessorThread in H.
  destruct (create_queued _ c2) as [c3|] eqn:Hq; [|discriminate].
  cbn in H. injection H as <-. cbn [fst snd].
  apply create_queued_keeps in Hq as (_ & _ & _ & _ & _ & Ep & _).
  unfold shrink_creation_threads. unfold_setters. cbn [pool creation_threads_].
  rewrite Ep, E1.
  destruct (decide (length (creation_threads_ (pool c)) <
                    length (creation_threads_ (pool c)))%nat); [lia|].
  cbn. auto.
Qed.

Lemma InitializeShaderStorage_pool
    storage_root title_id blocking disk c c' disk' :
  InitializeShaderStorage storage_root title_id blocking disk c =
    Some (c', disk') ->
  creation_threads_ (pool c') = creation_threads_ (pool c) /\
  creation_threads_shutdown_from_ (pool c') =
    creation_threads_shutdown_from_ (pool c) /\
  (creation_queue_ (pool c') = [] \/ pool c' = pool c).
Proof.
  unfold InitializeShaderStorage. intros H.
  destruct (negb (CreateFolder storage_root));
    [injection H as <- <-; auto|].
  destruct (disk (ShaderStoragePath storage_root title_id)) as [shader_data|];
    [|injection H as <- <-; auto].
  set (c1 := set_storage _ (ShutdownShaderStorage c)) in H.
  destruct (load_shader_storage shader_data c1) as [[loaded data']|] eqn:Hl;
    [|discriminate]. cbn [mbind option_bind] in H.
  apply load_shader_storage_table_kept in Hl as (_ & _ & _ & _ & Ep & _).
  change (pool c1) with (pool c) in Ep.
  destruct (disk_write _ data' disk _) as [pipeline_data|].
  - set (c3 := set_storage _ (load_cache loaded)) in H.
    destruct (load_pipeline_state_storage blocking pipeline_data c3)
      as [[[[vb c4] created] pd']|] eqn:Hp; [|discriminate].
    cbn [mbind option_bind] in H. injection H as <- <-.
    apply load_pipeline_state_storage_pool in Hp as (E1 & E2 & E3).
    cbn in E1, E2, E3. change (pool c3) with (pool (load_cache loaded)) in *.
    change (pool (set_storage ?x ?y)) with (pool y).
    rewrite Ep in E1, E2, E3. auto.
  - injection H as <- <-. change (pool (set_storage ?x ?y)) with (pool y).
    rewrite Ep. auto.
Qed.

Lemma cache_call_pool c c' :
  cache_call c c' ->
  creation_threads_ (pool c') = creation_threads_ (pool c) /\
  creation_threads_shutdown_from_ (pool c') =
    creation_threads_shutdown_from_ (pool c) /\
  (creation_queue_ (pool c) = [] -> creation_threads_ (pool c) = [] ->
   creation_queue_ (pool c') = []).
Proof.
  intros [c1 Hstep|storage_root title_id blocking disk c1 disk' H].
  - destruct (facade_step_pool _ _ Hstep) as (E1 & E2 & E3).
    split_and!; auto. intros Hq Ht. rewrite E3; auto.
  - destruct (InitializeShaderStorage_pool _ _ _ _ _ _ _ H)
      as (E1 & E2 & [E3|E3]); split_and!; auto.
    intros Hq _. rewrite E3. exact Hq.
Qed.

Lemma ClearCache_quiesce_queue c :
  let c1 := (ClearCache_quiesce c).1 in
  (creation_threads_ (pool c) <> [] -> creation_queue_ (pool c1) = []) /\
  (creation_threads_ (pool c) = [] ->
   creation_queue_ (pool c1) = creation_queue_ (pool c)).
Proof.
  unfold ClearCache_quiesce, ShutdownShaderStorage. unfold_setters.
  cbn [pool]. destruct (creation_threads_ (pool c)) eqn:E; cbn; rewrite ?E;
    split; auto; congruence.
Qed.

Lemma ClearCache_destroy_pool c c' :
  ClearCache_destroy c = Some c' -> pool c' = pool c.
Proof.
  unfold ClearCache_destroy. intros H.
  destruct (destroy_pipeline_states _ _); [|discriminate]. cbn in H.
  destruct (destroy_shaders _ _); [|discriminate]. cbn in H.
  injection H as <-. reflexivity.
Qed.

Lemma Initialize_thread_count c :
  Z.of_nat (length (creation_threads_ (pool (Initialize c)))) <= SIZE_MAX /\
  creation_threads_shutdown_from_ (pool (Initialize c)) = SIZE_MAX.
Proof.
  unfold Initialize. cbn [pool set_pool creation_threads_
                          creation_threads_shutdown_from_].
  split; [|reflexivity].
  rewrite length_fmap, length_seq. unfold SIZE_MAX.
  set (n := if logical_processor_count =? 0 then 6
            else logical_processor_count).
  assert (0 <= n * 3 mod 2 ^ 32 / 4 < 2 ^ 32) as H1.
  { pose proof (Z.mod_pos_bound (n * 3) (2 ^ 32) ltac:(lia)) as Hm.
    split; [apply Z.div_pos; lia|].
    apply Z.div_lt_upper_bound; lia. }
  pose proof (Z.mod_pos_bound cvars_d3d12_pipeline_creation_threads
                (2 ^ 32) ltac:(lia)) as H2.
  destruct (cvars_d3d12_pipeline_creation_threads =? 0); [cbn; lia|].
  destruct (cvars_d3d12_pipeline_creation_threads <? 0); lia.
Qed.

Lemma threshold_inv_initial r : run_initial r -> threshold_inv r.
Proof.
  destruct r as [s o]. intros (Ho & c0 & Hc & Ht). cbn in Ho, Hc, Ht.
  subst o. destruct (Initialize_thread_count c0) as [Hn Hs].
  unfold threshold_inv. cbn [run_system run_owner].
  rewrite Ht, length_replicate, Hc. split_and!; auto.
Qed.

(** Every step of a run keeps [threshold_inv]. *)
Lemma run_step_threshold_inv r r' :
  run_step r r' -> threshold_inv r -> threshold_inv r'.
Proof.
  unfold threshold_inv.
  intros Hstep (Hn & Hq & Ho).
  destruct Hstep as
    [o i s s' Hthread
    |s c' Hcall
    |s Hnone
    |s Hsome
    |s p c' Hd
    |s p c' Hc
    |s Hd
    |s p await Hawait
    |s await Hev
    |s sd c1 await Hquiesce
    |s sd await reinit root title disk c3 c4 disk' Hev Hdestroy Hinit
    |s Hnone
    |s Hsome
    |s Hexited];
    cbn [run_system run_owner set_sys_cache sys_cache sys_threads] in *.
  - destruct (thread_step_threshold _ _ _ Hthread) as (E1 & E2 & E3 & E4).
    rewrite E1, E2, E3. split_and!; auto.
    + destruct Hq as [Hq|[Hq Hj]]; auto.
    + destruct o; auto.
  - destruct (cache_call_pool _ _ Hcall) as (E1 & E2 & E3).
    rewrite E1, E2. split_and!; auto.
    destruct Hq as [Hq|[Hq [Hj|Hj]]]; [auto| |discriminate].
    right. auto.
  - destruct (EndSubmission_request_flush_frame (sys_cache s)) as (-> & _).
    auto.
  - destruct (EndSubmission_request_flush_frame (sys_cache s)) as (-> & _).
    split_and!; auto.
    destruct Hq as [Hq|[Hq [Hj|Hj]]]; [auto|contradiction|discriminate].
  - unfold processor_dequeue in Hd.
    destruct (creation_queue_ (pool (sys_cache s))) as [|p' rest] eqn:E;
      [discriminate|]. injection Hd as -> <-. unfold_setters. cbn.
    split_and!; auto.
    destruct Hq as [Hq|[Hq _]]; [auto|discriminate].
  - unfold processor_create in Hc.
    destruct (pipeline_heap (sys_cache s) !! p); [|discriminate].
    injection Hc as <-. unfold_setters. cbn. split_and!; auto.
    destruct Hq as [Hq|[Hq [Hj|Hj]]]; [auto|auto|discriminate].
  - split_and!; auto.
    destruct Hq as [Hq|[Hq [Hj|Hj]]]; [auto|auto|discriminate].
  - unfold await_creation_completion in Hawait.
    injection Hawait as <- <-. unfold_setters. cbn [pool].
    destruct (negb _); cbn; split_and!; auto;
      (destruct Hq as [Hq|[Hq [Hj|Hj]]]; [auto|auto|discriminate]).
  - split_and!; auto.
    destruct Hq as [Hq|[Hq [Hj|Hj]]]; [auto|auto|discriminate].
  - assert (c1 = (ClearCache_quiesce (sys_cache s)).1) as ->
      by (rewrite Hquiesce; reflexivity).
    destruct (ClearCache_quiesce_keeps (sys_cache s)) as (_ & E1 & E2).
    destruct (ClearCache_quiesce_queue (sys_cache s)) as (E3 & E4).
    cbv zeta in E1, E2, E3, E4. rewrite E1, E2. split_and!; auto.
    destruct Hq as [Hq|[Hq [Hj|Hj]]]; [auto| |discriminate].
    right. split; [|auto]. rewrite E4; auto.
  - apply ClearCache_destroy_pool in Hdestroy.
    assert (creation_threads_ (pool c4) =
              creation_threads_ (pool (sys_cache s)) /\
            creation_threads_shutdown_from_ (pool c4) =
              creation_threads_shutdown_from_ (pool (sys_cache s)) /\
            (creation_queue_ (pool (sys_cache s)) = [] ->
             creation_queue_ (pool c4) = [])) as (E1 & E2 & E3).
    { destruct reinit.
      - destruct (InitializeShaderStorage_pool _ _ _ _ _ _ _ Hinit)
          as (E1 & E2 & E3). rewrite Hdestroy in E1, E2, E3.
        split_and!; auto. intros Hempty.
        destruct E3 as [E3|E3]; [exact E3|congruence].
      - injection Hinit as <- <-. rewrite Hdestroy. auto. }
    rewrite E1, E2. split_and!; auto.
    + destruct Hq as [Hq|[Hq [Hj|Hj]]]; [auto| |discriminate].
      right. auto.
    + destruct sd; auto.
  - split_and!; auto.
    destruct Hq as [Hq|[Hq [Hj|Hj]]]; [auto|auto|discriminate].
  - unfold shut_down_creation_threads. unfold_setters. cbn. split_and!; auto.
  - unfold_setters. cbn. split_and!; auto.
    destruct Hq as [Hq|[Hq _]]; [auto|]. right. auto.
Qed.

Lemma run_steps_threshold_inv r r' :
  rtc run_step r r' -> threshold_inv r -> threshold_inv r'.
Proof.
  induction 1 as [r|r r1 r2 Hstep _ IH]; intros Hinv; [exact Hinv|].
  apply IH. eapply run_step_threshold_inv; eauto.
Qed.

(** The calls as they are defined with the threads running in between are
    runs of the steps. *)
Lemma threads_run_steps o s s' :
  threads_run s s' -> rtc run_step (MkRun s o) (MkRun s' o).
Proof.
  induction 1 as [s|i s s1 s2 Hstep _ IH]; [constructor|].
  eapply rtc_l; [|exact IH]. apply (run_creation_thread o i s s1 Hstep).
Qed.

Lemma processor_creates_queued_steps s s' :
  processor_creates_queued s s' ->
  rtc run_step (MkRun s OwnerSubmitting) (MkRun s' OwnerSubmitted).
Proof.
  induction 1 as [s Hd|s p c1 s2 c3 s4 s5 Hd Hrun1 Hc Hrun2 _ IH].
  - apply rtc_once. apply (run_processor_break s Hd).
  - eapply rtc_l; [apply (run_processor_dequeue s p c1 Hd)|].
    eapply rtc_trans; [apply threads_run_steps, Hrun1|].
    eapply rtc_l; [apply (run_processor_create s2 p c3 Hc)|].
    eapply rtc_trans; [apply threads_run_steps, Hrun2|].
    exact IH.
Qed.

Lemma EndSubmission_run_steps s s' :
  EndSubmission_run s s' ->
  rtc run_step (MkRun s OwnerIdle) (MkRun s' OwnerIdle).
Proof.
  intros [Hnone|s0 s1 s2 p await s3 Hsome Hrun0 Hproc Hrun1 Hawait Hrun2 Hev].
  - apply rtc_once. apply (run_EndSubmission_without_threads s Hnone).
  - eapply rtc_l; [apply (run_EndSubmission_with_threads s Hsome)|].
    eapply rtc_trans; [apply threads_run_steps, Hrun0|].
    eapply rtc_trans; [apply processor_creates_queued_steps, Hproc|].
    eapply rtc_trans; [apply threads_run_steps, Hrun1|].
    eapply rtc_l; [apply (run_await_creation_completion s2 p await Hawait)|].
    eapply rtc_trans; [apply threads_run_steps, Hrun2|].
    apply rtc_once. apply (run_creation_completed s3 await Hev).
Qed.

Lemma ClearCache_run_steps shutting_down disk s s' disk' :
  ClearCache_run shutting_down disk s s' disk' ->
  rtc run_step (MkRun s OwnerIdle)
    (MkRun s' (if shutting_down then OwnerCleared else OwnerIdle)).
Proof.
  intros [c1 await s2 c3 c4 disk1 Hq Hrun Hev Hd Hinit].
  eapply rtc_l; [apply (run_ClearCache_quiesce s shutting_down c1 await Hq)|].
  eapply rtc_trans; [apply threads_run_steps, Hrun|].
  apply rtc_once.
  apply (run_ClearCache_destroy s2 shutting_down await _ _ _ disk c3 c4 disk1
           Hev Hd Hinit).
Qed.

Lemma Shutdown_run_steps disk s s' disk' :
  Shutdown_run disk s s' disk' ->
  rtc run_step (MkRun s OwnerIdle) (MkRun s' OwnerIdle).
Proof.
  intros [s1 disk1 Hclear Hnone|s1 disk1 s2 Hclear Hsome Hrun Hexited].
  - eapply rtc_trans; [apply (ClearCache_run_steps _ _ _ _ _ Hclear)|].
    apply rtc_once. apply (run_Shutdown_without_threads s1 Hnone).
  - eapply rtc_trans; [apply (ClearCache_run_steps _ _ _ _ _ Hclear)|].
    eapply rtc_l; [apply (run_Shutdown_with_threads s1 Hsome)|].
    eapply rtc_trans; [apply threads_run_steps, Hrun|].
    apply rtc_once. apply (run_Shutdown_joined s2 Hexited).
Qed.

Lemma system_step_steps s s' :
  system_step s s' -> rtc run_step (MkRun s OwnerIdle) (MkRun s' OwnerIdle).
Proof.
  intros [c' Hcall|i s1 Hstep|s1 Hend].
  - apply rtc_once. apply (run_cache_call s c' Hcall).
  - apply rtc_once. apply (run_creation_thread OwnerIdle i s s1 Hstep).
  - apply EndSubmission_run_steps, Hend.
Qed.

(** C7. In every run from [Initialize] - calls of the facade, loads of the
    storage, ends of submissions, [ClearCache] and [Shutdown], with the
    creation threads moving in between in any order - whenever the shutdown
    threshold is at or below the index of a creation thread, the creation
    queue is empty; and so a creation thread returns only from a state in
    which the queue is empty.  A thread at the head of its loop whose index
    is at or above the threshold does return at its next step.  The
    threshold is lowered by [Shutdown] alone, after [ClearCache] has
    emptied the queue under the lock, and from then on the owning thread,
    the only one that queues, waits for the creation threads to return. *)
Theorem creation_thread_returns_on_empty_queue :
  forall (r0 r : Run) (i : nat),
    run_initial r0 ->
    rtc run_step r0 r ->
    (is_Some (sys_threads (run_system r) !! i) ->
     creation_threads_shutdown_from_ (pool (sys_cache (run_system r))) <=
       Z.of_nat i ->
     creation_queue_ (pool (sys_cache (run_system r))) = []) /\
    (forall s',
       thread_step i (run_system r) = Some s' ->
       sys_threads s' !! i = Some Exited ->
       creation_threads_shutdown_from_ (pool (sys_cache (run_system r))) <=
         Z.of_nat i /\
       creation_queue_ (pool (sys_cache (run_system r))) = []) /\
    (sys_threads (run_system r) !! i = Some AtCheck ->
     creation_threads_shutdown_from_ (pool (sys_cache (run_system r))) <=
       Z.of_nat i ->
     exists s',
       thread_step i (run_system r) = Some s' /\
       sys_threads s' !! i = Some Exited /\
       creation_queue_ (pool (sys_cache s')) = []).
Proof.
  intros r0 r i Hinit Hrun.
  pose proof (run_steps_threshold_inv _ _ Hrun (threshold_inv_initial _ Hinit))
    as (Hn & Hq & _).
  assert (is_Some (sys_threads (run_system r) !! i) ->
          creation_threads_shutdown_from_ (pool (sys_cache (run_system r))) <=
            Z.of_nat i ->
          creation_queue_ (pool (sys_cache (run_system r))) = []) as Hempty.
  { intros Hi Hle. apply lookup_lt_is_Some in Hi.
    destruct Hq as [Hq|[Hq _]]; [|exact Hq]. lia. }
  split; [exact Hempty|]. split.
  - intros s' Hstep Hex.
    destruct (thread_step_returns _ _ _ Hstep Hex) as [Hpc Hle].
    split; [exact Hle|]. apply Hempty; [eauto|exact Hle].
  - intros Hpc Hle. pose proof (Hempty ltac:(eauto) Hle) as Hnil.
    pose proof (lookup_lt_Some _ _ _ Hpc) as Hlt.
    unfold thread_step. rewrite Hpc. cbn [mbind option_bind].
    unfold CreationThread_check. rewrite Hnil.
    apply Z.leb_le in Hle. rewrite Hle. eexists. split; [reflexivity|].
    cbn [sys_threads sys_cache]. split.
    + apply list_lookup_insert_eq, Hlt.
    + unfold signal_creation_completion. unfold_setters.
      destruct (_ && _); cbn; exact Hnil.
Qed.

End RunsOfTheCreationThreads.

(** ** The properties on the concrete host *)

Lemma Initialize_creation_thread_count_witness :
  Z.of_nat
    (length (creation_threads_
               (pool (@Initialize Session.E2 (new_PipelineCache false))))) =
  Z.min 2 8.
Proof.
  destruct (@Initialize_creation_thread_count Session.E2
              (new_PipelineCache false)
              ltac:(vm_compute; split; [discriminate|reflexivity])
              ltac:(vm_compute; split; [discriminate|reflexivity]))
    as (_ & _ & Hmin & _).
  exact (Hmin eq_refl).
Defined.

Lemma Session_writer_live p cntl :
  (p, cntl) ∈ storage_write_shader_queue_
                (storage (writer_cache Session.writer)) ->
  is_Some (shader_heap (writer_cache Session.writer) !! p).
Proof.
  intros H. vm_compute in H. apply list_elem_of_singleton in H.
  injection H as -> _. vm_compute. eauto.
Qed.

Lemma StorageWriteThread_writes_queues_in_order_witness :
  length (disk_read (writer_disk Session.written)
            (file_path Session.shader_file)) = 38%nat /\
  length (disk_read (writer_disk Session.written)
            (file_path Session.pipeline_state_file)) = 45%nat.
Proof.
  destruct (@StorageWriteThread_writes_queues_in_order Session.accessors
              Session.writer Session.shader_file Session.pipeline_state_file
              2%nat eq_refl eq_refl ltac:(discriminate) Session_writer_live
              ltac:(vm_compute; lia))
    as (w' & Hrun & Hs & Hp & _).
  assert (w' = Session.written) as ->.
  { unfold Session.written. rewrite Hrun. reflexivity. }
  rewrite Hs, Hp. vm_compute. split; reflexivity.
Defined.

Lemma StorageWriteThread_flush_deferred_witness :
  storage_write_flush_shaders_ (storage (writer_cache Session.writer)) = true /\
  writer_fflushed Session.written = [] /\
  flush_shaders Session.written = true.
Proof.
  destruct (@StorageWriteThread_flush_deferred Session.accessors
              Session.writer Session.shader_file Session.pipeline_state_file
              2%nat eq_refl eq_refl ltac:(discriminate) Session_writer_live
              ltac:(vm_compute; lia) eq_refl eq_refl)
    as (w' & Hrun & _ & _ & Hfl & _).
  assert (w' = Session.written) as ->.
  { unfold Session.written. rewrite Hrun. reflexivity. }
  split; [vm_compute; reflexivity|]. split; [exact Hfl|].
  vm_compute. reflexivity.
Defined.

Lemma Session_shader_storable :
  @storable_shader Session.E Session.accessors
    (new_D3D12Shader kVertex (Example.hash_of Example.ucode_good)
       Example.ucode_good).
Proof.
  unfold storable_shader.
  split; [vm_compute; reflexivity|].
  split; [vm_compute; reflexivity|].
  split; [vm_compute; split; [discriminate|reflexivity]|].
  split; [vm_compute; reflexivity|].
  split; [|vm_compute; reflexivity].
  repeat constructor; vm_compute; discriminate.
Qed.

Lemma written_shader_read_back_witness :
  exists st',
    @shader_storage_read Session.E
      (disk_read (writer_disk Session.written) (file_path Session.shader_file))
      (shader_load_start Example.cache0) = ReadNext st' /\
    shader_map_ (load_cache st') !! Example.hash_of Example.ucode_good =
      Some 1%nat.
Proof.
  destruct (@written_shader_read_back Session.E Session.accessors
              (new_D3D12Shader kVertex (Example.hash_of Example.ucode_good)
                 Example.ucode_good)
              0x10030002 Example.shader_stream_header []
              (shader_load_start Example.cache0)
              Session_shader_storable eq_refl
              ltac:(vm_compute; reflexivity))
    as (st' & h & Hread & _ & Hmap & _).
  exists st'. split; [|exact Hmap].
  rewrite <- Hread. vm_compute. reflexivity.
Defined.

Lemma written_shaders_reload_witness :
  let data := disk_read (writer_disk Session.written)
                (file_path Session.shader_file) in
  exists st,
    @load_shader_storage Session.E data Example.cache0 = Some (st, data) /\
    shaders_translated st = 1%nat.
Proof.
  destruct (@written_shaders_reload Session.E Session.accessors
              Session.writer Session.shader_file Session.pipeline_state_file
              Example.cache0 2%nat eq_refl eq_refl ltac:(discriminate)
              eq_refl ltac:(vm_compute; reflexivity))
    as (w' & st & Hrun & _ & Hload & Hcount).
  - intros p cntl H. vm_compute in H. apply list_elem_of_singleton in H.
    injection H as -> _.
    exists (set_translation
              (Example.translate
                 (new_D3D12Shader kVertex (Example.hash_of Example.ucode_good)
                    Example.ucode_good) kNone 0x10030002)
              (new_D3D12Shader kVertex (Example.hash_of Example.ucode_good)
                 Example.ucode_good)).
    split; [vm_compute; reflexivity|]. split; [|vm_compute; reflexivity].
    unfold storable_shader.
    split; [vm_compute; reflexivity|].
    split; [vm_compute; reflexivity|].
    split; [vm_compute; split; [discriminate|reflexivity]|].
    split; [vm_compute; reflexivity|].
    split; [|vm_compute; reflexivity].
    repeat constructor; vm_compute; discriminate.
  - vm_compute. repeat constructor. intros H. inversion H.
  - vm_compute. lia.
  - assert (w' = Session.written) as ->.
    { unfold Session.written. rewrite Hrun. reflexivity. }
    exists st. split; [exact Hload|exact Hcount].
Defined.

Lemma ConfigurePipeline_queues_storable_record_witness :
  exists stored,
    storage_write_pipeline_state_queue_ (storage Session.drawn) = [stored] /\
    @storable_pipeline_state Session.E stored.
Proof.
  destruct (@ConfigurePipeline_queues_storable_record Session.E Session.loaded
              (Example.draw 1%nat None false)
              (@zero_runtime_description Session.E)
              (Some (2%nat, Some 1)) Session.drawn
              (fun bs => XXH64_range bs 0)
              (fun _ _ _ => eq_refl)
              ltac:(vm_compute; reflexivity))
    as [[Hsame _]|(p & rs & st & _ & _ & Hstorable & _ & Hqueue)].
  - vm_compute in Hsame. discriminate.
  - eexists. split; [exact Hqueue|exact Hstorable].
Defined.

Lemma Session_drawn_queue_storable :
  Forall (@storable_pipeline_state Session.E)
    (storage_write_pipeline_state_queue_ (storage Session.drawn)).
Proof.
  assert (storage_write_pipeline_state_queue_ (storage Session.drawn) =
          [{| description_hash := 7285260959315838721;
              stored_description :=
                description (Scenario.draw_description false) |}]) as ->
    by (vm_compute; reflexivity).
  constructor; [|constructor]. unfold storable_pipeline_state.
  split; [vm_compute; reflexivity|].
  split; [vm_compute; split; [discriminate|reflexivity]|].
  vm_compute. reflexivity.
Qed.

Lemma written_pipeline_states_reload_witness :
  let data := disk_read (writer_disk Session.written)
                (file_path Session.pipeline_state_file) in
  exists c' created,
    @load_pipeline_state_storage Session.E false data Example.cache0 =
    Some (45%nat, c', created, data).
Proof.
  destruct (@written_pipeline_states_reload Session.E false Example.cache0
              Example.pipeline_stream_header
              (storage_write_pipeline_state_queue_ (storage Session.drawn))
              eq_refl ltac:(vm_compute; reflexivity))
    as (c' & created & Hload).
  - exact Session_drawn_queue_storable.
  - exact cache0_live.
  - exists c', created. exact Hload.
Defined.


Lemma shaders_untranslated_cache0 :
  @shaders_untranslated Example.cache0.
Proof. intros h p H. vm_compute in H. discriminate. Qed.

Lemma single_processor_storage_loads_nothing_translated_witness :
  is_Some (shader_map_ Session.reopened_single.1 !!
             Example.hash_of Example.ucode_good) /\
  translator_invocations Session.reopened_single.1 = 0%nat /\
  pipeline_states_ Session.reopened_single.1 = [].
Proof.
  destruct (@single_processor_storage_loads_nothing_translated Session.E1
              eq_refl "game" Session.title false (writer_disk Session.written)
              Example.cache0 Session.reopened_single.1
              Session.reopened_single.2
              ltac:(vm_compute; reflexivity)
              shaders_untranslated_cache0)
    as (Hinv & _ & Htable).
  split; [vm_compute; eauto|]. split; [exact Hinv|exact Htable].
Defined.

Lemma pool_inv_queued : pool_inv Session.queued.
Proof.
  split_and!.
  - vm_compute. reflexivity.
  - vm_compute. reflexivity.
  - intros H. vm_compute in H. discriminate.
Qed.

Lemma EndSubmission_run_taken :
  @EndSubmission_run Session.E2 Session.taken Session.taken_created.
Proof.
  apply (@EndSubmission_with_threads Session.E2 Session.taken
           Session.taken Session.taken Session.taken
           (await_creation_completion (pool (sys_cache Session.taken))).1
           true Session.taken_created).
  - vm_compute. discriminate.
  - apply (@run_schedule_threads_run Session.E2 []). vm_compute. reflexivity.
  - apply processor_queue_empty. vm_compute. reflexivity.
  - constructor.
  - vm_compute. reflexivity.
  - apply (@run_schedule_threads_run Session.E2 [0%nat; 0%nat; 0%nat]).
    vm_compute. reflexivity.
  - intros _. vm_compute. reflexivity.
Qed.

Lemma EndSubmission_run_queued :
  @EndSubmission_run Session.E2 Session.queued Session.queued_created.
Proof.
  apply (@EndSubmission_with_threads Session.E2 Session.queued
           Session.queued_flushed Session.queued_created
           Session.queued_created
           (pool (sys_cache Session.queued_created)) false
           Session.queued_created).
  - vm_compute. discriminate.
  - constructor.
  - eapply (@processor_round Session.E2 Session.queued_flushed 2%nat).
    + vm_compute. reflexivity.
    + constructor.
    + vm_compute. reflexivity.
    + constructor.
    + apply processor_queue_empty. vm_compute. reflexivity.
  - constructor.
  - vm_compute. reflexivity.
  - apply (@run_schedule_threads_run Session.E2 []). vm_compute. reflexivity.
  - discriminate.
Qed.

Lemma EndSubmission_leaves_nothing_creating_witness :
  IsCreatingPipelineStates (sys_cache Session.taken) = true /\
  IsCreatingPipelineStates (sys_cache Session.taken_created) = false.
Proof.
  destruct (@EndSubmission_leaves_nothing_creating Session.E2 Session.taken
              Session.taken_created pool_inv_busy EndSubmission_run_taken)
    as [Hidle _].
  split; [vm_compute; reflexivity|].
  apply (Hidle Session.taken_created). constructor.
Defined.

Lemma EndSubmission_creates_queued_witness :
  ~ @pipeline_state_created Session.E2 (sys_cache Session.queued) 2%nat /\
  @pipeline_state_created Session.E2 (sys_cache Session.queued_created) 2%nat.
Proof.
  split.
  - intros (st & Hst & Hc). vm_compute in Hst. injection Hst as <-.
    vm_compute in Hc. discriminate.
  - apply (@EndSubmission_creates_queued Session.E2 Session.queued
             Session.queued_created 2%nat pool_inv_queued
             EndSubmission_run_queued).
    left. left. vm_compute. left.
Defined.

Lemma Shutdown_run_taken :
  @Shutdown_run Session.E2 Scenario.disk0 Session.taken Session.shut_down
    Scenario.disk0.
Proof.
  apply (@Shutdown_with_threads Session.E2 Scenario.disk0 Session.taken
           Scenario.busy_cleared Scenario.disk0 Session.threads_returned).
  - exact ClearCache_run_busy.
  - vm_compute. discriminate.
  - apply (@run_schedule_threads_run Session.E2 [0%nat; 1%nat]).
    vm_compute. reflexivity.
  - vm_compute. repeat constructor.
Qed.

Lemma Shutdown_stops_everything_witness :
  creation_threads_ (pool (sys_cache Session.taken)) = [0; 1] /\
  creation_threads_ (pool (sys_cache Session.shut_down)) = [] /\
  sys_threads Session.shut_down = [Exited; Exited] /\
  shader_map_ (sys_cache Session.shut_down) = ∅.
Proof.
  destruct (@Shutdown_stops_everything Session.E2 Scenario.disk0 Scenario.disk0
              Session.taken Session.shut_down pool_inv_busy Shutdown_run_taken)
    as (Hthreads & _ & _ & _ & _ & _ & _ & Hmap & _).
  split; [vm_compute; reflexivity|]. split; [exact Hthreads|].
  split; [vm_compute; reflexivity|exact Hmap].
Defined.

Lemma ClearCache_dereferences_null_state_witness :
  ~ @ClearCache_run Session.E2 true Scenario.disk0 Session.queued
      Session.queued Scenario.disk0.
Proof.
  apply (@ClearCache_dereferences_null_state Session.E2 true Scenario.disk0
           Scenario.disk0 Session.queued Session.queued
           7285260959315838721 2%nat
           {| state := None;
              runtime_description := Scenario.draw_description false |}
           pool_inv_queued).
  - vm_compute. left.
  - vm_compute. reflexivity.
  - reflexivity.
  - intros [|[|i]] H; vm_compute in H; discriminate.
Defined.

Lemma table_inv_cache0 : @table_inv Session.E Example.cache0.
Proof.
  unfold table_inv. split_and!.
  - intros h p H. vm_compute in H. inversion H.
  - intros h1 p1 st1 h2 p2 st2 H. vm_compute in H. inversion H.
  - intros p [st H]. vm_compute in H. discriminate.
  - intros cur H. vm_compute in H. discriminate.
Qed.

Lemma InitializeShaderStorage_keeps_table_sound_witness :
  length (pipeline_states_ Session.reopened.1) = 1%nat /\
  @table_inv Session.E Session.reopened.1.
Proof.
  split; [vm_compute; reflexivity|].
  apply (@InitializeShaderStorage_keeps_table_sound Session.E
           "game" Session.title false (writer_disk Session.written)
           Example.cache0 Session.reopened.1 Session.reopened.2
           ltac:(vm_compute; reflexivity) table_inv_cache0).
Defined.

Lemma CreateD3D12PipelineState_stages_of_built_description_witness :
  exists rd,
    @GetCurrentStateDescription Session.E Session.drawn
      Session.line_patch_draw (@zero_runtime_description Session.E) =
      Some (true, rd) /\
    @CreateD3D12PipelineState_stages Session.accessors Session.drawn rd =
      Some None.
Proof.
  eexists. split; [vm_compute; reflexivity|].
  destruct (@CreateD3D12PipelineState_stages_of_built_description
              Session.E Session.accessors Session.drawn
              Session.line_patch_draw (@zero_runtime_description Session.E)
              _ Session.drawn _ _
              ltac:(vm_compute; reflexivity) ltac:(vm_compute; reflexivity))
    as (r & Hr & Hiff).
  rewrite Hr. f_equal. apply Hiff. right. left. split; reflexivity.
Defined.

Lemma storage_stream_reset_on_bad_header_witness :
  (exists st st' fresh,
     @load_shader_storage Session.E [] Example.cache0 = Some (st, fresh) /\
     load_cache st = Example.cache0 /\ length fresh = 8%nat /\
     @load_shader_storage Session.E fresh Example.cache0 =
       Some (st', fresh) /\
     load_cache st' = Example.cache0) /\
  (exists fresh,
     @load_pipeline_state_storage Session.E false [] Example.cache0 =
       Some (0%nat, Example.cache0, 0%nat, fresh) /\
     length fresh = 12%nat /\
     @load_pipeline_state_storage Session.E false fresh Example.cache0 =
       Some (12%nat, Example.cache0, 0%nat, fresh)).
Proof.
  destruct (@storage_stream_reset_on_bad_header Session.E false []
              Example.cache0
              ltac:(split; [vm_compute; discriminate|vm_compute; reflexivity])
              ltac:(split; [vm_compute; discriminate|vm_compute; reflexivity]))
    as [Hshaders Hpipeline_states].
  split; [apply Hshaders|apply Hpipeline_states]; reflexivity.
Defined.

Lemma shaders_live_cache0 : shaders_live Example.cache0.
Proof.
  split.
  - intros p [s H]. vm_compute in H. discriminate.
  - intros e st H. vm_compute in H. discriminate.
Qed.

Lemma pipeline_states_name_live_shaders_witness :
  length (pipeline_states_ Session.reopened.1) = 1%nat /\
  forall e st, pipeline_heap Session.reopened.1 !! e = Some st ->
    is_Some (@CreateD3D12PipelineState_stages Session.accessors
               Session.reopened.1 (runtime_description st)).
Proof.
  split; [vm_compute; reflexivity|].
  apply (@pipeline_states_name_live_shaders Session.E Session.accessors
           Example.cache0 Session.reopened.1 shaders_live_cache0).
  apply rtc_once.
  apply (@call_InitializeShaderStorage Session.E Example.cache0
           "game" Session.title false (writer_disk Session.written)
           Session.reopened.1 Session.reopened.2).
  vm_compute. reflexivity.
Defined.

Lemma shader_map_live_cache0 : shader_map_live Example.cache0.
Proof.
  split.
  - intros p [s H]. vm_compute in H. discriminate.
  - intros h p H. vm_compute in H. discriminate.
Qed.

Lemma InitializeShaderStorage_dereferences_live_objects_witness :
  exists c' disk',
    @InitializeShaderStorage Session.E "game" Session.title false
      (writer_disk Session.written) Example.cache0 = Some (c', disk') /\
    cache_live c' /\ shader_map_live c'.
Proof.
  destruct (@InitializeShaderStorage_dereferences_live_objects Session.E
              "game" Session.title false (writer_disk Session.written)
              Example.cache0 cache0_live shader_map_live_cache0)
    as [Hreturns|[Hthrows _]].
  - exact Hreturns.
  - vm_compute in Hthrows. discriminate.
Defined.

Lemma ConfigurePipeline_dereferences_live_objects_witness :
  exists r c',
    @ConfigurePipeline Scenario.E (Example.draw 1%nat None false)
      (@zero_runtime_description Scenario.E) Scenario.loaded = Some (r, c') /\
    @table_inv Scenario.E c' /\
    (shader_map_live Scenario.loaded -> shader_map_live c') /\
    (cache_live Scenario.loaded -> shader_map_live Scenario.loaded ->
     cache_live c').
Proof.
  apply (@ConfigurePipeline_dereferences_live_objects Scenario.E
           Scenario.loaded (Example.draw 1%nat None false)
           (@zero_runtime_description Scenario.E) table_inv_loaded).
  vm_compute. eauto.
Defined.

Lemma InitializeShaderStorage_queues_no_write_witness :
  length (pipeline_states_ Session.reopened.1) = 1%nat /\
  storage_write_shader_queue_ (storage Session.reopened.1) = [] /\
  storage_write_pipeline_state_queue_ (storage Session.reopened.1) = [].
Proof.
  split; [vm_compute; reflexivity|].
  apply (@InitializeShaderStorage_queues_no_write Session.E
           "game" Session.title false (writer_disk Session.written)
           Example.cache0 Session.reopened.1 Session.reopened.2).
  vm_compute. reflexivity.
Defined.

Lemma storage_files_consistent_cache0 :
  storage_files_consistent Example.cache0.
Proof. split; [split|]; intros [f H]; vm_compute in H; discriminate. Qed.

Lemma storage_write_thread_exists_while_files_open_witness :
  is_Some (shader_storage_file_ (storage Session.reopened.1)) /\
  storage_files_consistent Session.reopened.1.
Proof.
  split; [vm_compute; eauto|].
  apply (@storage_write_thread_exists_while_files_open Session.E
           Example.cache0 Session.reopened.1 storage_files_consistent_cache0).
  apply rtc_once.
  apply (@call_InitializeShaderStorage Session.E Example.cache0
           "game" Session.title false (writer_disk Session.written)
           Session.reopened.1 Session.reopened.2).
  vm_compute. reflexivity.
Defined.

Lemma replay_tessellated_as_drawn_witness :
  exists rd,
    @GetCurrentStateDescription Session.E Session.loaded
      Session.line_patch_draw (@zero_runtime_description Session.E) =
      Some (true, rd) /\
    negb (patch_type (description rd) =? PipelinePatchType.kNone) = true /\
    negb (tessellation_mode (description rd) =?
          PipelineTessellationMode.kNone) = true /\
    (primitive_topology_type (description rd) =?
     PipelinePrimitiveTopologyType.kPatch) = true.
Proof.
  eexists. split; [vm_compute; reflexivity|].
  apply (@replay_tessellated_as_drawn Session.E Session.loaded
           Session.line_patch_draw (@zero_runtime_description Session.E)).
  vm_compute. reflexivity.
Defined.

Lemma table_inv_threaded_loaded :
  @table_inv Scenario.E2 (sys_cache Threaded.loaded).
Proof.
  split_and!.
  - intros h p H. inversion H.
  - intros h1 p1 st1 h2 p2 st2 H. inversion H.
  - intros p [st H]. vm_compute in H. discriminate.
  - intros cur H. vm_compute in H. discriminate.
Qed.

Lemma run_schedule_system_steps `{ext : Externals} schedule : forall s s',
  run_schedule schedule s = Some s' -> rtc system_step s s'.
Proof.
  induction schedule as [|i schedule IH]; intros s s' H; cbn in H.
  - injection H as <-. constructor.
  - destruct (thread_step i s) as [s1|] eqn:Hs; [|discriminate].
    eapply rtc_l; [apply (step_creation_thread s i s1 Hs)|]. apply IH, H.
Qed.

(** After the first request, thread 0 takes the pipeline state from the
    queue, creates its object and counts itself out, and another draw is
    configured. *)
Lemma threaded_steps :
  rtc (@system_step Scenario.E2) Threaded.queued Threaded.configured_again.
Proof.
  eapply rtc_trans.
  - apply (@run_schedule_system_steps Scenario.E2 [0%nat; 0%nat; 0%nat]
             Threaded.queued Threaded.created).
    vm_compute. reflexivity.
  - apply rtc_once.
    apply (@step_cache_call Scenario.E2 Threaded.created
             (sys_cache Threaded.configured_again)).
    apply call_facade.
    apply (@facade_ConfigurePipeline Scenario.E2 (sys_cache Threaded.created)
             (Example.draw 1%nat None true)
             (@zero_runtime_description Scenario.E2)
             (Some (3%nat, Some 1))).
    vm_compute. reflexivity.
Qed.

Lemma ConfigurePipeline_same_description_same_entry_witness :
  creation_threads_ (pool (sys_cache Threaded.loaded)) = [0; 1] /\
  exists rs c3,
    @ConfigurePipeline Scenario.E2 (Example.draw 1%nat None false)
      (@zero_runtime_description Scenario.E2)
      (sys_cache Threaded.configured_again) =
    Some (Some (2%nat, rs), c3).
Proof.
  split; [vm_compute; reflexivity|].
  destruct (proj1 (@ConfigurePipeline_same_description_same_entry Scenario.E2
              Threaded.loaded Threaded.configured_again Scenario.queued
              (Example.draw 1%nat None false) (Example.draw 1%nat None false)
              (@zero_runtime_description Scenario.E2)
              (@zero_runtime_description Scenario.E2)
              (Scenario.draw_description false)
              (Scenario.draw_description false) 2%nat (Some 1)
              table_inv_threaded_loaded
              ltac:(vm_compute; reflexivity)
              ltac:(vm_compute; reflexivity)
              threaded_steps
              ltac:(vm_compute; reflexivity)) eq_refl)
    as (rs2 & c3 & H & _).
  exists rs2, c3. exact H.
Defined.

(** From [Initialize] to the loop of [Shutdown] that waits for the creation
    threads: a shader is loaded, a draw configured, thread 0 takes its
    pipeline state, and [Shutdown] clears the cache and lowers the
    threshold. *)
Lemma threaded_run_to_joining :
  rtc (@run_step Scenario.E2) (MkRun Threaded.initialized OwnerIdle)
    (MkRun Threaded.joining OwnerJoining).
Proof.
  eapply rtc_l.
  { apply (@run_cache_call Scenario.E2 Threaded.initialized
             (sys_cache Threaded.loaded)).
    apply call_facade.
    apply (@facade_LoadShader Scenario.E2 Example.cache2 kVertex 0
             Example.ucode_good). }
  eapply rtc_l.
  { apply (@run_cache_call Scenario.E2 Threaded.loaded Scenario.queued).
    apply call_facade.
    apply (@facade_ConfigurePipeline Scenario.E2 (sys_cache Threaded.loaded)
             (Example.draw 1%nat None false)
             (@zero_runtime_description Scenario.E2)
             (Some (2%nat, Some 1))).
    vm_compute. reflexivity. }
  eapply rtc_l.
  { apply (@run_creation_thread Scenario.E2 OwnerIdle 0%nat Threaded.queued
             Scenario.busy).
    vm_compute. reflexivity. }
  eapply rtc_trans.
  { apply (@ClearCache_run_steps Scenario.E2 true Scenario.disk0
             Scenario.busy Scenario.busy_cleared Scenario.disk0).
    exact ClearCache_run_busy. }
  apply rtc_once.
  apply (@run_Shutdown_with_threads Scenario.E2 Scenario.busy_cleared).
  vm_compute. discriminate.
Qed.

Lemma creation_thread_returns_on_empty_queue_witness :
  sys_threads Threaded.joining !! 1%nat = Some AtCheck /\
  sys_threads Threaded.joining_returned !! 1%nat = Some Exited /\
  creation_threads_shutdown_from_ (pool (sys_cache Threaded.joining)) <= 1 /\
  creation_queue_ (pool (sys_cache Threaded.joining)) = [].
Proof.
  split; [vm_compute; reflexivity|].
  split; [vm_compute; reflexivity|].
  refine (proj1 (proj2
            (@creation_thread_returns_on_empty_queue Scenario.E2
               (MkRun Threaded.initialized OwnerIdle)
               (MkRun Threaded.joining OwnerJoining) 1%nat _
               threaded_run_to_joining))
            Threaded.joining_returned _ _).
  - split; [reflexivity|]. exists (new_PipelineCache false).
    split; vm_compute; reflexivity.
  - vm_compute. reflexivity.
  - vm_compute. reflexivity.
Defined.
